(* ===== verification/_CoqProject ===== *)
-Q . S2P
Prelude.v
GoLib.v
Sha256.v
Json.v
GoText.v
GoTime.v
JsonText.v
JsonRound.v
Segment.v
GoFloat.v
Tx.v
Model.v
Message.v
SoopWire.v
SoopParse.v
Soop.v
SoopInv.v
SoopProps.v
Db.v
Ownership.v
Journal.v
Consumer.v
Archive.v
ArchiveInv.v
ArchivePage.v
ArchiveProps.v
JournalInv.v
JournalRun.v
OwnerRun.v
Store.v
OwnerInv.v
JournalTotal.v
JournalProps.v
Spool.v
SpoolInv.v
SpoolProps.v
Collection.v
CollectionProps.v
Query.v
QueryProps.v
Channels.v
ChannelsInv.v
ChannelsProps.v
History.v
Catalogue.v
Emitter.v
EmitterInv.v
Redis.v
ChatStream.v
LeaseInv.v
QueryServer.v
QueryServerProps.v
Election.v
ElectionInv.v
ElectionProps.v
Coordinator.v
AssignRun.v
HealthRun.v
CoordProps.v
OptOut.v
OptOutProps.v
Discover.v
DiscoverInv.v
DiscoverRun.v
DiscoverProps.v
PublicCursor.v
PublicHistory.v
PublicHistoryProps.v
ChatInv.v
ChatHeld.v
ChatWatch.v
ChatProps.v
BatchWriter.v
ChatSpool.v
ChatSpoolInv.v
ChatSpoolProps.v
PublicApi.v
PublicStream.v
Manager.v
ManagerProps.v
