(* ===== verification/Prelude.v ===== *)
(** * rogi-collector: verification development

    rogi-collector watches live broadcasts of streaming platforms and keeps
    what viewers say and give. The discover service lists the live channels,
    the coordinator assigns them to workers, a worker connects to each chat,
    publishes chat messages to Redis Streams, keeps donations in a durable
    journal and public chat in an archive, and the query service hands both to
    consumers. Everything is in PostgreSQL, Redis, ClickHouse, an S3 bucket
    and the workers' disks; the processes fail and restart at any time.

    ** Files and what they model

    Language and libraries. [Prelude] (machine integers, errors, the [result]
    monad, tactics), [GoLib], [GoText], [GoTime], [GoFloat] (strings, strconv,
    time, float64), [Sha256], [Json] and [JsonText] (encoding/json: trees, the
    encoder's bytes, the decoder with Go's partial results), [JsonRound]
    (reading back what was printed), [Tx] (the monad of database
    access: a committed database, the transaction's working copy, and an
    environment that makes any round trip fail, before the server did anything
    or after it did, and supplies clocks and ids).

    Data. [Model] (shared/model: platforms, donations), [Message] (chat
    messages), [Db] (the tables of shared/migrations, a finite map each).

    The journal of donations. [Ownership] (collection state and grants),
    [Journal] (append, retention, restore, maintenance) and [Consumer]
    (cursors, subscription, recovery, outbox) follow shared/store/collector.go,
    collector_maintenance.go and collector_consumer.go statement by statement.
    [JournalInv], [JournalRun], [OwnerInv], [OwnerRun],
    [JournalTotal] prove what each does; [Store] is every operation in one type
    and its runs; [JournalProps] has the properties.

    The worker. [SoopWire], [SoopParse], [Soop], [SoopInv], [SoopProps]: the
    SOOP connection (worker/internal/connector/soop.go) from the frames on.
    [Collection], [CollectionProps]: the session that holds a
    grant and saves the connector's donations (worker/internal/collection.go).
    [Spool], [SpoolInv], [SpoolProps]: the durable spool in front of the
    journal (pipeline/spool.go) over a directory that survives crashes.
    [ChatStream], [ChatInv], [ChatHeld], [ChatWatch], [ChatProps]: the
    publisher (pipeline/publisher.go, product_chat.go, dedup.lua), the buffer
    of the product (shared/store/collector_chat.go) and the stream of the query
    service (query/internal/collector_chat.go); [ChatHeld] is what any reader
    of the buffer shares: what it has held and what a read shows. [Manager], [ManagerProps]: the
    map of connections (worker/internal/manager.go), section by section
    between lock operations. [BatchWriter]: the rows for ClickHouse and the
    writer that batches and retries them (shared/store/ch_batch_writer.go),
    section by section too. [ChatSpool],
    [ChatSpoolInv]: the durable spool of public chats
    (pipeline/chat_archive.go), the bytes of its files and what a kill or a
    power loss leaves of them.

    Channels and their assignment. [Channels], [ChannelsInv], [ChannelsProps]
    (shared/store/postgres.go), [Redis] (shared/store/redis.go with its Lua
    scripts), [LeaseInv], [Election], [ElectionInv], [ElectionProps] (both
    electors), [Coordinator], [AssignRun], [HealthRun], [CoordProps]
    (coordinator/internal), [OptOut], [OptOutProps]
    (shared/store/collection_opt_out.go).

    The chat archive. [Segment] (query/archive/segment.go, down to the
    bytes), [Archive] (shared/store/postgres_chat_archive.go and
    query/archive), [ArchiveInv], [ArchivePage], [ArchiveProps]; in
    [ChatSpoolProps] the worker's spool meets it.

    Discovery and broadcast history. [Discover] (discover/internal/discover.go
    and discovery/registered.go, over an interface of the platform clients),
    [History] (history_store.go, postgres_history.go), [Emitter]
    (discover/internal/history/emitter.go: sessions and viewer counts);
    [EmitterInv], [DiscoverInv], [DiscoverRun] and [DiscoverProps] have what a
    cycle can end and what ClickHouse is handed.

    The query service. [Query], [QueryProps] (query/internal/collector.go).
    [Catalogue] (the columns that describe a broadcast and the queries over
    them, shared/store/postgres.go), [QueryServer] (query/internal/server.go:
    search, explore page, histories, administration, commands to workers) and
    [QueryServerProps]. The public API (query/publicapi): [PublicCursor] (base64 and signed cursors),
    [PublicHistory], [PublicHistoryProps] (history.go over the archive),
    [PublicApi] (server.go: rate limit, readiness, recent chats, the websocket
    stream) and [PublicStream] (what its subscribers can rely on).

    ** How a program becomes a definition

    An operation is one definition with the name of its Go method; a SQL
    statement or a Redis command inside it is a definition of its own, run by
    [tx_query], [tx_exec], [pool_query] or [pool_exec], so that every round
    trip can fail and a transaction publishes nothing before its commit. A
    commit, or a statement outside a transaction, whose answer is lost fails
    with the driver's error and its change made or not, as the environment
    has it ([applied]); [answered] is the hypothesis, where a theorem needs
    one, that no answer is lost. A call to the operating system ([sys_exec])
    that fails has done nothing. Long
    loops are given by one iteration ([watch_round], [chat_round], a timer
    event of an elector, a tick of the coordinator, a section of the manager),
    and the theorems quantify over every order of these steps with the steps
    of everything else. Integers of bounded width keep their range: [uint64]
    offsets wrap ([u64]), decoders refuse what the Go type cannot hold, the
    identity column of the archive ends at the last bigint. Errors are values:
    the sentinel errors, the driver's, and texts.

    Fuel is passed only where Go loops on data. The JSON parser gets twice the
    length of the text plus two (each step consumes a byte or closes a level),
    the segment decoder one more than the length (each row consumes a byte),
    the exporter's halving one more than the number of rows; that it suffices
    is part of [value_parses], [Decode_Build] and [soop_parse_total]. Everything
    else is structural.

    ** What the theorems show

    C1 to C5, C7 to C9, C11 and C12, the journal: the invariant of every
    reachable database, one open grant per channel, exactly-once append and
    its retry, contiguous reads, delivery of everything, justified retention,
    fencing by restore, audited recovery, and errors that are all or nothing:
    an error leaves the database as it was, unless it is the driver's and the
    answer lost is that of a change made whole. C6 and
    C10, discovery: a cycle ends only channels that are not among those found
    and admitted, after the lease was validated once more, the viewer
    intervals fit their columns and do not overlap. C13 and C15, the spools of
    donations and of chats: what was accepted survives kills and power losses
    until the journal or the archive has it. C14, C18 and C30, the archive:
    every chat in exactly one place, a reader of the public history that gets
    every chat once and in order whatever happens meanwhile, segments decode to
    their rows and damaged ones are refused. C16, the channel tables. C17, the
    writer of ClickHouse rows: what it accepted is inserted, under way or still
    held, in order. C19, the search of the live channels: for the limits its
    contract documents, its pages are the board it asks for, in its order. C20 to C23, election: scripts refine a
    lease, fencing tokens, leadership only while the lease is held. C24 to C28,
    the coordinator: pending channels assigned in order and skipped only for a
    failed call, draining workers emptied (C24 and C25 say what a lost answer
    may leave), the health tick, the debounce of events in one term of
    leadership, the clean-up. C29 and C31, opt-outs: the table, and the cache
    that a tick makes equal to it exactly when the read succeeds. C33 to C35, the SOOP frames and
    session. C36, C37: from a frame to the journal, and the deadline within the
    grant. C38: the donation stream. C39 and C32: gaps in the chat stream are
    announced, to the product's consumers and to the public's subscribers. C40,
    the worker's connection manager.

    A theorem with hypotheses has a witness that evaluates it on a concrete
    run. Hypotheses on code outside the repository are named where they are
    used: [gzip_laws] (decompressing what was compressed), canonical uuids,
    a server clock that does not run backwards, [SCAN] returning every key.
    [ILIKE] and the order of groups without an ORDER BY are parameters.

    ** Not modelled

    The platform clients of discovery (soop.go, chzzk.go, cime.go: HTTP and
    answers this repository does not define) and the goroutines, retries and
    pub/sub subscription around a discovery cycle; the history of several
    platforms through one emitter is modelled one cycle after another. Opening
    ClickHouse, the CHZZK and CIME connectors (SOOP is the collected platform and the one that
    carries donations), HTTP retries, the query service's
    diagnostics (admin_http.go), the coordinator's gRPC service and statistics, the worker's dispatcher and drain, metrics
    and probes, command mains, environment parsing, migrations, TLS and gRPC
    credentials. Logs and metrics are left out of everything. Dialling, TLS
    and HTTP requests of the connectors are the network's: a model starts from
    the response or the socket. Times in JSON are written in UTC; PostgreSQL's
    rounding of history times to microseconds is not modelled.
*)
From stdpp Require Export base gmap sets list strings sorting.
From Stdlib Require Export Ascii ZArith Lia.

#[export] Set Default Goal Selector "!".
Declare Scope collector_scope.
Delimit Scope collector_scope with C.
Open Scope Z_scope.

(** ** Machine integers

    Go's [uint64], [int64] and [uint32] are kept as [Z]; the wrap-around of
    an operation is written where the code performs it. *)

Definition u64_max : Z := 18446744073709551615.
Definition u64 (n : Z) : Z := n mod 18446744073709551616.
Definition u32 (n : Z) : Z := n mod 4294967296.
Definition i64 (n : Z) : Z :=
  (n + 9223372036854775808) mod 18446744073709551616 - 9223372036854775808.

Lemma u64_id n : 0 <= n <= u64_max -> u64 n = n.
Proof. unfold u64, u64_max. intros. apply Z.mod_small. lia. Qed.

Lemma u64_range n : 0 <= u64 n <= u64_max.
Proof. unfold u64, u64_max. pose proof (Z.mod_pos_bound n 18446744073709551616). lia. Qed.

Lemma u64_succ n : 0 <= n < u64_max -> u64 (n + 1) = n + 1.
Proof. intros. apply u64_id. unfold u64_max in *. lia. Qed.

Lemma i64_id n :
  -9223372036854775808 <= n <= 9223372036854775807 -> i64 n = n.
Proof. unfold i64. intros. rewrite Z.mod_small; lia. Qed.

(** ** Errors

    The sentinel errors of the Go packages, the two errors of the database
    driver the code tests for ([pgx.ErrNoRows], any other driver failure),
    context cancellation and [errors.New] texts. *)

Inductive error : Type :=
| ErrCollectionDisabled
| ErrOwner
| ErrGeneration
| ErrCursorExpired
| ErrCursor
| ErrRevision
| ErrConflict
| ErrJournalFull
| ErrNoRows
| ErrDriver
| ErrContext
| ErrMsg (text : string).

#[export] Instance error_eq_dec : EqDecision error.
Proof. solve_decision. Defined.

Inductive result (A : Type) : Type :=
| Ok (a : A)
| Err (e : error).
Arguments Ok {A} a.
Arguments Err {A} e.

#[export] Instance result_eq_dec {A} `{EqDecision A} : EqDecision (result A).
Proof. solve_decision. Defined.

#[export] Instance result_ret : MRet result := @Ok.
#[export] Instance result_bind : MBind result := fun A B k m =>
  match m with Ok a => k a | Err e => Err e end.

Definition is_ok {A} (r : result A) : bool :=
  match r with Ok _ => true | Err _ => false end.

(** [if err != nil { return err }] over an already computed option. *)
Definition of_option {A} (e : error) (o : option A) : result A :=
  match o with Some a => Ok a | None => Err e end.

(** An early return: [if c { return e }]. *)
Definition check (c : bool) (e : error) : result unit :=
  if c then Ok tt else Err e.

Lemma result_bind_ok {A B} (m : result A) (k : A -> result B) b :
  (m ≫= k) = Ok b <-> exists a, m = Ok a /\ k a = Ok b.
Proof. destruct m; cbn; split; naive_solver. Qed.

(** ** Automation *)

Create HintDb collector.

#[export] Hint Resolve u64_range : collector.

(** Splits conjunctions and existentials of the hypotheses. *)
Ltac destruct_ex :=
  repeat match goal with
  | H : exists _, _ |- _ => destruct H
  | H : _ /\ _ |- _ => destruct H
  end.

(** Closes first-order goals after one round of simplification. *)
Ltac crush :=
  intros; destruct_ex; simplify_eq/=; try done; try congruence; eauto 10.
Ltac crush_iff := split; crush.

(** Opens the matches and conditionals of hypothesis [H], closing the
    impossible branches. *)
Ltac open_match H :=
  repeat (match type of H with
          | context [match ?x with _ => _ end] =>
              let E := fresh "E" in destruct x eqn:E
          end; simpl in H; try discriminate H).

(** Turns boolean comparisons in the context into propositions. *)
Ltac b2p :=
  repeat match goal with
  | H : (_ && _)%bool = true |- _ => apply andb_true_iff in H; destruct H
  | H : (_ || _)%bool = false |- _ => apply orb_false_iff in H; destruct H
  | H : negb _ = true |- _ => apply negb_true_iff in H
  | H : negb _ = false |- _ => apply negb_false_iff in H
  | H : bool_decide _ = true |- _ => apply bool_decide_eq_true in H
  | H : bool_decide _ = false |- _ => apply bool_decide_eq_false in H
  | H : (_ <? _) = true |- _ => apply Z.ltb_lt in H
  | H : (_ <? _) = false |- _ => apply Z.ltb_ge in H
  | H : (_ <=? _) = true |- _ => apply Z.leb_le in H
  | H : (_ <=? _) = false |- _ => apply Z.leb_gt in H
  | H : (_ =? _) = true |- _ => apply Z.eqb_eq in H
  | H : (_ =? _) = false |- _ => apply Z.eqb_neq in H
  | H : String.eqb _ _ = true |- _ => apply String.eqb_eq in H
  | H : String.eqb _ _ = false |- _ => apply String.eqb_neq in H
  end.

(** ** Lists *)

(** [zseq a n] is [a; a+1; ...], [n] long. *)
Fixpoint zseq (a : Z) (n : nat) : list Z :=
  match n with O => [] | S n => a :: zseq (a + 1) n end.

Lemma zseq_length a n : length (zseq a n) = n.
Proof. revert a; induction n; simpl; auto. Qed.

Lemma elem_of_zseq a n x : x ∈ zseq a n <-> a <= x < a + Z.of_nat n.
Proof.
  revert a; induction n as [|n IH]; intros a; simpl.
  - rewrite elem_of_nil. lia.
  - rewrite elem_of_cons, IH. lia.
Qed.

Lemma lookup_zseq a n i x : zseq a n !! i = Some x -> x = a + Z.of_nat i /\ (i < n)%nat.
Proof.
  revert a i; induction n as [|n IH]; intros a [|i]; simpl; try done.
  - intros [= <-]. lia.
  - intros H. apply IH in H. lia.
Qed.

Lemma take_zseq a n m : take m (zseq a n) = zseq a (m `min` n).
Proof.
  revert a m; induction n as [|n IH]; intros a [|m]; simpl; auto.
  by rewrite IH.
Qed.

Lemma zseq_sorted a n : StronglySorted Z.lt (zseq a n).
Proof.
  revert a; induction n as [|n IH]; intros a; simpl; constructor; auto.
  apply Forall_forall. intros x Hx%elem_of_zseq. lia.
Qed.

(** Strictly increasing lists with the same elements are equal. *)
Lemma strictly_sorted_unique (l1 l2 : list Z) :
  StronglySorted Z.lt l1 -> StronglySorted Z.lt l2 ->
  (forall x, x ∈ l1 <-> x ∈ l2) -> l1 = l2.
Proof.
  intros H1; revert l2; induction H1 as [|x l1 H1 IH F1]; intros l2 H2 E.
  - destruct l2 as [|y l2]; [done|]. exfalso.
    apply (not_elem_of_nil y), E. set_solver.
  - destruct H2 as [|y l2 H2 F2].
    { exfalso. apply (not_elem_of_nil x), E. set_solver. }
    rewrite Forall_forall in F1, F2.
    assert (x = y) as ->.
    { assert (x ∈ y :: l2) as Hx by (apply E; set_solver).
      assert (y ∈ x :: l1) as Hy by (apply E; set_solver).
      apply elem_of_cons in Hx as [->|Hx]; [done|].
      apply elem_of_cons in Hy as [->|Hy]; [done|].
      specialize (F1 _ Hy). specialize (F2 _ Hx). lia. }
    f_equal. apply IH; [done|]. intros z.
    specialize (E z). rewrite !elem_of_cons in E.
    split; intros Hz.
    + destruct (proj1 E) as [->|]; [by right| |done]. specialize (F1 _ Hz). lia.
    + destruct (proj2 E) as [->|]; [by right| |done]. specialize (F2 _ Hz). lia.
Qed.

(** A strictly increasing list whose elements are exactly [(a, b]]. *)
Lemma sorted_interval (l : list Z) a b :
  StronglySorted Z.lt l -> a <= b ->
  (forall x, x ∈ l <-> a < x <= b) -> l = zseq (a + 1) (Z.to_nat (b - a)).
Proof.
  intros Hs Hab E. apply strictly_sorted_unique; [done|apply zseq_sorted|].
  intros x. rewrite E, elem_of_zseq. lia.
Qed.

Fixpoint sumZ {A} (f : A -> Z) (l : list A) : Z :=
  match l with [] => 0 | x :: l => f x + sumZ f l end.

Lemma sumZ_app {A} (f : A -> Z) l1 l2 : sumZ f (l1 ++ l2) = sumZ f l1 + sumZ f l2.
Proof. induction l1; simpl; lia. Qed.

Lemma sumZ_perm {A} (f : A -> Z) l1 l2 : l1 ≡ₚ l2 -> sumZ f l1 = sumZ f l2.
Proof. induction 1; simpl; lia. Qed.

Lemma sumZ_nonneg {A} (f : A -> Z) l : (forall x, 0 <= f x) -> 0 <= sumZ f l.
Proof. intros Hf. induction l; simpl; [lia|]. specialize (Hf a). lia. Qed.

