(* ===== verification/GoLib.v ===== *)
(** The parts of Go's standard library the program calls: [strings],
    [strconv] and [time], on [string] as Go's byte string, with the lemmas
    the components share. *)
From S2P Require Import Prelude.

(** ** strings *)

Definition lenZ (s : string) : Z := Z.of_nat (String.length s).

(** [s == ""] *)
Definition is_empty (s : string) : bool :=
  match s with EmptyString => true | _ => false end.

Fixpoint has_prefix (s p : string) : bool :=
  match p, s with
  | EmptyString, _ => true
  | String a p, String b s => Ascii.eqb a b && has_prefix s p
  | String _ _, EmptyString => false
  end.

Definition drop_str (n : nat) (s : string) : string :=
  String.substring n (String.length s - n) s.

Definition trim_prefix (s p : string) : string :=
  if has_prefix s p then drop_str (String.length p) s else s.

Definition has_suffix (s p : string) : bool :=
  (String.length p <=? String.length s)%nat &&
  String.eqb (drop_str (String.length s - String.length p) s) p.

Definition trim_suffix (s p : string) : string :=
  if has_suffix s p then String.substring 0 (String.length s - String.length p) s else s.

(** [strings.Split(s, sep)] for a one-byte separator. *)
Fixpoint split_on (c : Ascii.ascii) (s : string) : list string :=
  match s with
  | EmptyString => [EmptyString]
  | String a s =>
      if Ascii.eqb a c then EmptyString :: split_on c s
      else match split_on c s with
           | x :: l => String a x :: l
           | [] => [String a EmptyString]
           end
  end.

(** [strings.SplitN(s, sep, 2)], one-byte separator: the pieces around the
    first separator, [None] when there is none. *)
Fixpoint cut_on (c : Ascii.ascii) (s : string) : option (string * string) :=
  match s with
  | EmptyString => None
  | String a s =>
      if Ascii.eqb a c then Some (EmptyString, s)
      else match cut_on c s with
           | Some (x, y) => Some (String a x, y)
           | None => None
           end
  end.

(** [strings.Join] *)
Fixpoint join (sep : string) (l : list string) : string :=
  match l with
  | [] => EmptyString
  | [x] => x
  | x :: l => x +:+ sep +:+ join sep l
  end.

(** [strings.Contains(s, t)] *)
Fixpoint contains (s t : string) : bool :=
  has_prefix s t || match s with EmptyString => false | String _ s => contains s t end.

Definition is_space (c : Ascii.ascii) : bool :=
  let n := Ascii.nat_of_ascii c in
  (n =? 32)%nat || ((9 <=? n)%nat && (n <=? 13)%nat).

Fixpoint rev_string_acc (s acc : string) : string :=
  match s with EmptyString => acc | String c s => rev_string_acc s (String c acc) end.
Definition rev_str (s : string) : string := rev_string_acc s EmptyString.

(** The UTF-8 forms of the runes [unicode.IsSpace] accepts beyond ASCII:
    U+0085, U+00A0, U+1680, U+2000 to U+200A, U+2028, U+2029, U+202F,
    U+205F and U+3000. *)
Definition bytes_str (l : list nat) : string :=
  String.string_of_list_ascii (map Ascii.ascii_of_nat l).
Definition wide_spaces : list string :=
  map bytes_str
    ([[194; 133]; [194; 160]; [225; 154; 128]; [226; 129; 159]; [227; 128; 128]]
     ++ map (fun n => [226; 128; n])
          [128; 129; 130; 131; 132; 133; 134; 135; 136; 137; 138; 168; 169; 175])%nat.

(** Leading white space removed; [wide] are the forms of more than a byte. *)
Fixpoint trim_spaces (wide : list string) (fuel : nat) (s : string) : string :=
  match fuel, s with
  | S f, String c r =>
      if is_space c then trim_spaces wide f r
      else match find (has_prefix s) wide with
           | Some w => trim_spaces wide f (drop_str (String.length w) s)
           | None => s
           end
  | _, _ => s
  end.
Definition trim_left (s : string) : string := trim_spaces wide_spaces (String.length s) s.
Definition trim_right (s : string) : string :=
  rev_str (trim_spaces (map rev_str wide_spaces) (String.length s) (rev_str s)).

(** [strings.TrimSpace] *)
Definition trim_space (s : string) : string := trim_right (trim_left s).

Definition lower_ascii (c : Ascii.ascii) : Ascii.ascii :=
  let n := Ascii.nat_of_ascii c in
  if (65 <=? n)%nat && (n <=? 90)%nat then Ascii.ascii_of_nat (n + 32) else c.

(** [strings.ToLower], ASCII letters. *)
Fixpoint to_lower (s : string) : string :=
  match s with EmptyString => EmptyString | String c s => String (lower_ascii c) (to_lower s) end.

Fixpoint all_chars (p : Ascii.ascii -> bool) (s : string) : bool :=
  match s with EmptyString => true | String c s => p c && all_chars p s end.

(** ** strconv *)

Definition is_digit (c : Ascii.ascii) : bool :=
  let n := Ascii.nat_of_ascii c in (48 <=? n)%nat && (n <=? 57)%nat.
Definition digit_val (c : Ascii.ascii) : Z := Z.of_nat (Ascii.nat_of_ascii c) - 48.
Definition digit_chr (n : Z) : Ascii.ascii := Ascii.ascii_of_nat (Z.to_nat (n + 48)).

Fixpoint num_fuel (fuel : nat) (n : Z) (acc : string) : string :=
  match fuel with
  | O => acc
  | S f =>
      let acc := String (digit_chr (n mod 10)) acc in
      if n <? 10 then acc else num_fuel f (n / 10) acc
  end.

(** [strconv.FormatUint(n, 10)]; twenty digits hold every [uint64]. *)
Definition format_uint (n : Z) : string := num_fuel 20 n EmptyString.

(** [strconv.FormatInt(n, 10)] and [strconv.Itoa]. *)
Definition format_int (n : Z) : string :=
  if n <? 0 then String "045"%char (format_uint (- n)) else format_uint n.

Fixpoint parse_digits (acc : Z) (s : string) : option Z :=
  match s with
  | EmptyString => Some acc
  | String c s => if is_digit c then parse_digits (acc * 10 + digit_val c) s else None
  end.

(** [strconv.ParseUint(s, 10, 64)] *)
Definition parse_uint (s : string) : option Z :=
  if is_empty s then None
  else match parse_digits 0 s with
       | Some n => if n <=? u64_max then Some n else None
       | None => None
       end.

(** [strconv.ParseInt(s, 10, 64)] and [strconv.Atoi]. *)
Definition parse_int (s : string) : option Z :=
  let '(neg, body) :=
    match s with
    | String c r => if Ascii.eqb c "045"%char then (true, r)
                    else if Ascii.eqb c "043"%char then (false, r) else (false, s)
    | EmptyString => (false, s)
    end in
  if is_empty body then None
  else match parse_digits 0 body with
       | Some n =>
           if neg then (if n <=? 9223372036854775808 then Some (- n) else None)
           else (if n <=? 9223372036854775807 then Some n else None)
       | None => None
       end.

Fixpoint zeros (n : nat) : string :=
  match n with O => EmptyString | S n => String "048"%char (zeros n) end.

(** [fmt.Sprintf("%020d", n)] for [0 <= n]. *)
Definition pad20 (n : Z) : string :=
  let s := format_uint n in zeros (20 - String.length s) +:+ s.

(** ** time

    An instant is its nanoseconds since the Unix epoch, a duration its
    nanoseconds, as in Go. *)

Definition second : Z := 1000000000.
Definition minute : Z := 60 * second.
Definition hour : Z := 60 * minute.
Definition millisecond : Z := 1000000.

(** The zero [time.Time], 1 January of year 1. *)
Definition zero_time : Z := -62135596800 * second.
Definition is_zero_time (t : Z) : bool := t =? zero_time.

(** [t.Sub(u)] saturates at the bounds of a duration. *)
Definition time_sub (t u : Z) : Z :=
  Z.max (-9223372036854775808) (Z.min 9223372036854775807 (t - u)).

Definition unix_milli (t : Z) : Z := t / millisecond.

(** ** Lemmas *)

Lemma digit_chr_spec n : 0 <= n < 10 ->
  is_digit (digit_chr n) = true /\ digit_val (digit_chr n) = n.
Proof.
  intros. unfold is_digit, digit_val, digit_chr.
  rewrite Ascii.nat_ascii_embedding by lia.
  split; [apply andb_true_iff; split; apply Nat.leb_le; lia|lia].
Qed.

Lemma parse_num_fuel f n acc : 0 <= n < 10 ^ Z.of_nat f ->
  parse_digits 0 (num_fuel f n acc) = parse_digits n acc.
Proof.
  revert n acc; induction f as [|f IH]; intros n acc Hn; cbn [num_fuel].
  { rewrite Z.pow_0_r in Hn. f_equal; lia. }
  assert (0 <= n mod 10 < 10) as Hm by (apply Z.mod_pos_bound; lia).
  destruct (digit_chr_spec _ Hm) as [Hd Hv].
  destruct (n <? 10) eqn:E; b2p.
  - cbn [parse_digits]. rewrite Hd, Hv, Z.mod_small by lia. f_equal; lia.
  - rewrite IH.
    + cbn [parse_digits]. rewrite Hd, Hv. f_equal.
      pose proof (Z.div_mod n 10). lia.
    + rewrite Nat2Z.inj_succ, Z.pow_succ_r in Hn by lia.
      split; [apply Z.div_pos; lia|apply Z.div_lt_upper_bound; lia].
Qed.

Lemma num_fuel_nonempty f n acc : is_empty acc = false \/ f <> O ->
  is_empty (num_fuel f n acc) = false.
Proof.
  revert n acc; induction f as [|f IH]; intros n acc; cbn [num_fuel]; [naive_solver|].
  intros _. destruct (n <? 10); [done|]. apply IH. by left.
Qed.

Lemma parse_format_uint n : 0 <= n <= u64_max -> parse_uint (format_uint n) = Some n.
Proof.
  intros Hn. unfold parse_uint, format_uint.
  rewrite num_fuel_nonempty by (right; lia).
  rewrite parse_num_fuel by (unfold u64_max in Hn; lia). cbn [parse_digits].
  replace (n <=? u64_max) with true by (symmetry; apply Z.leb_le; lia). done.
Qed.

Lemma format_uint_inj n m : 0 <= n <= u64_max -> 0 <= m <= u64_max ->
  format_uint n = format_uint m -> n = m.
Proof.
  intros Hn Hm E. apply (f_equal parse_uint) in E.
  rewrite !parse_format_uint in E by done. congruence.
Qed.

Lemma parse_digits_nonneg s acc n : 0 <= acc -> parse_digits acc s = Some n -> 0 <= n.
Proof.
  revert acc; induction s as [|c s IH]; intros acc Ha; cbn [parse_digits].
  - intros [= <-]. done.
  - destruct (is_digit c) eqn:E; [|done]. apply IH.
    unfold is_digit in E. apply andb_true_iff in E as [E _].
    apply Nat.leb_le in E. unfold digit_val. lia.
Qed.

Lemma parse_uint_range s n : parse_uint s = Some n -> 0 <= n <= u64_max.
Proof.
  unfold parse_uint. destruct (is_empty s); [done|].
  destruct (parse_digits 0 s) eqn:E; [|done].
  destruct (_ <=? _) eqn:L; [|done]. intros [= <-]. b2p.
  split; [by eapply parse_digits_nonneg, E|done].
Qed.

Lemma is_empty_false s : is_empty s = false <-> s <> EmptyString.
Proof. by destruct s. Qed.

Lemma is_empty_true s : is_empty s = true <-> s = EmptyString.
Proof. by destruct s. Qed.

#[export] Hint Resolve parse_uint_range : collector.
