(* ===== verification/Sha256.v ===== *)
(** SHA-256 and HMAC-SHA-256 (Go's [crypto/sha256], [crypto/hmac]) and
    [encoding/hex], executable: checksums, content keys and public user ids
    of the program are evaluated with them. Words are 32-bit [Z]. *)
From S2P Require Import Prelude.

Module Sha256.

Definition byte_of (c : Ascii.ascii) : Z := Z.of_N (Ascii.N_of_ascii c).
Definition ascii_of (b : Z) : Ascii.ascii := Ascii.ascii_of_N (Z.to_N b).

Definition bytes_of (s : string) : list Z := map byte_of (String.list_ascii_of_string s).
Definition string_of (l : list Z) : string := String.string_of_list_ascii (map ascii_of l).

Definition rotr (n x : Z) : Z :=
  Z.lor (Z.shiftr x n) (u32 (Z.shiftl x (32 - n))).
Definition shr (n x : Z) : Z := Z.shiftr x n.
Definition not32 (x : Z) : Z := 4294967295 - x.

Definition ch (x y z : Z) := Z.lxor (Z.land x y) (Z.land (not32 x) z).
Definition maj (x y z : Z) :=
  Z.lxor (Z.lxor (Z.land x y) (Z.land x z)) (Z.land y z).
Definition bsig0 x := Z.lxor (Z.lxor (rotr 2 x) (rotr 13 x)) (rotr 22 x).
Definition bsig1 x := Z.lxor (Z.lxor (rotr 6 x) (rotr 11 x)) (rotr 25 x).
Definition ssig0 x := Z.lxor (Z.lxor (rotr 7 x) (rotr 18 x)) (shr 3 x).
Definition ssig1 x := Z.lxor (Z.lxor (rotr 17 x) (rotr 19 x)) (shr 10 x).

Definition k256 : list Z :=
  [1116352408; 1899447441; 3049323471; 3921009573; 961987163; 1508970993;
   2453635748; 2870763221; 3624381080; 310598401; 607225278; 1426881987;
   1925078388; 2162078206; 2614888103; 3248222580; 3835390401; 4022224774;
   264347078; 604807628; 770255983; 1249150122; 1555081692; 1996064986;
   2554220882; 2821834349; 2952996808; 3210313671; 3336571891; 3584528711;
   113926993; 338241895; 666307205; 773529912; 1294757372; 1396182291;
   1695183700; 1986661051; 2177026350; 2456956037; 2730485921; 2820302411;
   3259730800; 3345764771; 3516065817; 3600352804; 4094571909; 275423344;
   430227734; 506948616; 659060556; 883997877; 958139571; 1322822218;
   1537002063; 1747873779; 1955562222; 2024104815; 2227730452; 2361852424;
   2428436474; 2756734187; 3204031479; 3329325298].

Definition h256 : list Z :=
  [1779033703; 3144134277; 1013904242; 2773480762; 1359893119; 2600822924;
   528734635; 1541459225].

(** Message padding: one bit, zeros, the length in bits on eight bytes. *)
Fixpoint be_bytes (n : nat) (x : Z) : list Z :=
  match n with
  | O => []
  | S m => Z.shiftr x (8 * Z.of_nat m) mod 256 :: be_bytes m x
  end.

Definition pad (m : list Z) : list Z :=
  let len := Z.of_nat (length m) in
  m ++ [128] ++ replicate (Z.to_nat ((55 - len) mod 64)) 0 ++ be_bytes 8 (8 * len).

Fixpoint words (l : list Z) : list Z :=
  match l with
  | a :: b :: c :: d :: l =>
      a * 16777216 + b * 65536 + c * 256 + d :: words l
  | _ => []
  end.

(** The message schedule, newest word first. *)
Fixpoint schedule (fuel : nat) (w : list Z) : list Z :=
  match fuel with
  | O => w
  | S f =>
      let at_ k := nth k w 0 in
      schedule f
        (u32 (ssig1 (at_ 1%nat) + at_ 6%nat + ssig0 (at_ 14%nat) + at_ 15%nat) :: w)
  end.

Definition round (st : list Z) (kw : Z * Z) : list Z :=
  match st with
  | [a; b; c; d; e; f; g; h] =>
      let t1 := h + bsig1 e + ch e f g + fst kw + snd kw in
      let t2 := bsig0 a + maj a b c in
      [u32 (t1 + t2); a; b; c; u32 (d + t1); e; f; g]
  | _ => st
  end.

Definition compress (h : list Z) (block : list Z) : list Z :=
  let w := rev (schedule 48 (rev (words block))) in
  zip_with (fun a b => u32 (a + b)) h (fold_left round (zip k256 w) h).

Fixpoint blocks (fuel : nat) (h l : list Z) : list Z :=
  match fuel, l with
  | _, [] => h
  | O, _ => h
  | S f, _ => blocks f (compress h (take 64 l)) (drop 64 l)
  end.

Definition sum256_bytes (m : list Z) : list Z :=
  let p := pad m in
  flat_map (be_bytes 4) (blocks (length p) h256 p).

(** [sha256.Sum256] *)
Definition sum256 (m : string) : string := string_of (sum256_bytes (bytes_of m)).

Definition hex_digit (n : Z) : Ascii.ascii :=
  ascii_of (if n <? 10 then 48 + n else 87 + n).

(** [hex.EncodeToString] *)
Fixpoint hex (s : string) : string :=
  match s with
  | EmptyString => EmptyString
  | String c s =>
      String (hex_digit (byte_of c / 16)) (String (hex_digit (byte_of c mod 16)) (hex s))
  end.

(** [hmac.New(sha256.New, key)] then [Write]s of [m] and [Sum(nil)]. *)
Definition hmac256 (key m : string) : string :=
  let k := bytes_of key in
  let k := if (64 <? Z.of_nat (length k)) then sum256_bytes k else k in
  let k := k ++ replicate (64 - length k) 0 in
  let xor_with c := map (fun b => Z.lxor b c) k in
  string_of (sum256_bytes (xor_with 92 ++ sum256_bytes (xor_with 54 ++ bytes_of m))).

End Sha256.

(** [hex.EncodeToString] of [sha256.Sum256]. *)
Definition sum_hex (s : string) : string := Sha256.hex (Sha256.sum256 s).

Example sha256_abc :
  Sha256.hex (Sha256.sum256 "abc") =
  "ba7816bf8f01cfea414140de5dae2223b00361a396177a9cb410ff61f20015ad"%string.
Proof. vm_compute. reflexivity. Qed.

Example hmac256_rfc4231_2 :
  Sha256.hex (Sha256.hmac256 "Jefe" "what do ya want for nothing?") =
  "5bdcc146bf60754e6a042426089575c75a003f089d2739839dec58b964ec3843"%string.
Proof. vm_compute. reflexivity. Qed.

Lemma hex_length s : String.length (Sha256.hex s) = (2 * String.length s)%nat.
Proof. induction s; simpl; lia. Qed.
