(* ===== verification/Json.v ===== *)
(** [encoding/json]: JSON values as trees (what a [jsonb] column keeps),
    the coercion of Go strings to valid UTF-8, the bytes Go's encoder emits,
    and the field decoders of [json.Unmarshal]. *)
From S2P Require Import Prelude GoLib Sha256.

(** Numbers are integers: the program's durable records hold no others.
    [JTime] is the RFC 3339 text of an instant, kept as the instant. *)
Inductive json : Type :=
| JNull
| JBool (b : bool)
| JNum (n : Z)
| JStr (s : string)
| JTime (t : Z)
| JArr (l : list json)
| JObj (fields : list (string * json)).

(** ** UTF-8, as [utf8.DecodeRune] accepts it *)

Definition cont (b : Z) : bool := (128 <=? b) && (b <=? 191).

(** Length of the well-formed rune at the head of [l]; 0 when there is none. *)
Definition rune_len (l : list Z) : nat :=
  match l with
  | [] => 0%nat
  | a :: r =>
      if a <? 128 then 1%nat
      else match r with
      | b :: r2 =>
          if (194 <=? a) && (a <=? 223) then if cont b then 2%nat else 0%nat
          else match r2 with
          | c :: r3 =>
              if (224 <=? a) && (a <=? 239) then
                let lo := if a =? 224 then 160 else 128 in
                let hi := if a =? 237 then 159 else 191 in
                if (lo <=? b) && (b <=? hi) && cont c then 3%nat else 0%nat
              else match r3 with
              | d :: _ =>
                  if (240 <=? a) && (a <=? 244) then
                    let lo := if a =? 240 then 144 else 128 in
                    let hi := if a =? 244 then 143 else 191 in
                    if (lo <=? b) && (b <=? hi) && cont c && cont d then 4%nat else 0%nat
                  else 0%nat
              | [] => 0%nat
              end
          | [] => 0%nat
          end
      | [] => 0%nat
      end
  end.

Definition replacement : list Z := [239; 191; 189].

(** Invalid bytes become U+FFFD, one each. *)
Fixpoint coerce_bytes (fuel : nat) (l : list Z) : list Z :=
  match fuel, l with
  | _, [] => []
  | O, _ => []
  | S f, _ =>
      match rune_len l with
      | O => replacement ++ coerce_bytes f (drop 1 l)
      | n => take n l ++ coerce_bytes f (drop n l)
      end
  end.

Definition coerce (s : string) : string :=
  let l := Sha256.bytes_of s in Sha256.string_of (coerce_bytes (length l) l).

Fixpoint valid_bytes (fuel : nat) (l : list Z) : bool :=
  match fuel, l with
  | _, [] => true
  | O, _ => false
  | S f, _ => match rune_len l with O => false | n => valid_bytes f (drop n l) end
  end.

(** [utf8.ValidString] *)
Definition valid_utf8 (s : string) : bool :=
  let l := Sha256.bytes_of s in valid_bytes (length l) l.

(** ** Encoding *)

Definition quote : string := String "034"%char EmptyString.
Definition bslash : string := String "092"%char EmptyString.

Definition u_escape (b : Z) : string :=
  bslash +:+ "u00" +:+ Sha256.hex (String (Sha256.ascii_of b) EmptyString).

Definition escape_byte (b : Z) : string :=
  if (b =? 34) || (b =? 92) then bslash +:+ String (Sha256.ascii_of b) EmptyString
  else if b =? 8 then bslash +:+ "b"
  else if b =? 12 then bslash +:+ "f"
  else if b =? 10 then bslash +:+ "n"
  else if b =? 13 then bslash +:+ "r"
  else if b =? 9 then bslash +:+ "t"
  else if (b <? 32) || (b =? 60) || (b =? 62) || (b =? 38) then u_escape b
  else String (Sha256.ascii_of b) EmptyString.

(** U+2028 and U+2029 are escaped; [l] is already valid UTF-8. *)
Fixpoint escape_bytes (l : list Z) : string :=
  match l with
  | 226 :: 128 :: 168 :: l => bslash +:+ "u2028" +:+ escape_bytes l
  | 226 :: 128 :: 169 :: l => bslash +:+ "u2029" +:+ escape_bytes l
  | b :: l => escape_byte b +:+ escape_bytes l
  | [] => EmptyString
  end.

Definition json_string (s : string) : string :=
  quote +:+ escape_bytes (Sha256.bytes_of (coerce s)) +:+ quote.

(** Civil date of a day number (days since 1970-01-01). *)
Definition civil (z : Z) : Z * Z * Z :=
  let z := z + 719468 in
  let era := z / 146097 in
  let doe := z mod 146097 in
  let yoe := (doe - doe / 1460 + doe / 36524 - doe / 146096) / 365 in
  let doy := doe - (365 * yoe + yoe / 4 - yoe / 100) in
  let mp := (5 * doy + 2) / 153 in
  let d := doy - (153 * mp + 2) / 5 + 1 in
  let m := if mp <? 10 then mp + 3 else mp - 9 in
  (yoe + era * 400 + (if m <=? 2 then 1 else 0), m, d).

Definition padn (w : nat) (n : Z) : string :=
  let s := format_uint n in zeros (w - String.length s) +:+ s.

Fixpoint strip_zeros (s : string) : string :=
  match s with
  | EmptyString => EmptyString
  | String c r =>
      let r := strip_zeros r in
      if Ascii.eqb c "048"%char && is_empty r then EmptyString else String c r
  end.

(** [time.RFC3339Nano] of an instant in UTC. *)
Definition rfc3339 (t : Z) : string :=
  let secs := t / second in
  let '(y, m, d) := civil (secs / 86400) in
  let sod := secs mod 86400 in
  let frac := strip_zeros (padn 9 (t mod second)) in
  padn 4 y +:+ "-" +:+ padn 2 m +:+ "-" +:+ padn 2 d +:+ "T" +:+
  padn 2 (sod / 3600) +:+ ":" +:+ padn 2 (sod / 60 mod 60) +:+ ":" +:+ padn 2 (sod mod 60) +:+
  (if is_empty frac then EmptyString else "." +:+ frac) +:+ "Z".

(** The bytes [json.Marshal] returns for a tree built in field order. *)
Fixpoint render (j : json) : string :=
  match j with
  | JNull => "null"
  | JBool true => "true"
  | JBool false => "false"
  | JNum n => format_int n
  | JStr s => json_string s
  | JTime t => quote +:+ rfc3339 t +:+ quote
  | JArr l => "[" +:+ join "," (map render l) +:+ "]"
  | JObj fs =>
      "{" +:+ join "," (map (fun '(k, v) => json_string k +:+ ":" +:+ render v) fs) +:+ "}"
  end.

(** ** Decoding: the member of an object under a name *)

Definition field (j : json) (k : string) : option json :=
  match j with
  | JObj fs => match find (fun '(k', _) => String.eqb k k') fs with
               | Some (_, v) => Some v
               | None => None
               end
  | _ => None
  end.

(** PostgreSQL's [jsonb_set(j, '{k}', v)] on an object. *)
Definition set_field (j : json) (k : string) (v : json) : json :=
  match j with
  | JObj fs =>
      JObj (if existsb (fun '(k', _) => String.eqb k k') fs
            then map (fun '(k', x) => (k', if String.eqb k k' then v else x)) fs
            else fs ++ [(k, v)])
  | _ => j
  end.

(** A field decoder gets the destination's current value and keeps it when
    the member is absent or [null]; a member of the wrong type is an error. *)
Definition decode_with {A} (dec : json -> option A) (o : option json) (old : A) : option A :=
  match o with None | Some JNull => Some old | Some v => dec v end.

Definition dec_string (j : json) : option string :=
  match j with JStr s => Some s | JTime t => Some (rfc3339 t) | _ => None end.
Definition dec_time (j : json) : option Z := match j with JTime t => Some t | _ => None end.
Definition dec_bool (j : json) : option bool := match j with JBool b => Some b | _ => None end.
Definition dec_int (j : json) : option Z :=
  match j with
  | JNum n => if (-9223372036854775808 <=? n) && (n <=? 9223372036854775807) then Some n else None
  | _ => None
  end.
(** The [,string] option of an unsigned field. *)
Definition dec_uint_string (j : json) : option Z :=
  match j with JStr s => parse_uint s | _ => None end.
Definition dec_opt_string (j : json) : option (option string) :=
  match dec_string j with Some s => Some (Some s) | None => None end.
Definition dec_strings (j : json) : option (list string) :=
  match j with JArr l => mapM dec_string l | _ => None end.

Definition year_max : Z := 253402300800 * second.
(** [time.Time.MarshalJSON] refuses years outside 0..9999. *)
Definition marshalable_time (t : Z) : bool :=
  (-62167219200 * second <=? t) && (t <? year_max).

(** ** Lemmas *)

Lemma bytes_of_string_of_id s : Sha256.string_of (Sha256.bytes_of s) = s.
Proof.
  unfold Sha256.string_of, Sha256.bytes_of, Sha256.ascii_of, Sha256.byte_of.
  rewrite map_map, <- (String.string_of_list_ascii_of_string s) at 1.
  rewrite String.string_of_list_ascii_of_string. f_equal.
  erewrite map_ext; [rewrite map_id; apply String.string_of_list_ascii_of_string|].
  intros a. simpl. by rewrite N2Z.id, Ascii.ascii_N_embedding.
Qed.

Lemma coerce_bytes_valid f l :
  valid_bytes f l = true -> coerce_bytes f l = l.
Proof.
  revert l; induction f as [|f IH]; intros [|a l]; cbn [valid_bytes coerce_bytes]; try done.
  destruct (rune_len (a :: l)) as [|n]; [done|].
  intros H. by rewrite (IH _ H), firstn_skipn.
Qed.

(** Valid UTF-8 passes through the encoder's coercion unchanged. *)
Lemma coerce_valid s : valid_utf8 s = true -> coerce s = s.
Proof.
  unfold valid_utf8, coerce. intros H.
  by rewrite (coerce_bytes_valid _ _ H), bytes_of_string_of_id.
Qed.

#[export] Hint Rewrite coerce_valid using assumption : collector.

Example render_example :
  render (JObj [("a"%string, JArr [JNum (-3); JStr "x<y"; JNull]); ("t"%string, JTime (1700000000 * second + 5000000))]) =
  ("{" +:+ quote +:+ "a" +:+ quote +:+ ":[-3," +:+ quote +:+ "x" +:+ bslash +:+ "u003cy" +:+ quote
    +:+ ",null]," +:+ quote +:+ "t" +:+ quote +:+ ":" +:+ quote +:+ "2023-11-14T22:13:20.005Z" +:+ quote +:+ "}")%string.
Proof. vm_compute. reflexivity. Qed.
