(* ===== verification/GoText.v ===== *)
(** More of Go's strings: slices of a byte string with their run-time panic,
    [strings.ReplaceAll], fixed-width decimals, and the lemmas that let a
    text be parsed back from the pieces it was built of. *)
From S2P Require Import Prelude GoLib Json.

(** ** Slices *)

Fixpoint str_take (n : nat) (s : string) : string :=
  match n, s with
  | S n, String c s => String c (str_take n s)
  | _, _ => EmptyString
  end.
Fixpoint str_drop (n : nat) (s : string) : string :=
  match n, s with
  | S n, String _ s => str_drop n s
  | _, _ => s
  end.

(** [s[a:b]]; [None] is the run-time panic of bounds out of range. *)
Definition slice (s : string) (a b : Z) : option string :=
  if (0 <=? a) && (a <=? b) && (b <=? lenZ s)
  then Some (str_take (Z.to_nat (b - a)) (str_drop (Z.to_nat a) s)) else None.

(** [strings.ReplaceAll(s, c, "")] for a one-byte [c]. *)
Fixpoint remove_byte (c : Ascii.ascii) (s : string) : string :=
  match s with
  | EmptyString => EmptyString
  | String a s => if Ascii.eqb a c then remove_byte c s else String a (remove_byte c s)
  end.

Definition upper_ascii (c : Ascii.ascii) : Ascii.ascii :=
  let n := Ascii.nat_of_ascii c in
  if (97 <=? n)%nat && (n <=? 122)%nat then Ascii.ascii_of_nat (n - 32) else c.
(** [strings.ToUpper], ASCII letters. *)
Fixpoint to_upper (s : string) : string :=
  match s with EmptyString => EmptyString | String c s => String (upper_ascii c) (to_upper s) end.

(** [strings.Index(s, t)]: the offset of the first [t], [None] for -1. *)
Fixpoint str_index (s t : string) : option nat :=
  if has_prefix s t then Some 0%nat
  else match s with EmptyString => None | String _ s => S <$> str_index s t end.

Fixpoint concat_str (l : list string) : string :=
  match l with [] => EmptyString | s :: l => s +:+ concat_str l end.

(** ** Lemmas *)

#[local] Arguments String.append : simpl nomatch.

Lemma app_assoc_str (a b c : string) : (a +:+ b) +:+ c = a +:+ (b +:+ c).
Proof. induction a as [|x a IH]; simpl; congruence. Qed.

Lemma app_nil_str (a : string) : a +:+ EmptyString = a.
Proof. induction a as [|x a IH]; simpl; congruence. Qed.

Lemma app_length_str a b : String.length (a +:+ b) = (String.length a + String.length b)%nat.
Proof. induction a as [|x a IH]; simpl; congruence. Qed.

Lemma lenZ_app a b : lenZ (a +:+ b) = lenZ a + lenZ b.
Proof. unfold lenZ. rewrite app_length_str. lia. Qed.

Lemma lenZ_nonneg s : 0 <= lenZ s.
Proof. unfold lenZ. lia. Qed.

Lemma str_take_app a b : str_take (String.length a) (a +:+ b) = a.
Proof. induction a as [|x a IH]; simpl; [by destruct b|congruence]. Qed.

Lemma str_drop_app a b : str_drop (String.length a) (a +:+ b) = b.
Proof. induction a as [|x a IH]; simpl; [done|congruence]. Qed.

Lemma str_take_drop n s : str_take n s +:+ str_drop n s = s.
Proof. revert s; induction n as [|n IH]; intros [|c s]; simpl; f_equal; done. Qed.

Lemma str_drop_add m n s : str_drop n (str_drop m s) = str_drop (m + n) s.
Proof.
  revert s; induction m as [|m IH]; intros [|c s]; simpl; try done.
  by destruct n.
Qed.

Lemma length_str_drop n s : String.length (str_drop n s) = (String.length s - n)%nat.
Proof. revert s; induction n as [|n IH]; intros [|c s]; simpl; try lia. apply IH. Qed.

Lemma length_str_take n s : String.length (str_take n s) = (n `min` String.length s)%nat.
Proof. revert s; induction n as [|n IH]; intros [|c s]; simpl; try lia. by rewrite IH. Qed.

(** A slice between two pieces of a concatenation. *)
Lemma slice_app p m q : slice (p +:+ (m +:+ q)) (lenZ p) (lenZ p + lenZ m) = Some m.
Proof.
  unfold slice. rewrite !lenZ_app.
  replace (_ && _) with true.
  2: { symmetry. rewrite !andb_true_iff, !Z.leb_le.
       pose proof (lenZ_nonneg p). pose proof (lenZ_nonneg m). pose proof (lenZ_nonneg q). lia. }
  unfold lenZ. rewrite Nat2Z.id, str_drop_app.
  replace (Z.to_nat _) with (String.length m) by lia. by rewrite str_take_app.
Qed.

Lemma slice_length s a b x : slice s a b = Some x ->
  0 <= a <= b /\ b <= lenZ s /\ lenZ x = b - a.
Proof.
  unfold slice. destruct (_ && _) eqn:E; [|done]. b2p. intros [= <-].
  unfold lenZ in *. rewrite length_str_take, length_str_drop. lia.
Qed.

Lemma slice_prefix s n x : slice s 0 n = Some x -> s = x +:+ str_drop (Z.to_nat n) s.
Proof.
  unfold slice. destruct (_ && _) eqn:E; [|done]. intros [= <-].
  rewrite Z.sub_0_r. simpl (str_drop (Z.to_nat 0) s). by rewrite str_take_drop.
Qed.

Lemma has_prefix_app p s : has_prefix (p +:+ s) p = true.
Proof. induction p as [|c p IH]; simpl; [by destruct s|]. by rewrite Ascii.eqb_refl. Qed.

Lemma split_on_nonempty c s : split_on c s <> [].
Proof. destruct s as [|a s]; simpl; [done|]. destruct (Ascii.eqb a c); [done|]. by destruct (split_on c s). Qed.

Definition lacks (c : Ascii.ascii) (s : string) : bool := all_chars (fun a => negb (Ascii.eqb a c)) s.

Lemma split_on_lacks c s : lacks c s = true -> split_on c s = [s].
Proof.
  unfold lacks. induction s as [|a s IH]; simpl; [done|]. intros H. b2p.
  rewrite H, IH by done. done.
Qed.

Lemma split_on_app c s t : lacks c s = true ->
  split_on c (s +:+ String c t) = s :: split_on c t.
Proof.
  unfold lacks. induction s as [|a s IH]; simpl; [by rewrite Ascii.eqb_refl|].
  intros H. b2p. rewrite H, IH by done. done.
Qed.

(** Splitting undoes joining. *)
Lemma split_on_join c l : l <> [] -> forallb (lacks c) l = true ->
  split_on c (join (String c EmptyString) l) = l.
Proof.
  induction l as [|x l IH]; [done|]. intros _ H. cbn [forallb] in H. b2p.
  destruct l as [|y l].
  - by apply split_on_lacks.
  - change (join _ (x :: y :: l)) with (x +:+ String c (join (String c EmptyString) (y :: l))).
    rewrite split_on_app by done. f_equal. by apply IH.
Qed.

(** ** Fixed-width decimals *)

Definition all_digits : string -> bool := all_chars is_digit.

Lemma all_chars_app p a b : all_chars p (a +:+ b) = all_chars p a && all_chars p b.
Proof. induction a as [|c a IH]; simpl; [done|]. by rewrite IH, andb_assoc. Qed.

Lemma zeros_len n : String.length (zeros n) = n.
Proof. induction n as [|n IH]; simpl; congruence. Qed.

Lemma zeros_digits n : all_digits (zeros n) = true.
Proof. induction n as [|n IH]; [done|]. unfold all_digits in *. cbn. exact IH. Qed.

Lemma num_fuel_digits f n acc : 0 <= n -> all_digits acc = true ->
  all_digits (num_fuel f n acc) = true.
Proof.
  revert n acc; induction f as [|f IH]; intros n acc Hn Ha; cbn [num_fuel]; [done|].
  assert (all_digits (String (digit_chr (n mod 10)) acc) = true) as Hd.
  { unfold all_digits in *. simpl. rewrite Ha, andb_true_r.
    apply digit_chr_spec, Z.mod_pos_bound. lia. }
  destruct (n <? 10); [done|]. apply IH; [apply Z.div_pos; lia|done].
Qed.

Lemma format_uint_digits n : 0 <= n -> all_digits (format_uint n) = true.
Proof. intros. unfold format_uint. by apply num_fuel_digits. Qed.

Lemma num_fuel_len f n acc w : 0 <= n < 10 ^ Z.of_nat w -> (0 < w)%nat ->
  (String.length (num_fuel f n acc) <= w + String.length acc)%nat.
Proof.
  revert n acc w; induction f as [|f IH]; intros n acc w Hn Hw; cbn [num_fuel]; [lia|].
  destruct (n <? 10) eqn:E; b2p; [simpl; lia|].
  destruct w as [|[|w]]; [lia|simpl in Hn; lia|].
  rewrite Nat2Z.inj_succ, Z.pow_succ_r in Hn by lia.
  etrans; [apply (IH _ _ (S w))|simpl; lia]; [|lia].
  split; [apply Z.div_pos; lia|apply Z.div_lt_upper_bound; lia].
Qed.

Lemma padn_length w n : (0 < w)%nat -> 0 <= n < 10 ^ Z.of_nat w ->
  String.length (padn w n) = w.
Proof.
  intros Hw Hn. unfold padn. rewrite app_length_str, zeros_len.
  unfold format_uint. pose proof (num_fuel_len 20 n EmptyString w Hn Hw) as H.
  change (String.length EmptyString) with 0%nat in H. lia.
Qed.

Lemma parse_digits_zeros k s : parse_digits 0 (zeros k +:+ s) = parse_digits 0 s.
Proof. induction k as [|k IH]; [done|]. exact IH. Qed.

Lemma digit_not_sign c : is_digit c = true ->
  Ascii.eqb c "045"%char = false /\ Ascii.eqb c "043"%char = false.
Proof.
  intros H. split; apply Ascii.eqb_neq; intros ->; discriminate H.
Qed.

Lemma parse_int_digits s n : all_digits s = true -> is_empty s = false ->
  parse_digits 0 s = Some n -> n <= 9223372036854775807 -> parse_int s = Some n.
Proof.
  intros Hd He Hp Hn. unfold parse_int. destruct s as [|c s]; [done|].
  unfold all_digits in Hd. simpl in Hd. b2p.
  destruct (digit_not_sign c) as [-> ->]; [done|]. rewrite Hp. simpl.
  by replace (n <=? 9223372036854775807) with true by (symmetry; apply Z.leb_le; lia).
Qed.

(** [strconv.Atoi] reads back what [%0wd] printed. *)
Lemma parse_int_padn w n : 0 <= n <= 9223372036854775807 -> parse_int (padn w n) = Some n.
Proof.
  intros Hn. unfold padn. apply parse_int_digits; [| | |lia].
  - unfold all_digits. rewrite all_chars_app. fold all_digits.
    rewrite zeros_digits, format_uint_digits by lia. done.
  - destruct (zeros _); [|done]. apply num_fuel_nonempty. right. lia.
  - rewrite parse_digits_zeros. unfold format_uint.
    rewrite parse_num_fuel by lia. done.
Qed.

#[export] Hint Rewrite app_assoc_str app_nil_str lenZ_app : gostr.
