(* ===== verification/GoTime.v ===== *)
(** [time.Parse(time.RFC3339Nano, s)] of the Go standard library, in UTC:
    one or two digits of the hour, a fraction after a full stop or a comma of
    any length, a zone with up to 24 hours and 60 minutes. It reads back what
    RFC 3339 formatting printed, for every instant of the years 0 to 9999. *)
From S2P Require Import Prelude GoLib Json GoText.

(** The day number of a civil date (days since 1970-01-01). *)
Definition days_from_civil (y m d : Z) : Z :=
  let y := if m <=? 2 then y - 1 else y in
  let era := y / 400 in
  let yoe := y mod 400 in
  let mp := if m <=? 2 then m + 9 else m - 3 in
  let doy := (153 * mp + 2) / 5 + d - 1 in
  let doe := yoe * 365 + yoe / 4 - yoe / 100 + doy in
  era * 146097 + doe - 719468.

Definition leap (y : Z) : bool :=
  (y mod 4 =? 0) && (negb (y mod 100 =? 0) || (y mod 400 =? 0)).
Definition days_in (y m : Z) : Z :=
  if m =? 2 then if leap y then 29 else 28
  else if (m =? 4) || (m =? 6) || (m =? 9) || (m =? 11) then 30 else 31.

(** ** The parts of a layout, each taking text off the front *)

Definition digits2 (s : string) : option (Z * string) :=
  match s with
  | String a (String b r) =>
      if is_digit a && is_digit b then Some (10 * digit_val a + digit_val b, r) else None
  | _ => None
  end.

(** [getnum(s, false)] *)
Definition digits12 (s : string) : option (Z * string) :=
  match s with
  | String a r =>
      if is_digit a then
        match r with
        | String b r' => if is_digit b then Some (10 * digit_val a + digit_val b, r')
                         else Some (digit_val a, r)
        | EmptyString => Some (digit_val a, r)
        end
      else None
  | EmptyString => None
  end.

Definition year4 (s : string) : option (Z * string) :=
  '(a, r) ← digits2 s; '(b, r) ← digits2 r; Some (100 * a + b, r).

Definition skip (c : Ascii.ascii) (s : string) : option string :=
  match s with
  | String x r => if Ascii.eqb x c then Some r else None
  | EmptyString => None
  end.

(** The leading digits; the rest. *)
Fixpoint take_digits (s : string) : string * string :=
  match s with
  | String c r => if is_digit c then let '(d, r) := take_digits r in (String c d, r)
                  else (EmptyString, s)
  | EmptyString => (EmptyString, EmptyString)
  end.

(** Nine digits count; a shorter fraction is scaled. *)
Definition nanoseconds (digits : string) : Z :=
  let d := str_take 9 digits in
  default 0 (parse_digits 0 (d +:+ zeros (9 - String.length d))).

Definition fraction (s : string) : Z * string :=
  match s with
  | String c r =>
      if Ascii.eqb c "."%char || Ascii.eqb c ","%char then
        let '(d, r') := take_digits r in
        if is_empty d then (0, s) else (nanoseconds d, r')
      else (0, s)
  | EmptyString => (0, s)
  end.

(** The offset from UTC in seconds. *)
Definition zone (s : string) : option (Z * string) :=
  match s with
  | String c r =>
      if Ascii.eqb c "Z"%char then Some (0, r)
      else if Ascii.eqb c "+"%char || Ascii.eqb c "-"%char then
        '(h, r) ← digits2 r; r ← skip ":" r; '(m, r) ← digits2 r;
        if (h <=? 24) && (m <=? 60)
        then Some ((if Ascii.eqb c "-"%char then -1 else 1) * (3600 * h + 60 * m), r) else None
      else None
  | EmptyString => None
  end.

Definition parse_rfc3339 (s : string) : option Z :=
  '(y, r) ← year4 s; r ← skip "-" r;
  '(mo, r) ← digits2 r; r ← skip "-" r;
  '(d, r) ← digits2 r; r ← skip "T" r;
  '(h, r) ← digits12 r; r ← skip ":" r;
  '(mi, r) ← digits2 r; r ← skip ":" r;
  '(se, r) ← digits2 r;
  let '(ns, r) := fraction r in
  '(off, r) ← zone r;
  if is_empty r && (1 <=? mo) && (mo <=? 12) && (1 <=? d) && (d <=? days_in y mo)
     && (h <? 24) && (mi <? 60) && (se <? 60)
  then Some ((days_from_civil y mo d * 86400 + 3600 * h + 60 * mi + se - off) * second + ns)
  else None.

Example parse_plain : parse_rfc3339 "2024-02-29T23:59:59.5Z" = Some 1709251199500000000.
Proof. vm_compute. reflexivity. Qed.
Example parse_offset : parse_rfc3339 "2024-03-01T08:59:59.123456789123+09:00" = Some 1709251199123456789.
Proof. vm_compute. reflexivity. Qed.
Example parse_no_date : parse_rfc3339 "2023-02-29T00:00:00Z" = None.
Proof. vm_compute. reflexivity. Qed.
Example parse_print : parse_rfc3339 (rfc3339 1709251199123456789) = Some 1709251199123456789.
Proof. vm_compute. reflexivity. Qed.

(** ** The calendar of one 400-year era *)

(** The first day of year [y] of an era, its years starting in March. *)
Definition year_start (y : Z) : Z := 365 * y + y / 4 - y / 100.
(** The year of a day of the era, as [civil] computes it. *)
Definition year_of (doe : Z) : Z := (doe - doe / 1460 + doe / 36524 - doe / 146096) / 365.

Definition year_table (y : Z) : bool :=
  (year_of (year_start y) =? y)
  && (year_of ((if y =? 399 then 146097 else year_start (y + 1)) - 1) =? y)
  && (let days := (if y =? 399 then 146097 else year_start (y + 1)) - year_start y in
      (days =? 365) || (days =? 366) && leap (y + 1)).

Lemma year_table_ok : forallb year_table (zseq 0 400) = true.
Proof. vm_compute. reflexivity. Qed.

Lemma year_table_at y : 0 <= y < 400 -> year_table y = true.
Proof.
  intros Hy. pose proof year_table_ok as H. rewrite forallb_forall in H.
  apply H, list_elem_of_In, elem_of_zseq. lia.
Qed.

Lemma year_of_mono a b : 0 <= a <= b -> b < 146097 -> year_of a <= year_of b.
Proof.
  intros Hab Hb. unfold year_of. apply Z.div_le_mono; [lia|].
  assert (a - a / 1460 <= b - b / 1460) by (Z.div_mod_to_equations; lia).
  assert (a / 36524 - a / 146096 <= b / 36524 - b / 146096) by (Z.div_mod_to_equations; lia).
  lia.
Qed.

Lemma year_of_range doe : 0 <= doe < 146097 -> 0 <= year_of doe < 400.
Proof.
  intros H. pose proof (year_of_mono 0 doe). pose proof (year_of_mono doe 146096).
  change (year_of 0) with 0 in *. change (year_of 146096) with 399 in *. lia.
Qed.

(** A day falls in the year computed for it. *)
Lemma year_bounds doe : 0 <= doe < 146097 ->
  let y := year_of doe in
  year_start y <= doe /\ doe - year_start y <= 365 /\ (doe - year_start y = 365 -> leap (y + 1) = true).
Proof.
  intros H y. pose proof (year_of_range doe H) as Hy. fold y in Hy.
  pose proof (year_table_at y Hy) as T. unfold year_table in T. b2p.
  assert (0 <= year_start y) as Hs by (unfold year_start; Z.div_mod_to_equations; lia).
  assert (year_start y <= doe) as Y1.
  { destruct (decide (year_start y <= doe)) as [|Hn]; [done|]. exfalso.
    assert (0 < y) by (destruct (decide (y = 0)) as [E|]; [rewrite E in Hn; change (year_start 0) with 0 in Hn; lia|lia]).
    pose proof (year_table_at (y - 1) ltac:(lia)) as T'. unfold year_table in T'. b2p.
    replace (y - 1 =? 399) with false in * by (symmetry; apply Z.eqb_neq; lia).
    replace (y - 1 + 1) with y in * by lia.
    pose proof (year_of_mono doe (year_start y - 1)).
    assert (year_start y < 146097) by (unfold year_start; Z.div_mod_to_equations; lia).
    subst y. lia. }
  assert (doe < if y =? 399 then 146097 else year_start (y + 1)) as Y2.
  { destruct (y =? 399) eqn:E; [lia|]. b2p.
    destruct (decide (doe < year_start (y + 1))) as [|Hn]; [done|]. exfalso.
    pose proof (year_table_at (y + 1) ltac:(lia)) as T'. unfold year_table in T'. b2p.
    assert (0 <= year_start (y + 1)) by (unfold year_start; Z.div_mod_to_equations; lia).
    pose proof (year_of_mono (year_start (y + 1)) doe). subst y. lia. }
  split; [done|].
  match goal with T : (_ || _)%bool = true |- _ => apply orb_true_iff in T as [T|T] end;
    b2p; (split; [lia|intros ?; first [lia|done]]).
Qed.

(** ** Months *)

Definition month_day (doy : Z) : Z * Z :=
  let mp := (5 * doy + 2) / 153 in (mp, doy - (153 * mp + 2) / 5 + 1).

Definition month_table (doy : Z) : bool :=
  let '(mp, d) := month_day doy in
  let m := if mp <? 10 then mp + 3 else mp - 9 in
  (1 <=? m) && (m <=? 12) && (1 <=? d)
  && (if m <=? 2 then m + 9 =? mp else m - 3 =? mp)
  && (if m =? 2 then (d <=? 28) || ((d =? 29) && (doy =? 365))
      else d <=? (if (m =? 4) || (m =? 6) || (m =? 9) || (m =? 11) then 30 else 31)).

Lemma month_table_at doy : 0 <= doy <= 365 -> month_table doy = true.
Proof.
  intros H. assert (forallb month_table (zseq 0 366) = true) as T by (vm_compute; reflexivity).
  rewrite forallb_forall in T. apply T, list_elem_of_In, elem_of_zseq. lia.
Qed.

Lemma leap_era y era : leap (y + era * 400) = leap y.
Proof.
  unfold leap.
  assert (forall k n, 400 = k * n -> (y + era * 400) mod n = y mod n) as E.
  { intros k n ->. rewrite Z.mul_assoc. apply Z_mod_plus_full. }
  by rewrite (E 100 4), (E 4 100), (E 1 400).
Qed.

Lemma civil_spec z : let '(y, m, d) := civil z in
  1 <= m <= 12 /\ 1 <= d <= days_in y m /\ days_from_civil y m d = z.
Proof.
  unfold civil. set (n := z + 719468). cbv zeta.
  fold (year_of (n mod 146097)). set (doe := n mod 146097). set (era := n / 146097).
  assert (n = era * 146097 + doe) as En by (subst era doe; pose proof (Z.div_mod n 146097); lia).
  assert (0 <= doe < 146097) as Hdoe by (apply Z.mod_pos_bound; lia).
  pose proof (year_bounds doe Hdoe) as (B1 & B2 & B3). pose proof (year_of_range doe Hdoe) as By.
  set (yoe := year_of doe) in *.
  change (365 * yoe + yoe / 4 - yoe / 100) with (year_start yoe).
  set (doy := doe - year_start yoe) in *.
  pose proof (month_table_at doy ltac:(lia)) as T. unfold month_table, month_day in T. cbv zeta beta iota in T.
  set (mp := (5 * doy + 2) / 153) in *. set (d := doy - (153 * mp + 2) / 5 + 1) in *.
  set (m := if mp <? 10 then mp + 3 else mp - 9) in *.
  b2p. split; [lia|].
  assert (1 <= d <= days_in (yoe + era * 400 + (if m <=? 2 then 1 else 0)) m) as Hd.
  { split; [lia|]. unfold days_in.
    match goal with T : (if m =? 2 then _ else _) = true |- _ => revert T end.
    destruct (m =? 2) eqn:Em;
      [|destruct ((m =? 4) || (m =? 6) || (m =? 9) || (m =? 11)); intros T; b2p; lia].
    intros T.
    apply orb_true_iff in T as [T|T]; b2p.
    - etrans; [exact T|].
      destruct (leap (yoe + era * 400 + (if m <=? 2 then 1 else 0))); lia.
    - rewrite Em. change (2 <=? 2) with true. cbv iota.
      replace (yoe + era * 400 + 1) with (yoe + 1 + era * 400) by lia.
      rewrite leap_era, B3 by lia. lia. }
  split; [done|]. unfold days_from_civil.
  assert ((if m <=? 2 then yoe + era * 400 + (if m <=? 2 then 1 else 0) - 1
           else yoe + era * 400 + (if m <=? 2 then 1 else 0)) = yoe + era * 400) as Ey
    by (destruct (m <=? 2); lia).
  rewrite Ey.
  assert ((if m <=? 2 then m + 9 else m - 3) = mp) as Em by (destruct (m <=? 2); b2p; lia).
  rewrite Em, Z.div_add, Z_mod_plus_full, (Z.div_small yoe), (Z.mod_small yoe) by lia.
  unfold year_start in *. subst doy. lia.
Qed.

(** ** Fixed-width decimals, digit by digit *)

Fixpoint dig (w : nat) (n : Z) : string :=
  match w with
  | O => EmptyString
  | S w => dig w (n / 10) +:+ String (digit_chr (n mod 10)) EmptyString
  end.

Lemma zeros_snoc w : zeros w +:+ zeros 1 = zeros (S w).
Proof. induction w as [|w IH]; [done|]. change (String "048" (zeros w +:+ zeros 1) = String "048" (zeros (S w))). by rewrite IH. Qed.

Lemma dig_zero w : dig w 0 = zeros w.
Proof.
  induction w as [|w IH]; [done|]. cbn [dig]. change (0 / 10) with 0. rewrite IH.
  change (String (digit_chr (0 mod 10)) EmptyString) with (zeros 1). apply zeros_snoc.
Qed.

Lemma num_fuel_acc f n acc : num_fuel f n acc = num_fuel f n EmptyString +:+ acc.
Proof.
  revert n acc; induction f as [|f IH]; intros n acc; cbn [num_fuel]; [done|].
  destruct (n <? 10); [done|].
  rewrite IH, (IH _ (String _ EmptyString)), app_assoc_str. done.
Qed.

Lemma div10_bound n k : 0 <= n < 10 ^ Z.of_nat (S k) -> 0 <= n / 10 < 10 ^ Z.of_nat k.
Proof.
  rewrite Nat2Z.inj_succ, Z.pow_succ_r by lia. intros H.
  split; [apply Z.div_pos; lia|apply Z.div_lt_upper_bound; lia].
Qed.

Lemma pad_dig f w n : (0 < w)%nat -> (w <= f)%nat -> 0 <= n < 10 ^ Z.of_nat w ->
  let s := num_fuel f n EmptyString in zeros (w - String.length s) +:+ s = dig w n.
Proof.
  revert f n; induction w as [|w IH]; intros f n Hw Hf Hn; [lia|]. cbv zeta.
  destruct f as [|f]; [lia|]. cbn [num_fuel dig].
  destruct (n <? 10) eqn:E; b2p.
  - rewrite (Z.div_small n), dig_zero by lia. f_equal. f_equal. simpl. lia.
  - assert (0 < w)%nat as Hw'.
    { destruct w; [|lia]. change (10 ^ Z.of_nat 1) with 10 in Hn. lia. }
    rewrite num_fuel_acc, <- app_assoc_str. f_equal.
    rewrite <- (IH f) by (first [lia|by apply div10_bound]). cbv zeta. f_equal. f_equal.
    rewrite app_length_str. change (String.length (String _ _)) with 1%nat. lia.
Qed.

Lemma padn_dig w n : (0 < w <= 20)%nat -> 0 <= n < 10 ^ Z.of_nat w -> padn w n = dig w n.
Proof. intros [Hw Hf] Hn. unfold padn, format_uint. by apply (pad_dig 20 w n). Qed.

Lemma parse_padn w n : 0 <= n < 10 ^ 20 -> parse_digits 0 (padn w n) = Some n.
Proof.
  intros Hn. unfold padn. rewrite parse_digits_zeros. unfold format_uint.
  by rewrite parse_num_fuel.
Qed.

Lemma digit_mod n : is_digit (digit_chr (n mod 10)) = true /\ digit_val (digit_chr (n mod 10)) = n mod 10.
Proof. apply digit_chr_spec, Z.mod_pos_bound. lia. Qed.

Lemma digits2_padn n r : 0 <= n < 100 -> digits2 (padn 2 n +:+ r) = Some (n, r).
Proof.
  intros Hn. rewrite padn_dig by (simpl; lia). simpl.
  destruct (digit_mod n) as [-> ->]. destruct (digit_mod (n / 10)) as [-> ->]. simpl.
  do 2 f_equal. Z.div_mod_to_equations. lia.
Qed.

Lemma digits12_padn n r : 0 <= n < 100 -> digits12 (padn 2 n +:+ r) = Some (n, r).
Proof.
  intros Hn. rewrite padn_dig by (simpl; lia). simpl.
  destruct (digit_mod n) as [-> ->]. destruct (digit_mod (n / 10)) as [-> ->].
  do 2 f_equal. Z.div_mod_to_equations. lia.
Qed.

Lemma padn4_split y : 0 <= y < 10000 -> padn 4 y = padn 2 (y / 100) +:+ padn 2 (y mod 100).
Proof.
  intros Hy. assert (0 <= y / 100 < 100 /\ 0 <= y mod 100 < 100) as [H1 H2]
    by (Z.div_mod_to_equations; lia).
  rewrite (padn_dig 4) by (change (10 ^ Z.of_nat 4) with 10000; lia).
  rewrite !(padn_dig 2) by first [lia|exact H1|exact H2]. simpl.
  repeat (apply (f_equal2 String); [apply f_equal; Z.div_mod_to_equations; lia|]). done.
Qed.

Lemma year4_padn y r : 0 <= y < 10000 -> year4 (padn 4 y +:+ r) = Some (y, r).
Proof.
  intros Hy. unfold year4. rewrite padn4_split, app_assoc_str by done.
  rewrite digits2_padn by (Z.div_mod_to_equations; lia). simpl.
  rewrite digits2_padn by (Z.div_mod_to_equations; lia). simpl.
  do 2 f_equal. Z.div_mod_to_equations. lia.
Qed.

(** ** Fractions *)

Lemma strip_zeros_length s : (String.length (strip_zeros s) <= String.length s)%nat.
Proof. induction s as [|c s IH]; simpl; [lia|]. destruct (_ && _); simpl; lia. Qed.

Lemma strip_zeros_pad s :
  strip_zeros s +:+ zeros (String.length s - String.length (strip_zeros s)) = s.
Proof.
  induction s as [|c s IH]; [done|]. cbn [strip_zeros].
  destruct (Ascii.eqb c _ && _) eqn:E.
  - apply andb_true_iff in E as [->%Ascii.eqb_eq E]. apply is_empty_true in E. rewrite E in *.
    change (String "048" (zeros (String.length s)) = String "048" s). f_equal.
    etrans; [|exact IH]. simpl. by rewrite Nat.sub_0_r.
  - change (String c (strip_zeros s +:+ zeros (String.length s - String.length (strip_zeros s))) = String c s).
    by f_equal.
Qed.

Lemma strip_zeros_digits s : all_digits s = true -> all_digits (strip_zeros s) = true.
Proof.
  unfold all_digits. induction s as [|c s IH]; [done|]. simpl. intros H. b2p.
  destruct (_ && _); [done|]. simpl. rewrite IH by done. by rewrite andb_true_r.
Qed.

Lemma take_digits_app d r : all_digits d = true ->
  match r with EmptyString => True | String c _ => is_digit c = false end ->
  take_digits (d +:+ r) = (d, r).
Proof.
  unfold all_digits. intros Hd Hr. induction d as [|c d IH]; simpl in *.
  - destruct r as [|c r]; [done|]. simpl. by rewrite Hr.
  - b2p. match goal with H : is_digit c = true |- _ => rewrite H end. by rewrite IH.
Qed.

Lemma str_take_all n s : (String.length s <= n)%nat -> str_take n s = s.
Proof. revert n; induction s as [|c s IH]; intros [|n] H; simpl in *; try done; [lia|]. by rewrite IH by lia. Qed.

Lemma padn_digits w n : 0 <= n -> all_digits (padn w n) = true.
Proof.
  intros H. unfold padn, all_digits. rewrite all_chars_app. fold all_digits.
  by rewrite zeros_digits, format_uint_digits.
Qed.

Lemma fraction_print ns r : 0 <= ns < second ->
  match r with EmptyString => False | String c _ => is_digit c = false /\ c <> "."%char /\ c <> ","%char end ->
  let frac := strip_zeros (padn 9 ns) in
  fraction ((if is_empty frac then EmptyString else "." +:+ frac) +:+ r) = (ns, r).
Proof.
  intros Hn Hr frac. assert (0 <= ns < 10 ^ Z.of_nat 9) as Hn' by (unfold second in Hn; simpl; lia).
  pose proof (strip_zeros_pad (padn 9 ns)) as Hp. fold frac in Hp.
  rewrite padn_length in Hp by (done || lia).
  assert (parse_digits 0 (frac +:+ zeros (9 - String.length frac)) = Some ns) as Hv
    by (rewrite Hp; apply parse_padn; simpl in *; lia).
  destruct (is_empty frac) eqn:E.
  - apply is_empty_true in E. rewrite E in Hv. vm_compute in Hv. injection Hv as <-.
    destruct r as [|c r]; [done|]. destruct Hr as (_ & H1 & H2).
    apply Ascii.eqb_neq in H1, H2. change (fraction (String c r) = (0, String c r)).
    unfold fraction. by rewrite H1, H2.
  - change (fraction (String "."%char (frac +:+ r)) = (ns, r)). unfold fraction.
    change (Ascii.eqb "."%char "."%char || Ascii.eqb "."%char ","%char) with true. cbv iota.
    rewrite take_digits_app; [|apply strip_zeros_digits, padn_digits; lia|destruct r as [|? ?]; [done|apply Hr]].
    cbv iota beta. rewrite E. f_equal. unfold nanoseconds. cbv zeta.
    rewrite str_take_all; [by rewrite Hv|].
    pose proof (strip_zeros_length (padn 9 ns)) as Hl. rewrite padn_length in Hl by (done || lia). exact Hl.
Qed.

(** ** The instant is read back *)

Lemma civil_year t : marshalable_time t = true ->
  0 <= (civil (t / second / 86400)).1.1 < 10000.
Proof.
  unfold marshalable_time, year_max. intros H. b2p.
  set (z := t / second / 86400).
  assert (-719528 <= z < 2932897) as Hz.
  { subst z. rewrite Z.div_div by (unfold second; lia). unfold second in *.
    change (1000000000 * 86400) with 86400000000000. Z.div_mod_to_equations. lia. }
  unfold civil. cbv zeta. fold (year_of ((z + 719468) mod 146097)). cbn [fst].
  set (doe := (z + 719468) mod 146097).
  assert (0 <= doe < 146097) as Hd by (apply Z.mod_pos_bound; lia).
  pose proof (year_bounds doe Hd) as (B1 & B2 & B3). pose proof (year_of_range doe Hd) as By.
  set (y := year_of doe) in *. change (365 * y + y / 4 - y / 100) with (year_start y).
  set (doy := doe - year_start y) in *.
  assert (z + 719468 = 146097 * ((z + 719468) / 146097) + doe) as Ez by (apply Z.div_mod; lia).
  assert (0 <= doy <= 365) as Hdoy by lia.
  set (m := if (5 * doy + 2) / 153 <? 10 then (5 * doy + 2) / 153 + 3 else (5 * doy + 2) / 153 - 9).
  set (era := (z + 719468) / 146097) in *.
  assert (era = -1 /\ 146037 <= doe \/ 0 <= era < 24 \/ era = 24 /\ doe < 146037) as Hera by lia.
  assert (m <= 2 <-> 306 <= doy) as Hm.
  { unfold m. destruct ((5 * doy + 2) / 153 <? 10) eqn:E; b2p; Z.div_mod_to_equations; lia. }
  assert (146037 <= doe <-> y = 399 /\ 306 <= doy) as Hlast
    by (unfold doy, year_start in *; Z.div_mod_to_equations; lia).
  clearbody doy y doe era m. destruct (m <=? 2) eqn:Em; b2p; lia.
Qed.

Lemma skip_text c r : skip c (String c EmptyString +:+ r) = Some r.
Proof. change (skip c (String c r) = Some r). unfold skip. by rewrite Ascii.eqb_refl. Qed.

Lemma parse_rfc3339_print t : marshalable_time t = true -> parse_rfc3339 (rfc3339 t) = Some t.
Proof.
  intros Ht. pose proof (civil_year t Ht) as Hy. unfold rfc3339.
  pose proof (civil_spec (t / second / 86400)) as Hc.
  destruct (civil (t / second / 86400)) as [[y m] d]. cbn [fst] in Hy. destruct Hc as (Hm & Hd & Hc).
  set (sod := (t / second) mod 86400).
  assert (0 <= sod < 86400) as Hs by (apply Z.mod_pos_bound; lia).
  assert (0 <= sod / 3600 < 24 /\ 0 <= sod / 60 mod 60 < 60 /\ 0 <= sod mod 60 < 60
          /\ 3600 * (sod / 3600) + 60 * (sod / 60 mod 60) + sod mod 60 = sod) as (Hh & Hmi & Hse & Hsum)
    by (Z.div_mod_to_equations; lia).
  assert (0 <= t mod second < second) as Hns by (apply Z.mod_pos_bound; unfold second; lia).
  assert (days_in y m <= 31) as Hdi by (unfold days_in; repeat case_match; lia).
  unfold parse_rfc3339.
  rewrite year4_padn by lia. cbn [mbind option_bind]. rewrite skip_text. cbn [mbind option_bind].
  rewrite digits2_padn by lia. cbn [mbind option_bind]. rewrite skip_text. cbn [mbind option_bind].
  rewrite digits2_padn by lia. cbn [mbind option_bind]. rewrite skip_text. cbn [mbind option_bind].
  rewrite digits12_padn by lia. cbn [mbind option_bind]. rewrite skip_text. cbn [mbind option_bind].
  rewrite digits2_padn by lia. cbn [mbind option_bind]. rewrite skip_text. cbn [mbind option_bind].
  rewrite digits2_padn by lia. cbn [mbind option_bind].
  rewrite fraction_print by (first [exact Hns|repeat split; discriminate]).
  change (zone "Z") with (Some (0, EmptyString)). cbn [mbind option_bind is_empty].
  repeat match goal with |- context [?b && _] => replace b with true by (symmetry; lia); cbn [andb] end.
  replace (sod mod 60 <? 60) with true by (symmetry; lia).
  f_equal. rewrite Hc.
  pose proof (Z.div_mod t second). pose proof (Z.div_mod (t / second) 86400).
  subst sod. unfold second in *. lia.
Qed.
