(* ===== verification/JsonText.v ===== *)
(** [encoding/json] on texts: the syntax tree of a JSON text with its literals
    as written, and the decoders of [json.Unmarshal]. A decoder gets the
    destination's old value and returns the new one and whether every member
    had its type: Go decodes the other members of an object whose member is
    ill-typed, and reports the error at the end. *)
From S2P Require Import Prelude GoLib Sha256 Json GoText.

(** Strings and numbers are kept as the text has them, quotes left out. *)
Inductive jtext : Type :=
| TNull
| TBool (b : bool)
| TNum (raw : string)
| TStr (raw : string)
| TArr (l : list jtext)
| TObj (members : list (string * jtext)).

(** ** Parsing *)

Definition code (c : Ascii.ascii) : Z := Z.of_nat (Ascii.nat_of_ascii c).

Fixpoint skip_ws (s : string) : string :=
  match s with
  | String c r =>
      let n := code c in
      if (n =? 32) || (n =? 9) || (n =? 10) || (n =? 13) then skip_ws r else s
  | EmptyString => EmptyString
  end.

Definition hex_val (c : Ascii.ascii) : option Z :=
  let n := code c in
  if (48 <=? n) && (n <=? 57) then Some (n - 48)
  else if (97 <=? n) && (n <=? 102) then Some (n - 87)
  else if (65 <=? n) && (n <=? 70) then Some (n - 55) else None.
Definition is_hex (c : Ascii.ascii) : bool := match hex_val c with Some _ => true | None => false end.

(** The text of a string up to its closing quote, and what follows. *)
Fixpoint p_string (s : string) : option (string * string) :=
  match s with
  | EmptyString => None
  | String c r =>
      if code c =? 34 then Some (EmptyString, r)
      else if code c =? 92 then
        match r with
        | String e r1 =>
            if Ascii.eqb e "u"%char then
              match r1 with
              | String h1 (String h2 (String h3 (String h4 r2))) =>
                  if is_hex h1 && is_hex h2 && is_hex h3 && is_hex h4 then
                    x ← p_string r2;
                    Some (String c (String e (String h1 (String h2 (String h3 (String h4 x.1))))), x.2)
                  else None
              | _ => None
              end
            else if existsb (Z.eqb (code e)) [34; 92; 47; 98; 102; 110; 114; 116] then
              x ← p_string r1; Some (String c (String e x.1), x.2)
            else None
        | EmptyString => None
        end
      else if code c <? 32 then None
      else x ← p_string r; Some (String c x.1, x.2)
  end.

Fixpoint p_digits (s : string) : string * string :=
  match s with
  | String c r => if is_digit c then let x := p_digits r in (String c x.1, x.2) else (EmptyString, s)
  | EmptyString => (EmptyString, EmptyString)
  end.

Definition p_int (s : string) : option (string * string) :=
  match s with
  | String "0"%char r => Some ("0"%string, r)
  | _ => let x := p_digits s in if is_empty x.1 then None else Some x
  end.
Definition p_frac (s : string) : option (string * string) :=
  match s with
  | String "."%char r =>
      let x := p_digits r in if is_empty x.1 then None else Some (String "."%char x.1, x.2)
  | _ => Some (EmptyString, s)
  end.
Definition p_exp (s : string) : option (string * string) :=
  match s with
  | String e r =>
      if Ascii.eqb e "e"%char || Ascii.eqb e "E"%char then
        let '(sg, r) :=
          match r with
          | String c r' => if Ascii.eqb c "+"%char || Ascii.eqb c "-"%char
                           then (String c EmptyString, r') else (EmptyString, r)
          | EmptyString => (EmptyString, r)
          end in
        let x := p_digits r in
        if is_empty x.1 then None else Some (String e (sg +:+ x.1), x.2)
      else Some (EmptyString, s)
  | EmptyString => Some (EmptyString, s)
  end.
Definition p_number (s : string) : option (string * string) :=
  let '(sg, r) := match s with String "-"%char r => ("-"%string, r) | _ => (EmptyString, s) end in
  i ← p_int r; f ← p_frac i.2; e ← p_exp f.2;
  Some (sg +:+ i.1 +:+ f.1 +:+ e.1, e.2).

Definition p_scalar (s : string) : option (jtext * string) :=
  if has_prefix s "null" then Some (TNull, drop_str 4 s)
  else if has_prefix s "true" then Some (TBool true, drop_str 4 s)
  else if has_prefix s "false" then Some (TBool false, drop_str 5 s)
  else match s with
  | String c r =>
      if code c =? 34 then x ← p_string r; Some (TStr x.1, x.2)
      else x ← p_number s; Some (TNum x.1, x.2)
  | EmptyString => None
  end.

(** Every call below consumes a character or is followed by one that does. *)
Fixpoint p_value (fuel : nat) (depth : Z) (s : string) : option (jtext * string) :=
  match fuel with
  | O => None
  | S f =>
      match skip_ws s with
      | String "["%char r =>
          if depth <=? 0 then None else
          match skip_ws r with
          | String "]"%char r => Some (TArr [], r)
          | r => x ← p_elems f (depth - 1) r; Some (TArr x.1, x.2)
          end
      | String "{"%char r =>
          if depth <=? 0 then None else
          match skip_ws r with
          | String "}"%char r => Some (TObj [], r)
          | r => x ← p_members f (depth - 1) r; Some (TObj x.1, x.2)
          end
      | s => p_scalar s
      end
  end
with p_elems (fuel : nat) (depth : Z) (s : string) : option (list jtext * string) :=
  match fuel with
  | O => None
  | S f =>
      v ← p_value f depth s;
      match skip_ws v.2 with
      | String "]"%char r => Some ([v.1], r)
      | String ","%char r => x ← p_elems f depth r; Some (v.1 :: x.1, x.2)
      | _ => None
      end
  end
with p_members (fuel : nat) (depth : Z) (s : string) : option (list (string * jtext) * string) :=
  match fuel with
  | O => None
  | S f =>
      match skip_ws s with
      | String q r =>
          if code q =? 34 then
            k ← p_string r;
            match skip_ws k.2 with
            | String ":"%char r =>
                v ← p_value f depth r;
                match skip_ws v.2 with
                | String "}"%char r => Some ([(k.1, v.1)], r)
                | String ","%char r => x ← p_members f depth r; Some ((k.1, v.1) :: x.1, x.2)
                | _ => None
                end
            | _ => None
            end
          else None
      | EmptyString => None
      end
  end.

(** [encoding/json] refuses a text nested deeper than 10000. *)
Definition parse_text (s : string) : option jtext :=
  x ← p_value (2 * String.length s + 2) 10000 s;
  if is_empty (skip_ws x.2) then Some x.1 else None.

(** ** String literals *)

Definition utf8 (u : Z) : list Z :=
  if u <? 128 then [u]
  else if u <? 2048 then [192 + u / 64; 128 + u mod 64]
  else if u <? 65536 then [224 + u / 4096; 128 + u / 64 mod 64; 128 + u mod 64]
  else [240 + u / 262144; 128 + u / 4096 mod 64; 128 + u / 64 mod 64; 128 + u mod 64].

Definition hex4 (l : list Z) : option (Z * list Z) :=
  match l with
  | a :: b :: c :: d :: r =>
      x ← hex_val (Sha256.ascii_of a); y ← hex_val (Sha256.ascii_of b);
      z ← hex_val (Sha256.ascii_of c); w ← hex_val (Sha256.ascii_of d);
      Some (x * 4096 + y * 256 + z * 16 + w, r)
  | _ => None
  end.

Definition escape_value (c : Z) : Z :=
  if c =? 98 then 8 else if c =? 102 then 12 else if c =? 110 then 10
  else if c =? 114 then 13 else if c =? 116 then 9 else c.

(** A [\u] escape; a surrogate that does not start a pair is replaced. *)
Definition unescape_u (l : list Z) : option (list Z * list Z) :=
  x ← hex4 l;
  let '(u, r) := x in
  if (55296 <=? u) && (u <? 57344) then
    match r with
    | 92 :: 117 :: r1 =>
        match hex4 r1 with
        | Some (v, r2) =>
            if (u <? 56320) && (56320 <=? v) && (v <? 57344)
            then Some (utf8 ((u - 55296) * 1024 + (v - 56320) + 65536), r2)
            else Some (replacement, r)
        | None => Some (replacement, r)
        end
    | _ => Some (replacement, r)
    end
  else Some (utf8 u, r).

Fixpoint unquote_bytes (fuel : nat) (l : list Z) : list Z :=
  match fuel, l with
  | O, _ | _, [] => []
  | S f, 92 :: 117 :: r =>
      match unescape_u r with Some (u, r) => u ++ unquote_bytes f r | None => [] end
  | S f, 92 :: c :: r => escape_value c :: unquote_bytes f r
  | S f, l =>
      match rune_len l with
      | O => replacement ++ unquote_bytes f (drop 1 l)
      | n => take n l ++ unquote_bytes f (drop n l)
      end
  end.
Definition unquote (raw : string) : string :=
  let l := Sha256.bytes_of raw in Sha256.string_of (unquote_bytes (length l) l).

(** ** Decoders *)

Definition decoder (A : Type) : Type := jtext -> A -> A * bool.

Definition d_string : decoder string := fun t old =>
  match t with TStr raw => (unquote raw, true) | TNull => (old, true) | _ => (old, false) end.
Definition d_bool : decoder bool := fun t old =>
  match t with TBool b => (b, true) | TNull => (old, true) | _ => (old, false) end.
(** [int] and [int64] *)
Definition d_int : decoder Z := fun t old =>
  match t with
  | TNum raw => match parse_int raw with Some n => (n, true) | None => (old, false) end
  | TNull => (old, true)
  | _ => (old, false)
  end.
(** [json.RawMessage]; [None] is the empty one. *)
Definition d_raw : decoder (option jtext) := fun t _ => (Some t, true).

(** The JSON number syntax, all of the text. *)
Definition is_number (s : string) : bool :=
  match p_number s with Some (_, r) => is_empty r | None => false end.
(** [json.Number], also from a string that holds a number. *)
Definition d_number : decoder string := fun t old =>
  match t with
  | TNum raw => (raw, true)
  | TStr raw => let s := unquote raw in
                if is_number s then (s, true) else (old, false)
  | TNull => (old, true)
  | _ => (old, false)
  end.

(** Member names compare exactly first, then by case folding, which takes
    U+017F to [s] and U+212A to [k]. *)
Fixpoint fold_bytes (l : list Z) : list Z :=
  match l with
  | 197 :: 191 :: l => 115 :: fold_bytes l
  | 226 :: 132 :: 170 :: l => 107 :: fold_bytes l
  | b :: l => (if (65 <=? b) && (b <=? 90) then b + 32 else b) :: fold_bytes l
  | [] => []
  end.
Definition fold_name (s : string) : list Z := fold_bytes (Sha256.bytes_of s).

Definition find_field {A} (fields : list (string * decoder A)) (k : string) : option (decoder A) :=
  match find (fun '(n, _) => String.eqb n k) fields with
  | Some (_, d) => Some d
  | None => snd <$> find (fun '(n, _) => bool_decide (fold_name n = fold_name k)) fields
  end.

Definition d_struct {A} (fields : list (string * decoder A)) : decoder A := fun t old =>
  match t with
  | TObj ms =>
      fold_left (fun '(a, ok) '(k, v) =>
        match find_field fields (unquote k) with
        | Some d => let '(a, ok') := d v a in (a, ok && ok')
        | None => (a, ok)
        end) ms (old, true)
  | TNull => (old, true)
  | _ => (old, false)
  end.

(** A member of a struct, through its projection and its update. *)
Definition member {A B} (name : string) (get : A -> B) (set : B -> A -> A) (d : decoder B)
  : string * decoder A :=
  (name, fun t a => let '(b, ok) := d t (get a) in (set b a, ok)).

(** A slice decoded over a nil one. *)
Definition d_list {A} (zero : A) (d : decoder A) : decoder (list A) := fun t old =>
  match t with
  | TArr l =>
      fold_left (fun '(acc, ok) v => let '(x, ok') := d v zero in (acc ++ [x], ok && ok')) l ([], true)
  | TNull => ([], true)
  | _ => (old, false)
  end.
(** [map[string]B] over the old map. *)
Definition d_map {B} (zero : B) (d : decoder B) : decoder (gmap string B) := fun t old =>
  match t with
  | TObj ms =>
      fold_left (fun '(m, ok) '(k, v) => let '(x, ok') := d v zero in (<[unquote k := x]> m, ok && ok'))
        ms (old, true)
  | TNull => (∅, true)
  | _ => (old, false)
  end.

(** [json.Unmarshal(text, &dst)]: a text that does not parse leaves [dst]. *)
Definition unmarshal_text {A} (d : decoder A) (s : string) (old : A) : A * bool :=
  match parse_text s with Some t => d t old | None => (old, false) end.

(** ** Examples *)

Example parse_text_example :
  parse_text (" {" +:+ quote +:+ "a" +:+ quote +:+ ": [1, -2.5e3, " +:+ quote +:+ "x" +:+ bslash +:+ "u00e9" +:+ quote +:+ "]} ") =
  Some (TObj [("a"%string, TArr [TNum "1"; TNum "-2.5e3"; TStr ("x" +:+ bslash +:+ "u00e9")])]).
Proof. vm_compute. reflexivity. Qed.

Example unquote_example :
  unquote ("a" +:+ bslash +:+ "n" +:+ bslash +:+ "ud83d" +:+ bslash +:+ "ude00") = bytes_str [97; 10; 240; 159; 152; 128]%nat.
Proof. vm_compute. reflexivity. Qed.

Example parse_text_refuses :
  map parse_text ["01"; "[1,]"; "{}x"; "tru"; ""; "1."]%string = [None; None; None; None; None; None].
Proof. vm_compute. reflexivity. Qed.
