(* ===== verification/JsonRound.v ===== *)
(** [encoding/json] reads back what it wrote: the text [render] emits for a
    tree parses, in front of any text that may follow a value, to that tree
    with its literals; and a literal unquotes to the string it was made of. *)
From S2P Require Import Prelude GoLib Sha256 Json GoText JsonText.
From S2P Require Import GoTime.

(** ** Bytes *)

Definition byte_list (l : list Z) : Prop := Forall (fun b => 0 <= b < 256) l.

Lemma bytes_of_range s : byte_list (Sha256.bytes_of s).
Proof.
  unfold byte_list, Sha256.bytes_of. apply Forall_forall. intros x Hx.
  apply list_elem_of_In, in_map_iff in Hx as (c & <- & _).
  unfold Sha256.byte_of. pose proof (Ascii.N_ascii_bounded c). lia.
Qed.

Lemma byte_of_ascii b : 0 <= b < 256 -> Sha256.byte_of (Sha256.ascii_of b) = b.
Proof.
  intros H. unfold Sha256.byte_of, Sha256.ascii_of.
  rewrite Ascii.N_ascii_embedding by lia. lia.
Qed.

Lemma bytes_of_app a b : Sha256.bytes_of (a +:+ b) = Sha256.bytes_of a ++ Sha256.bytes_of b.
Proof. unfold Sha256.bytes_of. induction a as [|c a IH]; [done|]. simpl. by f_equal. Qed.

Lemma length_bytes_of s : length (Sha256.bytes_of s) = String.length s.
Proof. unfold Sha256.bytes_of. rewrite length_map. induction s; simpl; congruence. Qed.

(** What holds of every byte by evaluation. *)
Lemma every_byte (P : Z -> Prop) : Forall P (zseq 0 256) -> forall b, 0 <= b < 256 -> P b.
Proof. intros H b Hb. rewrite Forall_forall in H. apply H, elem_of_zseq. lia. Qed.

(** ** Runes *)

Lemma rune_len_app l n r : rune_len l = S n -> rune_len (take (S n) l ++ r) = S n.
Proof.
  unfold rune_len. destruct l as [|a l]; [done|].
  destruct (a <? 128) eqn:E1; [intros [= <-]; simpl; by rewrite E1|].
  destruct l as [|b l]; [done|]. destruct (_ && (a <=? 223)) eqn:E2.
  { destruct (cont b) eqn:E3; [|done]. intros [= <-]. simpl. by rewrite E1, E2, E3. }
  destruct l as [|c l]; [done|]. destruct ((224 <=? a) && _) eqn:E3.
  { destruct (_ && cont c) eqn:E4; [|done]. intros [= <-]. simpl. by rewrite E1, E2, E3, E4. }
  destruct l as [|d l]; [done|]. destruct ((240 <=? a) && _) eqn:E4; [|done].
  destruct (_ && cont d) eqn:E5; [|done]. intros [= <-]. simpl. by rewrite E1, E2, E3, E4, E5.
Qed.

Lemma rune_len_short l n : rune_len l = n -> (n <= length l)%nat.
Proof.
  unfold rune_len. intros <-. repeat case_match; simpl; lia.
Qed.

(** [valid_bytes] does not depend on the fuel it does not need. *)
Lemma valid_bytes_fuel f g l : (length l <= g)%nat ->
  valid_bytes f l = true -> valid_bytes g l = true.
Proof.
  revert f g. induction l as [l IH] using (induction_ltof1 _ (@length Z)); unfold ltof in IH.
  intros [|f] [|g] Hg; destruct l as [|x l]; simpl in Hg; try done; try lia.
  cbn [valid_bytes]. destruct (rune_len (x :: l)) as [|k] eqn:E; [done|].
  intros H. eapply IH; [..|exact H]; rewrite length_drop; simpl in *; lia.
Qed.

(** Induction over the runes of a valid text. *)
Lemma valid_ind (P : list Z -> Prop) :
  P [] ->
  (forall l n r, rune_len (l ++ r) = S n -> length l = S n -> P r -> P (l ++ r)) ->
  forall l, valid_bytes (length l) l = true -> P l.
Proof.
  intros H0 Hs l. induction l as [l IH] using (induction_ltof1 _ (@length Z)); unfold ltof in IH.
  destruct l as [|a l]; [done|]. cbn [length valid_bytes].
  destruct (rune_len (a :: l)) as [|n] eqn:E; [done|]. intros H.
  pose proof (rune_len_short _ _ E) as Hl.
  rewrite <- (take_drop (S n) (a :: l)). apply (Hs _ n).
  - by rewrite take_drop.
  - rewrite length_take. lia.
  - apply IH; [rewrite length_drop; simpl in *; lia|]. eapply valid_bytes_fuel; [done|exact H].
Qed.

Lemma valid_rune l n r : rune_len (l ++ r) = S n -> length l = S n ->
  valid_bytes (length r) r = true -> valid_bytes (length (l ++ r)) (l ++ r) = true.
Proof.
  intros Hr Hl Hv. destruct l as [|a l]; [done|]. injection Hl as <-.
  change (valid_bytes (S (length (l ++ r))) (a :: l ++ r) = true). cbn [valid_bytes].
  change (rune_len (a :: l ++ r) = S (length l)) in Hr. rewrite Hr. cbn [drop].
  rewrite drop_app_length. eapply valid_bytes_fuel; [|exact Hv]. rewrite length_app. lia.
Qed.

(** The coercion makes any text valid. *)
Lemma coerce_bytes_is_valid f l : (length l <= f)%nat ->
  let c := coerce_bytes f l in valid_bytes (length c) c = true.
Proof.
  revert l; induction f as [|f IH]; intros [|a l] Hl; simpl in Hl; try done; try lia.
  cbn [coerce_bytes]. destruct (rune_len (a :: l)) as [|n] eqn:E; cbv zeta.
  - apply (valid_rune replacement 2); [done|done|]. apply IH. change (length l <= f)%nat. lia.
  - pose proof (rune_len_short _ _ E) as Hs. apply (valid_rune _ n).
    + by apply rune_len_app.
    + rewrite length_take. lia.
    + apply IH. rewrite length_drop. simpl. lia.
Qed.

Lemma coerce_bytes_range f l : byte_list l -> byte_list (coerce_bytes f l).
Proof.
  revert l; induction f as [|f IH]; intros [|a l] Hl; cbn [coerce_bytes]; try by constructor.
  destruct (rune_len (a :: l)) as [|n] eqn:E.
  - apply Forall_app. split; [repeat constructor; lia|]. apply IH. by apply Forall_drop.
  - apply Forall_app. split; [by apply Forall_take|]. apply IH. by apply Forall_drop.
Qed.

Lemma bytes_of_string_of l : byte_list l -> Sha256.bytes_of (Sha256.string_of l) = l.
Proof.
  unfold Sha256.bytes_of, Sha256.string_of. rewrite String.list_ascii_of_string_of_list_ascii.
  induction 1 as [|b l Hb Hl IH]; [done|]. simpl. by rewrite byte_of_ascii, IH.
Qed.

(** The bytes of a coerced string. *)
Lemma coerced_bytes s :
  byte_list (Sha256.bytes_of (coerce s)) /\
  valid_bytes (length (Sha256.bytes_of (coerce s))) (Sha256.bytes_of (coerce s)) = true.
Proof.
  unfold coerce. set (l := Sha256.bytes_of s).
  pose proof (coerce_bytes_range (length l) l (bytes_of_range s)) as Hr.
  rewrite bytes_of_string_of by done. split; [done|]. by apply coerce_bytes_is_valid.
Qed.

(** ** String literals *)

Definition special (l : list Z) : bool :=
  match l with 226 :: 128 :: 168 :: _ | 226 :: 128 :: 169 :: _ => true | _ => false end.

Lemma escape_plain a l : special (a :: l) = false ->
  escape_bytes (a :: l) = escape_byte a +:+ escape_bytes l.
Proof.
  intros H. unfold special in H. cbn [escape_bytes].
  repeat (case_match; try discriminate; try reflexivity).
Qed.

Lemma special_shape l : special l = true ->
  exists x r, l = 226 :: 128 :: x :: r /\ (x = 168 \/ x = 169).
Proof. unfold special. intros H. repeat (case_match; try discriminate); subst; eauto. Qed.

(** Brute force over the 256 bytes. *)
Ltac all_bytes :=
  match goal with |- forall b, 0 <= b < 256 -> @?P b => refine (every_byte P _) end; cbv beta;
  let l := eval vm_compute in (zseq 0 256) in change (zseq 0 256) with l;
  repeat apply Forall_cons_2; try apply Forall_nil_2; intros; try done; try reflexivity.

Definition raw (l : list Z) : list Z := Sha256.bytes_of (escape_bytes l).

(** An escaped ASCII byte is one step of [unquote_bytes]. *)
Lemma unquote_ascii : forall b, 0 <= b < 256 -> b < 128 -> forall f x,
  unquote_bytes (S f) (Sha256.bytes_of (escape_byte b) ++ x) = b :: unquote_bytes f x.
Proof. all_bytes. Qed.

(** A byte above is copied with its rune. *)
Lemma unquote_high : forall a, 0 <= a < 256 -> 128 <= a -> forall f x,
  unquote_bytes (S f) (a :: x) =
  match rune_len (a :: x) with
  | O => replacement ++ unquote_bytes f x
  | S n => take (S n) (a :: x) ++ unquote_bytes f (drop (S n) (a :: x))
  end.
Proof. all_bytes. Qed.

Lemma escape_high : forall a, 0 <= a < 256 -> 128 <= a ->
  Sha256.bytes_of (escape_byte a) = [a].
Proof. all_bytes. Qed.

Lemma escape_byte_length : forall a, 0 <= a < 256 -> (1 <= length (Sha256.bytes_of (escape_byte a)))%nat.
Proof. all_bytes; simpl; lia. Qed.
Lemma ascii_not_special : forall a, 0 <= a < 256 -> a < 128 -> forall l, special (a :: l) = false.
Proof. all_bytes. Qed.
Lemma tail_not_special : forall a, 0 <= a < 256 -> cont a = true -> forall l, special (a :: l) = false.
Proof. all_bytes. Qed.
Lemma ascii_rune : forall a, 0 <= a < 256 -> a < 128 -> forall l, rune_len (a :: l) = 1%nat.
Proof. all_bytes. Qed.

Lemma raw_plain a l : special (a :: l) = false ->
  raw (a :: l) = Sha256.bytes_of (escape_byte a) ++ raw l.
Proof. intros H. unfold raw. by rewrite escape_plain, bytes_of_app. Qed.

(** The bytes after the first of a rune. *)
Lemma rune_tail a l n : rune_len (a :: l) = S n -> Forall (fun b => cont b = true) (take n l).
Proof.
  unfold rune_len. destruct (a <? 128) eqn:E1; [intros [= <-]; constructor|].
  assert (forall b x y, (if x : bool then y else 128) <= b -> 128 <= y -> 128 <= b) as Hlo
    by (intros b [] y; lia).
  destruct l as [|b l]; [done|]. destruct (_ && (a <=? 223)) eqn:E2.
  { destruct (cont b) eqn:E3; [|done]. intros [= <-]. simpl. by repeat constructor. }
  destruct l as [|c l]; [done|]. destruct ((224 <=? a) && _) eqn:E3.
  { destruct (_ && cont c) eqn:E4; [|done]. intros [= <-]. simpl. b2p.
    repeat constructor; [|done]. unfold cont. apply andb_true_iff. split; apply Z.leb_le;
      destruct (a =? 224), (a =? 237); lia. }
  destruct l as [|d l]; [done|]. destruct ((240 <=? a) && _) eqn:E4; [|done].
  destruct (_ && cont d) eqn:E5; [|done]. intros [= <-]. simpl. b2p.
  repeat constructor; try done. unfold cont. apply andb_true_iff. split; apply Z.leb_le;
    destruct (a =? 240), (a =? 244); lia.
Qed.

Lemma raw_tail l r : byte_list l -> Forall (fun b => cont b = true) l -> raw (l ++ r) = l ++ raw r.
Proof.
  intros Hb Hc. induction Hc as [|b l Hb' Hc IH]; [done|]. apply Forall_cons in Hb as [Hr Hb].
  simpl. rewrite raw_plain by (by apply tail_not_special). rewrite escape_high.
  - simpl. by rewrite IH.
  - done.
  - unfold cont in Hb'. b2p. lia.
Qed.

(** The encoder's escapes are undone, whatever the fuel that is enough. *)
Lemma unquote_raw l : byte_list l -> valid_bytes (length l) l = true ->
  forall f, (length (raw l) <= f)%nat -> unquote_bytes f (raw l) = l.
Proof.
  intros Hb Hv. revert Hb. revert l Hv. apply (valid_ind (fun l => byte_list l ->
    forall f, (length (raw l) <= f)%nat -> unquote_bytes f (raw l) = l)).
  { intros _ [|f] _; done. }
  intros l n r Hr Hl IH Hb f Hf. destruct l as [|a l]; [done|]. injection Hl as <-.
  apply Forall_app in Hb as [Hb Hbr]. apply Forall_cons in Hb as [Ha Hb]. specialize (IH Hbr).
  change ((a :: l) ++ r) with (a :: l ++ r) in *.
  destruct (decide (a < 128)) as [H128|H128].
  - rewrite ascii_rune in Hr by done. destruct l; [|done]. simpl in *.
    rewrite raw_plain in Hf |- * by (by apply ascii_not_special).
    rewrite length_app in Hf. pose proof (escape_byte_length a Ha).
    destruct f as [|f]; [lia|]. rewrite unquote_ascii by done. f_equal. apply IH. lia.
  - destruct (special (a :: l ++ r)) eqn:Es.
    + apply special_shape in Es as (x & r' & E & Hx). injection E as -> E.
      assert (length l = 2)%nat as Hl.
      { rewrite E in Hr. assert (rune_len (226 :: 128 :: x :: r') = 3%nat) as H3
          by (destruct Hx as [-> | ->]; reflexivity). lia. }
      destruct l as [|b [|c [|]]]; try done. injection E as -> -> ->.
      destruct f as [|f]; [destruct Hx as [-> | ->]; simpl in Hf; lia|].
      destruct Hx as [-> | ->]; (etrans; [reflexivity|]).
      * change ([226; 128; 168] ++ unquote_bytes f (raw r') = [226; 128; 168] ++ r').
        f_equal. apply IH. change (6 + length (raw r') <= S f)%nat in Hf. lia.
      * change ([226; 128; 169] ++ unquote_bytes f (raw r') = [226; 128; 169] ++ r').
        f_equal. apply IH. change (6 + length (raw r') <= S f)%nat in Hf. lia.
    + pose proof (rune_tail _ _ _ Hr) as Ht. rewrite take_app_length in Ht.
      rewrite raw_plain in Hf |- * by done. rewrite escape_high in Hf |- * by lia.
      change ([a] ++ raw (l ++ r)) with (a :: raw (l ++ r)) in *.
      rewrite raw_tail in Hf |- * by done.
      destruct f as [|f]; [simpl in Hf; lia|]. rewrite unquote_high by lia.
      pose proof (rune_len_app (a :: l ++ r) (length l) (raw r) Hr) as Hn.
      change (take (S (length l)) (a :: l ++ r)) with (a :: take (length l) (l ++ r)) in Hn.
      rewrite take_app_length in Hn. change ((a :: l) ++ raw r) with (a :: l ++ raw r) in Hn.
      rewrite Hn. simpl. rewrite take_app_length, drop_app_length. f_equal. f_equal. apply IH.
      simpl in Hf. rewrite length_app in Hf. lia.
Qed.

(** The literal of a string, between its quotes. *)
Definition literal (s : string) : string := escape_bytes (Sha256.bytes_of (coerce s)).

Lemma unquote_literal s : unquote (literal s) = coerce s.
Proof.
  destruct (coerced_bytes s) as [Hb Hv]. unfold unquote, literal.
  change (Sha256.bytes_of (escape_bytes (Sha256.bytes_of (coerce s))))
    with (raw (Sha256.bytes_of (coerce s))).
  rewrite unquote_raw by done. apply bytes_of_string_of_id.
Qed.

(** ** Parsing a literal *)

Lemma p_string_byte : forall b, 0 <= b < 256 -> forall x,
  p_string (escape_byte b +:+ x) = (y ← p_string x; Some (escape_byte b +:+ y.1, y.2)).
Proof. all_bytes. Qed.

Lemma p_string_quote rest : p_string (quote +:+ rest) = Some (EmptyString, rest).
Proof. done. Qed.

Lemma p_string_escape l rest : byte_list l ->
  p_string (escape_bytes l +:+ quote +:+ rest) = Some (escape_bytes l, rest).
Proof.
  induction l as [l IH] using (induction_ltof1 _ (@length Z)); unfold ltof in IH.
  intros Hb. destruct l as [|b l]; [done|]. apply Forall_cons in Hb as [Hb Hl].
  destruct (special (b :: l)) eqn:Es.
  - apply special_shape in Es as (x & r & E & Hx). injection E as -> ->.
    assert (p_string (escape_bytes r +:+ quote +:+ rest) = Some (escape_bytes r, rest)) as Hr
      by (apply IH; [simpl; lia|by inversion Hl as [|? ? ? Hl']; inversion Hl']).
    destruct Hx as [-> | ->].
    + change ((y ← p_string (escape_bytes r +:+ quote +:+ rest);
        Some ((bslash +:+ "u2028") +:+ y.1, y.2)) = Some (bslash +:+ "u2028" +:+ escape_bytes r, rest)).
      by rewrite Hr.
    + change ((y ← p_string (escape_bytes r +:+ quote +:+ rest);
        Some ((bslash +:+ "u2029") +:+ y.1, y.2)) = Some (bslash +:+ "u2029" +:+ escape_bytes r, rest)).
      by rewrite Hr.
  - rewrite escape_plain, app_assoc_str, p_string_byte by done.
    rewrite IH by (done || simpl; lia). done.
Qed.

Lemma p_string_literal s rest : p_string (literal s +:+ quote +:+ rest) = Some (literal s, rest).
Proof. apply p_string_escape, coerced_bytes. Qed.

(** ** Numbers and instants *)

Definition plain (c : Ascii.ascii) : bool :=
  negb (code c =? 34) && negb (code c =? 92) && negb (code c <? 32).

Lemma p_string_plain s rest : all_chars plain s = true ->
  p_string (s +:+ quote +:+ rest) = Some (s, rest).
Proof.
  induction s as [|c s IH]; intros H; [done|]. cbn [all_chars] in H. apply andb_true_iff in H as [Hc H].
  change (String c s +:+ quote +:+ rest) with (String c (s +:+ quote +:+ rest)).
  unfold plain in Hc. b2p. cbn [p_string].
  repeat match goal with |- context [if ?b then _ else _] => replace b with false by (symmetry; lia) end.
  by rewrite IH.
Qed.

Lemma digit_plain c : is_digit c = true -> plain c = true.
Proof. destruct c as [[] [] [] [] [] [] [] []]; done. Qed.

Lemma digits_plain s : all_digits s = true -> all_chars plain s = true.
Proof.
  unfold all_digits. induction s as [|c s IH]; [done|]. simpl. intros H. b2p.
  by rewrite digit_plain, IH.
Qed.

Lemma rfc3339_plain t : marshalable_time t = true -> all_chars plain (rfc3339 t) = true.
Proof.
  intros Ht. pose proof (civil_year t Ht) as Hy. pose proof (civil_spec (t / second / 86400)) as Hc.
  unfold rfc3339. destruct (civil _) as [[y m] d]. cbn [fst] in Hy. destruct Hc as (Hm & Hd & _).
  pose proof (Z.mod_pos_bound (t / second) 86400).
  pose proof (Z.mod_pos_bound t second) as Hn. unfold second at 1 3 in Hn.
  assert (forall w n, 0 <= n -> all_chars plain (padn w n) = true) as Hp
    by (intros; by apply digits_plain, padn_digits).
  rewrite !all_chars_app, !Hp by (Z.div_mod_to_equations; lia).
  assert (all_chars plain (strip_zeros (padn 9 (t mod second))) = true) as Hf
    by (apply digits_plain, strip_zeros_digits, padn_digits; lia).
  destruct (is_empty _); [done|]. by rewrite all_chars_app, Hf.
Qed.

(** A number ends here. *)
Definition stops (s : string) : bool :=
  match s with
  | EmptyString => true
  | String c _ => negb (is_digit c || Ascii.eqb c "." || Ascii.eqb c "e" || Ascii.eqb c "E")
  end.

Lemma p_digits_app d r : all_digits d = true -> stops r = true -> p_digits (d +:+ r) = (d, r).
Proof.
  unfold all_digits. induction d as [|c d IH]; intros Hd Hr.
  - change (EmptyString +:+ r) with r. destruct r as [|c r]; [done|]. simpl in *.
    destruct (is_digit c); done.
  - simpl in Hd. b2p. change (String c d +:+ r) with (String c (d +:+ r)). cbn [p_digits].
    match goal with H : is_digit c = true |- _ => rewrite H end. by rewrite IH.
Qed.

Lemma num_fuel_head f n acc : 0 < n < 10 ^ Z.of_nat f -> exists c s,
  num_fuel f n acc = String c s /\ is_digit c = true /\ c <> "0"%char.
Proof.
  revert n acc; induction f as [|f IH]; intros n acc Hn; [simpl in Hn; lia|]. cbn [num_fuel].
  destruct (n <? 10) eqn:E; b2p.
  - exists (digit_chr n), acc. rewrite Z.mod_small by lia. split; [done|].
    destruct (digit_chr_spec n) as [H1 H2]; [lia|]. split; [done|].
    intros E0. rewrite E0 in H2. change (digit_val "0") with 0 in H2. lia.
  - apply IH. rewrite Nat2Z.inj_succ, Z.pow_succ_r in Hn by lia. Z.div_mod_to_equations. lia.
Qed.

Lemma p_int_format n r : 0 <= n < 10 ^ 20 -> stops r = true ->
  p_int (format_uint n +:+ r) = Some (format_uint n, r).
Proof.
  intros Hn Hr. destruct (decide (n = 0)) as [->|Hne]; [done|].
  destruct (num_fuel_head 20 n EmptyString) as (c & s & E & Hc & H0); [simpl in *; lia|].
  pose proof (format_uint_digits n ltac:(lia)) as Hd. unfold format_uint in *. rewrite E in *.
  change (String c s +:+ r) with (String c (s +:+ r)).
  assert (p_int (String c (s +:+ r)) =
    let x := p_digits (String c (s +:+ r)) in if is_empty x.1 then None else Some x) as ->.
  { clear -H0. destruct c as [[] [] [] [] [] [] [] []]; try reflexivity. by destruct H0. }
  change (String c (s +:+ r)) with (String c s +:+ r). by rewrite p_digits_app.
Qed.

Lemma stops_number r : stops r = true -> p_frac r = Some (EmptyString, r) /\ p_exp r = Some (EmptyString, r).
Proof.
  destruct r as [|c r]; [done|]. unfold stops. intros H. split.
  - unfold p_frac. destruct c as [[] [] [] [] [] [] [] []]; try reflexivity; discriminate.
  - unfold p_exp. destruct (Ascii.eqb c "e") eqn:E1; [b2p; apply Ascii.eqb_eq in E1 as ->; discriminate|].
    destruct (Ascii.eqb c "E") eqn:E2; [apply Ascii.eqb_eq in E2 as ->; discriminate|]. done.
Qed.

Definition small_number (n : Z) : bool := (- 10 ^ 20 <? n) && (n <? 10 ^ 20).

Lemma p_number_format n r : small_number n = true -> stops r = true ->
  p_number (format_int n +:+ r) = Some (format_int n, r).
Proof.
  unfold small_number. intros Hn Hr. b2p. destruct (stops_number r Hr) as [Hf He].
  unfold format_int, p_number. destruct (n <? 0) eqn:E; b2p.
  - change (String "045" (format_uint (- n)) +:+ r) with (String "-" (format_uint (- n) +:+ r)).
    cbv iota beta. rewrite p_int_format by (done || lia). cbn [mbind option_bind fst snd].
    rewrite Hf. cbn [mbind option_bind fst snd]. rewrite He. cbn [mbind option_bind fst snd].
    by rewrite !app_nil_str.
  - assert (match format_uint n +:+ r with String "-" r0 => ("-"%string, r0) | _ => (EmptyString, format_uint n +:+ r) end
            = (EmptyString, format_uint n +:+ r)) as ->.
    { pose proof (format_uint_digits n ltac:(lia)) as Hd. unfold format_uint in *.
      pose proof (num_fuel_nonempty 20 n EmptyString) as Hne.
      destruct (num_fuel 20 n EmptyString) as [|c s]; [by discriminate Hne; right|].
      unfold all_digits in Hd. simpl in Hd. b2p.
      change (String c s +:+ r) with (String c (s +:+ r)).
      destruct c as [[] [] [] [] [] [] [] []]; try reflexivity; discriminate. }
    cbv iota beta. rewrite p_int_format by (done || lia). cbn [mbind option_bind fst snd].
    rewrite Hf. cbn [mbind option_bind fst snd]. rewrite He. cbn [mbind option_bind fst snd].
    by rewrite !app_nil_str.
Qed.

Lemma parse_format_int n : -9223372036854775808 <= n <= 9223372036854775807 ->
  parse_int (format_int n) = Some n.
Proof.
  intros Hn. unfold format_int. destruct (n <? 0) eqn:E; b2p.
  - unfold parse_int. change (Ascii.eqb "045" "045") with true. cbv iota.
    unfold format_uint. rewrite num_fuel_nonempty by (right; lia).
    rewrite parse_num_fuel by lia. cbn [parse_digits].
    replace (- n <=? 9223372036854775808) with true by (symmetry; apply Z.leb_le; lia).
    by rewrite Z.opp_involutive.
  - apply parse_int_digits; [by apply format_uint_digits|apply num_fuel_nonempty; right; lia| |lia].
    unfold format_uint. by rewrite parse_num_fuel by lia.
Qed.

(** ** Values *)

(** The syntax tree of the text [render] emits. *)
Fixpoint text_of (j : json) : jtext :=
  match j with
  | JNull => TNull
  | JBool b => TBool b
  | JNum n => TNum (format_int n)
  | JStr s => TStr (literal s)
  | JTime t => TStr (rfc3339 t)
  | JArr l => TArr (map text_of l)
  | JObj fs => TObj (map (fun '(k, v) => (literal k, text_of v)) fs)
  end.

(** Numbers and instants that Go prints as texts it reads. *)
Fixpoint printable (j : json) : bool :=
  match j with
  | JNum n => small_number n
  | JTime t => marshalable_time t
  | JArr l => forallb printable l
  | JObj fs => forallb (fun '(_, v) => printable v) fs
  | _ => true
  end.

(** How deep the containers are nested. *)
Fixpoint nesting (j : json) : Z :=
  match j with
  | JArr l => 1 + fold_right (fun v n => Z.max (nesting v) n) 0 l
  | JObj fs => 1 + fold_right (fun '(_, v) n => Z.max (nesting v) n) 0 fs
  | _ => 0
  end.

Lemma json_nested_ind (P : json -> Prop) :
  P JNull -> (forall b, P (JBool b)) -> (forall n, P (JNum n)) -> (forall s, P (JStr s)) ->
  (forall t, P (JTime t)) -> (forall l, Forall P l -> P (JArr l)) ->
  (forall fs, Forall (fun f => P f.2) fs -> P (JObj fs)) -> forall j, P j.
Proof.
  intros H1 H2 H3 H4 H5 H6 H7. fix IH 1. intros [|b|n|s|t|l|fs]; [exact H1|apply H2|apply H3|apply H4|apply H5| |].
  - apply H6. induction l as [|v l IHl]; constructor; [apply IH|exact IHl].
  - apply H7. induction fs as [|[k v] fs IHl]; constructor; [apply IH|exact IHl].
Qed.

(** The first byte of a value. *)
Definition opens (c : Ascii.ascii) : bool :=
  is_digit c || existsb (Ascii.eqb c) ["-"; "n"; "t"; "f"; "034"; "["; "{"]%char.

Lemma format_uint_head n r : 0 <= n -> exists c s, format_uint n +:+ r = String c s /\ is_digit c = true.
Proof.
  intros Hn. pose proof (format_uint_digits n Hn) as Hd. unfold format_uint in *.
  pose proof (num_fuel_nonempty 20 n EmptyString) as Hne.
  destruct (num_fuel 20 n EmptyString) as [|c s]; [by discriminate Hne; right|].
  exists c, (s +:+ r). unfold all_digits in Hd. simpl in Hd. b2p. done.
Qed.

Lemma render_head j r : printable j = true -> exists c s, render j +:+ r = String c s /\ opens c = true.
Proof.
  intros Hp. destruct j as [|[]|n|s|t|l|fs]; cbn [render]; try (by eexists _, _).
  unfold format_int. destruct (n <? 0) eqn:E; [by eexists _, _|]. b2p.
  destruct (format_uint_head n r) as (c & s & -> & Hc); [lia|]. exists c, s. split; [done|].
  unfold opens. by rewrite Hc.
Qed.

Lemma skip_opens c s : opens c = true -> skip_ws (String c s) = String c s.
Proof. destruct c as [[] [] [] [] [] [] [] []]; done. Qed.

Lemma value_digit f d c s : is_digit c = true ->
  p_value (S f) d (String c s) = p_scalar (String c s).
Proof. destruct c as [[] [] [] [] [] [] [] []]; done. Qed.

Lemma value_array f d c s : opens c = true -> 0 < d ->
  p_value (S f) d (String "[" (String c s)) =
  (x ← p_elems f (d - 1) (String c s); Some (TArr x.1, x.2)).
Proof.
  intros Hc Hd. cbn [p_value]. change (skip_ws (String "[" (String c s))) with (String "[" (String c s)).
  cbv iota. replace (d <=? 0) with false by (symmetry; lia). rewrite skip_opens by done.
  destruct c as [[] [] [] [] [] [] [] []]; done.
Qed.

Lemma scalar_number n rest : small_number n = true -> stops rest = true ->
  p_scalar (format_int n +:+ rest) = Some (TNum (format_int n), rest).
Proof.
  intros Hn Hr. pose proof (p_number_format n rest Hn Hr) as H.
  assert (exists c s, format_int n +:+ rest = String c s /\ (is_digit c = true \/ c = "-"%char)) as (c & s & E & Hc).
  { unfold format_int. destruct (n <? 0) eqn:E; [by eexists _, _; split; [reflexivity|right]|]. b2p.
    destruct (format_uint_head n rest) as (c & s & -> & Hc); [lia|]. eauto. }
  rewrite E in *. unfold p_scalar.
  assert (has_prefix (String c s) "null" = false /\ has_prefix (String c s) "true" = false
          /\ has_prefix (String c s) "false" = false /\ (code c =? 34) = false) as (-> & -> & -> & ->).
  { destruct Hc as [Hc| ->]; [|done].
    destruct c as [[] [] [] [] [] [] [] []]; try discriminate; done. }
  by rewrite H.
Qed.

Definition parses (j : json) : Prop := printable j = true -> forall f d rest,
  nesting j <= d -> (String.length (render j) < f)%nat -> stops rest = true ->
  p_value f d (render j +:+ rest) = Some (text_of j, rest).

Lemma length_app_one a b : String.length (a +:+ "," +:+ b) = (String.length a + 1 + String.length b)%nat.
Proof. rewrite !app_length_str. simpl. lia. Qed.

Lemma elems_parse v l : Forall parses (v :: l) -> forallb printable (v :: l) = true -> forall f d rest,
  fold_right (fun v n => Z.max (nesting v) n) 0 (v :: l) <= d ->
  (String.length (join "," (map render (v :: l))) + 1 < f)%nat ->
  p_elems f d (join "," (map render (v :: l)) +:+ "]" +:+ rest) = Some (map text_of (v :: l), rest).
Proof.
  revert v; induction l as [|w l IH]; intros v Hv Hp f d rest Hd Hf;
    apply Forall_cons in Hv as [Hv Hl]; cbn [forallb fold_right map] in *; b2p;
    (destruct f as [|f]; [lia|]); cbn [p_elems].
  - cbn [join] in *. rewrite Hv by (done || lia). done.
  - change (join "," (render v :: render w :: map render l))
      with (render v +:+ "," +:+ join "," (render w :: map render l)) in *.
    rewrite length_app_one in Hf. rewrite !app_assoc_str, Hv by (done || lia).
    cbn [mbind option_bind snd fst].
    change (skip_ws ("," +:+ join "," (render w :: map render l) +:+ "]" +:+ rest))
      with (String "," (join "," (render w :: map render l) +:+ "]" +:+ rest)). cbv iota.
    rewrite IH; [done|done| |lia|lia]. cbn [forallb]. apply andb_true_iff. done.
Qed.

Definition member_text (f : string * json) : string := json_string f.1 +:+ ":" +:+ render f.2.

Lemma render_obj fs : render (JObj fs) = "{" +:+ join "," (map member_text fs) +:+ "}".
Proof.
  cbn [render]. do 3 f_equal. by apply map_ext; intros [k v].
Qed.

Lemma member_starts f r : exists s, member_text f +:+ r = String "034" s.
Proof. by eexists. Qed.

(** One member up to its value. *)
Lemma member_parse k v f d r : parses v -> printable v = true -> nesting v <= d ->
  (String.length (member_text (k, v)) < f)%nat -> stops r = true ->
  p_members (S f) d (member_text (k, v) +:+ r) =
  match skip_ws r with
  | String "}"%char r => Some ([(literal k, text_of v)], r)
  | String ","%char r => x ← p_members f d r; Some ((literal k, text_of v) :: x.1, x.2)
  | _ => None
  end.
Proof.
  intros Hv Hp Hn Hf Hr. unfold member_text in *. cbn [fst snd] in *.
  change (json_string k) with (quote +:+ literal k +:+ quote) in *.
  rewrite !app_assoc_str. cbn [p_members].
  change (skip_ws (quote +:+ literal k +:+ quote +:+ ":" +:+ render v +:+ r))
    with (String "034" (literal k +:+ quote +:+ ":" +:+ render v +:+ r)).
  cbv iota. change (code "034" =? 34) with true. cbv iota.
  rewrite p_string_literal. cbn [mbind option_bind fst snd].
  change (skip_ws (":" +:+ render v +:+ r)) with (String ":" (render v +:+ r)). cbv iota.
  rewrite Hv; [|done|done| |done].
  - cbn [mbind option_bind fst snd]. done.
  - rewrite !app_length_str in Hf. change (String.length quote) with 1%nat in Hf. lia.
Qed.

Lemma members_parse f l : Forall (fun f => parses f.2) (f :: l) ->
  forallb (fun '(_, v) => printable v) (f :: l) = true -> forall n d rest,
  fold_right (fun '(_, v) n => Z.max (nesting v) n) 0 (f :: l) <= d ->
  (String.length (join "," (map member_text (f :: l))) + 1 < n)%nat ->
  p_members n d (join "," (map member_text (f :: l)) +:+ "}" +:+ rest) =
  Some (map (fun '(k, v) => (literal k, text_of v)) (f :: l), rest).
Proof.
  revert f; induction l as [|g l IH]; intros [k v] Hv Hp n d rest Hd Hn;
    apply Forall_cons in Hv as [Hv Hl]; cbn [forallb fold_right map] in *; b2p;
    (destruct n as [|n]; [lia|]).
  - cbn [join] in *. by rewrite (member_parse k v n d) by (done || lia).
  - change (join "," (member_text (k, v) :: member_text g :: map member_text l))
      with (member_text (k, v) +:+ "," +:+ join "," (member_text g :: map member_text l)) in *.
    rewrite length_app_one in Hn. rewrite !app_assoc_str, (member_parse k v n d) by (done || lia).
    change (skip_ws ("," +:+ join "," (member_text g :: map member_text l) +:+ "}" +:+ rest))
      with (String "," (join "," (member_text g :: map member_text l) +:+ "}" +:+ rest)). cbv iota.
    rewrite IH; [done|done| |lia|lia]. cbn [forallb]. apply andb_true_iff. done.
Qed.

Lemma substring_all s : String.substring 0 (String.length s) s = s.
Proof. induction s as [|c s IH]; [done|]. simpl. by rewrite IH. Qed.
Lemma drop_prefix p s : drop_str (String.length p) (p +:+ s) = s.
Proof.
  unfold drop_str. rewrite app_length_str, Nat.add_comm, Nat.add_sub.
  induction p as [|c p IH]; [apply substring_all|exact IH].
Qed.

Lemma scalar_words rest :
  p_scalar ("null" +:+ rest) = Some (TNull, rest) /\
  p_scalar ("true" +:+ rest) = Some (TBool true, rest) /\
  p_scalar ("false" +:+ rest) = Some (TBool false, rest).
Proof.
  assert (forall w, p_scalar (w +:+ rest) =
    if has_prefix (w +:+ rest) "null" then Some (TNull, drop_str 4 (w +:+ rest))
    else if has_prefix (w +:+ rest) "true" then Some (TBool true, drop_str 4 (w +:+ rest))
    else if has_prefix (w +:+ rest) "false" then Some (TBool false, drop_str 5 (w +:+ rest))
    else p_scalar (w +:+ rest)) as E.
  { intros w. unfold p_scalar. by repeat destruct (has_prefix _ _). }
  split; [|split]; rewrite E.
  - rewrite (has_prefix_app "null"). by rewrite (drop_prefix "null").
  - change (has_prefix ("true" +:+ rest) "null") with false.
    rewrite (has_prefix_app "true"). by rewrite (drop_prefix "true").
  - change (has_prefix ("false" +:+ rest) "null") with false.
    change (has_prefix ("false" +:+ rest) "true") with false.
    rewrite (has_prefix_app "false"). by rewrite (drop_prefix "false").
Qed.

Theorem value_parses j : parses j.
Proof.
  induction j as [|b|n|s|t|l IH|fs IH] using json_nested_ind; intros Hp f d rest Hd Hf Hr;
    (destruct f as [|f]; [lia|]).
  - exact (proj1 (scalar_words rest)).
  - destruct b; [exact (proj1 (proj2 (scalar_words rest)))|exact (proj2 (proj2 (scalar_words rest)))].
  - cbn [render text_of printable] in *. etrans; [|by apply scalar_number].
    unfold format_int. destruct (n <? 0) eqn:E; [done|]. b2p.
    destruct (format_uint_head n rest) as (c & s & -> & Hc); [lia|]. by apply value_digit.
  - cbn [render text_of]. change (json_string s) with (quote +:+ literal s +:+ quote).
    rewrite !app_assoc_str.
    change (p_value (S f) d (quote +:+ literal s +:+ quote +:+ rest))
      with (x ← p_string (literal s +:+ quote +:+ rest); Some (TStr x.1, x.2)).
    by rewrite p_string_literal.
  - cbn [render text_of printable] in *. rewrite !app_assoc_str.
    change (p_value (S f) d (quote +:+ rfc3339 t +:+ quote +:+ rest))
      with (x ← p_string (rfc3339 t +:+ quote +:+ rest); Some (TStr x.1, x.2)).
    by rewrite p_string_plain by by apply rfc3339_plain.
  - cbn [render text_of printable nesting] in *. rewrite !app_assoc_str.
    rewrite !app_length_str in Hf. simpl String.length in Hf.
    destruct l as [|v l].
    { cbn. replace (d <=? 0) with false by (symmetry; simpl in Hd; lia). done. }
    destruct (render_head v (match l with [] => "]" +:+ rest
        | w :: l => "," +:+ join "," (map render (w :: l)) +:+ "]" +:+ rest end)) as (c & s & E & Hc).
    { cbn [forallb] in Hp. by b2p. }
    assert (join "," (map render (v :: l)) +:+ "]" +:+ rest = String c s) as Ej.
    { rewrite <- E. destruct l as [|w l]; [done|]. cbn [map].
      change (join "," (render v :: render w :: map render l))
        with (render v +:+ "," +:+ join "," (render w :: map render l)). by rewrite !app_assoc_str. }
    assert (0 <= fold_right (fun v n => Z.max (nesting v) n) 0 (v :: l)) as H0
      by (clear; induction (v :: l); simpl; lia).
    change (p_value (S f) d ("[" +:+ join "," (map render (v :: l)) +:+ "]" +:+ rest))
      with (p_value (S f) d (String "[" (join "," (map render (v :: l)) +:+ "]" +:+ rest))).
    rewrite Ej, value_array, <- Ej, elems_parse by (done || lia). done.
  - rewrite render_obj in *. cbn [text_of printable nesting] in *. rewrite !app_assoc_str.
    rewrite !app_length_str in Hf. simpl String.length in Hf.
    destruct fs as [|g fs].
    { cbn. replace (d <=? 0) with false by (symmetry; simpl in Hd; lia). done. }
    assert (0 <= fold_right (fun '(_, v) n => Z.max (nesting v) n) 0 (g :: fs)) as H0
      by (clear; induction (g :: fs) as [|[? ?] ? ?]; simpl; lia).
    destruct (member_starts g (match fs with [] => "}" +:+ rest
        | w :: l => "," +:+ join "," (map member_text (w :: l)) +:+ "}" +:+ rest end)) as (s & E).
    assert (join "," (map member_text (g :: fs)) +:+ "}" +:+ rest = String "034" s) as Ej.
    { rewrite <- E. destruct fs as [|w l]; [done|]. cbn [map].
      change (join "," (member_text g :: member_text w :: map member_text l))
        with (member_text g +:+ "," +:+ join "," (member_text w :: map member_text l)).
      by rewrite !app_assoc_str. }
    assert (p_value (S f) d ("{" +:+ join "," (map member_text (g :: fs)) +:+ "}" +:+ rest) =
      (x ← p_members f (d - 1) (join "," (map member_text (g :: fs)) +:+ "}" +:+ rest); Some (TObj x.1, x.2))) as ->.
    { rewrite Ej. change ("{" +:+ String "034" s) with (String "{" (String "034" s)). cbn [p_value].
      change (skip_ws (String "{" (String "034" s))) with (String "{" (String "034" s)). cbv iota.
      by replace (d <=? 0) with false by (symmetry; lia). }
    rewrite members_parse by (done || lia). done.
Qed.

(** A whole text. *)
Lemma parse_text_render j : printable j = true -> nesting j <= 10000 ->
  parse_text (render j) = Some (text_of j).
Proof.
  intros Hp Hn. unfold parse_text. pose proof (value_parses j Hp) as H.
  rewrite <- (app_nil_str (render j)) at 2. rewrite H by (done || lia). done.
Qed.

(** ** Instants in JSON *)

(** [time.Time.UnmarshalJSON]: the literal as it is, its escapes not undone. *)
Definition d_time : decoder Z := fun t old =>
  match t with
  | TStr s => match parse_rfc3339 s with Some u => (u, true) | None => (old, false) end
  | TNull => (old, true)
  | _ => (old, false)
  end.

Lemma d_time_text t old : marshalable_time t = true -> d_time (TStr (rfc3339 t)) old = (t, true).
Proof. intros H. cbn [d_time]. by rewrite parse_rfc3339_print. Qed.
Lemma d_string_text s old : d_string (TStr (literal s)) old = (coerce s, true).
Proof. cbn [d_string]. by rewrite unquote_literal. Qed.
Lemma d_int_text n old : -9223372036854775808 <= n <= 9223372036854775807 ->
  d_int (TNum (format_int n)) old = (n, true).
Proof. intros H. cbn [d_int]. by rewrite parse_format_int. Qed.

(** ** Structs *)

Definition struct_fold {A} (fields : list (string * decoder A)) (ms : list (string * jtext)) (x : A * bool)
  : A * bool :=
  fold_left (fun '(a, ok) '(k, v) =>
    match find_field fields (unquote k) with
    | Some d => let '(a, ok') := d v a in (a, ok && ok')
    | None => (a, ok)
    end) ms x.

Lemma struct_member {A} (fields : list (string * decoder A)) k v ms (a : A) d :
  find_field fields k = Some d -> coerce k = k ->
  struct_fold fields ((literal k, v) :: ms) (a, true) = struct_fold fields ms (d v a).
Proof.
  intros Hd Hk. unfold struct_fold. cbn [fold_left]. rewrite unquote_literal, Hk, Hd.
  by destruct (d v a).
Qed.
