(* ===== verification/Segment.v ===== *)
(** Immutable segments of the public chat archive
    (src/query/archive/segment.go): rows as lines of JSON, compressed, under
    the SHA-256 of their bytes; and the references to their objects
    (object_store.go). What [compress/gzip] makes of a text is a parameter.
    A segment decodes to the rows it was built from. *)
From S2P Require Import Prelude GoLib Sha256 Json GoText GoTime.
From S2P Require Import JsonText JsonRound.

Definition MaxSegmentRows : Z := 1000.
Definition MaxSegmentPlainBytes : Z := 16777216.
Definition MaxSegmentGzipBytes : Z := 16777216.
Definition ErrSegmentTooLarge : error := ErrMsg "archive segment size limit".

Record ChatRow := MkRow {
  SessionID : string;
  Position : Z;
  EventID : string;
  ReceivedAt : Z;
  UserIDVersion : Z;
  PublicUserID : string;
  DisplayName : string;
  Message : string
}.
#[export] Instance ChatRow_eq_dec : EqDecision ChatRow.
Proof. solve_decision. Defined.

Record Segment := MkSegment {
  Body : string;
  SHA256 : string;
  sg_SessionID : string;
  FirstPosition : Z;
  LastPosition : Z;
  sg_Count : Z
}.

Definition object_key (session : string) (first last : Z) (sum : string) : string :=
  "v1/soop/h66rogi/" +:+ session +:+ "/" +:+ format_int first +:+ "-" +:+ format_int last
    +:+ "-" +:+ sum +:+ ".jsonl.gz".
Definition ObjectKey (s : Segment) : string :=
  object_key (sg_SessionID s) (FirstPosition s) (LastPosition s) (SHA256 s).

(** ** One row *)

Definition row_json (r : ChatRow) : json :=
  JObj [("sessionId", JStr (SessionID r)); ("position", JNum (Position r));
        ("eventId", JStr (EventID r)); ("receivedAt", JTime (ReceivedAt r));
        ("userIdVersion", JNum (UserIDVersion r)); ("publicUserId", JStr (PublicUserID r));
        ("displayName", JStr (DisplayName r)); ("message", JStr (Message r))]%string.
Definition marshal_row (r : ChatRow) : result string :=
  if marshalable_time (ReceivedAt r) then Ok (render (row_json r)) else Err (ErrMsg "json: time").

Definition zero_row : ChatRow :=
  MkRow EmptyString 0 EmptyString zero_time 0 EmptyString EmptyString EmptyString.

(** [int16] *)
Definition d_int16 : decoder Z := fun t old =>
  let '(n, ok) := d_int t old in
  if ok && (-32768 <=? n) && (n <=? 32767) then (n, true) else (old, false).

Definition row_fields : list (string * decoder ChatRow) :=
  [member "sessionId" SessionID (fun x r => MkRow x (Position r) (EventID r) (ReceivedAt r)
     (UserIDVersion r) (PublicUserID r) (DisplayName r) (Message r)) d_string;
   member "position" Position (fun x r => MkRow (SessionID r) x (EventID r) (ReceivedAt r)
     (UserIDVersion r) (PublicUserID r) (DisplayName r) (Message r)) d_int;
   member "eventId" EventID (fun x r => MkRow (SessionID r) (Position r) x (ReceivedAt r)
     (UserIDVersion r) (PublicUserID r) (DisplayName r) (Message r)) d_string;
   member "receivedAt" ReceivedAt (fun x r => MkRow (SessionID r) (Position r) (EventID r) x
     (UserIDVersion r) (PublicUserID r) (DisplayName r) (Message r)) d_time;
   member "userIdVersion" UserIDVersion (fun x r => MkRow (SessionID r) (Position r) (EventID r)
     (ReceivedAt r) x (PublicUserID r) (DisplayName r) (Message r)) d_int16;
   member "publicUserId" PublicUserID (fun x r => MkRow (SessionID r) (Position r) (EventID r)
     (ReceivedAt r) (UserIDVersion r) x (DisplayName r) (Message r)) d_string;
   member "displayName" DisplayName (fun x r => MkRow (SessionID r) (Position r) (EventID r)
     (ReceivedAt r) (UserIDVersion r) (PublicUserID r) x (Message r)) d_string;
   member "message" Message (fun x r => MkRow (SessionID r) (Position r) (EventID r)
     (ReceivedAt r) (UserIDVersion r) (PublicUserID r) (DisplayName r) x) d_string]%string.

Definition newline : string := String "010"%char EmptyString.

Section Codec.
(** [uuid.Parse] without an error; the bytes [gzip.Writer] produces for a
    text; what [gzip.NewReader] finds: no header, or the bytes it
    decompresses and whether their end was reached without an error. *)
Context (uuid_ok : string -> bool) (gzip : string -> string) (gunzip : string -> option (string * bool)).

(** ** Build *)

Fixpoint build_lines (session : string) (previous : Z) (plain : string) (rows : list ChatRow)
  : result (string * Z) :=
  match rows with
  | [] => Ok (plain, previous)
  | row :: rows =>
      if negb (String.eqb (SessionID row) session) || (Position row <=? previous)
         || is_empty (EventID row) || is_zero_time (ReceivedAt row)
      then Err (ErrMsg "unordered or invalid archive rows")
      else
        line ← marshal_row row;
        if MaxSegmentPlainBytes <? lenZ plain + lenZ line + 1 then Err ErrSegmentTooLarge
        else build_lines session (Position row) (plain +:+ line +:+ newline) rows
  end.

Definition Build (rows : list ChatRow) : result Segment :=
  match rows with
  | [] => Err (ErrMsg "invalid segment row count")
  | first :: _ =>
      if MaxSegmentRows <? Z.of_nat (length rows) then Err (ErrMsg "invalid segment row count")
      else if negb (uuid_ok (SessionID first)) || (Position first <=? 0)
      then Err (ErrMsg "invalid first archive row")
      else
        x ← build_lines (SessionID first) 0 EmptyString rows;
        let body := gzip x.1 in
        if MaxSegmentGzipBytes <? lenZ body then Err ErrSegmentTooLarge
        else Ok (MkSegment body (sum_hex body) (SessionID first) (Position first) x.2
                   (Z.of_nat (length rows)))
  end.

(** ** Decode *)

(** The rows the decoder has read, and the last position. *)
Fixpoint decode_rows (fuel : nat) (s : Segment) (plain : string) (rows : list ChatRow) (previous : Z)
  : result (list ChatRow * Z) :=
  match fuel with
  | O => Err (ErrMsg "fuel")
  | S f =>
      if is_empty (skip_ws plain) then Ok (rows, previous)
      else match p_value (2 * String.length plain + 2) 10000 plain with
      | None => Err (ErrMsg "decode archive row")
      | Some (t, rest) =>
          let '(row, ok) := d_struct row_fields t zero_row in
          if negb ok then Err (ErrMsg "decode archive row")
          else if negb (String.eqb (SessionID row) (sg_SessionID s)) || (Position row <=? previous)
                  || is_empty (EventID row) || is_zero_time (ReceivedAt row)
          then Err (ErrMsg "segment row identity or order mismatch")
          else if sg_Count s <? Z.of_nat (length (rows ++ [row]))
          then Err (ErrMsg "segment row count exceeded")
          else decode_rows f s rest (rows ++ [row]) (Position row)
      end
  end.

(** [io.ReadAll(io.LimitReader(reader, n))]: an error beyond the limit is not seen. *)
Definition read_limited (n : Z) (x : string * bool) : result string :=
  if lenZ x.1 <? n then if x.2 then Ok x.1 else Err (ErrMsg "unexpected EOF")
  else Ok (str_take (Z.to_nat n) x.1).

Definition Decode (s : Segment) : result (list ChatRow) :=
  if negb (uuid_ok (sg_SessionID s)) || is_empty (Body s) || (MaxSegmentGzipBytes <? lenZ (Body s))
     || (sg_Count s <? 1) || (MaxSegmentRows <? sg_Count s) || (FirstPosition s <=? 0)
     || (LastPosition s <? FirstPosition s)
  then Err (ErrMsg "invalid segment metadata")
  else if negb (String.eqb (sum_hex (Body s)) (SHA256 s)) then Err (ErrMsg "segment checksum mismatch")
  else
    reader ← of_option (ErrMsg "gzip: invalid header") (gunzip (Body s));
    plain ← read_limited (MaxSegmentPlainBytes + 1) reader;
    if MaxSegmentPlainBytes <? lenZ plain then Err (ErrMsg "segment decompression limit")
    else
      x ← decode_rows (S (String.length plain)) s plain [] 0;
      match x.1 with
      | first :: _ =>
          if negb (Z.of_nat (length x.1) =? sg_Count s) || negb (Position first =? FirstPosition s)
             || negb (x.2 =? LastPosition s)
          then Err (ErrMsg "segment range or count mismatch") else Ok x.1
      | [] => Err (ErrMsg "segment range or count mismatch")
      end.
End Codec.

(** ** Objects *)

Definition lower_hex (c : Ascii.ascii) : bool :=
  is_digit c || existsb (Ascii.eqb c) ["a"; "b"; "c"; "d"; "e"; "f"]%char.

(** [objectKeyPattern], part by part. *)
Definition match_key (key : string) : bool :=
  let p := "v1/soop/h66rogi/"%string in
  has_prefix key p &&
  let r := str_drop (String.length p) key in
  let id := str_take 36 r in
  (String.length id =? 36)%nat && all_chars (fun c => lower_hex c || Ascii.eqb c "-") id &&
  match str_drop 36 r with
  | String "/"%char r =>
      let x := p_digits r in
      negb (is_empty x.1) &&
      match x.2 with
      | String "-"%char r =>
          let x := p_digits r in
          negb (is_empty x.1) &&
          match x.2 with
          | String "-"%char r =>
              let sum := str_take 64 r in
              (String.length sum =? 64)%nat && all_chars lower_hex sum
              && String.eqb (str_drop 64 r) ".jsonl.gz"
          | _ => false
          end
      | _ => false
      end
  | _ => false
  end.

(** [hex.DecodeString] succeeds with [n] bytes. *)
Definition hex_bytes (n : nat) (s : string) : bool :=
  (String.length s =? 2 * n)%nat && all_chars is_hex s.

Definition validObject (key checksum : string) : bool :=
  match_key key && has_suffix key ("-" +:+ checksum +:+ ".jsonl.gz")
  && (lenZ checksum =? 64) && hex_bytes 32 checksum.

Example valid_object_example :
  let sum := sum_hex "x" in
  let key := object_key "0a1b2c3d-0000-4000-8000-00000000000f" 3 17 sum in
  validObject key sum = true /\ validObject (key +:+ "x") sum = false /\
  validObject key (sum_hex "y") = false.
Proof. vm_compute. done. Qed.

(** Texts the encoder keeps, integers within their Go types. *)
Definition row_ok (r : ChatRow) : bool :=
  forallb valid_utf8 [SessionID r; EventID r; PublicUserID r; DisplayName r; Message r]
  && (-9223372036854775808 <=? Position r) && (Position r <=? 9223372036854775807)
  && (-32768 <=? UserIDVersion r) && (UserIDVersion r <=? 32767).

(** ** One row *)

Lemma d_int16_text n old : -32768 <= n <= 32767 -> d_int16 (TNum (format_int n)) old = (n, true).
Proof.
  intros H. unfold d_int16. rewrite d_int_text by lia.
  by replace (-32768 <=? n) with true by (symmetry; lia);
    replace (n <=? 32767) with true by (symmetry; lia).
Qed.

Lemma decode_row r : row_ok r = true -> marshalable_time (ReceivedAt r) = true ->
  d_struct row_fields (text_of (row_json r)) zero_row = (r, true).
Proof.
  unfold row_ok. cbn [forallb]. intros H Ht. b2p.
  change (struct_fold row_fields
    [(literal "sessionId", TStr (literal (SessionID r))); (literal "position", TNum (format_int (Position r)));
     (literal "eventId", TStr (literal (EventID r))); (literal "receivedAt", TStr (rfc3339 (ReceivedAt r)));
     (literal "userIdVersion", TNum (format_int (UserIDVersion r)));
     (literal "publicUserId", TStr (literal (PublicUserID r)));
     (literal "displayName", TStr (literal (DisplayName r)));
     (literal "message", TStr (literal (Message r)))] (zero_row, true) = (r, true)).
  repeat (erewrite struct_member; [|reflexivity|vm_compute; reflexivity]; 
    cbn [member snd SessionID Position EventID ReceivedAt UserIDVersion PublicUserID DisplayName Message];
    rewrite ?d_string_text, ?d_time_text, ?d_int16_text, ?d_int_text by (done || lia)).
  unfold struct_fold; cbn. rewrite !coerce_valid by done. by destruct r.
Qed.

(** ** The lines of a segment *)

Definition line (r : ChatRow) : string := render (row_json r) +:+ newline.
Definition lines (rows : list ChatRow) : string := fold_right (fun r s => line r +:+ s) EmptyString rows.

(** What [Build] checks of each row. *)
Definition row_fits (session : string) (r : ChatRow) : Prop :=
  SessionID r = session /\ EventID r <> EmptyString /\ ReceivedAt r <> zero_time /\
  marshalable_time (ReceivedAt r) = true.

(** Strictly increasing from [p]. *)
Fixpoint ascending (p : Z) (rows : list ChatRow) : Prop :=
  match rows with [] => True | r :: rows => p < Position r /\ ascending (Position r) rows end.
Definition last_position (p : Z) (rows : list ChatRow) : Z := fold_left (fun _ r => Position r) rows p.

Lemma last_ascending p rows : ascending p rows -> p <= last_position p rows.
Proof.
  revert p; induction rows as [|r rows IH]; intros p H; simpl in *; [lia|].
  destruct H as [H1 H2]. specialize (IH _ H2). unfold last_position in *. simpl. lia.
Qed.

Lemma build_lines_ok session rows p plain x : build_lines session p plain rows = Ok x ->
  x = (plain +:+ lines rows, last_position p rows) /\ ascending p rows /\ Forall (row_fits session) rows
  /\ (rows = [] \/ lenZ (plain +:+ lines rows) <= MaxSegmentPlainBytes).
Proof.
  revert p plain; induction rows as [|r rows IH]; intros p plain; cbn [build_lines].
  { intros [= <-]. change (lines []) with EmptyString. rewrite app_nil_str. cbn. auto. }
  unfold marshal_row.
  destruct (_ || _) eqn:E; [done|]. b2p. destruct (marshalable_time (ReceivedAt r)) eqn:Et; [|done].
  cbn [mbind result_bind]. destruct (_ <? _) eqn:El; [done|]. b2p.
  intros HB. apply IH in HB as (-> & Ha & Hf & Hl).
  assert (row_fits session r) as Hr.
  { split; [done|]. split; [by apply is_empty_false|]. split; [|done].
    unfold is_zero_time in *. lia. }
  change (lines (r :: rows)) with (line r +:+ lines rows). unfold line.
  rewrite !app_assoc_str. split; [done|]. split; [by split|]. split; [by constructor|]. right.
  destruct Hl as [-> |Hl].
  - rewrite !lenZ_app. change (lenZ newline) with 1. change (lenZ (lines [])) with 0. lia.
  - by rewrite !app_assoc_str in Hl.
Qed.

Lemma row_printable r : row_ok r = true -> marshalable_time (ReceivedAt r) = true ->
  printable (row_json r) = true.
Proof.
  unfold row_ok. cbn [forallb]. intros H Ht. b2p. unfold row_json. cbn [printable forallb].
  rewrite Ht. unfold small_number. cbn [andb].
  repeat (apply andb_true_iff; split); try done; apply Z.ltb_lt; lia.
Qed.

Lemma newline_value f d s : p_value (S f) d (newline +:+ s) = p_value (S f) d s.
Proof. done. Qed.

Lemma first_line r rows : printable (row_json r) = true ->
  is_empty (skip_ws (lines (r :: rows))) = false.
Proof.
  intros Hp. change (lines (r :: rows)) with (line r +:+ lines rows). unfold line. rewrite app_assoc_str.
  destruct (render_head (row_json r) (newline +:+ lines rows) Hp) as (c & x & -> & Hc).
  by rewrite skip_opens.
Qed.

Lemma value_line r rows : printable (row_json r) = true -> forall f,
  (String.length (lines (r :: rows)) < f)%nat ->
  p_value f 10000 (lines (r :: rows)) = Some (text_of (row_json r), newline +:+ lines rows).
Proof.
  intros Hp f Hf. change (lines (r :: rows)) with (line r +:+ lines rows) in *. unfold line in *.
  rewrite app_assoc_str in *. apply value_parses; [done|done| |done].
  rewrite app_length_str in Hf. lia.
Qed.

Lemma decode_rows_lines s rows : forall f pre acc p,
  (pre = EmptyString \/ pre = newline) -> (String.length (pre +:+ lines rows) < f)%nat ->
  ascending p rows -> Forall (row_fits (sg_SessionID s)) rows -> forallb row_ok rows = true ->
  Z.of_nat (length (acc ++ rows)) <= sg_Count s ->
  decode_rows f s (pre +:+ lines rows) acc p = Ok (acc ++ rows, last_position p rows).
Proof.
  induction rows as [|r rows IH]; intros f pre acc p Hpre Hf Ha Hfit Hok Hc;
    (destruct f as [|f]; [lia|]); cbn [decode_rows].
  { rewrite app_nil_r. by destruct Hpre as [-> | ->]. }
  apply Forall_cons in Hfit as [(Hs & He & Ht & Hm) Hfit]. cbn [forallb] in Hok.
  apply andb_true_iff in Hok as [Hr Hok]. destruct Ha as [Hp Ha].
  pose proof (row_printable r Hr Hm) as Hpr.
  assert (skip_ws (pre +:+ lines (r :: rows)) = skip_ws (lines (r :: rows))) as -> by by destruct Hpre as [-> | ->].
  rewrite first_line by done.
  assert (p_value (2 * String.length (pre +:+ lines (r :: rows)) + 2) 10000 (pre +:+ lines (r :: rows))
    = Some (text_of (row_json r), newline +:+ lines rows)) as ->.
  { rewrite app_length_str.
    replace (2 * (String.length pre + String.length (lines (r :: rows))) + 2)%nat
      with (S (2 * (String.length pre + String.length (lines (r :: rows))) + 1)) by lia.
    destruct Hpre as [-> | ->]; [|rewrite newline_value]; apply value_line; (done || simpl; lia). }
  cbv iota beta. rewrite decode_row by done. cbn [negb].
  rewrite Hs, String.eqb_refl. cbn [negb orb].
  replace (Position r <=? p) with false by (symmetry; lia).
  apply is_empty_false in He. rewrite He. unfold is_zero_time.
  replace (ReceivedAt r =? zero_time) with false by (symmetry; lia). cbn [orb].
  rewrite length_app in Hc. cbn [length] in Hc.
  replace (sg_Count s <? Z.of_nat (length (acc ++ [r]))) with false
    by (symmetry; apply Z.ltb_ge; rewrite length_app; change (length [r]) with 1%nat; lia).
  rewrite IH; [by rewrite <- app_assoc|by right| |done|done|done|].
  - change (lines (r :: rows)) with (line r +:+ lines rows) in Hf. unfold line in Hf.
    rewrite !app_length_str in *.
    assert (1 <= String.length (render (row_json r)))%nat by (unfold row_json; cbn [render]; rewrite app_length_str; simpl; lia).
    lia.
  - rewrite !length_app in *. simpl in *. lia.
Qed.

(** Comparisons that come out false or true. *)
Ltac compare := first [apply Z.ltb_ge; lia|apply Z.leb_gt; lia|apply Z.ltb_lt; lia|apply Z.leb_le; lia].

Lemma bind_Ok {A B} (k : A -> result B) a : (Ok a ≫= k) = k a.
Proof. done. Qed.
Lemma read_limited_all n s : lenZ s < n -> read_limited n (s, true) = Ok s.
Proof. intros H. unfold read_limited. cbn [fst snd]. by replace (lenZ s <? n) with true by (symmetry; compare). Qed.

(** ** The round trip *)

Section Laws.
Context (uuid_ok : string -> bool) (gzip : string -> string) (gunzip : string -> option (string * bool)).
(** A compressed text decompresses to itself; nothing is no compressed text. *)
Definition gzip_laws : Prop := (forall s, gunzip (gzip s) = Some (s, true)) /\ gunzip EmptyString = None.

(** What [Build] promises of a segment. *)
Lemma Build_ok rows s : Build uuid_ok gzip rows = Ok s ->
  exists first rest, rows = first :: rest /\ uuid_ok (SessionID first) = true /\
  s = MkSegment (gzip (lines rows)) (sum_hex (gzip (lines rows))) (SessionID first) (Position first)
        (last_position 0 rows) (Z.of_nat (length rows)) /\
  0 < Position first /\ Z.of_nat (length rows) <= MaxSegmentRows /\ ascending 0 rows /\
  Forall (row_fits (SessionID first)) rows /\ lenZ (gzip (lines rows)) <= MaxSegmentGzipBytes /\
  lenZ (lines rows) <= MaxSegmentPlainBytes.
Proof.
  unfold Build. destruct rows as [|first rest]; [done|]. set (rows := first :: rest).
  destruct (MaxSegmentRows <? _) eqn:E1; [done|]. destruct (_ || _) eqn:E2; [done|]. b2p.
  destruct (build_lines (SessionID first) 0 EmptyString rows) as [x|] eqn:E3; [|done].
  cbn [mbind result_bind]. apply build_lines_ok in E3 as (-> & Ha & Hf & Hl).
  change (EmptyString +:+ lines rows) with (lines rows) in *. cbn [fst snd].
  destruct (MaxSegmentGzipBytes <? _) eqn:E4; [done|]. b2p. intros [= <-].
  exists first, rest. destruct Hl as [Hl|Hl]; [done|]. repeat (split; [done|]). done.
Qed.

Theorem Decode_Build rows s : gzip_laws -> forallb row_ok rows = true ->
  Build uuid_ok gzip rows = Ok s -> Decode uuid_ok gunzip s = Ok rows.
Proof.
  intros [Hg H0] Hok HB.
  destruct (Build_ok rows s HB) as (first & rest & -> & Hu & -> & Hp & Hn & Ha & Hf & Hz & Hl).
  remember (first :: rest) as rows eqn:Er. remember (gzip (lines rows)) as body eqn:Eb.
  remember (sum_hex body) as sum eqn:Es. remember (lines rows) as plain eqn:Epl. unfold Decode.
  cbn [sg_SessionID Body sg_Count FirstPosition LastPosition SHA256].
  assert (is_empty body = false) as He.
  { apply is_empty_false. intros E. specialize (Hg plain). rewrite <- Eb, E, H0 in Hg. done. }
  assert (Position first <= last_position 0 rows) as Hlast.
  { rewrite Er in Ha |- *. exact (last_ascending _ rest (proj2 Ha)). }
  assert (1 <= Z.of_nat (length rows)) as H1 by (rewrite Er; cbn [length]; lia).
  assert (decode_rows (S (String.length plain))
    (MkSegment body sum (SessionID first) (Position first) (last_position 0 rows) (Z.of_nat (length rows)))
    plain [] 0 = Ok (rows, last_position 0 rows)) as Hd.
  { rewrite Epl. apply (decode_rows_lines _ rows _ EmptyString [] 0); try done; [by left|].
    change (EmptyString +:+ lines rows) with (lines rows). lia. }
  rewrite Hu, He. cbn [negb orb].
  replace (MaxSegmentGzipBytes <? _) with false by (symmetry; compare).
  replace (Z.of_nat (length rows) <? 1) with false by (symmetry; compare).
  replace (MaxSegmentRows <? Z.of_nat (length rows)) with false by (symmetry; compare).
  replace (Position first <=? 0) with false by (symmetry; compare).
  replace (last_position 0 rows <? Position first) with false by (symmetry; compare).
  cbn [orb]. rewrite <- Es, String.eqb_refl. cbn [negb].
  rewrite Eb, Hg. change (of_option (ErrMsg "gzip: invalid header") (Some (plain, true))) with (Ok (plain, true)).
  rewrite bind_Ok, read_limited_all, bind_Ok by lia.
  replace (MaxSegmentPlainBytes <? lenZ plain) with false by (symmetry; compare).
  rewrite <- Eb, Hd, bind_Ok. cbn [fst snd]. rewrite Er at 1.
  by rewrite !Z.eqb_refl.
Qed.
End Laws.
