(* ===== verification/GoFloat.v ===== *)
(** Go's [float64] where the program reads or prints one: [strconv.ParseFloat],
    the conversion to [int64] and [%.2f]. Values are [spec_float]s of format
    53, 1024, correctly rounded as Go's are. *)
From S2P Require Import Prelude GoLib Json GoText JsonText.
From Stdlib Require Import SpecFloat.

(** [m / n] for positive integers, rounded once. *)
Definition round_ratio (neg : bool) (m n : positive) : spec_float :=
  let '(q, e, l) := SFdiv_core_binary 53 1024 (Zpos m) 0 (Zpos n) 0 in
  binary_round_aux 53 1024 neg q e l.

(** [±m * 10^e] *)
Definition of_decimal (neg : bool) (m e : Z) : spec_float :=
  match m with
  | Zpos p =>
      if 0 <=? e then binary_normalize 53 1024 (if neg then - (m * 10 ^ e) else m * 10 ^ e) 0 neg
      else match 10 ^ (- e) with Zpos d => round_ratio neg p d | _ => S754_zero neg end
  | _ => S754_zero neg
  end.
(** [±m * 2^e] *)
Definition of_binary (neg : bool) (m e : Z) : spec_float :=
  binary_normalize 53 1024 (if neg then - m else m) e neg.

(** ** [strconv.ParseFloat(s, 64)] *)

(** Underscores only between digits, or after a base prefix. *)
Fixpoint underscores (hex : bool) (saw : Ascii.ascii) (s : string) : bool :=
  match s with
  | EmptyString => negb (Ascii.eqb saw "_"%char)
  | String c r =>
      if is_digit c || (hex && is_hex c) then underscores hex "0"%char r
      else if Ascii.eqb c "_"%char then Ascii.eqb saw "0"%char && underscores hex "_"%char r
      else negb (Ascii.eqb saw "_"%char) && underscores hex "!"%char r
  end.
Definition after_sign (s : string) : bool * string :=
  match s with
  | String "-"%char r => (true, r)
  | String "+"%char r => (false, r)
  | _ => (false, s)
  end.
Definition is_base (c : Ascii.ascii) (l : string) : bool :=
  match str_index l (String (lower_ascii c) EmptyString) with Some _ => true | None => false end.
Definition underscore_ok (s : string) : bool :=
  match (after_sign s).2 with
  | String "0"%char (String b r) =>
      if is_base b "box" then underscores (is_base b "x") "0"%char r
      else underscores false "^"%char (after_sign s).2
  | r => underscores false "^"%char r
  end.

(** Mantissa, digits after the point, whether a digit was seen, the rest. *)
Fixpoint read_mantissa (base : Z) (s : string) (m : Z) (dot seen : bool) (after : Z)
  : Z * Z * bool * string :=
  match s with
  | String c r =>
      let dig := if base =? 16 then hex_val c else if is_digit c then Some (digit_val c) else None in
      match dig with
      | Some d => read_mantissa base r (m * base + d) dot true (if dot then after + 1 else after)
      | None => if Ascii.eqb c "."%char && negb dot then read_mantissa base r m true seen after
                else (m, after, seen, s)
      end
  | EmptyString => (m, after, seen, s)
  end.

Fixpoint read_exponent (s : string) (e : Z) : Z * string :=
  match s with
  | String c r => if is_digit c then read_exponent r (if e <? 10000 then e * 10 + digit_val c else e)
                  else (e, s)
  | EmptyString => (e, s)
  end.
Definition exponent (mark : Ascii.ascii) (s : string) : option (option Z * string) :=
  match s with
  | String c r =>
      if Ascii.eqb (lower_ascii c) mark then
        let '(neg, r) := after_sign r in
        match r with
        | String d _ =>
            if is_digit d then
              let '(e, r) := read_exponent r 0 in Some (Some (if neg then - e else e), r)
            else None
        | EmptyString => None
        end
      else Some (None, s)
  | EmptyString => Some (None, s)
  end.

Definition special (s : string) : option spec_float :=
  let '(neg, r) := after_sign s in
  let r := to_lower r in
  if String.eqb r "inf" || String.eqb r "infinity" then Some (S754_infinity neg)
  else if String.eqb (to_lower s) "nan" then Some S754_nan else None.

(** The number a text that is no special writes; an overflow is the infinity
    [ParseFloat] returns with its range error. *)
Definition float_value (s : string) : option spec_float :=
  if contains s "_" && negb (underscore_ok s) then None else
  let '(neg, r) := after_sign (remove_byte "_"%char s) in
  let '(base, r) :=
    match r with
    | String "0"%char (String x r') => if Ascii.eqb (lower_ascii x) "x"%char then (16, r') else (10, r)
    | _ => (10, r)
    end in
  let '(m, after, seen, r) := read_mantissa base r 0 false false 0 in
  if negb seen then None else
  x ← exponent (if base =? 16 then "p"%char else "e"%char) r;
  let '(e, r) := x in
  if negb (is_empty r) then None else
  if (base =? 16) && bool_decide (e = None) then None else
  Some (if base =? 16 then of_binary neg m (default 0 e - 4 * after)
        else of_decimal neg m (default 0 e - after)).

(** [None] is an error: the syntax, or a value out of range. *)
Definition parse_float (s : string) : option spec_float :=
  match special s with
  | Some f => Some f
  | None => match float_value s with Some (S754_infinity _) | None => None | f => f end
  end.
(** The value when the error is ignored. *)
Definition parse_float_value (s : string) : spec_float :=
  match special s with Some f => f | None => default (S754_zero false) (float_value s) end.

(** ** Conversions *)

(** The truncated value of a finite float. *)
Definition truncate (f : spec_float) : option Z :=
  match f with
  | S754_zero _ => Some 0
  | S754_finite neg m e =>
      let v := if 0 <=? e then Zpos m * 2 ^ e else Zpos m / 2 ^ (- e) in
      Some (if neg then - v else v)
  | _ => None
  end.
(** [int64(f)]; out of range, what amd64 computes. *)
Definition float_to_int64 (f : spec_float) : Z :=
  match truncate f with
  | Some n => if (-9223372036854775808 <=? n) && (n <=? 9223372036854775807) then n
              else -9223372036854775808
  | None => -9223372036854775808
  end.

(** Hundredths of a positive finite float, ties to even. *)
Definition hundredths (m : positive) (e : Z) : Z :=
  if 0 <=? e then Zpos m * 2 ^ e * 100
  else let n := Zpos m * 100 in
       let d := 2 ^ (- e) in
       let q := n / d in
       let r := n mod d in
       if (d <? 2 * r) || ((d =? 2 * r) && Z.odd q) then q + 1 else q.
(** [fmt.Sprintf("%.2f", f)] *)
Definition sprintf_2f (f : spec_float) : string :=
  let fixed n := num_fuel 320 (n / 100) EmptyString +:+ "." +:+ padn 2 (n mod 100) in
  match f with
  | S754_zero neg => (if neg then "-" else EmptyString) +:+ "0.00"
  | S754_infinity neg => if neg then "-Inf" else "+Inf"
  | S754_nan => "NaN"
  | S754_finite neg m e => (if neg then "-" else EmptyString) +:+ fixed (hundredths m e)
  end.

Example parse_float_examples :
  map (fun s => sprintf_2f <$> parse_float s)
    ["12"; "-0.125"; "1_0.5"; "1__0"; "1e400"; "0x1.8p1"; "abc"; ""; "2.675"; ".5"; "1e"]%string =
  map (fun x => if is_empty x then None else Some x)
    ["12.00"; "-0.12"; "10.50"; ""; ""; "3.00"; ""; ""; "2.67"; "0.50"; ""]%string.
Proof. vm_compute. reflexivity. Qed.

Example float_to_int64_examples :
  map (fun s => float_to_int64 (default S754_nan (parse_float s))) ["123.9"; "-3.99"; "1e30"; "nan"]%string
  = [123; -3; -9223372036854775808; -9223372036854775808].
Proof. vm_compute. reflexivity. Qed.
