(* ===== verification/Tx.v ===== *)
(** Database access: the state-passing monad in which the store's methods
    run. A [world] holds the committed database, the working copy of the
    open transaction and a counter of round trips; the environment says, per
    round trip, what the clocks read, which identifier is generated, whether
    the driver reports a failure and, when it does, whether the server had
    done its part all the same: only the reply was lost. [tx.Begin] takes the working copy,
    only [tx.Commit] publishes it, so the deferred [tx.Rollback] is implicit. *)
From S2P Require Import Prelude.

Record env := Env {
  driver_fails : nat -> bool;   (* the round trip fails: network, timeout, constraint *)
  applied : nat -> bool;        (* if it fails: the server had carried it out *)
  clock : nat -> Z;             (* the server's clock_timestamp(), one reading per statement *)
  wall : nat -> Z;              (* time.Now() of the calling process *)
  fresh : nat -> string         (* uuid.NewString() *)
}.

Record world (DB : Type) := World { db : DB; wk : DB; tick : nat }.
Arguments World {DB} db wk tick.
Arguments db {DB} w.
Arguments wk {DB} w.
Arguments tick {DB} w.

Definition M (DB A : Type) : Type := env -> world DB -> result A * world DB.

Section Operations.
Context {DB : Type}.

#[export] Instance M_ret : MRet (M DB) := fun A a e s => (Ok a, s).
#[export] Instance M_bind : MBind (M DB) := fun A B k m e s =>
  match m e s with
  | (Ok a, s) => k a e s
  | (Err x, s) => (Err x, s)
  end.

Definition fail {A} (x : error) : M DB A := fun _ s => (Err x, s).
Definition guard_ok (c : bool) (x : error) : M DB unit := if c then mret tt else fail x.
Definition lift {A} (r : result A) : M DB A :=
  match r with Ok a => mret a | Err x => fail x end.
(** The error as a value, for the code that inspects it. *)
Definition try {A} (m : M DB A) : M DB (result A) := fun e s =>
  let '(r, s) := m e s in (Ok r, s).

Definition bump (s : world DB) : world DB := World (db s) (wk s) (S (tick s)).

(** [time.Now()] and [uuid.NewString()]. *)
Definition time_now : M DB Z := fun e s => (Ok (wall e (tick s)), bump s).
Definition new_uuid : M DB string := fun e s => (Ok (fresh e (tick s)), bump s).

Definition tx_begin : M DB unit := fun e s =>
  if driver_fails e (tick s) then (Err ErrDriver, bump s)
  else (Ok tt, World (db s) (db s) (S (tick s))).

(** A statement in the open transaction that reads. *)
Definition tx_query {A} (f : Z -> DB -> result A) : M DB A := fun e s =>
  if driver_fails e (tick s) then (Err ErrDriver, bump s)
  else (f (clock e (tick s)) (wk s), bump s).

(** A statement in the open transaction that writes. *)
Definition tx_exec {A} (f : Z -> DB -> result (A * DB)) : M DB A := fun e s =>
  if driver_fails e (tick s) then (Err ErrDriver, bump s)
  else match f (clock e (tick s)) (wk s) with
       | Ok (a, d) => (Ok a, World (db s) d (S (tick s)))
       | Err x => (Err x, bump s)
       end.

Definition tx_commit : M DB unit := fun e s =>
  let done := World (wk s) (wk s) (S (tick s)) in
  if driver_fails e (tick s) then (Err ErrDriver, if applied e (tick s) then done else bump s)
  else (Ok tt, done).

(** Statements outside a transaction commit by themselves. *)
Definition pool_query {A} (f : Z -> DB -> result A) : M DB A := fun e s =>
  if driver_fails e (tick s) then (Err ErrDriver, bump s)
  else (f (clock e (tick s)) (db s), bump s).

Definition pool_exec {A} (f : Z -> DB -> result (A * DB)) : M DB A := fun e s =>
  match f (clock e (tick s)) (db s) with
  | Ok (a, d) =>
      let done := World d (wk s) (S (tick s)) in
      if driver_fails e (tick s) then (Err ErrDriver, if applied e (tick s) then done else bump s)
      else (Ok a, done)
  | Err x => (Err (if driver_fails e (tick s) then ErrDriver else x), bump s)
  end.

(** A call of the operating system, on a file or a socket: it reports what it
    did, an error that it did nothing. *)
Definition sys_exec {A} (f : Z -> DB -> result (A * DB)) : M DB A := fun e s =>
  if driver_fails e (tick s) then (Err ErrDriver, bump s)
  else match f (clock e (tick s)) (db s) with
       | Ok (a, d) => (Ok a, World d (wk s) (S (tick s)))
       | Err x => (Err x, bump s)
       end.

(** ** Inversion of successful runs *)

#[local] Ltac crush :=
  split; [intros; simplify_eq/=; eauto | intros; destruct_ex; simplify_eq/=; try done; try congruence; eauto].

Lemma bind_ok {A B} (m : M DB A) (k : A -> M DB B) e s b s' :
  (m ≫= k) e s = (Ok b, s') <->
  exists a s1, m e s = (Ok a, s1) /\ k a e s1 = (Ok b, s').
Proof.
  unfold mbind, M_bind. destruct (m e s) as [[a|x] s1]; crush.
Qed.

Lemma bind_inv {A B} (m : M DB A) (k : A -> M DB B) e s r s' :
  (m ≫= k) e s = (r, s') ->
  (exists a s1, m e s = (Ok a, s1) /\ k a e s1 = (r, s')) \/
  (exists x, m e s = (Err x, s') /\ r = Err x).
Proof.
  unfold mbind, M_bind. destruct (m e s) as [[a|x] s1]; [eauto|].
  intros [= <- <-]. eauto.
Qed.

Lemma ret_ok {A} (a b : A) e (s s' : world DB) :
  (mret a : M DB A) e s = (Ok b, s') <-> a = b /\ s = s'.
Proof. unfold mret, M_ret. crush. Qed.

Lemma fail_ok {A} x e (s s' : world DB) (b : A) : fail x e s = (Ok b, s') <-> False.
Proof. unfold fail. crush. Qed.

Lemma guard_ok_ok c x e (s s' : world DB) u :
  guard_ok c x e s = (Ok u, s') <-> c = true /\ s = s'.
Proof. unfold guard_ok, fail, mret, M_ret. destruct c, u; crush. Qed.

Lemma lift_ok {A} (r : result A) e (s s' : world DB) a :
  lift r e s = (Ok a, s') <-> r = Ok a /\ s = s'.
Proof. unfold lift, fail, mret, M_ret. destruct r; crush. Qed.

Lemma try_ok {A} (m : M DB A) e s r s' : try m e s = (Ok r, s') <-> m e s = (r, s').
Proof. unfold try. destruct (m e s). crush. Qed.

Lemma time_now_ok e (s s' : world DB) t :
  time_now e s = (Ok t, s') <-> wall e (tick s) = t /\ bump s = s'.
Proof. unfold time_now. crush. Qed.

Lemma new_uuid_ok e (s s' : world DB) t :
  new_uuid e s = (Ok t, s') <-> fresh e (tick s) = t /\ bump s = s'.
Proof. unfold new_uuid. crush. Qed.

Lemma tx_begin_ok e (s s' : world DB) u :
  tx_begin e s = (Ok u, s') <->
  driver_fails e (tick s) = false /\ s' = World (db s) (db s) (S (tick s)).
Proof. unfold tx_begin. destruct (driver_fails e (tick s)), u; crush. Qed.

Lemma tx_query_ok {A} (f : Z -> DB -> result A) e s a s' :
  tx_query f e s = (Ok a, s') <->
  driver_fails e (tick s) = false /\ f (clock e (tick s)) (wk s) = Ok a /\ s' = bump s.
Proof. unfold tx_query. destruct (driver_fails e (tick s)); crush. Qed.

Lemma tx_exec_ok {A} (f : Z -> DB -> result (A * DB)) e s a s' :
  tx_exec f e s = (Ok a, s') <->
  driver_fails e (tick s) = false /\
  exists d, f (clock e (tick s)) (wk s) = Ok (a, d) /\ s' = World (db s) d (S (tick s)).
Proof.
  unfold tx_exec. destruct (driver_fails e (tick s)); [crush|].
  destruct (f _ _) as [[? ?]|]; crush.
Qed.

Lemma tx_commit_ok e (s s' : world DB) u :
  tx_commit e s = (Ok u, s') <->
  driver_fails e (tick s) = false /\ s' = World (wk s) (wk s) (S (tick s)).
Proof. unfold tx_commit. destruct (driver_fails e (tick s)), u; crush. Qed.

Lemma pool_query_ok {A} (f : Z -> DB -> result A) e s a s' :
  pool_query f e s = (Ok a, s') <->
  driver_fails e (tick s) = false /\ f (clock e (tick s)) (db s) = Ok a /\ s' = bump s.
Proof. unfold pool_query. destruct (driver_fails e (tick s)); crush. Qed.

Lemma pool_exec_ok {A} (f : Z -> DB -> result (A * DB)) e s a s' :
  pool_exec f e s = (Ok a, s') <->
  driver_fails e (tick s) = false /\
  exists d, f (clock e (tick s)) (db s) = Ok (a, d) /\ s' = World d (wk s) (S (tick s)).
Proof.
  unfold pool_exec. destruct (f _ _) as [[? ?]|]; destruct (driver_fails e (tick s)); crush.
Qed.

Lemma sys_exec_ok {A} (f : Z -> DB -> result (A * DB)) e s a s' :
  sys_exec f e s = (Ok a, s') <->
  driver_fails e (tick s) = false /\
  exists d, f (clock e (tick s)) (db s) = Ok (a, d) /\ s' = World d (wk s) (S (tick s)).
Proof.
  unfold sys_exec. destruct (driver_fails e (tick s)); [crush|].
  destruct (f _ _) as [[? ?]|]; crush.
Qed.
Lemma sys_exec_err {A} (f : Z -> DB -> result (A * DB)) e s x s' :
  sys_exec f e s = (Err x, s') -> db s' = db s.
Proof.
  unfold sys_exec. destruct (driver_fails _ _); [by intros [= _ <-]|].
  destruct (f _ _) as [[? ?]|]; [done|by intros [= _ <-]].
Qed.
(** What a statement outside a transaction can leave behind. *)
Lemma pool_exec_after {A} (f : Z -> DB -> result (A * DB)) e s r s' : pool_exec f e s = (r, s') ->
  tick s' = S (tick s) /\
  (db s' = db s /\ (exists x, r = Err x) \/
   exists a d, f (clock e (tick s)) (db s) = Ok (a, d) /\ db s' = d /\
     (r = Ok a \/ r = Err ErrDriver /\ driver_fails e (tick s) = true /\ applied e (tick s) = true)).
Proof.
  unfold pool_exec. destruct (f _ _) as [[a d]|x]; [|intros [= <- <-]; eauto 10].
  destruct (driver_fails _ _); [destruct (applied _ _)|]; intros [= <- <-]; split; eauto 10.
Qed.

(** No reply is lost: what fails was not carried out. *)
Definition answered (e : env) : Prop := forall n, driver_fails e n = true -> applied e n = false.

(** ** Runs without driver failures *)

Definition no_failures (e : env) : Prop := forall n, driver_fails e n = false.

Lemma bind_run {A B} (m : M DB A) (k : A -> M DB B) e s a s1 :
  m e s = (Ok a, s1) -> (m ≫= k) e s = k a e s1.
Proof. intros H. unfold mbind, M_bind. by rewrite H. Qed.

Lemma lift_run {A B} (r : result A) (k : A -> M DB B) e s a :
  r = Ok a -> (lift r ≫= k) e s = k a e s.
Proof. by intros ->. Qed.
Lemma guard_run {B} c x (k : unit -> M DB B) e s :
  c = true -> (guard_ok c x ≫= k) e s = k tt e s.
Proof. by intros ->. Qed.
Lemma now_run {B} (k : Z -> M DB B) e s :
  (time_now ≫= k) e s = k (wall e (tick s)) e (bump s).
Proof. done. Qed.
Lemma uuid_run {B} (k : string -> M DB B) e s :
  (new_uuid ≫= k) e s = k (fresh e (tick s)) e (bump s).
Proof. done. Qed.
Lemma begin_run {B} (k : unit -> M DB B) e s : no_failures e ->
  (tx_begin ≫= k) e s = k tt e (World (db s) (db s) (S (tick s))).
Proof. intros H. unfold mbind, M_bind, tx_begin. by rewrite H. Qed.
Lemma query_run {A B} (f : Z -> DB -> result A) (k : A -> M DB B) e s a : no_failures e ->
  f (clock e (tick s)) (wk s) = Ok a -> (tx_query f ≫= k) e s = k a e (bump s).
Proof. intros H E. unfold mbind, M_bind, tx_query. by rewrite H, E. Qed.
Lemma pool_query_run {A B} (f : Z -> DB -> result A) (k : A -> M DB B) e s a : no_failures e ->
  f (clock e (tick s)) (db s) = Ok a -> (pool_query f ≫= k) e s = k a e (bump s).
Proof. intros H E. unfold mbind, M_bind, pool_query. by rewrite H, E. Qed.
Lemma exec_run {A B} (f : Z -> DB -> result (A * DB)) (k : A -> M DB B) e s a d :
  no_failures e -> f (clock e (tick s)) (wk s) = Ok (a, d) ->
  (tx_exec f ≫= k) e s = k a e (World (db s) d (S (tick s))).
Proof. intros H E. unfold mbind, M_bind, tx_exec. by rewrite H, E. Qed.
Lemma commit_run {B} (k : unit -> M DB B) e s : no_failures e ->
  (tx_commit ≫= k) e s = k tt e (World (wk s) (wk s) (S (tick s))).
Proof. intros H. unfold mbind, M_bind, tx_commit. by rewrite H. Qed.

(** ** Frames: what a computation leaves alone *)

(** Never touches the committed database. *)
Definition quiet {A} (m : M DB A) : Prop := forall e s, db (m e s).2 = db s.
(** The same environment, but for one round trip that does not fail. *)
Definition forgiving (n : nat) (e : env) : env :=
  Env (fun i => driver_fails e i && negb (i =? n)%nat) (applied e) (clock e) (wall e) (fresh e).
(** All or nothing: an error leaves the committed database alone, or it is a
    lost reply, and the database is what the run leaves that gets this reply. *)
Definition atomic {A} (m : M DB A) : Prop :=
  forall e s x s', m e s = (Err x, s') -> db s' = db s \/
    (x = ErrDriver /\ exists n a s1, (tick s <= n < tick s')%nat /\ driver_fails e n = true /\ applied e n = true /\
       m (forgiving n e) s = (Ok a, s1) /\ db s' = db s1 /\ tick s' = tick s1).
(** Looks at the round trips it makes, and at no later one. *)
Definition local {A} (m : M DB A) : Prop :=
  forall e s, (tick s <= tick (m e s).2)%nat /\
    forall n, (tick (m e s).2 <= n)%nat -> m (forgiving n e) s = m e s.
(** Keeps a predicate on the environment and the world, whatever it reports. *)
Definition keeps {A} (I : env -> world DB -> Prop) (m : M DB A) : Prop :=
  forall e s, I e s -> I e (m e s).2.
(** Time only moves forward. *)
Definition forward {A} (m : M DB A) : Prop := forall e s, (tick s <= tick (m e s).2)%nat.

Lemma quiet_atomic {A} (m : M DB A) : quiet m -> atomic m.
Proof. intros H e s x s' E. left. specialize (H e s). by rewrite E in H. Qed.

Lemma quiet_run {A} (m : M DB A) e s r s' : quiet m -> m e s = (r, s') -> db s' = db s.
Proof. intros H E. specialize (H e s). by rewrite E in H. Qed.

Lemma quiet_bind {A B} (m : M DB A) (k : A -> M DB B) :
  quiet m -> (forall a, quiet (k a)) -> quiet (m ≫= k).
Proof.
  intros Hm Hk e s. unfold mbind, M_bind. specialize (Hm e s).
  destruct (m e s) as [[a|x] s1]; simpl in *; [|done]. by rewrite Hk.
Qed.

Lemma local_bind {A B} (m : M DB A) (k : A -> M DB B) :
  local m -> (forall a, local (k a)) -> local (m ≫= k).
Proof.
  intros Hm Hk e s. unfold mbind, M_bind. destruct (Hm e s) as [Ht Hl].
  destruct (m e s) as [[a|x] s1]; cbn [snd] in *.
  - destruct (Hk a e s1) as [Ht' Hl']. split; [lia|]. intros n Hn.
    rewrite Hl by lia. by apply Hl'.
  - split; [done|]. intros n Hn. by rewrite Hl.
Qed.

Lemma atomic_bind {A B} (m : M DB A) (k : A -> M DB B) :
  quiet m -> local m -> (forall a, atomic (k a)) -> atomic (m ≫= k).
Proof.
  intros Hm Hl Hk e s x s'. unfold mbind, M_bind. specialize (Hm e s). destruct (Hl e s) as [Ht Hn].
  destruct (m e s) as [[a|y] s1]; cbn [snd] in *; [|intros [= -> <-]; auto].
  intros E. apply Hk in E as [E|(-> & n & b & s2 & Hle & Hf & Ha & E & Hd & Hs)]; [left; congruence|].
  right. split; [done|]. exists n, b, s2. split; [lia|]. rewrite Hn by lia. auto.
Qed.

(** An effect followed only by computations that cannot fail. *)
Lemma atomic_bind_ret {A B} (m : M DB A) (f : A -> B) :
  atomic m -> atomic (a ← m; mret (f a)).
Proof.
  intros Hm e s x s'. unfold mbind, M_bind, mret, M_ret.
  destruct (m e s) as [[a|y] s1] eqn:E; [naive_solver|].
  intros [= -> ->]. apply Hm in E as [?|(-> & n & a & s2 & ? & ? & ? & E & ? & ?)]; [by left|].
  right. split; [done|]. exists n, (f a), s2. by rewrite E.
Qed.

Lemma quiet_ret {A} (a : A) : quiet (mret a : M DB A).
Proof. by intros e s. Qed.
Lemma quiet_fail {A} x : quiet (fail x : M DB A).
Proof. by intros e s. Qed.
Lemma quiet_guard c x : quiet (guard_ok c x).
Proof. intros e s. by destruct c. Qed.
Lemma quiet_lift {A} (r : result A) : quiet (lift r).
Proof. intros e s. by destruct r. Qed.
Lemma quiet_try {A} (m : M DB A) : quiet m -> quiet (try m).
Proof. intros H e s. unfold try. specialize (H e s). by destruct (m e s). Qed.
Lemma quiet_now : quiet time_now.
Proof. by intros e s. Qed.
Lemma quiet_uuid : quiet new_uuid.
Proof. by intros e s. Qed.
Lemma quiet_begin : quiet tx_begin.
Proof. intros e s. unfold tx_begin. by destruct (driver_fails _ _). Qed.
Lemma quiet_query {A} (f : Z -> DB -> result A) : quiet (tx_query f).
Proof. intros e s. unfold tx_query. by destruct (driver_fails _ _). Qed.
Lemma quiet_exec {A} (f : Z -> DB -> result (A * DB)) : quiet (tx_exec f).
Proof.
  intros e s. unfold tx_exec. destruct (driver_fails _ _); [done|].
  by destruct (f _ _) as [[? ?]|].
Qed.
Lemma quiet_pool_query {A} (f : Z -> DB -> result A) : quiet (pool_query f).
Proof. intros e s. unfold pool_query. by destruct (driver_fails _ _). Qed.
Lemma forgiven e n : driver_fails (forgiving n e) n = false.
Proof. cbn. by rewrite Nat.eqb_refl, andb_false_r. Qed.
Lemma forgiving_other e n i : i <> n -> driver_fails (forgiving n e) i = driver_fails e i.
Proof. intros H. cbn. apply Nat.eqb_neq in H. by rewrite H, andb_true_r. Qed.

Lemma atomic_commit : atomic tx_commit.
Proof.
  intros e s x s'. unfold tx_commit. destruct (driver_fails _ _) eqn:Ef; [|done].
  destruct (applied _ _) eqn:Ea; intros [= <- <-]; [right|by left].
  split; [done|]. exists (tick s), tt, (World (wk s) (wk s) (S (tick s))).
  rewrite forgiven. cbn. split_and!; try done; lia.
Qed.
Lemma atomic_pool_exec {A} (f : Z -> DB -> result (A * DB)) : atomic (pool_exec f).
Proof.
  intros e s x s'. unfold pool_exec at 1.
  destruct (f _ _) as [[a d]|y] eqn:E; [|intros [= _ <-]; by left].
  destruct (driver_fails _ _) eqn:Ef; [|done].
  destruct (applied _ _) eqn:Ea; intros [= <- <-]; [right|by left].
  split; [done|]. exists (tick s), a, (World d (wk s) (S (tick s))).
  split_and!; try done; [cbn; lia|]. unfold pool_exec. rewrite forgiven.
  change (clock (forgiving (tick s) e)) with (clock e). by rewrite E.
Qed.

(** Whatever an all-or-nothing run reports, it changed nothing or left what a
    successful run under the same clocks leaves. *)
Lemma atomic_after {A} (m : M DB A) e s r s' : atomic m -> m e s = (r, s') ->
  db s' = db s \/ exists e' a s1, clock e' = clock e /\ wall e' = wall e /\ fresh e' = fresh e /\
    m e' s = (Ok a, s1) /\ db s' = db s1 /\ tick s' = tick s1.
Proof.
  intros Ha E. destruct r as [a|x]; [right; by exists e, a, s'|].
  apply Ha in E as [?|(_ & n & a & s1 & _ & _ & _ & E & Ed & Et)]; [by left|].
  right. by exists (forgiving n e), a, s1.
Qed.

Lemma local_ret {A} (a : A) : local (mret a : M DB A).
Proof. by intros e s. Qed.
Lemma local_fail {A} x : local (fail x : M DB A).
Proof. by intros e s. Qed.
Lemma local_guard c x : local (guard_ok c x).
Proof. intros e s. by destruct c. Qed.
Lemma local_lift {A} (r : result A) : local (lift r).
Proof. intros e s. by destruct r. Qed.
Lemma local_try {A} (m : M DB A) : local m -> local (try m).
Proof.
  intros H e s. destruct (H e s) as [Ht Hl]. unfold try. destruct (m e s) eqn:E; cbn in *.
  split; [done|]. intros n Hn. by rewrite Hl.
Qed.
Lemma local_now : local time_now.
Proof. intros e s. split; [simpl; lia|done]. Qed.
Lemma local_uuid : local new_uuid.
Proof. intros e s. split; [simpl; lia|done]. Qed.

(** A round trip depends on the environment at its own time. *)
Lemma local_step {A} (m : M DB A) :
  (forall e s, tick (m e s).2 = S (tick s)) ->
  (forall e e' s, driver_fails e' (tick s) = driver_fails e (tick s) -> applied e' = applied e ->
     clock e' = clock e -> m e' s = m e s) -> local m.
Proof.
  intros Ht Hm e s. rewrite Ht. split; [lia|]. intros n Hn. apply Hm; try done.
  apply forgiving_other. lia.
Qed.
#[local] Ltac one_step :=
  apply local_step; [intros e s|intros e e' s Ef Ea Ec; rewrite ?Ef, ?Ea, ?Ec; done];
  repeat case_match; done.
Lemma local_begin : local tx_begin.
Proof. unfold tx_begin. one_step. Qed.
Lemma local_query {A} (f : Z -> DB -> result A) : local (tx_query f).
Proof. unfold tx_query. one_step. Qed.
Lemma local_exec {A} (f : Z -> DB -> result (A * DB)) : local (tx_exec f).
Proof. unfold tx_exec. one_step. Qed.
Lemma local_pool_query {A} (f : Z -> DB -> result A) : local (pool_query f).
Proof. unfold pool_query. one_step. Qed.

Lemma forward_bind {A B} (m : M DB A) (k : A -> M DB B) :
  forward m -> (forall a, forward (k a)) -> forward (m ≫= k).
Proof.
  intros Hm Hk e s. unfold mbind, M_bind. specialize (Hm e s).
  destruct (m e s) as [[a|x] s1]; simpl in *; [|done]. specialize (Hk a e s1). lia.
Qed.
Lemma forward_ret {A} (a : A) : forward (mret a : M DB A).
Proof. by intros e s. Qed.
Lemma forward_fail {A} x : forward (fail x : M DB A).
Proof. by intros e s. Qed.
Lemma forward_guard c x : forward (guard_ok c x).
Proof. intros e s. by destruct c. Qed.
Lemma forward_lift {A} (r : result A) : forward (lift r).
Proof. intros e s. by destruct r. Qed.
Lemma forward_try {A} (m : M DB A) : forward m -> forward (try m).
Proof. intros H e s. unfold try. specialize (H e s). by destruct (m e s). Qed.
Lemma forward_now : forward time_now.
Proof. intros e s. simpl. lia. Qed.
Lemma forward_uuid : forward new_uuid.
Proof. intros e s. simpl. lia. Qed.
Lemma forward_begin : forward tx_begin.
Proof. intros e s. unfold tx_begin. destruct (driver_fails _ _); simpl; lia. Qed.
Lemma forward_query {A} (f : Z -> DB -> result A) : forward (tx_query f).
Proof. intros e s. unfold tx_query. destruct (driver_fails _ _); simpl; lia. Qed.
Lemma forward_exec {A} (f : Z -> DB -> result (A * DB)) : forward (tx_exec f).
Proof.
  intros e s. unfold tx_exec. destruct (driver_fails _ _); [simpl; lia|].
  destruct (f _ _) as [[? ?]|]; simpl; lia.
Qed.
Lemma forward_commit : forward tx_commit.
Proof. intros e s. unfold tx_commit. repeat case_match; simpl; lia. Qed.
Lemma forward_pool_query {A} (f : Z -> DB -> result A) : forward (pool_query f).
Proof. intros e s. unfold pool_query. destruct (driver_fails _ _); simpl; lia. Qed.
Lemma forward_pool_exec {A} (f : Z -> DB -> result (A * DB)) : forward (pool_exec f).
Proof.
  intros e s. destruct (pool_exec f e s) as [r s'] eqn:E. apply pool_exec_after in E as [Et _]. cbn. lia.
Qed.
Lemma forward_sys_exec {A} (f : Z -> DB -> result (A * DB)) : forward (sys_exec f).
Proof.
  intros e s. unfold sys_exec. destruct (driver_fails _ _); [simpl; lia|].
  destruct (f _ _) as [[? ?]|]; simpl; lia.
Qed.

Lemma keeps_bind {A B} I (m : M DB A) (k : A -> M DB B) :
  keeps I m -> (forall a, keeps I (k a)) -> keeps I (m ≫= k).
Proof.
  intros Hm Hk e s Hs. unfold mbind, M_bind. specialize (Hm e s Hs).
  destruct (m e s) as [[a|x] s1]; simpl in *; [|done]. by apply Hk.
Qed.

(** A predicate of the committed database, of the clocks and of the time that
    only gets easier as time passes: enough to look at the successful runs. *)
Lemma keeps_atomic {A} (P : env -> nat -> DB -> Prop) (m : M DB A) :
  (forall e n n' d, (n <= n')%nat -> P e n d -> P e n' d) ->
  (forall e k n d, P (forgiving k e) n d <-> P e n d) ->
  forward m -> atomic m ->
  (forall e s a s', P e (tick s) (db s) -> m e s = (Ok a, s') -> P e (tick s') (db s')) ->
  keeps (fun e s => P e (tick s) (db s)) m.
Proof.
  intros Hmono Henv Hf Ha Hok e s Hs. specialize (Hf e s).
  destruct (m e s) as [[a|x] s'] eqn:E; simpl in *; [eauto|].
  apply Ha in E as [->|(_ & k & a & s1 & _ & _ & _ & E & -> & ->)]; [eauto|].
  apply (Henv _ k). eapply Hok; [|exact E]. by apply Henv.
Qed.

Lemma keeps_quiet {A} (P : env -> nat -> DB -> Prop) (m : M DB A) :
  (forall e n n' d, (n <= n')%nat -> P e n d -> P e n' d) ->
  forward m -> quiet m -> keeps (fun e s => P e (tick s) (db s)) m.
Proof.
  intros Hmono Hf Hq e s Hs. specialize (Hf e s). rewrite (Hq e s). eauto.
Qed.


(** ** Assertions on the committed database before and after a computation *)

Definition hoare {A} (P : DB -> Prop) (m : M DB A) (Q : A -> DB -> Prop) (E : DB -> Prop) : Prop :=
  forall e s, P (db s) ->
    match m e s with (Ok a, s') => Q a (db s') | (Err _, s') => E (db s') end.

Lemma hoare_bind {A B} P (m : M DB A) (k : A -> M DB B) R Q E :
  hoare P m R E -> (forall a, hoare (R a) (k a) Q E) -> hoare P (m ≫= k) Q E.
Proof.
  intros Hm Hk e s Hs. specialize (Hm e s Hs). unfold mbind, M_bind.
  destruct (m e s) as [[a|x] s1]; [|done]. by apply Hk.
Qed.

Lemma hoare_weaken {A} (P P' : DB -> Prop) (m : M DB A) (Q : A -> DB -> Prop) E :
  (forall d, P d -> P' d) -> hoare P' m Q E -> hoare P m Q E.
Proof. intros HP Hm e s Hs. by apply Hm, HP. Qed.

Lemma hoare_post {A} P (m : M DB A) (Q Q' : A -> DB -> Prop) E :
  (forall a d, Q a d -> Q' a d) -> hoare P m Q E -> hoare P m Q' E.
Proof.
  intros HQ Hm e s Hs. specialize (Hm e s Hs). destruct (m e s) as [[a|x] s']; auto.
Qed.

Lemma hoare_ret {A} P (a : A) (Q : A -> DB -> Prop) E :
  (forall d, P d -> Q a d) -> hoare P (mret a : M DB A) Q E.
Proof. intros H e s Hs. by apply H. Qed.

Lemma hoare_fail {A} (P : DB -> Prop) x (Q : A -> DB -> Prop) (E : DB -> Prop) :
  (forall d, P d -> E d) -> hoare P (fail x : M DB A) Q E.
Proof. intros H e s Hs. by apply H. Qed.

(** A quiet step: nothing changes, the result satisfies what it tells. *)
Lemma hoare_quiet {A} (P : DB -> Prop) (m : M DB A) (R : A -> Prop) E : quiet m ->
  (forall e s a s', m e s = (Ok a, s') -> R a) -> (forall d, P d -> E d) ->
  hoare P m (fun a d => P d /\ R a) E.
Proof.
  intros Hq HR HE e s Hs. specialize (Hq e s). destruct (m e s) as [[a|x] s'] eqn:Em; simpl in *.
  - rewrite Hq. eauto.
  - rewrite Hq. auto.
Qed.

Lemma hoare_pool_query {A} (P : DB -> Prop) (f : Z -> DB -> result A) (Q : A -> DB -> Prop)
    (E : DB -> Prop) :
  (forall t d a, P d -> f t d = Ok a -> Q a d) -> (forall d, P d -> E d) ->
  hoare P (pool_query f) Q E.
Proof.
  intros HQ HE e s Hs. unfold pool_query. destruct (driver_fails e (tick s)); simpl; [auto|].
  destruct (f _ _) eqn:Ef; [by eapply HQ|auto].
Qed.

Lemma hoare_sys_exec {A} (P : DB -> Prop) (f : Z -> DB -> result (A * DB)) (Q : A -> DB -> Prop)
    (E : DB -> Prop) :
  (forall t d a d', P d -> f t d = Ok (a, d') -> Q a d') -> (forall d, P d -> E d) ->
  hoare P (sys_exec f) Q E.
Proof.
  intros HQ HE e s Hs. unfold sys_exec. destruct (driver_fails e (tick s)); simpl; [auto|].
  destruct (f _ _) as [[a d']|] eqn:Ef; [by eapply HQ|auto].
Qed.
End Operations.

#[export] Hint Resolve quiet_bind quiet_ret quiet_fail quiet_guard quiet_lift quiet_try
  quiet_now quiet_uuid quiet_begin quiet_query quiet_exec quiet_pool_query : collector.
#[export] Hint Resolve atomic_bind atomic_commit atomic_pool_exec | 5 : collector.
#[export] Hint Resolve atomic_bind_ret | 4 : collector.
#[export] Hint Resolve quiet_atomic | 6 : collector.
#[export] Hint Resolve forward_bind forward_ret forward_fail forward_guard forward_lift
  forward_try forward_now forward_uuid forward_begin forward_query forward_exec
  forward_commit forward_pool_query forward_pool_exec forward_sys_exec : collector.
#[export] Hint Resolve local_bind local_ret local_fail local_guard local_lift
  local_try local_now local_uuid local_begin local_query local_exec local_pool_query : collector.

(** Solves [quiet], [local], [atomic] and [forward] goals, entering the matches of
    the program text. *)
Ltac frame_solve :=
  repeat first
    [ progress (eauto 20 with collector)
    | match goal with
      | |- quiet (match ?x with _ => _ end) => destruct x
      | |- atomic (match ?x with _ => _ end) => destruct x
      | |- forward (match ?x with _ => _ end) => destruct x
      | |- local (match ?x with _ => _ end) => destruct x
      | |- quiet (_ ≫= _) => apply quiet_bind
      | |- forward (_ ≫= _) => apply forward_bind
      | |- local (_ ≫= _) => apply local_bind
      | |- atomic (_ ≫= (fun _ => mret _)) => apply atomic_bind_ret
      | |- atomic (_ ≫= _) => apply atomic_bind
      end
    | progress intros ].

(** Unfolds a successful run into its successive statements. *)
Ltac inv_run H :=
  repeat match type of H with
  | (_ ≫= _) _ _ = (Ok _, _) =>
      let a := fresh "a" in let s := fresh "s" in
      let H1 := fresh "R" in
      apply bind_ok in H; destruct H as (a & s & H1 & H); inv_run H1
  | mret _ _ _ = (Ok _, _) => apply ret_ok in H; destruct H as [? ?]; subst
  | fail _ _ _ = (Ok _, _) => apply fail_ok in H; destruct H
  | guard_ok _ _ _ _ = (Ok _, _) => apply guard_ok_ok in H; destruct H as [? ?]; subst
  | lift _ _ _ = (Ok _, _) => apply lift_ok in H; destruct H as [? ?]; subst
  | try _ _ _ = (Ok _, _) => apply (proj1 (try_ok _ _ _ _ _)) in H
  | time_now _ _ = (Ok _, _) => apply time_now_ok in H; destruct H as [? ?]; subst
  | new_uuid _ _ = (Ok _, _) => apply new_uuid_ok in H; destruct H as [? ?]; subst
  | tx_begin _ _ = (Ok _, _) => apply tx_begin_ok in H; destruct H as [? ?]; subst
  | tx_query _ _ _ = (Ok _, _) => apply tx_query_ok in H; destruct H as (? & ? & ?); subst
  | tx_exec _ _ _ = (Ok _, _) =>
      apply tx_exec_ok in H; destruct H as (? & ? & ? & ?); subst
  | tx_commit _ _ = (Ok _, _) => apply tx_commit_ok in H; destruct H as [? ?]; subst
  | pool_query _ _ _ = (Ok _, _) => apply pool_query_ok in H; destruct H as (? & ? & ?); subst
  | pool_exec _ _ _ = (Ok _, _) =>
      apply pool_exec_ok in H; destruct H as (? & ? & ? & ?); subst
  | sys_exec _ _ _ = (Ok _, _) =>
      apply sys_exec_ok in H; destruct H as (? & ? & ? & ?); subst
  end; cbn [db wk tick bump] in *;
  repeat match goal with
  | E : Ok ?x = Ok ?y |- _ => injection E; clear E; intros; try subst
  end.

(** ** A part of the state *)

(** A computation over a component of the state; it leaves the rest alone. *)
Definition zoom {S T A} (get : S -> T) (put : T -> S -> S) (m : M T A) : M S A := fun e s =>
  let '(r, w) := m e (World (get (db s)) (get (db s)) (tick s)) in
  (r, World (put (db w) (db s)) (wk s) (tick w)).

(** ** Relations between the databases around a run *)

Definition relates {DB A} (R : relation DB) (m : M DB A) : Prop := forall e s, R (db s) (db (m e s).2).

Section Relates.
Context {DB : Type} (R : relation DB) `{!PreOrder R}.

Lemma relates_bind {A B} (m : M DB A) (k : A -> M DB B) :
  relates R m -> (forall a, relates R (k a)) -> relates R (m ≫= k).
Proof.
  intros Hm Hk e s. specialize (Hm e s). unfold mbind, M_bind.
  destruct (m e s) as [[a|x] s1]; [|done]. etrans; [exact Hm|apply Hk].
Qed.
Lemma relates_ret {A} (a : A) : relates R (mret a : M DB A).
Proof. by intros e s. Qed.
Lemma relates_quiet {A} (m : M DB A) : quiet m -> relates R m.
Proof. intros H e s. by rewrite (H e s). Qed.
Lemma relates_try {A} (m : M DB A) : relates R m -> relates R (try m).
Proof. intros H e s. specialize (H e s). unfold try. by destruct (m e s). Qed.
Lemma relates_pool_exec {A} (f : Z -> DB -> result (A * DB)) :
  (forall t d a d', f t d = Ok (a, d') -> R d d') -> relates R (pool_exec f).
Proof.
  intros H e s. destruct (pool_exec f e s) as [r s'] eqn:E.
  apply pool_exec_after in E as [_ [[E _]|(a & d & E & Ed & _)]]; cbn [snd]; [by rewrite E|].
  rewrite Ed. by eapply H.
Qed.
Lemma relates_sys_exec {A} (f : Z -> DB -> result (A * DB)) :
  (forall t d a d', f t d = Ok (a, d') -> R d d') -> relates R (sys_exec f).
Proof.
  intros H e s. unfold sys_exec. destruct (driver_fails _ _); [done|].
  destruct (f _ _) as [[a d']|] eqn:E; [by eapply H|done].
Qed.
End Relates.

Section ZoomLaws.
Context {S T : Type} (get : S -> T) (put : T -> S -> S).

Lemma zoom_forward {A} (m : M T A) : forward m -> forward (zoom get put m).
Proof. intros H e s. unfold zoom. specialize (H e (World (get (db s)) (get (db s)) (tick s))). by destruct (m e _). Qed.
Lemma zoom_relates {A} (RT : relation T) (RS : relation S) (m : M T A) :
  relates RT m -> (forall s t, RT (get s) t -> RS s (put t s)) -> relates RS (zoom get put m).
Proof.
  intros H HR e s. unfold zoom. specialize (H e (World (get (db s)) (get (db s)) (tick s))).
  destruct (m e _) as [r w]. simpl in *. auto.
Qed.
Lemma zoom_run {A} (m : M T A) e s r s' : zoom get put m e s = (r, s') ->
  exists w, m e (World (get (db s)) (get (db s)) (tick s)) = (r, w) /\ tick s' = tick w /\ db s' = put (db w) (db s).
Proof. unfold zoom. destruct (m e _) as [r0 w] eqn:E. intros [= -> <-]. by exists w. Qed.
End ZoomLaws.

(** ** Results of a run, whatever the database does *)

Definition yields {DB A} (P : A -> Prop) (m : M DB A) : Prop := forall e s a s', m e s = (Ok a, s') -> P a.

Lemma yields_bind {DB A B} (R : A -> Prop) (P : B -> Prop) (m : M DB A) k :
  yields R m -> (forall a, R a -> yields P (k a)) -> yields P (m ≫= k).
Proof. intros Hm Hk e s b s' (a & s1 & H1 & H2)%bind_ok. eapply Hk; [by eapply Hm|done]. Qed.
Lemma yields_any {DB A B} (P : B -> Prop) (m : M DB A) k : (forall a, yields P (k a)) -> yields P (m ≫= k).
Proof. intros Hk. apply (yields_bind (fun _ => True)); [done|auto]. Qed.
Lemma yields_ret {DB A} (P : A -> Prop) (a : A) : P a -> yields P (mret a : M DB A).
Proof. intros H e s b s' [-> _]%ret_ok. done. Qed.

(** Never an error. *)
Definition never_fails {DB A} (m : M DB A) : Prop := forall e s, exists a s', m e s = (Ok a, s').

Lemma never_fails_bind {DB A B} (m : M DB A) (k : A -> M DB B) :
  never_fails m -> (forall a, never_fails (k a)) -> never_fails (m ≫= k).
Proof. intros Hm Hk e s. destruct (Hm e s) as (a & s1 & E). unfold mbind, M_bind. rewrite E. apply Hk. Qed.
Lemma never_fails_ret {DB A} (a : A) : never_fails (mret a : M DB A).
Proof. intros e s. by eexists _, _. Qed.
Lemma never_fails_try {DB A} (m : M DB A) : never_fails (try m).
Proof. intros e s. unfold try. destruct (m e s) as [r s']. by eexists _, _. Qed.
Lemma never_fails_now {DB} : never_fails (time_now : M DB Z).
Proof. intros e s. by eexists _, _. Qed.
#[export] Hint Resolve never_fails_bind never_fails_ret never_fails_try never_fails_now : collector.

Section ZoomResults.
Context {S T : Type} (get : S -> T) (put : T -> S -> S).

Lemma zoom_fails {A} (m : M T A) : never_fails m -> never_fails (zoom get put m).
Proof.
  intros H e s. unfold zoom. destruct (H e (World (get (db s)) (get (db s)) (tick s))) as (a & w & ->). by eexists _, _.
Qed.
Lemma zoom_yields {A} (P : A -> Prop) (m : M T A) : yields P m -> yields P (zoom get put m).
Proof.
  intros H e s a s'. unfold zoom. destruct (m e _) as [r w] eqn:E. intros [= -> _]. by eapply H.
Qed.
End ZoomResults.
