(* ===== verification/Model.v ===== *)
(** Data model (src/shared/model): platforms, statuses, the durable donation
    observation with its validation and JSON form. *)
From S2P Require Import Prelude GoLib Json.

(** ** Platforms and statuses *)

Definition PlatformChzzk : string := "chzzk".
Definition PlatformSoop : string := "soop".
Definition PlatformCime : string := "cime".

Definition platform_is_valid (p : string) : bool :=
  String.eqb p PlatformChzzk || String.eqb p PlatformSoop || String.eqb p PlatformCime.

Definition ChannelStatusPending : string := "pending".
Definition ChannelStatusLive : string := "live".
Definition ChannelStatusEnded : string := "ended".

Definition WorkerStatusAlive : string := "alive".
Definition WorkerStatusDraining : string := "draining".
Definition WorkerStatusDead : string := "dead".

Definition IsValidChannelStatus (status : string) : bool :=
  existsb (fun s => String.eqb s status)
    [ChannelStatusPending; ChannelStatusLive; ChannelStatusEnded].

Definition IsValidWorkerStatus (status : string) : bool :=
  existsb (fun s => String.eqb s status)
    [WorkerStatusAlive; WorkerStatusDraining; WorkerStatusDead].

(** ** Donations *)

Module Donation.

Record t := Mk {
  EventID : string;
  ChannelID : string;
  Count : Z;
  Kind : string;
  DonorID : string;
  DisplayName : string;
  Message : string;
  ConnectionEpoch : string;
  Sequence : Z;
  ObservedAt : Z;
  ConnectionStartedAt : Z;
  SourceID : option string;
  BroadcastID : option string;
  Identity : string;
  Reasons : list string;
  Related : list string;
  Generation : string;
  Offset : Z
}.

#[export] Instance t_eq_dec : EqDecision t.
Proof. solve_decision. Defined.

(** [func (d Donation) Validate() error] *)
Definition Validate (d : t) : result unit :=
  if (256 <? lenZ (EventID d)) || (100 <? lenZ (ChannelID d)) || (256 <? lenZ (DonorID d))
     || (4096 <? lenZ (DisplayName d)) || (65536 <? lenZ (Message d))
     || (256 <? lenZ (ConnectionEpoch d))
  then Err (ErrMsg "donation observation too large")
  else if is_empty (EventID d) || is_empty (ChannelID d) || is_empty (DonorID d)
     || is_empty (ConnectionEpoch d) || (Sequence d =? 0) || (Count d <=? 0)
     || (9007199254740991 <? Count d) || negb (String.eqb (Kind d) "balloon")
     || is_zero_time (ObservedAt d)
  then Err (ErrMsg "invalid donation observation")
  else Ok tt.

Definition omit_empty {A} (l : list A) (f : list A -> json) (k : string) : list (string * json) :=
  match l with [] => [] | _ => [(k, f l)] end.
Definition omit_nil (o : option string) (k : string) : list (string * json) :=
  match o with Some s => [(k, JStr (coerce s))] | None => [] end.
Definition jstrings (l : list string) : json := JArr (map (fun s => JStr (coerce s)) l).

(** The JSON members in declaration order, with the struct's tags. *)
Definition fields (d : t) : list (string * json) :=
  [("eventId", JStr (coerce (EventID d)));
   ("channelId", JStr (coerce (ChannelID d)));
   ("nativeBalloonCount", JNum (Count d));
   ("donationKind", JStr (coerce (Kind d)));
   ("donorId", JStr (coerce (DonorID d)));
   ("displayName", JStr (coerce (DisplayName d)));
   ("message", JStr (coerce (Message d)));
   ("connectionEpoch", JStr (coerce (ConnectionEpoch d)));
   ("connectionSequence", JStr (format_uint (Sequence d)));
   ("observedAt", JTime (ObservedAt d));
   ("connectionStartedAt", JTime (ConnectionStartedAt d))]%string
  ++ omit_nil (SourceID d) "sourceEventId"
  ++ omit_nil (BroadcastID d) "broadcastId"
  ++ [("identityStatus", JStr (coerce (Identity d)))]%string
  ++ omit_empty (Reasons d) jstrings "qualityReasons"
  ++ omit_empty (Related d) jstrings "relatedObservationIds"
  ++ [("journalGeneration", JStr (coerce (Generation d)));
      ("channelOffset", JStr (format_uint (Offset d)))]%string.

(** [json.Marshal(d)]: fails on an instant outside the RFC 3339 years. *)
Definition marshal (d : t) : result json :=
  if marshalable_time (ObservedAt d) && marshalable_time (ConnectionStartedAt d)
  then Ok (JObj (fields d)) else Err (ErrMsg "json: time").

(** [json.Unmarshal(raw, &old)]: absent members keep the destination's value. *)
Definition decode_fields (j : json) (old : t) : option t :=
  f1 ← decode_with dec_string (field j "eventId") (EventID old);
  f2 ← decode_with dec_string (field j "channelId") (ChannelID old);
  f3 ← decode_with dec_int (field j "nativeBalloonCount") (Count old);
  f4 ← decode_with dec_string (field j "donationKind") (Kind old);
  f5 ← decode_with dec_string (field j "donorId") (DonorID old);
  f6 ← decode_with dec_string (field j "displayName") (DisplayName old);
  f7 ← decode_with dec_string (field j "message") (Message old);
  f8 ← decode_with dec_string (field j "connectionEpoch") (ConnectionEpoch old);
  f9 ← decode_with dec_uint_string (field j "connectionSequence") (Sequence old);
  f10 ← decode_with dec_time (field j "observedAt") (ObservedAt old);
  f11 ← decode_with dec_time (field j "connectionStartedAt") (ConnectionStartedAt old);
  f12 ← decode_with dec_opt_string (field j "sourceEventId") (SourceID old);
  f13 ← decode_with dec_opt_string (field j "broadcastId") (BroadcastID old);
  f14 ← decode_with dec_string (field j "identityStatus") (Identity old);
  f15 ← decode_with dec_strings (field j "qualityReasons") (Reasons old);
  f16 ← decode_with dec_strings (field j "relatedObservationIds") (Related old);
  f17 ← decode_with dec_string (field j "journalGeneration") (Generation old);
  f18 ← decode_with dec_uint_string (field j "channelOffset") (Offset old);
  Some (Mk f1 f2 f3 f4 f5 f6 f7 f8 f9 f10 f11 f12 f13 f14 f15 f16 f17 f18).

Definition unmarshal (j : json) (old : t) : option t :=
  match j with
  | JObj _ => decode_fields j old
  | JNull => Some old
  | _ => None
  end.

(** The zero value [var d model.Donation]. *)
Definition zero : t :=
  Mk EmptyString EmptyString 0 EmptyString EmptyString EmptyString EmptyString EmptyString 0
     zero_time zero_time None None EmptyString [] [] EmptyString 0.

(** The integers are within their Go types. *)
Definition in_width (d : t) : bool :=
  (-9223372036854775808 <=? Count d) && (Count d <=? 9223372036854775807)
  && (0 <=? Sequence d) && (Sequence d <=? u64_max)
  && (0 <=? Offset d) && (Offset d <=? u64_max).

(** The texts are valid UTF-8, which the encoder keeps as they are. *)
Definition valid_texts (d : t) : bool :=
  forallb valid_utf8
    [EventID d; ChannelID d; Kind d; DonorID d; DisplayName d; Message d;
     ConnectionEpoch d; Identity d; Generation d]
  && forallb valid_utf8 (Reasons d) && forallb valid_utf8 (Related d)
  && match SourceID d with Some s => valid_utf8 s | None => true end
  && match BroadcastID d with Some s => valid_utf8 s | None => true end.

(** The observation as its encoded form spells it. *)
Definition coerced (d : t) : t :=
  Mk (coerce (EventID d)) (coerce (ChannelID d)) (Count d) (coerce (Kind d)) (coerce (DonorID d))
     (coerce (DisplayName d)) (coerce (Message d)) (coerce (ConnectionEpoch d)) (Sequence d)
     (ObservedAt d) (ConnectionStartedAt d) (coerce <$> SourceID d) (coerce <$> BroadcastID d)
     (coerce (Identity d)) (map coerce (Reasons d)) (map coerce (Related d))
     (coerce (Generation d)) (Offset d).

(** The destination's members the encoded form leaves out. *)
Definition merge_omitted (d old : t) : t :=
  Mk (EventID d) (ChannelID d) (Count d) (Kind d) (DonorID d) (DisplayName d) (Message d)
     (ConnectionEpoch d) (Sequence d) (ObservedAt d) (ConnectionStartedAt d)
     (match SourceID d with Some s => Some s | None => SourceID old end)
     (match BroadcastID d with Some s => Some s | None => BroadcastID old end)
     (Identity d)
     (match Reasons d with [] => Reasons old | l => l end)
     (match Related d with [] => Related old | l => l end)
     (Generation d) (Offset d).

Lemma dec_jstrings l : dec_strings (jstrings l) = Some (map coerce l).
Proof.
  unfold dec_strings, jstrings. induction l as [|x l IH]; [done|].
  cbn in *. by rewrite IH.
Qed.

Lemma dec_int_ok n : -9223372036854775808 <= n -> n <= 9223372036854775807 ->
  dec_int (JNum n) = Some n.
Proof.
  intros H1 H2. cbn. apply Z.leb_le in H1, H2. rewrite H1, H2. done.
Qed.

#[local] Arguments dec_int : simpl never.
#[local] Arguments dec_strings : simpl never.
#[local] Arguments jstrings : simpl never.

Lemma unmarshal_fields d old : in_width d = true ->
  unmarshal (JObj (fields d)) old = Some (merge_omitted (coerced d) old).
Proof.
  unfold in_width. intros H. b2p.
  destruct d as [? ? ? ? ? ? ? ? ? ? ? src br ? rs rl ? ?]; simpl in *.
  unfold unmarshal, decode_fields, fields, merge_omitted, coerced; simpl.
  destruct src, br, rs as [|r0 rs], rl as [|l0 rl];
    unfold field, omit_nil, omit_empty, dec_opt_string;
    cbn [find app String.eqb Ascii.eqb Bool.eqb decode_with dec_string dec_time
         dec_uint_string mbind option_bind];
    rewrite ?dec_int_ok, ?parse_format_uint, ?dec_jstrings by lia; reflexivity.
Qed.

Lemma coerced_valid d : valid_texts d = true -> coerced d = d.
Proof.
  unfold valid_texts. intros H. b2p. cbn [forallb] in *. b2p.
  assert (forall l, forallb valid_utf8 l = true -> map coerce l = l) as Hl.
  { induction l as [|x l IH]; cbn; [done|]. intros ?. b2p. by rewrite coerce_valid, IH. }
  destruct d as [? ? ? ? ? ? ? ? ? ? ? [] [] ? ? ? ? ?]; unfold coerced; simpl in *;
    rewrite ?Hl, ?coerce_valid by done; done.
Qed.

Lemma marshal_ok d j : marshal d = Ok j -> j = JObj (fields d).
Proof. unfold marshal. destruct (_ && _); congruence. Qed.

(** What the journal stores decodes, in a fresh destination, to what was stored. *)
Lemma unmarshal_marshal d j : in_width d = true -> marshal d = Ok j ->
  unmarshal j zero = Some (coerced d).
Proof.
  intros Hw ->%marshal_ok. rewrite unmarshal_fields by done.
  destruct d as [? ? ? ? ? ? ? ? ? ? ? [] [] ? [] [] ? ?]; done.
Qed.

(** ** The generation member rewritten by a restore *)

Lemma field_set_field fs k v k' :
  field (set_field (JObj fs) k v) k' = if String.eqb k' k then Some v else field (JObj fs) k'.
Proof.
  unfold field, set_field.
  destruct (existsb (fun '(k0, _) => String.eqb k k0) fs) eqn:E.
  - induction fs as [|[k0 x] fs IH]; simpl in *; [done|].
    destruct (String.eqb k' k0) eqn:E1.
    + apply String.eqb_eq in E1 as ->. rewrite (String.eqb_sym k0 k).
      by destruct (String.eqb k k0) eqn:E2.
    + destruct (String.eqb k k0) eqn:E2; simpl in E.
      * apply String.eqb_eq in E2 as ->. rewrite E1 in *. clear IH E.
        induction fs as [|[k1 y] fs IH]; simpl; [done|].
        destruct (String.eqb k' k1) eqn:E3; [|done].
        apply String.eqb_eq in E3 as ->. by rewrite (String.eqb_sym k0 k1), E1.
      * by rewrite (IH E).
  - induction fs as [|[k0 x] fs IH]; simpl in *; [by destruct (String.eqb k' k)|].
    destruct (String.eqb k k0) eqn:E2; [done|]. simpl in E.
    destruct (String.eqb k' k0) eqn:E1; [|by rewrite (IH E)].
    apply String.eqb_eq in E1 as ->. by rewrite String.eqb_sym, E2.
Qed.

Definition with_generation (g : string) (d : t) : t :=
  Mk (EventID d) (ChannelID d) (Count d) (Kind d) (DonorID d) (DisplayName d) (Message d)
     (ConnectionEpoch d) (Sequence d) (ObservedAt d) (ConnectionStartedAt d) (SourceID d)
     (BroadcastID d) (Identity d) (Reasons d) (Related d) g (Offset d).

Lemma unmarshal_set_generation j old d g :
  unmarshal j old = Some d -> j <> JNull ->
  unmarshal (set_field j "journalGeneration" (JStr g)) old = Some (with_generation g d).
Proof.
  destruct j as [| | | | | |fs]; try done. intros H _.
  change (unmarshal (set_field (JObj fs) "journalGeneration" (JStr g)) old)
    with (decode_fields (set_field (JObj fs) "journalGeneration" (JStr g)) old).
  change (unmarshal (JObj fs) old) with (decode_fields (JObj fs) old) in H.
  unfold decode_fields in *.
  rewrite !field_set_field; cbn [String.eqb Ascii.eqb Bool.eqb decode_with].
  repeat (let x := fresh "x" in
          match type of H with
          | mbind _ ?o = Some _ => destruct o as [x|]; [cbn [mbind option_bind] in H |- *|discriminate H]
          end).
  injection H as <-. reflexivity.
Qed.

End Donation.
