(* ===== verification/Message.v ===== *)
(** Chat messages (src/shared/model/message.go) and the flat fields they have
    in a Redis stream. The process's time zone is UTC. *)
From S2P Require Import Prelude GoLib Json GoFloat.
From Stdlib Require Import SpecFloat.

Inductive MessageType : Type :=
| MessageTypeChat | MessageTypeDonation | MessageTypeSubscription | MessageTypeSystem.

Definition message_type_name (t : MessageType) : string :=
  match t with
  | MessageTypeChat => "chat" | MessageTypeDonation => "donation"
  | MessageTypeSubscription => "subscription" | MessageTypeSystem => "system"
  end.

Record EmoteToken := MkEmote {
  em_Code : string; em_Start : Z; em_End : Z; em_ImageURL : string; em_Animated : bool;
  em_Source : string
}.

Record ChatMessage := MkMessage {
  m_ID : string;
  m_Type : MessageType;
  m_Platform : string;
  m_ChannelID : string;
  m_StreamerName : string;
  m_UserID : string;
  m_Nickname : string;
  m_Message : string;
  m_Timestamp : Z;
  m_Raw : string;
  m_Amount : spec_float;
  m_Currency : string;
  m_AmountKRW : Z;
  m_Emotes : list EmoteToken
}.

#[export] Instance message_type_eq_dec : EqDecision MessageType.
Proof. solve_decision. Defined.

(** The JSON of a token; empty members are left out. *)
Definition emote_json (e : EmoteToken) : json :=
  JObj ([("code", JStr (coerce (em_Code e))); ("start", JNum (em_Start e)); ("end", JNum (em_End e))]%string
        ++ (if is_empty (em_ImageURL e) then [] else [("imageUrl"%string, JStr (coerce (em_ImageURL e)))])
        ++ (if em_Animated e then [("animated"%string, JBool true)] else [])
        ++ (if is_empty (em_Source e) then [] else [("source"%string, JStr (coerce (em_Source e)))])).

(** [m.ToStreamFields()]; the code's map as a list, each key once. *)
Definition ToStreamFields (m : ChatMessage) : list (string * string) :=
  [("id", m_ID m); ("type", message_type_name (m_Type m)); ("platform", m_Platform m);
   ("channelId", m_ChannelID m); ("streamerName", m_StreamerName m); ("userId", m_UserID m);
   ("nickname", m_Nickname m); ("message", m_Message m); ("timestamp", rfc3339 (m_Timestamp m));
   ("raw", m_Raw m)]%string
  ++ (if SFltb (S754_zero false) (m_Amount m)
      then [("amount", sprintf_2f (m_Amount m)); ("currency", m_Currency m);
            ("amountKRW", format_int (m_AmountKRW m))]%string
      else [])
  ++ match m_Emotes m with
     | [] => []
     | l => [("emotes"%string, render (JArr (map emote_json l)))]
     end.
