(* ===== verification/SoopWire.v ===== *)
(** The SOOP chat protocol (src/worker/internal/connector/soop.go): frames of
    a 14-byte header and form-feed separated fields, their parser, and the
    texts the connector reads in them. A [[]byte] is a [string]. *)
From S2P Require Import Prelude GoLib Json GoText JsonText.

Definition soopHeaderLen : Z := 14.
Definition soopFieldSep : Ascii.ascii := "012".
Definition sep : string := String soopFieldSep EmptyString.

Definition soopCmdKeepalive : Z := 0.
Definition soopCmdLogin : Z := 1.
Definition soopCmdJoin : Z := 2.
Definition soopCmdChatMessage : Z := 5.
Definition soopCmdNotice : Z := 10.
Definition soopCmdSendBalloon : Z := 18.
Definition soopCmdChocolate : Z := 37.
Definition soopCmdSuperChat : Z := 41.
Definition soopCmdFollowItem : Z := 91.
Definition soopCmdFollowItemChain : Z := 93.
Definition soopCmdBJNotice : Z := 104.
Definition soopCmdSendSubscribe : Z := 108.
Definition soopCmdOGQEmoticon : Z := 109.
Definition soopCmdMissionGift : Z := 121.

Record soopPacket := MkPacket { Cmd : Z; Ret : Z; Fields : list string; Raw : string }.

Definition frame_mark : string := String "027" (String "009" EmptyString).

(** [buildSoopPacket]: [%04d] and [%06d] print more digits when they must. *)
Definition buildSoopPacket (cmd : Z) (body : string) : string :=
  frame_mark +:+ padn 4 cmd +:+ padn 6 (lenZ body) +:+ "00" +:+ body.

(** What a call that may panic, or loop, does. *)
Inductive outcome (A : Type) : Type :=
| Returns (a : A)
| Panics
| OutOfFuel.
Arguments Returns {A} a.
Arguments Panics {A}.
Arguments OutOfFuel {A}.

(** The fields of a body, one separator off each end. *)
Definition split_fields (body : string) : list string :=
  let body := trim_suffix (trim_prefix body sep) sep in
  if is_empty body then [] else split_on soopFieldSep body.

(** A header: command, body length and return code, each by [strconv.Atoi]. *)
Definition read_header (rest : string) : option (Z * Z * Z) :=
  cmd ← slice rest 2 6 ≫= parse_int;
  bodyLen ← slice rest 6 12 ≫= parse_int;
  ret ← slice rest 12 14 ≫= parse_int;
  Some (cmd, bodyLen, ret).

(** The loop of [parseSoopPackets], on what is left of [raw] at [pos]. *)
Fixpoint parse_from (fuel : nat) (rest : string) (packets : list soopPacket)
  : outcome (list soopPacket) :=
  if lenZ rest <? soopHeaderLen then Returns packets
  else match fuel with
  | O => OutOfFuel
  | S f =>
      if negb (has_prefix rest frame_mark) then parse_from f (str_drop 1 rest) packets
      else match read_header rest with
      | None => parse_from f (str_drop 1 rest) packets
      | Some (cmd, bodyLen, ret) =>
          if lenZ rest <? soopHeaderLen + bodyLen then parse_from f (str_drop 1 rest) packets
          else match slice rest 0 (soopHeaderLen + bodyLen),
                     slice rest soopHeaderLen (soopHeaderLen + bodyLen) with
          | Some frame, Some body =>
              parse_from f (str_drop (Z.to_nat (soopHeaderLen + bodyLen)) rest)
                (packets ++ [MkPacket cmd ret (split_fields body) frame])
          | _, _ => Panics
          end
      end
  end.

(** Every round of the loop takes a byte at least. *)
Definition parseSoopPackets (raw : string) : outcome (list soopPacket) :=
  parse_from (String.length raw) raw [].

(** ** Fields *)

Definition fieldAt (fields : list string) (idx : Z) : string :=
  if (idx <? 0) || (Z.of_nat (length fields) <=? idx) then EmptyString
  else nth (Z.to_nat idx) fields EmptyString.

Definition nonEmptyFields (fields : list string) : list string :=
  List.filter (fun f => negb (is_empty f)) (map trim_space fields).

Fixpoint drop_digits (l : list Ascii.ascii) : list Ascii.ascii :=
  match l with c :: r => if is_digit c then drop_digits r else l | [] => [] end.

(** [soopUserIDSuffix.ReplaceAllString(s, "")]: a final "(digits)" removed. *)
Definition strip_user_suffix (s : string) : string :=
  match rev (String.list_ascii_of_string s) with
  | ")"%char :: c :: r =>
      if is_digit c then
        match drop_digits r with
        | "("%char :: r => String.string_of_list_ascii (rev r)
        | _ => s
        end
      else s
  | _ => s
  end.

Definition is_letter (c : Ascii.ascii) : bool :=
  let n := Ascii.nat_of_ascii c in
  ((65 <=? n)%nat && (n <=? 90)%nat) || ((97 <=? n)%nat && (n <=? 122)%nat).

(** [^[A-Za-z0-9_-]{1,80}$] and [^[1-9][0-9]{0,5}$] *)
Definition soopOGQID (s : string) : bool :=
  (1 <=? lenZ s) && (lenZ s <=? 80)
  && all_chars (fun c => is_letter c || is_digit c || Ascii.eqb c "_"%char || Ascii.eqb c "-"%char) s.
Definition soopOGQNumber (s : string) : bool :=
  match s with
  | String c r => is_digit c && negb (Ascii.eqb c "0"%char) && (lenZ r <=? 5) && all_chars is_digit r
  | EmptyString => false
  end.

(** ** Mission gifts: a JSON object in the first field *)

Record soopMissionGiftPayload := MkGift {
  gf_Type : string; gf_UserID : string; gf_UserNick : string; gf_Title : string; gf_GiftCount : Z
}.

(** [parseJSONInt]; [None] is the empty [json.RawMessage]. *)
Definition parseJSONInt (raw : option jtext) : option Z :=
  match raw with
  | None | Some TNull => None
  | Some t =>
      match d_int t 0 with
      | (n, true) => Some n
      | _ => match d_string t EmptyString with
             | (s, true) => parse_int (trim_space s)
             | _ => None
             end
      end
  end.

Record gift_text := MkGiftText {
  gt_type : string; gt_user : string; gt_nick : string; gt_title : string; gt_count : option jtext
}.
Definition d_gift : decoder gift_text := d_struct
  [member "type" gt_type (fun x g => MkGiftText x (gt_user g) (gt_nick g) (gt_title g) (gt_count g)) d_string;
   member "user_id" gt_user (fun x g => MkGiftText (gt_type g) x (gt_nick g) (gt_title g) (gt_count g)) d_string;
   member "user_nick" gt_nick (fun x g => MkGiftText (gt_type g) (gt_user g) x (gt_title g) (gt_count g)) d_string;
   member "title" gt_title (fun x g => MkGiftText (gt_type g) (gt_user g) (gt_nick g) x (gt_count g)) d_string;
   member "gift_count" gt_count (fun x g => MkGiftText (gt_type g) (gt_user g) (gt_nick g) (gt_title g) x) d_raw].

Definition parseMissionGiftPayload (fields : list string) : option soopMissionGiftPayload :=
  let raw := fieldAt fields 0 in
  if is_empty raw then None else
  match unmarshal_text d_gift raw (MkGiftText "" "" "" "" None) with
  | (g, true) =>
      let kind := to_upper (trim_space (gt_type g)) in
      if negb (is_empty kind || String.eqb kind "GIFT" || String.eqb kind "CHALLENGE_GIFT") then None
      else n ← parseJSONInt (gt_count g);
           Some (MkGift (gt_type g) (gt_user g) (gt_nick g) (gt_title g) n)
  | _ => None
  end.

Definition label (p : soopMissionGiftPayload) : string :=
  let kind := to_upper (trim_space (gf_Type p)) in
  if String.eqb kind "CHALLENGE_GIFT" then "도전미션"
  else if String.eqb kind "GIFT" then "대결미션" else "미션".

Definition gift_message (p : soopMissionGiftPayload) : string :=
  let title := trim_space (gf_Title p) in
  let head := label p +:+ " 별풍선 " +:+ format_int (gf_GiftCount p) +:+ "개" in
  if is_empty title then head else head +:+ ": " +:+ title.

Definition donationMessageForCommand (cmd : Z) (fields : list string) : string :=
  if cmd =? soopCmdSendBalloon then "별풍선 " +:+ fieldAt fields 3 +:+ "개"
  else if cmd =? soopCmdSuperChat then "슈퍼챗 " +:+ fieldAt fields 3
  else if cmd =? soopCmdChocolate then join " " (nonEmptyFields (take 4 fields))
  else if cmd =? soopCmdMissionGift then
    match parseMissionGiftPayload fields with
    | Some gift => gift_message gift
    | None => join " " (nonEmptyFields fields)
    end
  else join " " (nonEmptyFields (take 4 fields)).

(** ** Channel information *)

Definition ErrLoginRequired : string := "soop authentication required".
Definition ErrPlayerUnknown : string := "soop player response unrecognized".
Definition ErrOffline : string := "soop broadcast offline".

(** The text of a raw value, quotes trimmed; [strconv.Atoi] reads no other. *)
Fixpoint trim_quotes_left (s : string) : string :=
  match s with
  | String c r => if code c =? 34 then trim_quotes_left r else s
  | EmptyString => EmptyString
  end.
Definition raw_code (t : jtext) : option Z :=
  match t with
  | TNum raw => parse_int raw
  | TStr raw => parse_int (rev_str (trim_quotes_left (rev_str (trim_quotes_left raw))))
  | _ => None
  end.

(** [soopauth.LiveResult] *)
Definition LiveResult (raw : option jtext) (chatNo : string) : result bool :=
  match raw with
  | None => if is_empty chatNo then Err (ErrMsg ErrPlayerUnknown) else Ok true
  | Some t =>
      match raw_code t with
      | None => Err (ErrMsg ErrPlayerUnknown)
      | Some c =>
          if c =? 0 then if is_empty chatNo then Ok false else Err (ErrMsg ErrPlayerUnknown)
          else if c =? 1 then if is_empty chatNo then Err (ErrMsg ErrPlayerUnknown) else Ok true
          else if c =? -6 then Err (ErrMsg ErrLoginRequired)
          else Err (ErrMsg (ErrPlayerUnknown +:+ " (code=" +:+ format_int c +:+ ")"))
      end
  end.

Record soopChatInfo := MkInfo {
  ci_Domain : string; ci_Port : Z; ci_ChatNo : string; ci_FTK : string; ci_Title : string
}.

Record channel_text := MkChannelText {
  ct_result : option jtext; ct_domain : string; ct_port : string; ct_chatno : string;
  ct_ftk : string; ct_title : string
}.
Definition d_channel : decoder channel_text := d_struct
  [member "RESULT" ct_result (fun x g => MkChannelText x (ct_domain g) (ct_port g) (ct_chatno g) (ct_ftk g) (ct_title g)) d_raw;
   member "CHDOMAIN" ct_domain (fun x g => MkChannelText (ct_result g) x (ct_port g) (ct_chatno g) (ct_ftk g) (ct_title g)) d_string;
   member "CHPT" ct_port (fun x g => MkChannelText (ct_result g) (ct_domain g) x (ct_chatno g) (ct_ftk g) (ct_title g)) d_number;
   member "CHATNO" ct_chatno (fun x g => MkChannelText (ct_result g) (ct_domain g) (ct_port g) x (ct_ftk g) (ct_title g)) d_string;
   member "FTK" ct_ftk (fun x g => MkChannelText (ct_result g) (ct_domain g) (ct_port g) (ct_chatno g) x (ct_title g)) d_string;
   member "TITLE" ct_title (fun x g => MkChannelText (ct_result g) (ct_domain g) (ct_port g) (ct_chatno g) (ct_ftk g) x) d_string].
Definition d_player : decoder channel_text := d_struct
  [member "CHANNEL" (fun g => g) (fun x _ => x) d_channel].

(** [fetchChannelInfo] from the response: its status and its body. *)
Definition fetchChannelInfo (status : Z) (body : string) : result soopChatInfo :=
  if (status =? 401) || (status =? 403) then Err (ErrMsg ErrLoginRequired)
  else if (status <? 200) || (300 <=? status) then Err (ErrMsg "soop player api failed")
  else match unmarshal_text d_player body (MkChannelText None "" "" "" "" "") with
  | (c, false) => Err (ErrMsg "parse soop player api")
  | (c, true) =>
      live ← LiveResult (ct_result c) (ct_chatno c);
      if negb live then Err (ErrMsg ErrOffline)
      else match parse_int (ct_port c) with
      | Some port =>
          if (port <? 1) || (65535 <=? port) then Err (ErrMsg "soop invalid chat port")
          else Ok (MkInfo (ct_domain c) port (ct_chatno c) (ct_ftk c) (ct_title c))
      | None => Err (ErrMsg "soop invalid chat port")
      end
  end.

Example parse_two_frames :
  parseSoopPackets ("xx" +:+ buildSoopPacket 5 (sep +:+ "hi" +:+ sep +:+ "u(2)" +:+ sep) +:+ buildSoopPacket 1 "") =
  Returns [MkPacket 5 0 ["hi"; "u(2)"] (buildSoopPacket 5 (sep +:+ "hi" +:+ sep +:+ "u(2)" +:+ sep));
           MkPacket 1 0 [] (buildSoopPacket 1 "")]%string.
Proof. vm_compute. reflexivity. Qed.

Example parse_negative_length :
  parseSoopPackets (frame_mark +:+ "0005" +:+ "-00001" +:+ "00") = Panics.
Proof. vm_compute. reflexivity. Qed.
