(* ===== verification/SoopParse.v ===== *)
(** The SOOP frame parser: what it does with one frame, its round trip with
    [buildSoopPacket], and what it returns on bytes of any kind. *)
From S2P Require Import Prelude GoLib Json GoText JsonText SoopWire.

#[local] Opaque padn parse_int.

(** ** One frame *)

Record frame_ok (cmd : Z) (body : string) : Prop := {
  fo_cmd : 0 <= cmd <= 9999;
  fo_body : lenZ body <= 999999
}.

Definition packet_of (cmd : Z) (body : string) : soopPacket :=
  MkPacket cmd 0 (split_fields body) (buildSoopPacket cmd body).

Lemma padn_lenZ w n : (0 < w)%nat -> 0 <= n < 10 ^ Z.of_nat w -> lenZ (padn w n) = Z.of_nat w.
Proof. intros. unfold lenZ. by rewrite padn_length. Qed.

(** A slice of [s], given how [s] splits around it. *)
Lemma slice_at s p m q a b : s = p +:+ (m +:+ q) -> a = lenZ p -> b = a + lenZ m ->
  slice s a b = Some m.
Proof. intros -> -> ->. apply slice_app. Qed.

Section Frame.
Context (cmd : Z) (body rest : string) (Hf : frame_ok cmd body).

Let L4 : lenZ (padn 4 cmd) = 4.
Proof. apply padn_lenZ; [lia|]. destruct Hf. simpl. lia. Qed.
Let L6 : lenZ (padn 6 (lenZ body)) = 6.
Proof. apply padn_lenZ; [lia|]. destruct Hf. pose proof (lenZ_nonneg body). simpl. lia. Qed.
Let L2 : lenZ frame_mark = 2.
Proof. done. Qed.
Let L0 : lenZ "00" = 2.
Proof. done. Qed.

Lemma frame_length : lenZ (buildSoopPacket cmd body) = 14 + lenZ body.
Proof. unfold buildSoopPacket. rewrite !lenZ_app. lia. Qed.

Lemma frame_text : buildSoopPacket cmd body +:+ rest
  = frame_mark +:+ (padn 4 cmd +:+ (padn 6 (lenZ body) +:+ ("00" +:+ (body +:+ rest)))).
Proof. unfold buildSoopPacket. by rewrite !app_assoc_str. Qed.

Lemma read_frame_header :
  read_header (buildSoopPacket cmd body +:+ rest) = Some (cmd, lenZ body, 0).
Proof.
  destruct Hf. pose proof (lenZ_nonneg body). unfold read_header. rewrite frame_text.
  rewrite (slice_at _ frame_mark (padn 4 cmd) (padn 6 (lenZ body) +:+ ("00" +:+ (body +:+ rest))) 2 6);
    [|reflexivity|reflexivity|rewrite L4; reflexivity].
  rewrite (slice_at _ (frame_mark +:+ padn 4 cmd) (padn 6 (lenZ body)) ("00" +:+ (body +:+ rest)) 6 12);
    [|by rewrite !app_assoc_str|rewrite lenZ_app; lia|lia].
  rewrite (slice_at _ (frame_mark +:+ padn 4 cmd +:+ padn 6 (lenZ body)) "00" (body +:+ rest) 12 14);
    [|by rewrite !app_assoc_str|rewrite !lenZ_app; lia|lia].
  cbn [mbind option_bind]. rewrite !parse_int_padn by lia. reflexivity.
Qed.

Lemma frame_slices :
  slice (buildSoopPacket cmd body +:+ rest) 0 (14 + lenZ body) = Some (buildSoopPacket cmd body) /\
  slice (buildSoopPacket cmd body +:+ rest) 14 (14 + lenZ body) = Some body.
Proof.
  split.
  - apply (slice_at _ EmptyString _ rest); [done|done|]. by rewrite frame_length.
  - rewrite frame_text.
    apply (slice_at _ (frame_mark +:+ padn 4 cmd +:+ padn 6 (lenZ body) +:+ "00") body rest);
      [by rewrite !app_assoc_str|rewrite !lenZ_app; lia|lia].
Qed.

Lemma parse_frame f acc :
  parse_from (S f) (buildSoopPacket cmd body +:+ rest) acc
  = parse_from f rest (acc ++ [packet_of cmd body]).
Proof.
  pose proof (lenZ_nonneg body). pose proof (lenZ_nonneg rest).
  cbn [parse_from]. rewrite read_frame_header, lenZ_app, frame_length.
  unfold soopHeaderLen. destruct (_ <? 14) eqn:E; b2p; [lia|].
  rewrite frame_text at 1. rewrite has_prefix_app. cbn [negb].
  destruct (_ <? _) eqn:E2; b2p; [lia|].
  destruct frame_slices as [-> ->]. f_equal.
  replace (Z.to_nat (14 + lenZ body)) with (String.length (buildSoopPacket cmd body)).
  - by rewrite str_drop_app.
  - rewrite <- frame_length. unfold lenZ. lia.
Qed.
End Frame.

(** ** A stream of frames *)

Definition frames (l : list (Z * string)) : string :=
  concat_str (map (fun '(cmd, body) => buildSoopPacket cmd body) l).

Lemma parse_frames l : Forall (fun '(cmd, body) => frame_ok cmd body) l ->
  forall f acc, (length l <= f)%nat ->
  parse_from f (frames l) acc = Returns (acc ++ map (fun '(cmd, body) => packet_of cmd body) l).
Proof.
  unfold frames. induction 1 as [|[cmd body] l Hx _ IH]; intros f acc Hl; simpl in *.
  - rewrite app_nil_r. by destruct f.
  - destruct f as [|f]; [lia|]. rewrite parse_frame by done.
    rewrite IH by lia. by rewrite <- app_assoc.
Qed.

Lemma frames_length l : Forall (fun '(cmd, body) => frame_ok cmd body) l ->
  (length l <= String.length (frames l))%nat.
Proof.
  unfold frames. induction 1 as [|[cmd body] l Hx _ IH]; simpl; [lia|].
  rewrite app_length_str. pose proof (frame_length cmd body Hx) as H. unfold lenZ in H. lia.
Qed.

(** ** Fields of a body *)

Definition body_of (fields : list string) : string := sep +:+ join sep fields +:+ sep.

Lemma drop_str_tail c s : drop_str 1 (String c s) = s.
Proof.
  unfold drop_str. simpl. rewrite Nat.sub_0_r.
  induction s as [|a s IH]; simpl; [done|congruence].
Qed.

Lemma substring_0_app a b : String.substring 0 (String.length a) (a +:+ b) = a.
Proof.
  induction a as [|c a IH]; [by destruct b|].
  change (String c a +:+ b) with (String c (a +:+ b)). simpl. by rewrite IH.
Qed.

Lemma substring_drop a b : String.substring (String.length a) (String.length b) (a +:+ b) = b.
Proof.
  induction a as [|c a IH]; [|exact IH].
  change (EmptyString +:+ b) with b. rewrite <- (app_nil_str b) at 2. apply substring_0_app.
Qed.

Lemma trim_suffix_app a b : trim_suffix (a +:+ b) b = a.
Proof.
  unfold trim_suffix, has_suffix, drop_str. rewrite app_length_str.
  replace (_ - _)%nat with (String.length a) by lia.
  replace (String.length a + String.length b - String.length a)%nat with (String.length b) by lia.
  rewrite substring_drop, String.eqb_refl, andb_true_r.
  replace (_ <=? _)%nat with true by (symmetry; apply Nat.leb_le; lia). apply substring_0_app.
Qed.

Lemma join_nonempty l : l <> [] -> l <> [EmptyString] -> is_empty (join sep l) = false.
Proof. destruct l as [|[|c x] [|y l]]; done. Qed.

(** The fields a body was built of are read back. *)
Lemma split_body l : l <> [] -> l <> [EmptyString] -> forallb (lacks soopFieldSep) l = true ->
  split_fields (body_of l) = l.
Proof.
  intros H1 H2 H3. unfold split_fields, body_of.
  change (sep +:+ join sep l +:+ sep) with (String soopFieldSep (join sep l +:+ sep)).
  unfold trim_prefix. change (has_prefix _ sep) with (has_prefix (join sep l +:+ sep) EmptyString).
  replace (has_prefix (join sep l +:+ sep) EmptyString) with true by (by destruct (join sep l +:+ sep)).
  change (String.length sep) with 1%nat. rewrite drop_str_tail, trim_suffix_app.
  rewrite join_nonempty by done. by apply split_on_join.
Qed.

(** ** Any bytes *)

(** A frame header whose length field has a minus sign. *)
Definition negative_header (s : string) : bool :=
  has_prefix s frame_mark && match slice s 6 7 with Some "-"%string => true | _ => false end.

(** [ps] cut [raw]: each packet's bytes, in order, with bytes skipped between. *)
Inductive cuts : string -> list soopPacket -> Prop :=
| cuts_end s : cuts s []
| cuts_skip c s ps : cuts s ps -> cuts (String c s) ps
| cuts_packet p s ps : cuts s ps -> soopHeaderLen <= lenZ (Raw p) -> has_prefix (Raw p) frame_mark = true ->
    cuts (Raw p +:+ s) (p :: ps).

Lemma cuts_total raw ps : cuts raw ps -> sumZ (fun p => lenZ (Raw p)) ps <= lenZ raw.
Proof.
  induction 1 as [s|c s ps _ IH|p s ps _ IH _ _]; cbn [sumZ].
  - apply lenZ_nonneg.
  - unfold lenZ in *. cbn [String.length]. lia.
  - rewrite lenZ_app. lia.
Qed.

Lemma cuts_count raw ps : cuts raw ps -> Z.of_nat (length ps) <= lenZ raw.
Proof.
  induction 1 as [s|c s ps _ IH|p s ps _ IH Hl _]; cbn [length].
  - apply lenZ_nonneg.
  - unfold lenZ in *. cbn [String.length]. lia.
  - rewrite lenZ_app. unfold soopHeaderLen in Hl. lia.
Qed.

Inductive suffix_of : string -> string -> Prop :=
| suffix_refl s : suffix_of s s
| suffix_cons c s t : suffix_of t s -> suffix_of t (String c s).

Lemma suffix_drop n s : suffix_of (str_drop n s) s.
Proof. revert s; induction n as [|n IH]; intros [|c s]; simpl; constructor; apply IH. Qed.

Lemma suffix_trans a b c : suffix_of a b -> suffix_of b c -> suffix_of a c.
Proof. intros Ha Hb. revert Ha. induction Hb; [done|]. intros. constructor. auto. Qed.

Lemma parse_int_negative s n : parse_int s = Some n -> n < 0 ->
  match s with String c _ => c = "-"%char | EmptyString => False end.
Proof.
  Transparent parse_int. unfold parse_int. destruct s as [|c s]; [done|]. Opaque parse_int.
  destruct (Ascii.eqb c "-") eqn:E; [by intros _ _; apply Ascii.eqb_eq|].
  destruct (if Ascii.eqb c "+" then (false, s) else (false, String c s)) as [neg body] eqn:E2.
  assert (neg = false) as -> by (destruct (Ascii.eqb c "+"); congruence).
  destruct (is_empty body); [done|]. destruct (parse_digits 0 body) as [m|] eqn:Ep; [|done].
  apply parse_digits_nonneg in Ep; [|lia]. destruct (_ <=? _); [|done]. intros [= <-]. lia.
Qed.

(** The first byte of a slice is a slice. *)
Lemma slice_first s a b c x : slice s a b = Some (String c x) -> slice s a (a + 1) = Some (String c EmptyString).
Proof.
  intros H. pose proof (slice_length _ _ _ _ H) as (? & ? & Hl). unfold lenZ in Hl at 1. cbn [String.length] in Hl.
  unfold slice in *. destruct (_ && (b <=? _)); [|done]. injection H as H.
  replace (_ && _) with true.
  - f_equal. replace (Z.to_nat (a + 1 - a)) with 1%nat by lia.
    destruct (Z.to_nat (b - a)) as [|k] eqn:Ek; [lia|].
    destruct (str_drop (Z.to_nat a) s) as [|d r]; [done|]. cbn [str_take] in *. congruence.
  - symmetry. rewrite !andb_true_iff, !Z.leb_le. lia.
Qed.

Lemma header_negative rest cmd n ret : has_prefix rest frame_mark = true ->
  read_header rest = Some (cmd, n, ret) -> n < 0 -> negative_header rest = true.
Proof.
  unfold read_header, negative_header. intros Hp H Hn. rewrite Hp.
  destruct (slice rest 2 6 ≫= parse_int) as [c|]; cbn in H; [|done].
  destruct (slice rest 6 12) as [x|] eqn:Ex; cbn in H; [|done].
  destruct (parse_int x) as [m|] eqn:Em; cbn in H; [|done].
  destruct (slice rest 12 14 ≫= parse_int) as [r|]; cbn in H; [|done].
  injection H as <- <- <-. pose proof (parse_int_negative _ _ Em Hn) as Hc.
  destruct x as [|d x]; [done|]. subst d. apply slice_first in Ex.
  change (6 + 1) with 7 in Ex. by rewrite Ex.
Qed.

Lemma prefix_of_part a b p : has_prefix (a +:+ b) p = true ->
  (String.length p <= String.length a)%nat -> has_prefix a p = true.
Proof.
  revert a. induction p as [|c p IH]; intros [|d a]; simpl; intros H Hl; try done; [lia|].
  b2p. apply andb_true_iff. split; [done|]. apply IH; [done|lia].
Qed.

(** What the loop makes of the rest, the packets found before put first. *)
Lemma parse_from_total fuel rest acc : (String.length rest <= fuel)%nat ->
  (exists ps, parse_from fuel rest acc = Returns (acc ++ ps) /\ cuts rest ps) \/
  (parse_from fuel rest acc = Panics /\
   exists s, suffix_of s rest /\ negative_header s = true).
Proof.
  revert rest acc. induction fuel as [|f IH]; intros rest acc Hl.
  { left. exists []. destruct rest; [|simpl in Hl; lia]. split; [by rewrite app_nil_r|constructor]. }
  assert (rest <> EmptyString ->
    (exists ps, parse_from f (str_drop 1 rest) acc = Returns (acc ++ ps) /\ cuts rest ps) \/
    (parse_from f (str_drop 1 rest) acc = Panics /\
     exists s, suffix_of s rest /\ negative_header s = true)) as Hskip.
  { intros Hne. destruct rest as [|c r]; [done|]. simpl in Hl |- *.
    destruct (IH r acc) as [(ps & -> & Hc)|(-> & s & Hs & Hn)]; [lia| |].
    - left. exists ps. split; [done|by constructor].
    - right. split; [done|]. exists s. split; [by constructor|done]. }
  cbn [parse_from]. destruct (lenZ rest <? soopHeaderLen) eqn:El.
  { left. exists []. split; [by rewrite app_nil_r|constructor]. }
  b2p. unfold soopHeaderLen in *.
  assert (rest <> EmptyString) as Hne by (intros ->; unfold lenZ in El; simpl in El; lia).
  destruct (has_prefix rest frame_mark) eqn:Ep; cbn [negb]; [|by apply Hskip].
  destruct (read_header rest) as [[[cmd n] ret]|] eqn:Eh; [|by apply Hskip].
  destruct (lenZ rest <? 14 + n) eqn:Eb; [by apply Hskip|]. b2p.
  destruct (slice rest 0 (14 + n)) as [frame|] eqn:Ef.
  2: { right. split; [done|]. exists rest. split; [constructor|]. eapply header_negative; [done..|].
       unfold slice in Ef. destruct (_ && _) eqn:E; [done|].
       apply andb_false_iff in E as [E|E]; b2p; [apply andb_false_iff in E as [E|E]; b2p; lia|lia]. }
  destruct (slice rest 14 (14 + n)) as [body|] eqn:Es.
  2: { right. split; [done|]. exists rest. split; [constructor|]. eapply header_negative; [done..|].
       unfold slice in Es. destruct (_ && _) eqn:E; [done|].
       apply andb_false_iff in E as [E|E]; b2p; [apply andb_false_iff in E as [E|E]; b2p; lia|lia]. }
  pose proof (slice_length _ _ _ _ Es) as (? & _ & _).
  pose proof (slice_length _ _ _ _ Ef) as (_ & _ & Hlf).
  pose proof (slice_prefix _ _ _ Ef) as Hr.
  set (p := MkPacket cmd ret (split_fields body) frame).
  destruct (IH (str_drop (Z.to_nat (14 + n)) rest) (acc ++ [p])) as [(ps & -> & Hc)|(-> & s & Hs & Hn)].
  - rewrite length_str_drop. lia.
  - left. exists (p :: ps). rewrite <- app_assoc. split; [done|].
    rewrite Hr. change frame with (Raw p). constructor; [done|change (Raw p) with frame; unfold soopHeaderLen; lia|].
    change (Raw p) with frame. rewrite Hr in Ep. eapply prefix_of_part; [done|].
    unfold lenZ in Hlf. simpl. lia.
  - right. split; [done|]. exists s. split; [|done]. eapply suffix_trans; [done|apply suffix_drop].
Qed.
