(* ===== verification/Soop.v ===== *)
(** The SOOP connector (src/worker/internal/connector/soop.go): login and join
    handshake, the conversion of packets to chat messages, and the donation
    path into the sink the worker installs. A run is a sequence of frames
    read, pings, read errors, and of the receivers of the two channels. *)
From S2P Require Import Prelude GoLib Json GoText JsonText GoFloat.
From S2P Require Import Tx Model Message SoopWire.
From Stdlib Require Import SpecFloat.

Definition soopMsgBufSize : Z := 256.
Definition soopErrBufSize : Z := 8.

(** [joinedCh]: [None] is nil, otherwise the signals it buffers, one at most.
    [sent]: what was written to the websocket; [dropped]: messages the full
    buffer refused. *)
Record soop := Soop {
  epoch : string; startedAt : Z;
  joinRequested : bool; joined : bool; joinedCh : option nat; lastReceived : Z;
  has_conn : bool; alive : bool; cancelled : bool; closed : bool;
  channelID : string; streamerName : string; chatNo : string; ftk : string;
  msgCh : list ChatMessage; errCh : list string; seq : Z;
  sent : list string; dropped : Z
}.

Definition set_handshake (requested j : bool) (ch : option nat) (c : soop) : soop :=
  Soop (epoch c) (startedAt c) requested j ch (lastReceived c) (has_conn c) (alive c) (cancelled c)
    (closed c) (channelID c) (streamerName c) (chatNo c) (ftk c) (msgCh c) (errCh c) (seq c) (sent c)
    (dropped c).
Definition set_lastReceived (t : Z) (c : soop) : soop :=
  Soop (epoch c) (startedAt c) (joinRequested c) (joined c) (joinedCh c) t (has_conn c) (alive c)
    (cancelled c) (closed c) (channelID c) (streamerName c) (chatNo c) (ftk c) (msgCh c) (errCh c)
    (seq c) (sent c) (dropped c).
Definition set_socket (a x cl : bool) (c : soop) : soop :=
  Soop (epoch c) (startedAt c) (joinRequested c) (joined c) (joinedCh c) (lastReceived c) (has_conn c)
    a x cl (channelID c) (streamerName c) (chatNo c) (ftk c) (msgCh c) (errCh c) (seq c) (sent c)
    (dropped c).
Definition set_queues (ms : list ChatMessage) (es : list string) (d : Z) (c : soop) : soop :=
  Soop (epoch c) (startedAt c) (joinRequested c) (joined c) (joinedCh c) (lastReceived c) (has_conn c)
    (alive c) (cancelled c) (closed c) (channelID c) (streamerName c) (chatNo c) (ftk c) ms es (seq c)
    (sent c) d.
Definition set_seq (n : Z) (c : soop) : soop :=
  Soop (epoch c) (startedAt c) (joinRequested c) (joined c) (joinedCh c) (lastReceived c) (has_conn c)
    (alive c) (cancelled c) (closed c) (channelID c) (streamerName c) (chatNo c) (ftk c) (msgCh c)
    (errCh c) n (sent c) (dropped c).
Definition set_sent (l : list string) (c : soop) : soop :=
  Soop (epoch c) (startedAt c) (joinRequested c) (joined c) (joinedCh c) (lastReceived c) (has_conn c)
    (alive c) (cancelled c) (closed c) (channelID c) (streamerName c) (chatNo c) (ftk c) (msgCh c)
    (errCh c) (seq c) l (dropped c).

(** [NewSoopConnector]: the epoch and the instant are fresh. *)
Definition NewSoopConnector (uuid : string) (now : Z) : soop :=
  Soop uuid now false false None 0 false false false false "" "" "" "" [] [] 0 [] 0.

(** [isAllowedChatHost], and the suffixes [NewSoopConnector] keeps;
    [is_ip] is [net.ParseIP(host) != nil]. *)
Fixpoint trim_dots_left (s : string) : string :=
  match s with
  | String c r => if Ascii.eqb c "."%char then trim_dots_left r else s
  | EmptyString => EmptyString
  end.
Definition normal_host (s : string) : string :=
  to_lower (rev_str (trim_dots_left (rev_str (trim_dots_left (trim_space s))))).
Definition host_name (is_ip : string -> bool) (h : string) : bool :=
  negb (is_empty h) && negb (is_ip h) && negb (String.eqb h "localhost").
Definition allowedHostSuffixes (is_ip : string -> bool) (given : list string) : list string :=
  List.filter (host_name is_ip) (map normal_host given).
Definition isAllowedChatHost (is_ip : string -> bool) (allowed : list string) (host : string) : bool :=
  let host := normal_host host in
  host_name is_ip host
  && existsb (fun suffix => String.eqb host suffix || has_suffix host ("." +:+ suffix)) allowed.

(** ** Messages *)

Definition message_id (c : soop) (n : Z) : string :=
  "soop-" +:+ channelID c +:+ "-" +:+ epoch c +:+ "-" +:+ format_int n.

(** A message with the members every conversion sets alike. *)
Definition soop_message (c : soop) (n now : Z) (t : MessageType) (user nick text raw : string) : ChatMessage :=
  MkMessage (message_id c n) t PlatformSoop (channelID c) (streamerName c) user nick text now raw
    (S754_zero false) "" 0 [].

Definition no_message : ChatMessage :=
  MkMessage "" MessageTypeChat "" "" "" "" "" "" zero_time "" (S754_zero false) "" 0 [].

Definition nick_or (nick other : string) : string :=
  let nick := if is_empty nick then other else nick in if is_empty nick then "?" else nick.

Definition remove_cr : string -> string := remove_byte "013"%char.

(** The conversions get the number [c.seq.Add(1)] gives; those that end early
    without it return [no_message]. *)
Definition convertChatPacket (c : soop) (n now : Z) (p : soopPacket) : ChatMessage :=
  let userID := strip_user_suffix (fieldAt (Fields p) 1) in
  soop_message c n now MessageTypeChat userID (nick_or (fieldAt (Fields p) 5) userID)
    (match Fields p with x :: _ => remove_cr x | [] => "" end) (Raw p).

Definition ogq_matches (p : soopPacket) : bool :=
  soopOGQID (fieldAt (Fields p) 2) && soopOGQNumber (fieldAt (Fields p) 3).

Definition convertOGQPacket (c : soop) (n now : Z) (p : soopPacket) : ChatMessage :=
  let f := fieldAt (Fields p) in
  let animated := String.eqb (f 17) "1" in
  let userID := strip_user_suffix (f 5) in
  let m := soop_message c n now MessageTypeChat userID (nick_or (f 6) userID) (remove_cr (f 1)) (Raw p) in
  MkMessage (m_ID m) (m_Type m) (m_Platform m) (m_ChannelID m) (m_StreamerName m) (m_UserID m)
    (m_Nickname m) (m_Message m) (m_Timestamp m) (m_Raw m) (m_Amount m) (m_Currency m) (m_AmountKRW m)
    [MkEmote (f 2 +:+ ":" +:+ f 3) (-1) (-1)
       ("https://ogq-sticker-global-cdn-z01.sooplive.com/sticker/" +:+ f 2 +:+ "/" +:+ f 3 +:+ "_160."
        +:+ (if animated then "webp" else "png")) animated "soop_ogq"].

Definition parseNumericField (value : string) : spec_float :=
  default (S754_zero false) (parse_float value).

Definition convertDonationPacket (c : soop) (n now : Z) (p : soopPacket) : ChatMessage :=
  let f := fieldAt (Fields p) in
  let '(userID, nick, amount, text) :=
    match (if Cmd p =? soopCmdMissionGift then parseMissionGiftPayload (Fields p) else None) with
    | Some g => (gf_UserID g, gf_UserNick g, binary_normalize 53 1024 (gf_GiftCount g) 0 false, gift_message g)
    | None => (f 1, f 2, parseNumericField (f 3), donationMessageForCommand (Cmd p) (Fields p))
    end in
  MkMessage (message_id c n) MessageTypeDonation PlatformSoop (channelID c) (streamerName c)
    (strip_user_suffix userID) (nick_or nick userID) text now (Raw p) amount "SOOP_BALLOON"
    (float_to_int64 (SFmul 53 1024 amount (binary_normalize 53 1024 100 0 false))) [].

Definition convertSubscriptionPacket (c : soop) (n now : Z) (p : soopPacket) : ChatMessage :=
  let f := fieldAt (Fields p) in
  soop_message c n now MessageTypeSubscription (strip_user_suffix (f 1)) (nick_or (f 0) (f 1))
    (join " " (nonEmptyFields (take 3 (Fields p)))) (Raw p).

Definition convertSystemPacket (c : soop) (n now : Z) (p : soopPacket) : ChatMessage :=
  soop_message c n now MessageTypeSystem "" "system" (fieldAt (Fields p) 0) (Raw p).

Section Connector.
(** [S]: the state the sink works on; [driver_text]: the text of a network
    error. *)
Context {S : Type} (sink : option (Donation.t -> M S unit)) (driver_text : string).

Record conn := Conn { cn : soop; sk : S }.
Notation Mc := (M conn).

Definition upd (f : soop -> soop) : Mc unit := fun _ s =>
  (Ok tt, World (Conn (f (cn (db s))) (sk (db s))) (wk s) (tick s)).
Definition get : Mc soop := fun _ s => (Ok (cn (db s)), s).

Definition sink_call (f : Donation.t -> M S unit) (d : Donation.t) : Mc unit := fun e s =>
  let '(r, w) := f d e (World (sk (db s)) (sk (db s)) (tick s)) in
  (r, World (Conn (cn (db s)) (db w)) (wk s) (tick w)).

(** [select { case c.errCh <- err: default: }] *)
Definition push_err (x : string) : Mc unit := upd (fun c =>
  if Z.of_nat (length (errCh c)) <? soopErrBufSize
  then set_queues (msgCh c) (errCh c ++ [x]) (dropped c) c else c).

Definition emitMessage (m : ChatMessage) : Mc unit :=
  if is_empty (m_ID m) then mret tt
  else upd (fun c =>
    if Z.of_nat (length (msgCh c)) <? soopMsgBufSize
    then set_queues (msgCh c ++ [m]) (errCh c) (dropped c) c
    else set_queues (msgCh c) (errCh c) (dropped c + 1) c).

(** [c.seq.Add(1)] *)
Definition next_seq : Mc Z :=
  c ← get; let n := i64 (seq c + 1) in upd (set_seq n) ;; mret n.

Definition closeConn : Mc unit := upd (fun c => set_socket false true (has_conn c || closed c) c).

Definition write_frame (frame : string) : Mc unit :=
  c ← get;
  guard_ok (alive c && has_conn c) (ErrMsg "soop websocket not connected") ;;
  sys_exec (fun _ x => Ok (tt, Conn (set_sent (sent (cn x) ++ [frame]) (cn x)) (sk x))).
Definition writePacket (cmd : Z) (body : string) : Mc unit := write_frame (buildSoopPacket cmd body).

Definition err_text (x : error) : string := match x with ErrMsg t => t | _ => driver_text end.

Definition convert_and_emit (conv : soop -> Z -> Z -> ChatMessage) : Mc unit :=
  n ← next_seq; now ← time_now; c ← get; emitMessage (conv c n now).

(** The donation of a balloon packet; the count is read before. *)
Definition balloon (c : soop) (n now count : Z) (p : soopPacket) : Donation.t :=
  Donation.Mk (epoch c +:+ "-" +:+ format_uint (u64 n)) (channelID c) count "balloon"
    (strip_user_suffix (fieldAt (Fields p) 1)) (fieldAt (Fields p) 2) "" (epoch c) (u64 n) now
    (startedAt c) None None "" [] [] "" 0.

Definition accept (f : Donation.t -> M S unit) (d : Donation.t) (count : option Z) : Mc unit :=
  match count with
  | None => fail (ErrMsg "strconv.ParseInt")
  | Some _ => lift (Donation.Validate d) ;; sink_call f d
  end.

Definition handleDonation (p : soopPacket) : Mc unit :=
  match sink with
  | None => convert_and_emit (fun c n now => convertDonationPacket c n now p)
  | Some f =>
      if negb (Cmd p =? soopCmdSendBalloon) then
        id ← new_uuid; now ← time_now; c ← get;
        emitMessage (MkMessage id MessageTypeSystem PlatformSoop (channelID c) "" "" ""
          "unsupported_donation_kind" now "" (S754_zero false) "" 0 [])
      else
        let count := parse_int (fieldAt (Fields p) 3) in
        n ← next_seq; now ← time_now; c ← get;
        r ← try (accept f (balloon c n now (default 0 count) p) count);
        match r with
        | Ok _ => mret tt
        | Err _ => push_err "donation acceptance failed; collection stopped" ;; closeConn
        end
  end.

Definition join_body (c : soop) : string :=
  sep +:+ chatNo c +:+ sep +:+ ftk c +:+ sep +:+ "0" +:+ sep +:+ sep +:+ sep.

Definition handleLogin (p : soopPacket) : Mc unit :=
  if negb (Ret p =? 0) then push_err ("soop login rejected: ret=" +:+ format_int (Ret p))
  else
    c ← get;
    r ← try (writePacket soopCmdJoin (join_body c));
    match r with
    | Err x => push_err ("soop send join: " +:+ err_text x)
    | Ok _ => upd (fun c => set_handshake true (joined c) (joinedCh c) c)
    end.

Definition handleJoin (p : soopPacket) : Mc unit :=
  c ← get;
  if negb (joinRequested c) then mret tt
  else if negb (Ret p =? 0) then push_err ("soop join rejected: ret=" +:+ format_int (Ret p))
  else upd (fun c => set_handshake (joinRequested c) true
                       (match joinedCh c with None => None | Some _ => Some 1%nat end) c).

Definition is_cmd (p : soopPacket) (l : list Z) : bool := existsb (Z.eqb (Cmd p)) l.

Definition handlePacket (p : soopPacket) : Mc unit :=
  c ← get;
  let waiting := match joinedCh c with Some _ => negb (joined c) | None => false end in
  if waiting && negb (is_cmd p [soopCmdLogin; soopCmdJoin]) then mret tt
  else
    (if is_cmd p [soopCmdChatMessage; soopCmdOGQEmoticon; soopCmdSendBalloon]
     then now ← time_now; upd (set_lastReceived now) else mret tt) ;;
    if Cmd p =? soopCmdLogin then handleLogin p
    else if Cmd p =? soopCmdJoin then handleJoin p
    else if Cmd p =? soopCmdChatMessage then
      convert_and_emit (fun c n now => convertChatPacket c n now p)
    else if Cmd p =? soopCmdOGQEmoticon then
      if ogq_matches p then convert_and_emit (fun c n now => convertOGQPacket c n now p)
      else emitMessage no_message
    else if is_cmd p [soopCmdSendBalloon; soopCmdChocolate; soopCmdSuperChat; soopCmdMissionGift]
    then handleDonation p
    else if is_cmd p [soopCmdFollowItem; soopCmdFollowItemChain; soopCmdSendSubscribe] then
      convert_and_emit (fun c n now => convertSubscriptionPacket c n now p)
    else if is_cmd p [soopCmdNotice; soopCmdBJNotice] then
      if is_empty (fieldAt (Fields p) 0) then emitMessage no_message
      else convert_and_emit (fun c n now => convertSystemPacket c n now p)
    else mret tt.

Fixpoint handle_packets (l : list soopPacket) : Mc unit :=
  match l with [] => mret tt | p :: l => handlePacket p ;; handle_packets l end.

(** A panic of the parser ends the process. *)
Definition handleFrame (data : string) : Mc unit :=
  match parseSoopPackets data with
  | Returns l => handle_packets l
  | _ => fail (ErrMsg "panic")
  end.

(** ** The two loops, one round each *)

Definition soopReadTimeoutText : string := "3m0s".

(** What [ReadMessage] returned. *)
Inductive read : Type :=
| Frame (data : string)
| ReadError (text : string) (timeout : bool).

(** [true]: the loop goes on. *)
Definition read_round (r : read) (ctx_done deadline_fails : bool) : Mc bool :=
  match r with
  | ReadError text timeout =>
      (if ctx_done then mret tt
       else let text := if timeout then "soop ws read timeout after " +:+ soopReadTimeoutText +:+ ": " +:+ text
                        else text in
            push_err ("soop ws read: " +:+ text)) ;;
      upd (fun c => set_socket false (cancelled c) (closed c) c) ;; mret false
  | Frame data =>
      if deadline_fails then
        push_err ("soop refresh read deadline: " +:+ driver_text) ;;
        upd (fun c => set_socket false (cancelled c) (closed c) c) ;; mret false
      else handleFrame data ;; mret true
  end.

(** One tick of [pingLoop]: a control frame, then the keepalive packet. *)
Definition writeWSPing : Mc unit := write_frame "ping:hb".
Definition ping_round : Mc bool :=
  r ← try writeWSPing;
  match r with
  | Err x => push_err ("soop ws ping failed: " +:+ err_text x) ;; mret false
  | Ok _ =>
      r ← try (writePacket soopCmdKeepalive sep);
      match r with
      | Err x => push_err ("soop ping write failed: " +:+ err_text x) ;; mret false
      | Ok _ => mret true
      end
  end.

(** [Connect] from the dialled socket to the login packet. *)
Definition connect_setup (channel streamer : string) (info : soopChatInfo) : Mc unit :=
  upd (fun c => Soop (epoch c) (startedAt c) false false (Some 0%nat) (lastReceived c) true true
         (cancelled c) (closed c) channel streamer (ci_ChatNo info) (ci_FTK info) (msgCh c) (errCh c)
         (seq c) (sent c) (dropped c)).
Definition send_login : Mc unit :=
  r ← try (writePacket soopCmdLogin (sep +:+ sep +:+ sep +:+ "16" +:+ sep));
  match r with
  | Err x => closeConn ;; fail (ErrMsg ("soop send login: " +:+ err_text x))
  | Ok _ => mret tt
  end.

(** The case its [select] takes, one that is ready. *)
Inductive wait : Type := WaitJoined | WaitError | WaitTimeout | WaitContext.
Definition connect_wait (w : wait) : Mc unit :=
  c ← get;
  match w with
  | WaitJoined =>
      match joinedCh c with
      | Some (Datatypes.S n) => upd (fun c => set_handshake (joinRequested c) (joined c) (Some n) c)
      | _ => fail (ErrMsg "not ready")
      end
  | WaitError =>
      match errCh c with
      | x :: l =>
          upd (fun c => set_queues (msgCh c) l (dropped c) c) ;; closeConn ;;
          fail (ErrMsg ("soop handshake failed for " +:+ channelID c +:+ ": " +:+ x))
      | [] => fail (ErrMsg "not ready")
      end
  | WaitTimeout => closeConn ;; fail (ErrMsg ("soop handshake timeout for " +:+ channelID c))
  | WaitContext => closeConn ;; fail ErrContext
  end.

Definition Disconnect : Mc unit := upd (fun c => set_socket false true (has_conn c || closed c) c).

(** The receivers of [Messages()] and [Errors()]. *)
Definition take_message : Mc (option ChatMessage) :=
  c ← get;
  match msgCh c with
  | m :: l => upd (fun c => set_queues l (errCh c) (dropped c) c) ;; mret (Some m)
  | [] => mret None
  end.
Definition take_error : Mc (option string) :=
  c ← get;
  match errCh c with
  | x :: l => upd (fun c => set_queues (msgCh c) l (dropped c) c) ;; mret (Some x)
  | [] => mret None
  end.

(** [LastReceived()]; the zero time before anything was received. *)
Definition LastReceived (c : soop) : Z := if lastReceived c =? 0 then zero_time else lastReceived c.
End Connector.
Arguments conn S : clear implicits.
