(* ===== verification/SoopInv.v ===== *)
(** What always holds of a SOOP connection, whatever the platform sends:
    nothing is emitted before the join is acknowledged, donations reach the
    sink with increasing sequence numbers, and a refused one ends the
    connection. The sink here records what it is offered and its answer. *)
From S2P Require Import Prelude GoLib Json GoText Tx Model.
From S2P Require Import Message SoopWire SoopParse Soop.

#[local] Arguments i64 : simpl never.
#[local] Arguments u64 : simpl never.
#[local] Arguments time_now : simpl never.

(** ** Assertions about the connector's monad *)

Section Logic.
Context {S : Type}.
Notation Mc := (M (conn S)).

Lemma hoare_upd (P : conn S -> Prop) f (Q : unit -> conn S -> Prop) E :
  (forall x, P x -> Q tt (Conn (f (cn x)) (sk x))) -> hoare P (upd f) Q E.
Proof. intros H e s Hs. simpl. auto. Qed.

Lemma hoare_get (P : conn S -> Prop) E : hoare P get (fun c x => P x /\ c = cn x) E.
Proof. intros e s Hs. simpl. auto. Qed.

Lemma hoare_time {A} (P : conn S -> Prop) (k : Z -> Mc A) Q E :
  (forall t, hoare P (k t) Q E) -> hoare P (time_now ≫= k) Q E.
Proof. intros H e s Hs. by apply H. Qed.

Lemma hoare_uuid {A} (P : conn S -> Prop) (k : string -> Mc A) Q E :
  (forall t, hoare P (k t) Q E) -> hoare P (new_uuid ≫= k) Q E.
Proof. intros H e s Hs. by apply H. Qed.

Lemma hoare_err_weaken {A} (P : conn S -> Prop) (m : Mc A) Q (E E' : conn S -> Prop) :
  (forall x, E x -> E' x) -> hoare P m Q E -> hoare P m Q E'.
Proof. intros H Hm e s Hs. specialize (Hm e s Hs). destruct (m e s) as [[?|?] ?]; auto. Qed.

Lemma hoare_guard_c (P : conn S -> Prop) c x (E : conn S -> Prop) :
  (forall d, P d -> E d) -> hoare P (guard_ok c x) (fun _ d => P d /\ c = true) E.
Proof. intros H e s Hs. destruct c; simpl; auto. Qed.

Lemma hoare_try {A} (P : conn S -> Prop) (m : Mc A) (Q : A -> conn S -> Prop) (R F : conn S -> Prop) :
  hoare P m Q R -> hoare P (try m) (fun r x => match r with Ok a => Q a x | Err _ => R x end) F.
Proof.
  intros H e s Hs. specialize (H e s Hs). unfold try. destruct (m e s) as [[a|x] s']; exact H.
Qed.

(** Reading the connector, when what is read does not matter. *)
Lemma hoare_get_any {A} (P : conn S -> Prop) (k : soop -> Mc A) Q E :
  (forall c, hoare P (k c) Q E) -> hoare P (get ≫= k) Q E.
Proof. intros H e s Hs. by apply H. Qed.

Lemma hoare_get_bind {A} (P : conn S -> Prop) (k : soop -> Mc A) Q E :
  (forall c, hoare (fun x => P x /\ cn x = c) (k c) Q E) -> hoare P (get ≫= k) Q E.
Proof. intros H e s Hs. by apply H. Qed.

(** A fact of the precondition that is not about the state. *)
Lemma hoare_facts {A} (F : Prop) (P : conn S -> Prop) (m : Mc A) Q E :
  (forall x, P x -> F) -> (F -> hoare P m Q E) -> hoare P m Q E.
Proof. intros HF H e s Hs. apply H; [by eapply HF|done]. Qed.

Lemma hoare_pure {A} (P : conn S -> Prop) (F : Prop) (m : Mc A) Q E :
  (F -> hoare P m Q E) -> hoare (fun x => P x /\ F) m Q E.
Proof. intros H e s [Hs Hf]. by apply H. Qed.
End Logic.

(** Enters the two branches of a program's test. *)
Ltac branch := match goal with |- hoare _ (if ?c then _ else _) _ _ => destruct c end.

(** ** The recording sink *)

Definition log : Type := list (Donation.t * bool).

Section Session.
Context (answer : nat -> Donation.t -> result unit) (driver_text ep chan info_chat info_ftk : string).

(** Newest first. *)
Definition recorder (d : Donation.t) : M log unit := fun _ s =>
  let r := answer (tick s) d in (r, World ((d, is_ok r) :: db s) (wk s) (S (tick s))).

Notation handlePacket := (handlePacket (Some recorder) driver_text).
Notation handleFrame := (handleFrame (Some recorder) driver_text).

Definition join_frame : string :=
  buildSoopPacket soopCmdJoin
    (sep +:+ info_chat +:+ sep +:+ info_ftk +:+ sep +:+ "0" +:+ sep +:+ sep +:+ sep).

(** A donation the connector made: its place in the connection names it. *)
Definition observed (n : Z) (d : Donation.t) : Prop :=
  0 < Donation.Sequence d <= n /\ Donation.EventID d = ep +:+ "-" +:+ format_uint (Donation.Sequence d) /\
  Donation.ConnectionEpoch d = ep /\ Donation.ChannelID d = chan /\ Donation.Validate d = Ok tt.

Definition newer (a b : Donation.t * bool) : Prop := Donation.Sequence b.1 < Donation.Sequence a.1.

Record inv (b : Z) (x : conn log) : Prop := {
  iv_epoch : epoch (cn x) = ep;
  iv_channel : channelID (cn x) = chan;
  iv_info : chatNo (cn x) = info_chat /\ ftk (cn x) = info_ftk;
  iv_conn : has_conn (cn x) = true;
  iv_request : joinRequested (cn x) = true -> join_frame ∈ sent (cn x);
  iv_joined : joined (cn x) = true -> joinRequested (cn x) = true;
  iv_signal : exists n, joinedCh (cn x) = Some n /\ (n <= 1)%nat /\ (n = 1%nat -> joined (cn x) = true);
  iv_quiet : joined (cn x) = false ->
    msgCh (cn x) = [] /\ sk x = [] /\ lastReceived (cn x) = 0 /\ seq (cn x) = 0 /\ dropped (cn x) = 0;
  iv_seq : 0 <= seq (cn x) <= b;
  iv_msgs : Z.of_nat (length (msgCh (cn x))) <= soopMsgBufSize;
  iv_errs : Z.of_nat (length (errCh (cn x))) <= soopErrBufSize;
  iv_log : Forall (fun p => observed (seq (cn x)) p.1) (sk x);
  iv_order : StronglySorted newer (sk x);
  iv_stop : Exists (fun p => p.2 = false) (sk x) -> alive (cn x) = false /\ closed (cn x) = true
}.

Lemma inv_le b b' x : inv b x -> b <= b' -> inv b' x.
Proof. intros [] ?. constructor; auto. lia. Qed.

Ltac keep_inv H :=
  destruct H; constructor; cbn [cn sk epoch channelID chatNo ftk has_conn joinRequested joined joinedCh sent msgCh
    lastReceived seq dropped errCh alive closed set_handshake set_lastReceived set_socket set_queues
    set_seq set_sent] in *; auto.

Notation keeps b m := (hoare (inv b) m (fun _ => inv b) (inv b)).

Lemma keeps_push_err b x : keeps b (push_err x).
Proof.
  apply hoare_upd. intros y H. destruct (_ <? _) eqn:E; [|destruct y; exact H]. b2p.
  keep_inv H. rewrite length_app. cbn. lia.
Qed.

Lemma keeps_close b : keeps b closeConn.
Proof. apply hoare_upd. intros y H. keep_inv H. rewrite iv_conn0. auto. Qed.

Lemma keeps_write b f : keeps b (write_frame f).
Proof.
  unfold write_frame. apply hoare_get_any. intros c.
  eapply hoare_bind; [by apply hoare_guard_c|]. intros ?. cbv beta.
  apply hoare_pure. intros _. apply hoare_sys_exec; [|done].
  intros t y u y' H [= _ <-]. keep_inv H. intros. apply elem_of_app. auto.
Qed.

Lemma keeps_join_frame b :
  hoare (inv b) (writePacket soopCmdJoin (sep +:+ info_chat +:+ sep +:+ info_ftk +:+ sep +:+ "0" +:+ sep +:+ sep +:+ sep))
    (fun _ x => inv b x /\ join_frame ∈ sent (cn x)) (inv b).
Proof.
  unfold writePacket, write_frame. apply hoare_get_any. intros c.
  eapply hoare_bind; [by apply hoare_guard_c|]. intros ?. cbv beta.
  apply hoare_pure. intros _. apply hoare_sys_exec; [|done].
  intros t y u y' H [= _ <-]. fold join_frame. split.
  - keep_inv H. intros. apply elem_of_app. auto.
  - cbn. apply elem_of_app. right. by apply list_elem_of_singleton.
Qed.

(** Emitting once the join is acknowledged. *)
Definition inv_joined b x : Prop := inv b x /\ joined (cn x) = true.

Lemma emit_joined b m : hoare (inv_joined b) (emitMessage m) (fun _ => inv b) (inv b).
Proof.
  unfold emitMessage. destruct (is_empty _); [by apply hoare_ret; intros ? []|].
  apply hoare_upd. intros y [H Hj]. destruct (_ <? _) eqn:E; b2p;
    keep_inv H; try (intros; congruence).
  rewrite length_app. cbn. lia.
Qed.

Definition small (b : Z) : Prop := b < 9223372036854775807.

Lemma next_seq_joined b : small b ->
  hoare (inv_joined b) next_seq
    (fun n x => (inv_joined (b + 1) x /\ 0 < n /\ n = seq (cn x) /\
                 Forall (fun p => Donation.Sequence p.1 < n) (sk x))) (inv b).
Proof.
  intros Hb e s [H Hj]. unfold next_seq, mbind, M_bind, get, upd. cbn. pose proof (iv_seq _ _ H). unfold small in Hb.
  rewrite i64_id by lia.
  assert (Forall (fun p => Donation.Sequence p.1 < seq (cn (db s)) + 1) (sk (db s))) as Hl.
  { eapply Forall_impl; [apply (iv_log _ _ H)|]. intros [d o] (? & _). cbn in *. lia. }
  split; [split; [|done]|split; [lia|split; [done|done]]].
  keep_inv H; try (intros; congruence); [lia|].
  eapply Forall_impl; [exact iv_log0|]. intros [d o] (? & ?). split; [|done]. cbn in *. lia.
Qed.

(** ** One packet *)

Lemma keeps_convert b conv : small b ->
  hoare (inv_joined b) (convert_and_emit conv) (fun _ => inv (b + 1)) (inv (b + 1)).
Proof.
  intros Hb. unfold convert_and_emit.
  eapply hoare_bind.
  { eapply hoare_post; [|eapply hoare_err_weaken; [|by apply next_seq_joined]].
    - intros n x (H & _). exact H.
    - intros x H. eapply inv_le; [exact H|lia]. }
  intros n. apply hoare_time. intros now.
  apply hoare_get_any. intros c. eapply hoare_err_weaken; [|apply emit_joined]. done.
Qed.

(** Closing the socket would give the invariant back. *)
Definition broken (b : Z) (x : conn log) : Prop :=
  inv b (Conn (set_socket false true true (cn x)) (sk x)).

Lemma broken_push_err b t E : hoare (broken b) (push_err t) (fun _ => broken b) E.
Proof.
  apply hoare_upd. unfold broken. intros y H. cbn in *.
  destruct (_ <? _) eqn:El; [|destruct y; exact H]. b2p.
  keep_inv H. rewrite length_app. cbn. lia.
Qed.

Lemma broken_close b : hoare (broken b) closeConn (fun _ => inv b) (inv b).
Proof.
  apply hoare_upd. unfold broken. intros y H. pose proof (iv_conn _ _ H) as Hc.
  cbn in H, Hc. by rewrite Hc.
Qed.

Lemma inv_broken b x : inv b x -> broken b x.
Proof. unfold broken. intros H. keep_inv H. Qed.

(** What the sink is told is the next donation of the connection. *)
Lemma record_next b n d (ok : bool) x : inv_joined b x -> n = seq (cn x) -> observed n d ->
  Donation.Sequence d = n ->
  Forall (fun p => Donation.Sequence p.1 < n) (sk x) ->
  (if ok then inv b else broken b : conn log -> Prop) (Conn (cn x) ((d, ok) :: sk x)).
Proof.
  intros [H Hj] Hn Hd Hs Hf.
  assert (broken b (Conn (cn x) ((d, ok) :: sk x))) as Hb.
  { unfold broken. keep_inv H; try (intros; congruence).
    - constructor; [cbn; congruence|done].
    - constructor; [done|]. eapply Forall_impl; [exact Hf|]. unfold newer. cbn. intros. lia. }
  destruct ok; [|exact Hb]. unfold broken in Hb. destruct Hb. destruct H. cbn in *.
  constructor; cbn; auto.
  intros Hx. apply Exists_cons in Hx as [Hx|Hx]; [done|auto].
Qed.

Lemma accept_next b n d count : observed n d \/ Donation.Validate d <> Ok tt -> Donation.Sequence d = n ->
  hoare (fun x => inv_joined b x /\ n = seq (cn x) /\ Forall (fun p => Donation.Sequence p.1 < n) (sk x))
    (accept recorder d count) (fun _ => inv b) (broken b).
Proof.
  intros Hd Hs e s (H & Hn & Hf). unfold accept.
  destruct count as [c|]; [|apply inv_broken, H].
  unfold mbind, M_bind. destruct (Donation.Validate d) as [[]|x] eqn:Ev; [|apply inv_broken, H].
  destruct Hd as [Hd|Hd]; [|congruence]. cbn.
  pose proof (record_next b n d (is_ok (answer (tick s) d)) (db s) H Hn Hd Hs Hf) as Hr.
  unfold sink_call, recorder. cbn. destruct (answer (tick s) d); exact Hr.
Qed.

Lemma balloon_observed c now count p n : epoch c = ep -> channelID c = chan -> 0 < n ->
  n <= u64_max ->
  observed n (balloon c n now count p) \/ Donation.Validate (balloon c n now count p) <> Ok tt.
Proof.
  intros He Hc Hn Hm. destruct (Donation.Validate _) as [[]|] eqn:Ev; [left|by right].
  unfold observed. rewrite Ev. cbn. rewrite u64_id by lia. rewrite He, Hc. repeat split; lia || done.
Qed.

Lemma keeps_later {A} b b' P (m : M (conn log) A) :
  hoare P m (fun _ => inv b) (inv b) -> b <= b' -> hoare P m (fun _ => inv b') (inv b').
Proof.
  intros H Hb e s Hs. specialize (H e s Hs). destruct (m e s) as [[?|?] ?]; by eapply inv_le.
Qed.

Lemma keeps_donation b p : small b ->
  hoare (inv_joined b) (handleDonation (Some recorder) p) (fun _ => inv (b + 1)) (inv (b + 1)).
Proof.
  intros Hb. unfold handleDonation.
  destruct (negb _).
  { apply hoare_uuid. intros id. apply hoare_time. intros now. apply hoare_get_any. intros c.
    apply (keeps_later b); [|lia]. apply emit_joined. }
  cbv zeta. eapply hoare_bind.
  { eapply hoare_err_weaken; [|by apply next_seq_joined]. intros x H. eapply inv_le; [exact H|lia]. }
  intros n. cbv beta. apply hoare_time. intros now. apply hoare_get_bind. intros c.
  apply (hoare_facts (epoch c = ep /\ channelID c = chan /\ 0 < n <= u64_max)).
  { intros x ([[H _] (Hn & Hs & _)] & <-). pose proof (iv_seq _ _ H). unfold small, u64_max in *.
    split; [apply H|split; [apply H|lia]]. }
  intros (He & Hc & Hn & Hm).
  pose proof (balloon_observed c now (default 0 (parse_int (fieldAt (Fields p) 3))) p n He Hc Hn Hm) as Ho.
  set (d := balloon _ _ _ _ _) in *.
  assert (Donation.Sequence d = n) as Hd by (cbn; apply u64_id; lia).
  eapply hoare_bind.
  { eapply hoare_weaken; [|eapply hoare_try, (accept_next (b + 1) n d); done].
    intros x ([Hj (_ & Hs & Hf)] & _). auto. }
  intros [u|x]; cbv beta.
  - apply hoare_ret. done.
  - eapply hoare_bind; [apply broken_push_err|intros u; apply broken_close].
Qed.

Lemma keeps_login b p : keeps b (handleLogin driver_text p).
Proof.
  unfold handleLogin. destruct (negb _); [apply keeps_push_err|].
  apply hoare_get_bind. intros c.
  apply (hoare_facts (join_body c = sep +:+ info_chat +:+ sep +:+ info_ftk +:+ sep +:+ "0" +:+ sep +:+ sep +:+ sep)).
  { intros x [H <-]. unfold join_body. by destruct (iv_info _ _ H) as [-> ->]. }
  intros Hc. rewrite Hc. eapply hoare_bind.
  { eapply hoare_weaken; [intros x [H _]; exact H|]. eapply hoare_try, keeps_join_frame. }
  intros [u|x]; cbv beta; [|apply keeps_push_err].
  apply hoare_upd. intros y [H Hs]. keep_inv H.
Qed.

Lemma keeps_join b p : keeps b (handleJoin p).
Proof.
  unfold handleJoin. apply hoare_get_bind. intros c.
  destruct (joinRequested c) eqn:Er; cbn [negb]; [|apply hoare_ret; by intros ? []].
  destruct (negb _).
  { eapply hoare_weaken; [intros x [H _]; exact H|apply keeps_push_err]. }
  apply hoare_upd. intros y [H <-]. keep_inv H; try (intros; congruence).
  destruct iv_signal0 as (n & -> & _). exists 1%nat. auto.
Qed.

Lemma joined_or b c x : inv b x -> cn x = c ->
  match joinedCh c with Some _ => negb (joined c) | None => false end = negb (joined c).
Proof. intros H <-. by destruct (iv_signal _ _ H) as (n & -> & _). Qed.

Lemma keeps_packet b p : small b -> hoare (inv b) (handlePacket p) (fun _ => inv (b + 1)) (inv (b + 1)).
Proof.
  intros Hb. unfold handlePacket. apply hoare_get_bind. intros c. cbv zeta.
  apply (hoare_facts (match joinedCh c with Some _ => negb (joined c) | None => false end = negb (joined c))).
  { intros x [H Hc]. by eapply joined_or. }
  intros ->.
  destruct (negb (joined c) && _) eqn:Ew.
  { apply hoare_ret. intros x [H _]. eapply inv_le; [exact H|lia]. }
  destruct (joined c) eqn:Ej.
  - (* the join is acknowledged *)
    apply (hoare_weaken _ (inv_joined b)); [intros x [H <-]; by split|].
    eapply hoare_bind with (R := fun _ => inv_joined b).
    { branch; [|intros e s Hs; exact Hs]. apply hoare_time. intros now.
      apply hoare_upd. intros y [H Hj]. split; [|done]. keep_inv H. intros; congruence. }
    intros u. pose proof (keeps_convert b) as Hconv.
    assert (forall (m : M (conn log) unit), keeps b m ->
      hoare (inv_joined b) m (fun _ => inv (b + 1)) (inv (b + 1))) as Hk.
    { intros m Hm. eapply keeps_later; [|instantiate (1 := b); lia].
      eapply hoare_weaken; [|exact Hm]. by intros x []. }
    destruct (Cmd p =? soopCmdLogin); [apply Hk, keeps_login|].
    destruct (Cmd p =? soopCmdJoin); [apply Hk, keeps_join|].
    destruct (Cmd p =? soopCmdChatMessage); [by apply Hconv|].
    destruct (Cmd p =? soopCmdOGQEmoticon); [destruct (ogq_matches p); [by apply Hconv|]|].
    { apply (keeps_later b); [|lia]. apply emit_joined. }
    branch; [by apply keeps_donation|].
    branch; [by apply Hconv|].
    branch; [destruct (is_empty _); [|by apply Hconv]|].
    { apply (keeps_later b); [|lia]. apply emit_joined. }
    apply Hk. by apply hoare_ret.
  - (* before it, only the two handshake commands pass *)
    cbn [negb andb] in Ew. apply negb_false_iff in Ew. unfold is_cmd in Ew. cbn in Ew.
    rewrite orb_false_r in Ew. apply (keeps_later b); [|lia].
    apply (hoare_weaken _ (inv b)); [by intros x []|].
    eapply hoare_bind with (R := fun _ => inv b).
    { match goal with |- hoare _ (if ?c then _ else _) _ _ => replace c with false end;
        [intros e s Hs; exact Hs|]. unfold is_cmd. by apply orb_true_iff in Ew as [E|E]; b2p; rewrite E. }
    intros u. destruct (Cmd p =? soopCmdLogin); [apply keeps_login|].
    destruct (Cmd p =? soopCmdJoin); [apply keeps_join|done].
Qed.
End Session.
