(* ===== verification/SoopProps.v ===== *)
(** The properties of the SOOP connection: frames are read back as they were
    built, the parser always ends, and whatever the platform sends, nothing is
    emitted before the join and donations are offered once each, in order. *)
From S2P Require Import Prelude GoLib Json GoText Tx Model.
From S2P Require Import Message SoopWire SoopParse Soop SoopInv.

(** Fields a frame can carry: not one empty field alone, no separator inside. *)
Definition sendable (x : Z * list string) : Prop :=
  0 <= x.1 <= 9999 /\ x.2 <> [] /\ x.2 <> [EmptyString] /\
  forallb (lacks soopFieldSep) x.2 = true /\ lenZ (body_of x.2) <= 999999.

(** C33: any sequence of commands with their fields, each built into a frame
    and the frames sent back to back, is parsed back to those commands and
    fields, in order, each packet with its frame's bytes. *)
Theorem soop_frames_round_trip l : Forall sendable l ->
  parseSoopPackets (concat_str (map (fun x => buildSoopPacket x.1 (body_of x.2)) l))
  = Returns (map (fun x => MkPacket x.1 0 x.2 (buildSoopPacket x.1 (body_of x.2))) l).
Proof.
  intros Hl. set (m := map (fun x : Z * list string => (x.1, body_of x.2)) l).
  assert (Forall (fun '(cmd, body) => frame_ok cmd body) m) as Hm.
  { apply Forall_map. eapply Forall_impl; [exact Hl|]. intros [cmd fs] (? & _ & _ & _ & ?).
    by constructor. }
  replace (concat_str _) with (frames m) by (unfold frames, m; by rewrite map_map).
  unfold parseSoopPackets. rewrite parse_frames; [|done|by apply frames_length].
  cbn [app]. f_equal. unfold m. rewrite map_map. apply map_ext_in. intros [cmd fs] Hin.
  unfold packet_of. cbn [fst snd]. f_equal.
  apply (proj1 (List.Forall_forall _ _)) with (x := (cmd, fs)) in Hl as (_ & ? & ? & ? & _); [|done].
  by apply split_body.
Qed.

(** C34: on bytes of any kind the parser ends: either it returns packets whose
    bytes are disjoint pieces of the input, in order, each starting with the
    frame mark and at least a header long, or it panics, and then somewhere in
    the input a frame mark is followed by a negative body length. *)
Theorem soop_parse_total raw :
  (exists ps, parseSoopPackets raw = Returns ps /\ cuts raw ps /\
     sumZ (fun p => lenZ (Raw p)) ps <= lenZ raw) \/
  (parseSoopPackets raw = Panics /\ exists s, suffix_of s raw /\ negative_header s = true).
Proof.
  destruct (parse_from_total (String.length raw) raw []) as [(ps & H & Hc)|H]; [done| |by right].
  left. exists ps. split; [exact H|]. split; [done|]. by apply cuts_total.
Qed.

(** ** A connection *)

Inductive event : Type :=
| EvRead (r : read) (ctx_done deadline_fails : bool)
| EvPing
| EvWait (w : wait)
| EvDisconnect
| EvMessage
| EvError.

Section Session.
Context (answer : nat -> Donation.t -> result unit) (driver_text : string).
Notation sink := (Some (recorder answer)).
Notation Mc := (M (conn log)).

Definition ignore {A} (m : Mc A) : Mc unit := try m ;; mret tt.

Definition run_event (x : event) : Mc unit :=
  match x with
  | EvRead r c d => ignore (read_round sink driver_text r c d)
  | EvPing => ignore (ping_round driver_text)
  | EvWait w => ignore (connect_wait w)
  | EvDisconnect => Disconnect
  | EvMessage => ignore take_message
  | EvError => ignore take_error
  end.

Fixpoint run_events (l : list event) (e : env) (s : world (conn log)) : world (conn log) :=
  match l with [] => s | x :: l => run_events l e (run_event x e s).2 end.

Definition event_bytes (x : event) : Z :=
  match x with EvRead (Frame data) _ _ => lenZ data | _ => 0 end.

(** [Connect] has dialled, and sent its login. *)
Definition connected (uuid : string) (now : Z) (channel streamer : string) (info : soopChatInfo)
    (e : env) (n : nat) : world (conn log) :=
  let x := Conn (NewSoopConnector uuid now) ([] : log) in
  ((connect_setup channel streamer info ;; ignore (send_login driver_text)) e (World x x n)).2.

Section Run.
Context (ep ch : string) (info : soopChatInfo).
Notation inv := (inv ep ch (ci_ChatNo info) (ci_FTK info)).
Notation keeps b m := (hoare (inv b) m (fun _ => inv b) (inv b)).

Lemma keeps_ignore {A} b b' (m : Mc A) : hoare (inv b) m (fun _ => inv b') (inv b') ->
  hoare (inv b) (ignore m) (fun _ => inv b') (inv b').
Proof.
  intros H. unfold ignore. eapply hoare_bind; [by eapply hoare_try|].
  intros [a|x]; by apply hoare_ret.
Qed.

Lemma keeps_packets l b : b + Z.of_nat (length l) < 9223372036854775807 ->
  hoare (inv b) (handle_packets sink driver_text l)
    (fun _ => inv (b + Z.of_nat (length l))) (inv (b + Z.of_nat (length l))).
Proof.
  revert b. induction l as [|p l IH]; intros b Hb; cbn [handle_packets length].
  - apply hoare_ret. intros x H. by rewrite Z.add_0_r.
  - cbn [length] in Hb. eapply hoare_bind.
    + eapply hoare_err_weaken; [|apply keeps_packet; unfold small; lia].
      intros x H. eapply inv_le; [done|lia].
    + intros u. specialize (IH (b + 1)). rewrite Nat2Z.inj_succ in *.
      replace (b + Z.succ (Z.of_nat (length l))) with (b + 1 + Z.of_nat (length l)) by lia.
      apply IH. lia.
Qed.

Lemma keeps_frame data b : b + lenZ data < 9223372036854775807 ->
  hoare (inv b) (handleFrame sink driver_text data)
    (fun _ => inv (b + lenZ data)) (inv (b + lenZ data)).
Proof.
  intros Hb. pose proof (lenZ_nonneg data). unfold handleFrame.
  destruct (parse_from_total (String.length data) data []) as [(ps & H1 & Hc)|[H1 _]]; [done| |];
    unfold parseSoopPackets; rewrite H1.
  - cbn [app]. apply cuts_count in Hc.
    apply (keeps_later _ _ _ _ (b + Z.of_nat (length ps))); [apply keeps_packets; lia|lia].
  - apply hoare_fail. intros x Hx. eapply inv_le; [done|lia].
Qed.

Lemma keeps_upd b f : (forall x, inv b x -> inv b (Conn (f (cn x)) (sk x))) -> keeps b (upd f).
Proof. intros H. by apply hoare_upd. Qed.

Lemma inv_socket b a c x : inv b x -> (alive (cn x) = false -> a = false) ->
  inv b (Conn (set_socket a c (closed (cn x)) (cn x)) (sk x)).
Proof.
  intros [] Ha. constructor; cbn; auto. intros Hx. destruct (iv_stop Hx). auto.
Qed.

Lemma keeps_end b (c : bool) : keeps b (upd (fun x => set_socket false (cancelled x) (closed x) x) ;; mret c).
Proof.
  eapply hoare_bind with (R := fun _ => inv b).
  - apply keeps_upd. intros x H. by apply inv_socket.
  - intros u. by apply hoare_ret.
Qed.

Lemma keeps_read r c d b : b + event_bytes (EvRead r c d) < 9223372036854775807 ->
  hoare (inv b) (read_round sink driver_text r c d)
    (fun _ => inv (b + event_bytes (EvRead r c d))) (inv (b + event_bytes (EvRead r c d))).
Proof.
  intros Hb. destruct r as [data|text timeout]; cbn [read_round event_bytes] in *.
  - pose proof (lenZ_nonneg data). destruct d.
    + apply (keeps_later _ _ _ _ b); [|lia]. eapply hoare_bind; [apply keeps_push_err|intros u; apply keeps_end].
    + eapply hoare_bind; [by apply keeps_frame|]. intros u. by apply hoare_ret.
  - rewrite Z.add_0_r. eapply hoare_bind with (R := fun _ => inv b); [|intros u; apply keeps_end].
    destruct c; [by apply hoare_ret|apply keeps_push_err].
Qed.

Lemma keeps_ping b : keeps b (ping_round driver_text).
Proof.
  unfold ping_round. eapply hoare_bind; [eapply hoare_try, keeps_write|].
  assert (forall t (c : bool), keeps b (push_err t ;; mret c)) as Hp.
  { intros t c. eapply hoare_bind; [apply keeps_push_err|]. intros u. by apply hoare_ret. }
  intros [u|x]; cbv beta; [|apply Hp].
  eapply hoare_bind; [eapply hoare_try, keeps_write|]. intros [v|x]; cbv beta; [by apply hoare_ret|apply Hp].
Qed.

Lemma keeps_wait w b : keeps b (connect_wait w).
Proof.
  unfold connect_wait. apply hoare_get_bind. intros c.
  assert (forall x, keeps b (closeConn ;; fail x : Mc unit)) as Hc.
  { intros x. eapply hoare_bind; [apply keeps_close|]. intros u. by apply hoare_fail. }
  assert (forall m : Mc unit, keeps b m -> hoare (fun x => inv b x /\ cn x = c) m (fun _ => inv b) (inv b)) as Hd.
  { intros m Hm. eapply hoare_weaken; [|exact Hm]. by intros x []. }
  destruct w.
  - destruct (joinedCh c) as [[|n]|] eqn:Ej; try (apply Hd; by apply hoare_fail).
    apply hoare_upd. intros x [[] <-]. constructor; cbn; auto.
    destruct iv_signal as (k & E & Hk & Hj). rewrite Ej in E. injection E as <-.
    exists n. split; [done|]. split; [lia|]. intros ->. lia.
  - destruct (errCh c) as [|t l] eqn:El; [apply Hd; by apply hoare_fail|].
    eapply hoare_bind with (R := fun _ => inv b); [|intros u; apply Hc].
    apply hoare_upd. intros x [[] <-]. rewrite El in *. constructor; cbn in *; auto. lia.
  - apply Hd, Hc.
  - apply Hd, Hc.
Qed.

Lemma keeps_take_message b : keeps b take_message.
Proof.
  unfold take_message. apply hoare_get_bind. intros c. destruct (msgCh c) as [|m l] eqn:Em.
  - apply hoare_ret. by intros x [].
  - eapply hoare_bind with (R := fun _ => inv b); [|intros u; by apply hoare_ret].
    apply hoare_upd. intros x [[] <-]. rewrite Em in *. constructor; cbn in *; auto; [|lia].
    intros Hj. by destruct (iv_quiet Hj).
Qed.

Lemma keeps_take_error b : keeps b take_error.
Proof.
  unfold take_error. apply hoare_get_bind. intros c. destruct (errCh c) as [|t l] eqn:El.
  - apply hoare_ret. by intros x [].
  - eapply hoare_bind with (R := fun _ => inv b); [|intros u; by apply hoare_ret].
    apply hoare_upd. intros x [[] <-]. rewrite El in *. constructor; cbn in *; auto. lia.
Qed.

Lemma keeps_event x b : b + event_bytes x < 9223372036854775807 ->
  hoare (inv b) (run_event x) (fun _ => inv (b + event_bytes x)) (inv (b + event_bytes x)).
Proof.
  intros Hb. destruct x as [r c d| |w| | |]; cbn [run_event].
  - apply keeps_ignore. by apply keeps_read.
  - cbn. rewrite Z.add_0_r. apply keeps_ignore, keeps_ping.
  - cbn. rewrite Z.add_0_r. apply keeps_ignore, keeps_wait.
  - cbn. rewrite Z.add_0_r. apply keeps_close.
  - cbn. rewrite Z.add_0_r. apply keeps_ignore, keeps_take_message.
  - cbn. rewrite Z.add_0_r. apply keeps_ignore, keeps_take_error.
Qed.

Lemma event_bytes_nonneg x : 0 <= event_bytes x.
Proof. destruct x as [[data|] c d| | | | |]; cbn; try lia. apply lenZ_nonneg. Qed.

Lemma keeps_events l e s b : b + sumZ event_bytes l < 9223372036854775807 -> inv b (db s) ->
  inv (b + sumZ event_bytes l) (db (run_events l e s)).
Proof.
  revert s b. induction l as [|x l IH]; intros s b Hb H; cbn [run_events sumZ] in *.
  - by rewrite Z.add_0_r.
  - pose proof (event_bytes_nonneg x). pose proof (sumZ_nonneg event_bytes l event_bytes_nonneg).
    rewrite Z.add_assoc. apply IH; [lia|].
    pose proof (keeps_event x b) as Hx. specialize (Hx ltac:(lia) e s H).
    by destruct (run_event x e s) as [[u|y] s'].
Qed.
End Run.

Lemma connected_inv uuid now ch streamer info e n :
  inv uuid ch (ci_ChatNo info) (ci_FTK info) 0 (db (connected uuid now ch streamer info e n)).
Proof.
  unfold connected. set (w := World _ _ n).
  assert (inv uuid ch (ci_ChatNo info) (ci_FTK info) 0 (db (connect_setup ch streamer info e w).2)) as H.
  { constructor; cbn; auto; try done; try lia.
    - exists 0%nat. split; [done|]. split; [lia|done].
    - constructor.
    - intros Hx. by inversion Hx. }
  unfold mbind, M_bind. destruct (connect_setup ch streamer info e w) as [[u|x] s]; [|exact H].
  assert (hoare (inv uuid ch (ci_ChatNo info) (ci_FTK info) 0) (ignore (send_login driver_text))
    (fun _ => inv uuid ch (ci_ChatNo info) (ci_FTK info) 0)
    (inv uuid ch (ci_ChatNo info) (ci_FTK info) 0)) as Hl.
  { apply keeps_ignore. unfold send_login. eapply hoare_bind; [eapply hoare_try, keeps_write|].
    intros [v|x]; cbv beta; [by apply hoare_ret|].
    eapply hoare_bind; [apply keeps_close|]. intros v. by apply hoare_fail. }
  specialize (Hl e s H). by destruct (ignore _ e s) as [[v|x] s'].
Qed.
End Session.

Lemma append_inj_str (a b c : string) : a +:+ b = a +:+ c -> b = c.
Proof.
  induction a as [|x a IH]; [done|]. intros H. injection H as H. by apply IH.
Qed.

(** Donations in sequence have different event ids. *)
Lemma event_ids_distinct ep ch n (l : log) : n <= u64_max ->
  Forall (fun p => observed ep ch n p.1) l -> StronglySorted newer l ->
  NoDup (map (fun p => Donation.EventID p.1) l).
Proof.
  intros Hn Hl Hs. induction Hs as [|p l Hs IH Hp]; cbn [map]; [constructor|].
  apply Forall_cons in Hl as [(Hq & Hid & _) Hl]. constructor; [|by apply IH].
  intros (q & Hq1 & Hq2)%list_elem_of_fmap. rewrite Hid in Hq1.
  rewrite Forall_forall in Hl, Hp. specialize (Hp q Hq2). unfold newer in Hp.
  destruct (Hl q Hq2) as (Hqs & Hqid & _). rewrite Hqid in Hq1.
  do 2 apply append_inj_str in Hq1. apply format_uint_inj in Hq1; lia.
Qed.

(** C35: a connection that has dialled and sent its login, then any frames,
    read errors, pings, waits and receivers, in any order, the sink answering
    as it likes (fewer than 2^63 bytes received). Until the join is
    acknowledged no message is queued and no donation offered to the sink;
    once it is, the join request was sent. Every donation offered is valid,
    of this channel and this connection, and no event id is offered twice.
    Once the sink refused one, the connection is closed; the packets that
    follow the refused one in the same frame are still handled. The two
    buffers keep within their capacities. *)
Theorem soop_session_safe answer driver_text uuid now channel streamer info e n evs :
  sumZ event_bytes evs < 9223372036854775807 ->
  forall x, x = db (run_events answer driver_text evs e
                     (connected driver_text uuid now channel streamer info e n)) ->
  (joined (cn x) = false -> msgCh (cn x) = [] /\ sk x = []) /\
  (joined (cn x) = true -> join_frame (ci_ChatNo info) (ci_FTK info) ∈ sent (cn x)) /\
  Forall (fun p => Donation.Validate p.1 = Ok tt /\ Donation.ChannelID p.1 = channel /\
                   Donation.ConnectionEpoch p.1 = uuid) (sk x) /\
  NoDup (map (fun p => Donation.EventID p.1) (sk x)) /\
  (Exists (fun p => p.2 = false) (sk x) -> alive (cn x) = false /\ closed (cn x) = true) /\
  Z.of_nat (length (msgCh (cn x))) <= 256 /\ Z.of_nat (length (errCh (cn x))) <= 8.
Proof.
  intros Hb x ->.
  pose proof (keeps_events answer driver_text uuid channel info evs e _ 0 Hb
    (connected_inv driver_text uuid now channel streamer info e n)) as [].
  repeat match goal with |- _ /\ _ => split end; auto.
  - intros Hj. by destruct (iv_quiet Hj) as (? & ? & _).
  - eapply Forall_impl; [exact iv_log|]. by intros p (_ & _ & ? & ? & ?).
  - eapply event_ids_distinct; [|exact iv_log|exact iv_order]. unfold u64_max. lia.
Qed.

(** ** At concrete inputs *)

Lemma soop_frames_round_trip_witness :
  parseSoopPackets (buildSoopPacket 5 (body_of ["hi"; "user(2)"; "1"; ""; ""; "Nick"])
                    +:+ (buildSoopPacket 18 (body_of ["bj1"; "donor"; "Donor"; "100"]) +:+ EmptyString))
  = Returns [MkPacket 5 0 ["hi"; "user(2)"; "1"; ""; ""; "Nick"]
               (buildSoopPacket 5 (body_of ["hi"; "user(2)"; "1"; ""; ""; "Nick"]));
             MkPacket 18 0 ["bj1"; "donor"; "Donor"; "100"]
               (buildSoopPacket 18 (body_of ["bj1"; "donor"; "Donor"; "100"]))]%string.
Proof.
  apply (soop_frames_round_trip
    [(5, ["hi"; "user(2)"; "1"; ""; ""; "Nick"]); (18, ["bj1"; "donor"; "Donor"; "100"])]%string).
  repeat constructor; vm_compute; congruence.
Defined.

Module SoopDemo.
Definition e : env :=
  Env (fun _ => false) (fun _ => false) (fun n => Z.of_nat n) (fun n => 1700000000 * second + Z.of_nat n)
    (fun n => format_uint (Z.of_nat n)).
Definition info : soopChatInfo := MkInfo "chat.example" 8000 "77" "ftk" "title".
(** Accepts up to 100 balloons. *)
Definition answer (_ : nat) (d : Donation.t) : result unit :=
  if Donation.Count d <=? 100 then Ok tt else Err ErrOwner.
Definition frame (cmd : Z) (fields : list string) : event :=
  EvRead (Frame (buildSoopPacket cmd (body_of fields))) false false.
Definition evs : list event :=
  [frame 5 ["early"; "u"]; frame 1 ["ok"; ""]; frame 2 ["ok"; ""]; EvWait WaitJoined;
   frame 5 ["hi"; "user(2)"; ""; ""; ""; "Nick"]; frame 18 ["bj1"; "donor"; "Donor"; "100"];
   EvMessage; frame 18 ["bj1"; "donor"; "Donor"; "101"]; EvPing]%string.
Definition final : conn log :=
  db (run_events answer "broken pipe" evs e (connected "broken pipe" "epoch-1" 5 "bj1" "S" info e 0)).
End SoopDemo.

Example demo_session :
  map (fun p => (Donation.EventID p.1, Donation.Count p.1, p.2)) (sk SoopDemo.final)
  = [("epoch-1-3", 101, false); ("epoch-1-2", 100, true)]%string /\ joined (cn SoopDemo.final) = true.
Proof. vm_compute. auto. Qed.

(** The frame whose first balloons are refused: the ones after them are
    offered too, and accepted, and its chat is queued, all on a connection that
    is already closed. *)
Definition demo_rest : conn log :=
  let balloons n := buildSoopPacket 18 (body_of ["bj1"; "donor"; "Donor"; n]%string) in
  let chat := buildSoopPacket 5 (body_of ["hi"; "user(2)"; ""; ""; ""; "Nick"]%string) in
  db (run_events SoopDemo.answer "broken pipe"
    [SoopDemo.frame 1 ["ok"; ""]; SoopDemo.frame 2 ["ok"; ""];
     EvRead (Frame (balloons "101" +:+ (balloons "50" +:+ chat))) false false]%string SoopDemo.e
    (connected "broken pipe" "epoch-1" 5 "bj1" "S" SoopDemo.info SoopDemo.e 0)).
Example rest_of_frame_handled :
  map (fun p => (Donation.Count p.1, p.2)) (sk demo_rest) = [(50, true); (101, false)] /\
  length (msgCh (cn demo_rest)) = 1%nat /\ alive (cn demo_rest) = false.
Proof. vm_compute. auto. Qed.

Lemma soop_session_safe_witness :
  NoDup (map (fun p => Donation.EventID p.1) (sk SoopDemo.final)) /\
  alive (cn SoopDemo.final) = false /\ closed (cn SoopDemo.final) = true.
Proof.
  destruct (soop_session_safe SoopDemo.answer "broken pipe" "epoch-1" 5 "bj1" "S" SoopDemo.info SoopDemo.e 0
    SoopDemo.evs ltac:(vm_compute; reflexivity) SoopDemo.final ltac:(unfold SoopDemo.final; reflexivity))
    as (_ & _ & _ & H1 & H2 & _).
  split; [exact H1|]. apply H2.
  assert (existsb (fun p => negb p.2) (sk SoopDemo.final) = true) as Hx by (vm_compute; reflexivity).
  apply existsb_exists in Hx as (p & Hp & Hn). apply List.Exists_exists. exists p. split; [exact Hp|].
  destruct (p.2); [discriminate Hn|reflexivity].
Defined.
