(* ===== verification/Db.v ===== *)
(** The PostgreSQL tables the store's methods work on (src/shared/migrations),
    one finite map per table keyed by its primary key, and the predicates and
    row updates the SQL statements share. [numeric(20,0)] columns are [Z],
    [timestamptz] columns instants, [jsonb] columns JSON trees. *)
From S2P Require Import Prelude GoLib Json Model.

(** PostgreSQL's [text]: valid UTF-8 without a NUL. *)
Definition pg_text (s : string) : bool :=
  valid_utf8 s && all_chars (fun c => negb (Ascii.eqb c "000"%char)) s.

(** [jsonb]: its strings and names are such texts. *)
Fixpoint pg_json (j : json) : bool :=
  match j with
  | JStr s => pg_text s
  | JArr l => forallb pg_json l
  | JObj fs => forallb (fun '(k, v) => pg_text k && pg_json v) fs
  | _ => true
  end.

(** collector_channels *)
Record channel_row := ChannelRow {
  cr_generation : string;
  cr_next_offset : Z;
  cr_expired_through : Z;
  cr_subscribed : bool;
  cr_owner_token : option string;
  cr_runtime_state : string;
  cr_state_at : Z;
  cr_last_received : option Z
}.

(** collector_owner_grants *)
Record grant_row := GrantRow {
  gr_channel : string;
  gr_worker : string;
  gr_generation : string;
  gr_granted_at : Z;
  gr_valid_until : Z;
  gr_closed_at : option Z
}.

(** collector_donations *)
Record donation_row := DonationRow {
  do_channel : string;
  do_generation : string;
  do_offset : Z;
  do_content_key : string;
  do_epoch : string;
  do_observed_at : Z;
  do_payload : option json;
  do_stored_at : Z
}.

(** collector_outbox *)
Record outbox_row := OutboxRow { ob_channel : string; ob_created_at : Z }.

(** collector_consumers, keyed by (consumer_id, channel_id) *)
Record consumer_row := ConsumerRow {
  co_generation : string;
  co_baseline : Z;
  co_ack : option Z;
  co_offered : Z;
  co_revision : Z
}.

(** collector_requests, keyed by (consumer_id, channel_id, operation, request_key) *)
Record request_row := RequestRow {
  rq_body_hash : string;
  rq_result : json;
  rq_created_at : Z
}.

(** collector_recovery_audit *)
Record audit_row := AuditRow {
  au_consumer : string;
  au_channel : string;
  au_request : json;
  au_result : json;
  au_created_at : Z
}.

(** live_channels, keyed by id *)
Record live_row := LiveRow {
  lc_platform : string;
  lc_channel : string;
  lc_streamer : string;
  lc_viewers : Z;
  lc_status : string;
  lc_worker : option string;
  lc_discovered_at : Z;
  lc_last_seen_at : Z;
  lc_ended_at : option Z;
  lc_handoff_from : option string;
  lc_handoff_status : option string;
  lc_handoff_started_at : option Z
}.

(** workers, keyed by id *)
Record worker_row := WorkerRow {
  wo_status : string;
  wo_max_capacity : Z;
  wo_registered_at : Z;
  wo_last_heartbeat : Z
}.

(** collection_opt_outs, keyed by id *)
Record opt_row := OptRow {
  oo_batch : option Z;
  oo_platform : string;
  oo_channel : string;
  oo_streamer : option string;
  oo_email : option string;
  oo_reason : option string;
  oo_active : bool;
  oo_created_by : option string;
  oo_created_at : Z;
  oo_updated_at : Z;
  oo_revoked_at : option Z;
  oo_revoked_by : option string;
  oo_revocation_reason : option string
}.

(** collection_opt_out_batches, keyed by id *)
Record batch_row := BatchRow {
  ba_title : string;
  ba_source : option string;
  ba_reason : option string;
  ba_requested_by : option string;
  ba_created_by : option string;
  ba_created_at : Z
}.

(** The [_seq] members are the next values of the [BIGSERIAL] sequences. *)
Record database := Database {
  channels : gmap string channel_row;
  grants : gmap string grant_row;
  donations : gmap string donation_row;
  outbox : gmap string outbox_row;
  consumers : gmap (string * string) consumer_row;
  requests : gmap (string * string * string * string) request_row;
  audit : list audit_row;
  live : gmap Z live_row;
  live_seq : Z;
  workers : gmap string worker_row;
  opt_outs : gmap Z opt_row;
  opt_seq : Z;
  batches : gmap Z batch_row;
  batch_seq : Z
}.

Definition empty_db : database :=
  Database ∅ ∅ ∅ ∅ ∅ ∅ [] ∅ 1 ∅ ∅ 1 ∅ 1.

(** ** Replacing one table *)

Definition set_channels (f : gmap string channel_row -> gmap string channel_row) (d : database) :=
  Database (f (channels d)) (grants d) (donations d) (outbox d) (consumers d) (requests d)
    (audit d) (live d) (live_seq d) (workers d) (opt_outs d) (opt_seq d) (batches d) (batch_seq d).
Definition set_grants (f : gmap string grant_row -> gmap string grant_row) (d : database) :=
  Database (channels d) (f (grants d)) (donations d) (outbox d) (consumers d) (requests d)
    (audit d) (live d) (live_seq d) (workers d) (opt_outs d) (opt_seq d) (batches d) (batch_seq d).
Definition set_donations (f : gmap string donation_row -> gmap string donation_row) (d : database) :=
  Database (channels d) (grants d) (f (donations d)) (outbox d) (consumers d) (requests d)
    (audit d) (live d) (live_seq d) (workers d) (opt_outs d) (opt_seq d) (batches d) (batch_seq d).
Definition set_outbox (f : gmap string outbox_row -> gmap string outbox_row) (d : database) :=
  Database (channels d) (grants d) (donations d) (f (outbox d)) (consumers d) (requests d)
    (audit d) (live d) (live_seq d) (workers d) (opt_outs d) (opt_seq d) (batches d) (batch_seq d).
Definition set_consumers (f : gmap (string * string) consumer_row -> gmap (string * string) consumer_row) (d : database) :=
  Database (channels d) (grants d) (donations d) (outbox d) (f (consumers d)) (requests d)
    (audit d) (live d) (live_seq d) (workers d) (opt_outs d) (opt_seq d) (batches d) (batch_seq d).
Definition set_requests (f : gmap (string * string * string * string) request_row -> gmap (string * string * string * string) request_row) (d : database) :=
  Database (channels d) (grants d) (donations d) (outbox d) (consumers d) (f (requests d))
    (audit d) (live d) (live_seq d) (workers d) (opt_outs d) (opt_seq d) (batches d) (batch_seq d).
Definition set_audit (f : list audit_row -> list audit_row) (d : database) :=
  Database (channels d) (grants d) (donations d) (outbox d) (consumers d) (requests d)
    (f (audit d)) (live d) (live_seq d) (workers d) (opt_outs d) (opt_seq d) (batches d) (batch_seq d).
Definition set_live (f : gmap Z live_row -> gmap Z live_row) (d : database) :=
  Database (channels d) (grants d) (donations d) (outbox d) (consumers d) (requests d)
    (audit d) (f (live d)) (live_seq d) (workers d) (opt_outs d) (opt_seq d) (batches d) (batch_seq d).
Definition set_live_seq (n : Z) (d : database) :=
  Database (channels d) (grants d) (donations d) (outbox d) (consumers d) (requests d)
    (audit d) (live d) n (workers d) (opt_outs d) (opt_seq d) (batches d) (batch_seq d).
Definition set_workers (f : gmap string worker_row -> gmap string worker_row) (d : database) :=
  Database (channels d) (grants d) (donations d) (outbox d) (consumers d) (requests d)
    (audit d) (live d) (live_seq d) (f (workers d)) (opt_outs d) (opt_seq d) (batches d) (batch_seq d).
Definition set_opt_outs (f : gmap Z opt_row -> gmap Z opt_row) (n : Z) (d : database) :=
  Database (channels d) (grants d) (donations d) (outbox d) (consumers d) (requests d)
    (audit d) (live d) (live_seq d) (workers d) (f (opt_outs d)) n (batches d) (batch_seq d).
Definition set_batches (f : gmap Z batch_row -> gmap Z batch_row) (n : Z) (d : database) :=
  Database (channels d) (grants d) (donations d) (outbox d) (consumers d) (requests d)
    (audit d) (live d) (live_seq d) (workers d) (opt_outs d) (opt_seq d) (f (batches d)) n.

(** ** Shared SQL predicates *)

Definition rows {K A} `{Countable K} (m : gmap K A) : list (K * A) := map_to_list m.

(** [EXISTS(SELECT 1 FROM t WHERE p)] *)
Definition exists_row {K A} `{Countable K} (p : K -> A -> bool) (m : gmap K A) : bool :=
  existsb (fun '(k, a) => p k a) (rows m).

(** [UPDATE t SET f WHERE p] *)
Definition update_where {K A} `{Countable K} (p : K -> A -> bool) (f : A -> A) (m : gmap K A)
  : gmap K A :=
  map_imap (fun k a => Some (if p k a then f a else a)) m.

(** [DELETE FROM t WHERE p] *)
Definition delete_where {K A} `{Countable K} (p : K -> A -> bool) (m : gmap K A) : gmap K A :=
  map_imap (fun k a => if p k a then None else Some a) m.

(** Rows affected by a statement with condition [p]. *)
Definition count_where {K A} `{Countable K} (p : K -> A -> bool) (m : gmap K A) : nat :=
  length (filter (fun '(k, a) => Is_true (p k a)) (rows m)).

Definition opt_eqb (o : option string) (s : string) : bool :=
  match o with Some x => String.eqb x s | None => false end.

(** The active opt-out of a channel. *)
Definition opted_out (d : database) (platform channel : string) : bool :=
  exists_row (fun _ r => oo_active r && String.eqb (oo_platform r) platform
                         && String.eqb (oo_channel r) channel) (opt_outs d).

Section Lemmas.
Context {K A : Type} `{Countable K}.
Implicit Types (m : gmap K A) (p : K -> A -> bool).

Lemma exists_row_true p m : exists_row p m = true <-> exists k a, m !! k = Some a /\ p k a = true.
Proof.
  unfold exists_row, rows. rewrite existsb_exists. split.
  - intros [[k a] [Hin Hp]]. exists k, a. split; [|done].
    apply elem_of_map_to_list. by apply list_elem_of_In.
  - intros (k & a & Hl & Hp). exists (k, a). split; [|done].
    apply list_elem_of_In, elem_of_map_to_list, Hl.
Qed.

Lemma exists_row_false p m : exists_row p m = false <-> forall k a, m !! k = Some a -> p k a = false.
Proof.
  rewrite <- not_true_iff_false, exists_row_true. split.
  - intros Hn k a Hl. apply not_true_iff_false. naive_solver.
  - intros Hn (k & a & Hl & Hp). specialize (Hn _ _ Hl). congruence.
Qed.

Lemma lookup_update_where p f m k :
  update_where p f m !! k = (fun a => if p k a then f a else a) <$> m !! k.
Proof. unfold update_where. rewrite map_lookup_imap. by destruct (m !! k). Qed.

Lemma lookup_update_where_Some p f m k b :
  update_where p f m !! k = Some b <->
  exists a, m !! k = Some a /\ b = if p k a then f a else a.
Proof. rewrite lookup_update_where. destruct (m !! k); simpl; crush_iff. Qed.

Lemma lookup_delete_where p m k :
  delete_where p m !! k = m !! k ≫= fun a => if p k a then None else Some a.
Proof. unfold delete_where. by rewrite map_lookup_imap. Qed.

Lemma lookup_delete_where_Some p m k a :
  delete_where p m !! k = Some a <-> m !! k = Some a /\ p k a = false.
Proof.
  rewrite lookup_delete_where. destruct (m !! k) as [b|]; simpl; [|crush_iff].
  destruct (p k b) eqn:E; crush_iff.
Qed.

Lemma delete_where_nothing p m :
  (forall k a, m !! k = Some a -> p k a = false) -> delete_where p m = m.
Proof.
  intros Hp. apply map_eq. intros k. rewrite lookup_delete_where.
  destruct (m !! k) eqn:E; simpl; [|done]. by rewrite (Hp _ _ E).
Qed.

Lemma update_where_id p f m :
  (forall k a, m !! k = Some a -> p k a = true -> f a = a) -> update_where p f m = m.
Proof.
  intros Hp. apply map_eq. intros k. rewrite lookup_update_where.
  destruct (m !! k) eqn:E; simpl; [|done]. destruct (p k a) eqn:Ep; [|done].
  by rewrite (Hp _ _ E Ep).
Qed.
End Lemmas.
