(* ===== verification/Ownership.v ===== *)
(** Collection state and ownership grants (src/shared/store/collector.go,
    collector_maintenance.go): one worker at a time may write to a channel's
    journal, under a token valid thirty seconds and renewed while it works. *)
From S2P Require Import Prelude GoLib Json Tx Model Db.

Notation Mdb := (M database).

Record CollectionState := MkCollection {
  Channel : string;
  Generation : string;
  Current : Z;
  ExpiredThrough : Z;
  Subscribed : bool;
  Runtime : string;
  StateAt : Z;
  LastReceived : option Z
}.

Record OwnerGrant := MkGrant {
  g_Token : string;
  g_Channel : string;
  g_Generation : string;
  g_GrantedAt : Z;
  g_ValidUntil : Z
}.

#[export] Instance OwnerGrant_eq_dec : EqDecision OwnerGrant.
Proof. solve_decision. Defined.

(** [num], [parseNum]: numeric columns travel as decimal text. *)
Definition num (n : Z) : string := format_uint n.
Definition parseNum (s : string) : result Z := of_option (ErrMsg "strconv") (parse_uint s).

Definition open_at (t : Z) (g : grant_row) : bool :=
  match gr_closed_at g with None => t <? gr_valid_until g | Some _ => false end.

(** The [runtime_state] expression of [collectionColumns]: a connected channel
    without a live grant is reported as reconnecting. *)
Definition runtime_column (t : Z) (d : database) (c : channel_row) : string :=
  let live_grant :=
    match cr_owner_token c with
    | Some tok => match grants d !! tok with Some g => open_at t g | None => false end
    | None => false
    end in
  if String.eqb (cr_runtime_state c) "connected" && negb live_grant
  then "reconnecting" else cr_runtime_state c.

(** [scanCollection] over [SELECT collectionColumns ... WHERE channel_id=$1]. *)
Definition scanCollection (channel : string) (t : Z) (d : database) : result CollectionState :=
  c ← of_option ErrNoRows (channels d !! channel);
  current ← parseNum (format_int (cr_next_offset c));
  expired ← parseNum (format_int (cr_expired_through c));
  mret (MkCollection channel (cr_generation c) current expired (cr_subscribed c)
          (runtime_column t d c) (cr_state_at c) (cr_last_received c)).

(** [subscribed AND NOT EXISTS(active opt-out)] *)
Definition enabled_column (channel : string) (t : Z) (d : database) : result bool :=
  c ← of_option ErrNoRows (channels d !! channel);
  mret (cr_subscribed c && negb (opted_out d PlatformSoop channel)).

Definition enabledTX (channel : string) : Mdb unit :=
  enabled ← tx_query (enabled_column channel);
  guard_ok enabled ErrCollectionDisabled.

Definition set_channel (k : string) (c : channel_row) (d : database) : database :=
  set_channels (insert k c) d.

Definition with_runtime (state : string) (t : Z) (c : channel_row) : channel_row :=
  ChannelRow (cr_generation c) (cr_next_offset c) (cr_expired_through c) (cr_subscribed c)
    (cr_owner_token c) state t (cr_last_received c).

Definition with_owner (o : option string) (c : channel_row) : channel_row :=
  ChannelRow (cr_generation c) (cr_next_offset c) (cr_expired_through c) (cr_subscribed c)
    o (cr_runtime_state c) (cr_state_at c) (cr_last_received c).

(** [closed_at=COALESCE(closed_at, clock_timestamp())] *)
Definition close_grant (t : Z) (g : grant_row) : grant_row :=
  GrantRow (gr_channel g) (gr_worker g) (gr_generation g) (gr_granted_at g) (gr_valid_until g)
    (Some (match gr_closed_at g with Some c => c | None => t end)).

(** [UPDATE t SET f(row) WHERE key=$1]: no row, no effect. *)
Definition update_channel (k : string) (f : channel_row -> channel_row) (d : database) : database :=
  set_channels (alter f k) d.

Definition live_assigned (channel worker : string) (d : database) : bool :=
  exists_row (fun _ l => String.eqb (lc_platform l) PlatformSoop && String.eqb (lc_channel l) channel
                         && opt_eqb (lc_worker l) worker
                         && String.eqb (lc_status l) ChannelStatusLive) (live d).

(** The thirty-second validity of a grant. *)
Definition grant_ttl : Z := 30 * second.

Section Store.
(** [PgStore.collectionChannel]: [None] when the role is not restricted. *)
Context (collectionChannel : option string).

Definition allowsCollection (platform channel : string) : bool :=
  match collectionChannel with
  | None => true
  | Some c => negb (is_empty c) && String.eqb platform PlatformSoop && String.eqb channel c
  end.

Definition EnsureCollection (channel : string) : Mdb unit :=
  if is_empty channel then mret tt else
  guard_ok (allowsCollection PlatformSoop channel) ErrCollectionDisabled ;;
  generation ← new_uuid;
  pool_exec (fun t d => Ok (tt,
    match channels d !! channel with
    | Some _ => d
    | None => set_channel channel
                (ChannelRow generation 0 0 true None "waiting" t None) d
    end)).

Definition CollectionState_ (channel : string) : Mdb CollectionState :=
  pool_query (scanCollection channel).

Definition CollectionEnabled (channel : string) : Mdb bool :=
  if negb (allowsCollection PlatformSoop channel) then mret false
  else pool_query (enabled_column channel).

Definition SetCollectionState (channel state : string) : Mdb unit :=
  pool_exec (fun t d => Ok (tt, update_channel channel (with_runtime state t) d)).

(** The old owner must be gone before a new grant is issued. *)
Definition owner_gone (token : option string) : Mdb unit :=
  match token with
  | None => mret tt
  | Some tok =>
      valid ← tx_query (fun t d =>
        g ← of_option ErrNoRows (grants d !! tok); mret (open_at t g));
      guard_ok (negb valid) ErrOwner
  end.

Definition AcquireCollection (channel worker : string) : Mdb OwnerGrant :=
  token ← new_uuid;
  guard_ok (allowsCollection PlatformSoop channel) ErrCollectionDisabled ;;
  tx_begin ;;
  row ← tx_query (fun _ d => of_option ErrNoRows (channels d !! channel));
  enabledTX channel ;;
  assigned ← tx_query (fun _ d => Ok (live_assigned channel worker d));
  guard_ok assigned ErrOwner ;;
  owner_gone (cr_owner_token row) ;;
  grant ← tx_exec (fun t d =>
    match grants d !! token with
    | Some _ => Err ErrDriver   (* primary key *)
    | None =>
        Ok (MkGrant token channel (cr_generation row) t (t + grant_ttl),
            set_grants (insert token
              (GrantRow channel worker (cr_generation row) t (t + grant_ttl) None)) d)
    end);
  tx_exec (fun t d => Ok (tt,
    update_channel channel (fun c => with_runtime "connecting" t (with_owner (Some token) c)) d)) ;;
  tx_commit ;;
  mret grant.

(** The rows [RenewCollection]'s UPDATE selects. *)
Definition renewable (token : string) (t : Z) (d : database) : option grant_row :=
  match grants d !! token with
  | Some g => if open_at t g && live_assigned (gr_channel g) (gr_worker g) d then Some g else None
  | None => None
  end.

Definition extend_grant (u : Z) (g : grant_row) : grant_row :=
  GrantRow (gr_channel g) (gr_worker g) (gr_generation g) (gr_granted_at g) u (gr_closed_at g).

Definition RenewCollection (g : OwnerGrant) : Mdb Z :=
  tx_begin ;;
  row ← tx_query (fun _ d => of_option ErrNoRows (channels d !! g_Channel g));
  guard_ok (opt_eqb (cr_owner_token row) (g_Token g)
            && String.eqb (cr_generation row) (g_Generation g)) ErrOwner ;;
  enabledTX (g_Channel g) ;;
  until ← tx_exec (fun t d =>
    match renewable (g_Token g) t d with
    | Some r => Ok (t + grant_ttl,
                    set_grants (insert (g_Token g) (extend_grant (t + grant_ttl) r)) d)
    | None => Err ErrOwner   (* pgx.ErrNoRows, reported as ErrOwner *)
    end);
  tx_commit ;;
  mret until.

Definition ReleaseCollection (g : OwnerGrant) : Mdb unit :=
  pool_exec (fun t d => Ok (tt, set_grants (alter (close_grant t) (g_Token g)) d)).

(** [GREATEST] ignores NULL. *)
Definition greatest (o : option Z) (t : Z) : option Z :=
  match o with Some x => Some (Z.max x t) | None => Some t end.

Definition CollectionHeartbeat (g : OwnerGrant) (state : string) (last : Z) : Mdb unit :=
  let received := if is_zero_time last then None else Some last in
  pool_exec (fun t d => Ok (tt, set_channels
    (alter (fun c =>
       if opt_eqb (cr_owner_token c) (g_Token g) then
         ChannelRow (cr_generation c) (cr_next_offset c) (cr_expired_through c) (cr_subscribed c)
           (cr_owner_token c) state t
           (match received with
            | None => cr_last_received c
            | Some r => greatest (cr_last_received c) r
            end)
       else c) (g_Channel g)) d)).
End Store.

(** ** Lemmas *)

Lemma parseNum_format n : 0 <= n <= u64_max -> parseNum (format_int n) = Ok n.
Proof.
  intros Hn. unfold parseNum, format_int.
  destruct (n <? 0) eqn:E; b2p; [lia|]. by rewrite parse_format_uint.
Qed.

Lemma scanCollection_ok channel t d c :
  scanCollection channel t d = Ok c -> exists r,
    channels d !! channel = Some r /\ Channel c = channel /\
    Generation c = cr_generation r /\ Subscribed c = cr_subscribed r /\
    parseNum (format_int (cr_next_offset r)) = Ok (Current c) /\
    parseNum (format_int (cr_expired_through r)) = Ok (ExpiredThrough c).
Proof.
  unfold scanCollection. intros H.
  apply result_bind_ok in H as (r & H1 & H).
  apply result_bind_ok in H as (cur & H2 & H).
  apply result_bind_ok in H as (ex & H3 & H).
  destruct (channels d !! channel) as [r'|] eqn:E; [|done].
  injection H1 as ->. injection H as <-. exists r. simpl. eauto 10.
Qed.

Lemma parseNum_range s n : parseNum s = Ok n -> 0 <= n <= u64_max.
Proof.
  unfold parseNum. destruct (parse_uint s) eqn:E; [|done]. intros [= <-].
  by eapply parse_uint_range.
Qed.

Lemma quiet_enabledTX channel : quiet (enabledTX channel).
Proof. unfold enabledTX. frame_solve. Qed.
Lemma forward_enabledTX channel : forward (enabledTX channel).
Proof. unfold enabledTX. frame_solve. Qed.
Lemma quiet_owner_gone tok : quiet (owner_gone tok).
Proof. unfold owner_gone. frame_solve. Qed.
Lemma forward_owner_gone tok : forward (owner_gone tok).
Proof. unfold owner_gone. frame_solve. Qed.
Lemma local_enabledTX channel : local (enabledTX channel).
Proof. unfold enabledTX. frame_solve. Qed.
Lemma local_owner_gone tok : local (owner_gone tok).
Proof. unfold owner_gone. frame_solve. Qed.
#[export] Hint Resolve quiet_enabledTX forward_enabledTX local_enabledTX
  quiet_owner_gone forward_owner_gone local_owner_gone : collector.

Lemma enabledTX_ok channel e s u s' : enabledTX channel e s = (Ok u, s') ->
  s' = bump s /\ exists c, channels (wk s) !! channel = Some c /\ cr_subscribed c = true /\
  opted_out (wk s) PlatformSoop channel = false.
Proof.
  unfold enabledTX. intros H. inv_run H.
  unfold enabled_column in *.
  match goal with H : _ = Ok true |- _ => apply result_bind_ok in H as (c & Hc & He) end.
  destruct (channels (wk s) !! channel) as [c'|]; [|done]. injection Hc as ->.
  injection He as He. b2p. eauto 10.
Qed.
