(* ===== verification/Journal.v ===== *)
(** The durable donation journal (src/shared/store/collector.go,
    collector_consumer.go, collector_maintenance.go): idempotent append under
    an ownership grant, retention, restore and maintenance. *)
From S2P Require Import Prelude GoLib Sha256 Json Tx Model.
From S2P Require Import Db Ownership.
Import Donation (t).

Definition day : Z := 24 * hour.

(** [fmt.Sprintf("%s\x00%d\x00%s\x00%s", DonorID, Count, Kind, Message)], hashed. *)
Definition content_key (d : t) : string :=
  let nul := String "000"%char EmptyString in
  Sha256.hex (Sha256.sum256
    (Donation.DonorID d +:+ nul +:+ format_int (Donation.Count d) +:+ nul +:+
     Donation.Kind d +:+ nul +:+ Donation.Message d)).

(** The grant admits an observation accepted at [at_]:
    [channel_id=$2 AND generation=$3 AND $4>=granted_at AND $4<=valid_until AND
     (closed_at IS NULL OR $4<=closed_at) AND $4<=clock_timestamp()+'1 second']. *)
Definition grant_admits (g : OwnerGrant) (at_ t : Z) (r : grant_row) : bool :=
  String.eqb (gr_channel r) (g_Channel g) && String.eqb (gr_generation r) (g_Generation g)
  && (gr_granted_at r <=? at_) && (at_ <=? gr_valid_until r)
  && match gr_closed_at r with None => true | Some c => at_ <=? c end
  && (at_ <=? t + second).

(** The replayed observation is the stored one. *)
Definition same_observation (d original : t) : bool :=
  String.eqb (Donation.ChannelID d) (Donation.ChannelID original)
  && String.eqb (Donation.ConnectionEpoch d) (Donation.ConnectionEpoch original)
  && (Donation.Sequence d =? Donation.Sequence original)
  && (Donation.Count d =? Donation.Count original)
  && String.eqb (Donation.DonorID d) (Donation.DonorID original)
  && String.eqb (Donation.Message d) (Donation.Message original).

(** The event id was journalled before: return the stored observation. *)
Definition replay (d : t) (old : option json) : Mdb t :=
  match old with
  | None => fail ErrCursorExpired
  | Some raw =>
      match Donation.unmarshal raw d with
      | None => fail (ErrMsg "journal payload invalid")
      | Some stored =>
          guard_ok (same_observation stored d) ErrConflict ;;
          tx_commit ;;
          mret stored
      end
  end.

(** The most recent matching observation of another connection:
    [ORDER BY observed_at DESC LIMIT 1]. *)
Definition match_row (d : t) (key : string) (r : donation_row) : bool :=
  String.eqb (do_channel r) (Donation.ChannelID d) && String.eqb (do_content_key r) key
  && negb (String.eqb (do_epoch r) (Donation.ConnectionEpoch d))
  && (Donation.ObservedAt d - 30 * second <=? do_observed_at r)
  && (do_observed_at r <=? Donation.ObservedAt d).

Fixpoint latest_match (d : t) (key : string) (best : option (string * Z))
    (l : list (string * donation_row)) : option string :=
  match l with
  | [] => fst <$> best
  | (id, r) :: l =>
      latest_match d key
        (if match_row d key r then
           match best with
           | Some (_, b) => if b <? do_observed_at r then Some (id, do_observed_at r) else best
           | None => Some (id, do_observed_at r)
           end
         else best) l
  end.

Definition with_position (generation : string) (offset : Z) (d : t) : t :=
  Donation.Mk (Donation.EventID d) (Donation.ChannelID d) (Donation.Count d) (Donation.Kind d)
    (Donation.DonorID d) (Donation.DisplayName d) (Donation.Message d) (Donation.ConnectionEpoch d)
    (Donation.Sequence d) (Donation.ObservedAt d) (Donation.ConnectionStartedAt d)
    (Donation.SourceID d) (Donation.BroadcastID d) (Donation.Identity d) (Donation.Reasons d)
    (Donation.Related d) generation offset.

Definition with_identity (identity : string) (reasons related : list string) (d : t) : t :=
  Donation.Mk (Donation.EventID d) (Donation.ChannelID d) (Donation.Count d) (Donation.Kind d)
    (Donation.DonorID d) (Donation.DisplayName d) (Donation.Message d) (Donation.ConnectionEpoch d)
    (Donation.Sequence d) (Donation.ObservedAt d) (Donation.ConnectionStartedAt d)
    (Donation.SourceID d) (Donation.BroadcastID d) identity reasons related
    (Donation.Generation d) (Donation.Offset d).

(** Identity evidence: an observation within ten seconds of its connection's
    start that repeats a recent one of another connection is kept, marked. *)
Definition classify (d : t) (key : string) : Mdb t :=
  let d := with_identity "observation_only" (Donation.Reasons d) (Donation.Related d) d in
  match Donation.SourceID d with
  | Some _ => fail (ErrMsg "unverified SOOP source identity")
  | None =>
      if negb (is_zero_time (Donation.ConnectionStartedAt d))
         && (time_sub (Donation.ObservedAt d) (Donation.ConnectionStartedAt d) <? 10 * second)
      then
        related ← tx_query (fun _ x => Ok (latest_match d key None (rows (donations x))));
        match related with
        | Some id => mret (with_identity "reconnect_ambiguous"
                             ["matching_observation_after_reconnect"%string] [id] d)
        | None => mret d
        end
      else mret d
  end.

Definition with_received (offset at_ : Z) (c : channel_row) : channel_row :=
  ChannelRow (cr_generation c) offset (cr_expired_through c) (cr_subscribed c)
    (cr_owner_token c) (cr_runtime_state c) (cr_state_at c) (Some at_).

Definition offset_taken (channel generation : string) (offset : Z) (x : database) : bool :=
  exists_row (fun _ r => String.eqb (do_channel r) channel && String.eqb (do_generation r) generation
                         && (do_offset r =? offset)) (donations x).

(** [INSERT INTO collector_donations]: primary key, unique position, and texts
    the server takes. *)
Definition insert_donation (d : t) (key : string) (payload : json) (now : Z) (x : database)
  : result (unit * database) :=
  match donations x !! Donation.EventID d with
  | Some _ => Err ErrDriver
  | None =>
      if offset_taken (Donation.ChannelID d) (Donation.Generation d) (Donation.Offset d) x
      then Err ErrDriver
      else if negb (forallb pg_text [Donation.EventID d; Donation.ChannelID d; Donation.Generation d;
                                     key; Donation.ConnectionEpoch d] && pg_json payload)
      then Err ErrDriver
      else Ok (tt, set_donations (insert (Donation.EventID d)
             (DonationRow (Donation.ChannelID d) (Donation.Generation d) (Donation.Offset d) key
                (Donation.ConnectionEpoch d) (Donation.ObservedAt d) (Some payload) now)) x)
  end.

(** [INSERT INTO collector_outbox] *)
Definition insert_outbox (id channel : string) (now : Z) (x : database) : result (unit * database) :=
  match outbox x !! id with
  | Some _ => Err ErrDriver
  | None => Ok (tt, set_outbox (insert id (OutboxRow channel now)) x)
  end.

Definition clear_payload (r : donation_row) : donation_row :=
  DonationRow (do_channel r) (do_generation r) (do_offset r) (do_content_key r) (do_epoch r)
    (do_observed_at r) None (do_stored_at r).

Definition with_expired (through : Z) (c : channel_row) : channel_row :=
  ChannelRow (cr_generation c) (cr_next_offset c) through (cr_subscribed c)
    (cr_owner_token c) (cr_runtime_state c) (cr_state_at c) (cr_last_received c).

(** Journal rows with a payload, in offset order: [ORDER BY channel_offset]. *)
Definition by_offset (a b : string * donation_row) : Prop := do_offset a.2 <= do_offset b.2.
#[export] Instance by_offset_dec a b : Decision (by_offset a b).
Proof. unfold by_offset. apply _. Defined.

Definition retained (channel generation : string) (r : donation_row) : bool :=
  String.eqb (do_channel r) channel && String.eqb (do_generation r) generation
  && match do_payload r with Some _ => true | None => false end.

Definition select_retained (channel generation : string) (x : database)
  : list (string * donation_row) :=
  merge_sort by_offset
    (List.filter (fun '(_, r) => retained channel generation r) (rows (donations x))).

Section Store.
Context (collectionChannel : option string).
(** [pg_column_size]: bytes PostgreSQL uses for a stored payload. *)
Context (pg_column_size : json -> Z).

Definition payload_size (r : donation_row) : Z :=
  match do_payload r with Some j => pg_column_size j | None => 0 end.

(** [SELECT COALESCE(sum(pg_column_size(payload)),0) ... WHERE channel_id=$1] *)
Definition payload_total (channel : string) (x : database) : Z :=
  sumZ (fun '(_, r) => if String.eqb (do_channel r) channel then payload_size r else 0)
    (rows (donations x)).

Definition append_fresh (g : OwnerGrant) (d : t) (acceptedAt : Z) (c : CollectionState) : Mdb t :=
  enabledTX (Donation.ChannelID d) ;;
  valid ← tx_query (fun now x =>
    r ← of_option ErrOwner (grants x !! g_Token g); mret (grant_admits g acceptedAt now r));
  guard_ok valid ErrOwner ;;
  guard_ok (negb (Current c =? u64_max)) (ErrMsg "journal offset exhausted") ;;
  let d := with_position (Generation c) (u64 (Current c + 1)) d in
  let key := content_key d in
  d ← classify d key;
  payload ← lift (Donation.marshal d);
  total ← tx_query (fun _ x => Ok (payload_total (Donation.ChannelID d) x));
  guard_ok (i64 (total + lenZ (render payload)) <=? 1073741824) ErrJournalFull ;;
  tx_exec (fun now x => insert_donation d key payload now x) ;;
  tx_exec (fun now x => insert_outbox (Donation.EventID d) (Donation.ChannelID d) now x) ;;
  tx_exec (fun _ x => Ok (tt, update_channel (Donation.ChannelID d)
                                (with_received (Donation.Offset d) (Donation.ObservedAt d)) x)) ;;
  tx_commit ;;
  mret d.

Definition AppendDonation (g : OwnerGrant) (d : t) (acceptedAt : Z) : Mdb t :=
  lift (Donation.Validate d) ;;
  now ← time_now;
  guard_ok (negb (acceptedAt <? now - 30 * day)) ErrCursorExpired ;;
  guard_ok (String.eqb (Donation.ChannelID d) (g_Channel g)
            && allowsCollection collectionChannel PlatformSoop (Donation.ChannelID d))
    ErrCollectionDisabled ;;
  tx_begin ;;
  c ← tx_query (scanCollection (Donation.ChannelID d));
  guard_ok (String.eqb (g_Generation g) (Generation c)) ErrGeneration ;;
  old ← tx_query (fun _ x => Ok (do_payload <$> donations x !! Donation.EventID d));
  match old with
  | Some payload => replay d payload
  | None => append_fresh g d acceptedAt c
  end.

(** ** Retention *)

Record candidate := Candidate { cd_offset : Z; cd_at : Z; cd_size : Z }.

Definition candidates (channel generation : string) (x : database) : list candidate :=
  map (fun '(_, r) => Candidate (do_offset r) (do_stored_at r) (payload_size r))
    (take 500 (select_retained channel generation x)).

(** No consumer yet, or one that is on another generation or has not
    acknowledged [offset]. *)
Definition unacked (channel generation : string) (offset : Z) (x : database) : bool :=
  negb (exists_row (fun k _ => String.eqb k.2 channel) (consumers x))
  || exists_row (fun k r => String.eqb k.2 channel &&
       (negb (String.eqb (co_generation r) generation)
        || (match co_ack r with Some a => a | None => co_baseline r end <? offset)))
       (consumers x).

Section Expire.
Context (channel generation : string) (minAge maxAge maxBytes : Z).

Fixpoint expire_loop (through total : Z) (l : list candidate) : Mdb Z :=
  match l with
  | [] => mret through
  | v :: l =>
      let step := expire_loop (cd_offset v) (i64 (total - cd_size v)) l in
      now ← time_now;
      if (maxAge <? time_sub now (cd_at v)) || (maxBytes <? total) then step
      else
        now' ← time_now;
        if time_sub now' (cd_at v) <? minAge then mret through
        else
          u ← tx_query (fun _ x => Ok (unacked channel generation (cd_offset v) x));
          if (u : bool) then mret through else step
  end.
End Expire.

Definition drop_through (channel generation : string) (through : Z) (x : database) : database :=
  set_donations (update_where (fun _ r => String.eqb (do_channel r) channel
      && String.eqb (do_generation r) generation && (do_offset r <=? through)) clear_payload) x.

Definition ExpireDonations (channel : string) (minAge maxAge maxPayloadBytes : Z) : Mdb unit :=
  guard_ok (negb ((minAge <? 0) || (maxAge <? minAge) || (maxPayloadBytes <=? 0)))
    (ErrMsg "invalid retention policy") ;;
  tx_begin ;;
  c ← tx_query (scanCollection channel);
  total ← tx_query (fun _ x => Ok (payload_total channel x));
  cs ← tx_query (fun _ x => mapM (fun v =>
         n ← parseNum (format_int (cd_offset v));
         mret (Candidate n (cd_at v) (cd_size v))) (candidates channel (Generation c) x));
  through ← expire_loop channel (Generation c) minAge maxAge maxPayloadBytes
              (ExpiredThrough c) total cs;
  (if ExpiredThrough c <? through then
     tx_exec (fun _ x => Ok (tt, drop_through channel (Generation c) through x)) ;;
     tx_exec (fun _ x => Ok (tt, update_channel channel (with_expired through) x))
   else mret tt) ;;
  tx_commit.

(** ** Maintenance and restore *)

Definition purge (channel : string) (step : nat) (now : Z) (x : database) : database :=
  match step with
  | 0%nat => set_outbox (delete_where (fun _ o =>
      String.eqb (ob_channel o) channel && (ob_created_at o <? now - 90 * day))) x
  | 1%nat => set_donations (delete_where (fun id r =>
      String.eqb (do_channel r) channel && negb (is_ok (of_option ErrNoRows (do_payload r)))
      && (do_stored_at r <? now - 90 * day)
      && match outbox x !! id with Some _ => false | None => true end)) x
  | 2%nat => set_grants (delete_where (fun tok r =>
      String.eqb (gr_channel r) channel && (gr_valid_until r <? now - 90 * day)
      && match channels x !! channel with
         | Some c => negb (opt_eqb (cr_owner_token c) tok)
         | None => true
         end)) x
  | 3%nat => set_requests (delete_where (fun k r =>
      String.eqb k.1.1.2 channel && (rq_created_at r <? now - 90 * day))) x
  | _ => set_audit (List.filter (fun a =>
      negb (String.eqb (au_channel a) channel && (au_created_at a <? now - 365 * day)))) x
  end.

Definition MaintainCollection (channel : string) : Mdb unit :=
  ExpireDonations channel (7 * day) (30 * day) (1073741824 - 1048576) ;;
  tx_begin ;;
  tx_query (fun _ _ => Ok tt) ;;
  tx_exec (fun now x => Ok (tt, purge channel 0 now x)) ;;
  tx_exec (fun now x => Ok (tt, purge channel 1 now x)) ;;
  tx_exec (fun now x => Ok (tt, purge channel 2 now x)) ;;
  tx_exec (fun now x => Ok (tt, purge channel 3 now x)) ;;
  tx_exec (fun now x => Ok (tt, purge channel 4 now x)) ;;
  tx_commit.

Definition regenerate (next : string) (r : donation_row) : donation_row :=
  DonationRow (do_channel r) next (do_offset r) (do_content_key r) (do_epoch r) (do_observed_at r)
    ((fun j => set_field j "journalGeneration" (JStr next)) <$> do_payload r) (do_stored_at r).

Definition with_generation (next : string) (now : Z) (c : channel_row) : channel_row :=
  ChannelRow next (cr_next_offset c) (cr_expired_through c) (cr_subscribed c) None
    "recovery_required" now (cr_last_received c).

Definition RotateJournal (channel expected reason : string) : Mdb string :=
  guard_ok (negb (is_empty channel || is_empty expected || is_empty reason))
    (ErrMsg "channel, expected generation and restore reason required") ;;
  tx_begin ;;
  current ← tx_query (fun _ x =>
    of_option ErrNoRows (cr_generation <$> channels x !! channel));
  guard_ok (String.eqb current expected) ErrGeneration ;;
  next ← new_uuid;
  tx_exec (fun now x => Ok (tt, set_grants (update_where
    (fun _ r => String.eqb (gr_channel r) channel) (close_grant now)) x)) ;;
  tx_exec (fun _ x => Ok (tt, set_donations (update_where
    (fun _ r => String.eqb (do_channel r) channel && String.eqb (do_generation r) current)
    (regenerate next)) x)) ;;
  tx_exec (fun now x => Ok (tt, update_channel channel (with_generation next now) x)) ;;
  tx_exec (fun now x => Ok (tt, set_audit (fun l => l ++
    [AuditRow "collector_restore" channel
       (JObj [("reason"%string, JStr reason); ("previousGeneration"%string, JStr current)])
       (JObj [("newGeneration"%string, JStr next)]) now]) x)) ;;
  tx_commit ;;
  mret next.
End Store.
