(* ===== verification/Consumer.v ===== *)
(** Consumer cursors over the journal (src/shared/store/collector_consumer.go):
    contiguous reads, acknowledgement, subscription, audited recovery, and the
    outbox that notifies consumers. *)
From S2P Require Import Prelude GoLib Sha256 Json Tx Model.
From S2P Require Import JsonText Db Ownership Journal.
Import Donation (t).

Record ConsumerProgress := MkProgress {
  p_Generation : string;
  p_Baseline : Z;
  p_Offered : Z;
  p_Ack : option Z;
  p_Revision : Z
}.

(** [progressTX]: the consumer's row, its numeric columns parsed back. *)
Definition progress_of (r : consumer_row) : result ConsumerProgress :=
  revision ← parseNum (format_int (co_revision r));
  baseline ← parseNum (format_int (co_baseline r));
  offered ← parseNum (format_int (co_offered r));
  match co_ack r with
  | None => mret (MkProgress (co_generation r) baseline offered None revision)
  | Some a =>
      v ← parseNum (format_int a);
      mret (MkProgress (co_generation r) baseline offered (Some v) revision)
  end.

Definition progressTX (consumer channel : string) : Mdb ConsumerProgress :=
  tx_query (fun _ x =>
    r ← of_option ErrNoRows (consumers x !! (consumer, channel)); progress_of r).

Definition ConsumerProgress_ (consumer channel : string) : Mdb ConsumerProgress :=
  tx_begin ;; progressTX consumer channel.

(** ** Reading *)

(** [SELECT payload ... channel_offset>$3 ... ORDER BY channel_offset LIMIT $4] *)
Definition select_after (channel generation : string) (after : Z) (limit : Z) (x : database)
  : list json :=
  take (Z.to_nat limit)
    (omap (fun '(_, r) => do_payload r)
       (List.filter (fun '(_, r) => after <? do_offset r) (select_retained channel generation x))).

(** The row loop: every payload must decode and continue the sequence. *)
Fixpoint read_rows (next : Z) (acc : list t) (l : list json) : result (Z * list t) :=
  match l with
  | [] => Ok (next, acc)
  | raw :: l =>
      match Donation.unmarshal raw Donation.zero with
      | None => Err (ErrMsg "json")
      | Some d =>
          if Donation.Offset d =? u64 (next + 1)
          then read_rows (Donation.Offset d) (acc ++ [d]) l
          else Err ErrCursorExpired
      end
  end.

Definition clamp_limit (limit : Z) : Z := if (limit <? 1) || (500 <? limit) then 100 else limit.

(** A brand new consumer starts at the retained beginning. *)
Definition ensure_consumer (consumer channel generation : string) (start : Z) (x : database)
  : database :=
  match consumers x !! (consumer, channel) with
  | Some _ => x
  | None => set_consumers
      (insert (consumer, channel) (ConsumerRow generation start None start 0)) x
  end.

Definition with_offered (n : Z) (r : consumer_row) : consumer_row :=
  ConsumerRow (co_generation r) (co_baseline r) (co_ack r) n (co_revision r).
Definition with_ack (n : Z) (r : consumer_row) : consumer_row :=
  ConsumerRow (co_generation r) (co_baseline r) (Some n) (co_offered r) (co_revision r).

Definition update_consumer (consumer channel : string) (f : consumer_row -> consumer_row)
    (x : database) : database :=
  set_consumers (alter f (consumer, channel)) x.

Definition ReadDonations (consumer channel generation : string) (after revision limit : Z)
  : Mdb (list t * CollectionState) :=
  tx_begin ;;
  c ← tx_query (scanCollection channel);
  guard_ok (String.eqb generation (Generation c)) ErrGeneration ;;
  guard_ok (negb (after <? ExpiredThrough c)) ErrCursorExpired ;;
  guard_ok (negb (Current c <? after)) ErrCursor ;;
  tx_exec (fun _ x => Ok (tt, ensure_consumer consumer channel generation (ExpiredThrough c) x)) ;;
  p ← progressTX consumer channel;
  guard_ok (String.eqb (p_Generation p) generation) ErrGeneration ;;
  guard_ok (p_Revision p =? revision) ErrRevision ;;
  guard_ok (negb ((after <? p_Baseline p) || (p_Offered p <? after))) ErrCursor ;;
  raws ← tx_query (fun _ x => Ok (select_after channel generation after (clamp_limit limit) x));
  nr ← lift (read_rows after [] raws);
  (if p_Offered p <? nr.1
   then tx_exec (fun _ x => Ok (tt, update_consumer consumer channel (with_offered nr.1) x))
   else mret tt) ;;
  tx_commit ;;
  mret (nr.2, c).

Definition AckDonations (consumer channel generation : string) (offset revision : Z) : Mdb unit :=
  tx_begin ;;
  c ← tx_query (scanCollection channel);
  guard_ok (String.eqb (Generation c) generation) ErrGeneration ;;
  guard_ok (negb (offset <? ExpiredThrough c)) ErrCursorExpired ;;
  rp ← try (progressTX consumer channel);
  p ← lift (match rp with Err ErrNoRows => Err ErrCursor | r => r end);
  guard_ok (String.eqb (p_Generation p) generation) ErrGeneration ;;
  guard_ok (p_Revision p =? revision) ErrRevision ;;
  guard_ok (negb ((offset <=? p_Baseline p) || (p_Offered p <? offset)
                  || match p_Ack p with Some a => offset <? a | None => false end)) ErrCursor ;;
  tx_exec (fun _ x => Ok (tt, update_consumer consumer channel (with_ack offset) x)) ;;
  tx_commit.

(** ** Idempotent requests *)

Definition requestHash (body : string) : string := Sha256.hex (Sha256.sum256 body).

(** [None]: no request under this key yet. *)
Definition requestResult (consumer channel op key body : string) : Mdb (option json) :=
  row ← tx_query (fun _ x => Ok (requests x !! (consumer, channel, op, key)));
  match row with
  | None => mret None
  | Some r =>
      guard_ok (String.eqb (rq_body_hash r) (requestHash body)) ErrConflict ;;
      mret (Some (rq_result r))
  end.

Definition saveRequest (consumer channel op key body : string) (res : json) : Mdb unit :=
  tx_exec (fun now x =>
    match requests x !! (consumer, channel, op, key) with
    | Some _ => Err ErrDriver
    | None => Ok (tt, set_requests (insert (consumer, channel, op, key)
                        (RequestRow (requestHash body) res now)) x)
    end).

Definition with_subscribed (b : bool) (c : channel_row) : channel_row :=
  ChannelRow (cr_generation c) (cr_next_offset c) (cr_expired_through c) b
    (cr_owner_token c) (cr_runtime_state c) (cr_state_at c) (cr_last_received c).

Definition SetSubscription (consumer channel key : string) (enabled : bool) : Mdb bool :=
  guard_ok (negb (is_empty key || (200 <? lenZ key))) ErrCursor ;;
  tx_begin ;;
  c ← tx_query (scanCollection channel);
  let body := JBool enabled in
  saved ← requestResult consumer channel "subscription" key (render body);
  match saved with
  | Some j =>
      match dec_bool j with
      | None => fail ErrConflict
      | Some old => tx_commit ;; mret old
      end
  | None =>
      (if enabled then
         opted ← tx_query (fun _ x => Ok (opted_out x PlatformSoop channel));
         guard_ok (negb opted) ErrCollectionDisabled
       else mret tt) ;;
      tx_exec (fun _ x => Ok (tt, update_channel (Channel c) (with_subscribed enabled) x)) ;;
      (if enabled then mret tt
       else tx_exec (fun now x => Ok (tt, set_grants (update_where
              (fun _ r => String.eqb (gr_channel r) channel) (close_grant now)) x))) ;;
      saveRequest consumer channel "subscription" key (render body) body ;;
      tx_commit ;;
      mret enabled
  end.

(** ** Recovery *)

Record RecoveryDecision := MkDecision {
  PreviousGeneration : string;
  NewGeneration : string;
  PreviousOffset : Z;
  ResumeFrom : Z;
  Revision : Z
}.

Definition decision_json (d : RecoveryDecision) : json :=
  JObj [("previousGeneration"%string, JStr (coerce (PreviousGeneration d)));
        ("newGeneration"%string, JStr (coerce (NewGeneration d)));
        ("previousOffset"%string, JStr (format_uint (PreviousOffset d)));
        ("resumeFrom"%string, JStr (format_uint (ResumeFrom d)));
        ("revision"%string, JStr (format_uint (Revision d)))].

Definition decode_decision (j : json) : option RecoveryDecision :=
  f1 ← decode_with dec_string (field j "previousGeneration") EmptyString;
  f2 ← decode_with dec_string (field j "newGeneration") EmptyString;
  f3 ← decode_with dec_uint_string (field j "previousOffset") 0;
  f4 ← decode_with dec_uint_string (field j "resumeFrom") 0;
  f5 ← decode_with dec_uint_string (field j "revision") 0;
  Some (MkDecision f1 f2 f3 f4 f5).

(** [json.Unmarshal(request, &audit)], the loss ranges of the request: an
    object's members are taken in order, each by a name that matches without
    regard to case, onto what earlier ones left; [null] leaves a value as it
    is. A member of the wrong type is an error. *)
Definition member_is (k name : string) : bool := bool_decide (fold_name k = fold_name name).
Definition decode_members {A} (step : string -> json -> A -> option A) : json -> A -> option A :=
  fun j old => match j with
  | JNull => Some old
  | JObj fs => fold_left (fun o '(k, v) => a ← o; step k v a) fs (Some old)
  | _ => None
  end.

Definition decode_cursor : json -> string * Z -> option (string * Z) :=
  decode_members (fun k v '(g, n) =>
    if member_is k "journalGeneration" then g ← decode_with dec_string (Some v) g; Some (g, n)
    else if member_is k "channelOffset" then n ← decode_with dec_uint_string (Some v) n; Some (g, n)
    else Some (g, n)).

Definition decode_range : json -> (string * Z) * (string * Z) -> option ((string * Z) * (string * Z)) :=
  decode_members (fun k v '(s, e) =>
    if member_is k "Start" then s ← decode_cursor v s; Some (s, e)
    else if member_is k "End" then e ← decode_cursor v e; Some (s, e)
    else Some (s, e)).

(** An array is decoded over the slice that is there, element by element (what
    an earlier, longer array left beyond its end is not kept). *)
Fixpoint decode_elements {A} (dec : json -> A -> option A) (zero : A) (l : list json) (old : list A)
  : option (list A) :=
  match l with
  | [] => Some []
  | v :: l =>
      a ← dec v (default zero (head old));
      rest ← decode_elements dec zero l (tail old);
      Some (a :: rest)
  end.

Definition decode_ranges (request : json) : option (list ((string * Z) * (string * Z))) :=
  decode_members (fun k v ranges =>
    if member_is k "unrecoveredRanges" then
      match v with
      | JNull => Some []
      | JArr l => decode_elements decode_range ((EmptyString, 0), (EmptyString, 0)) l ranges
      | _ => None
      end
    else Some ranges) request [].

(** The declared ranges must cover the skipped offsets without a hole. *)
Fixpoint cover (previous : string) (covered : Z) (l : list ((string * Z) * (string * Z)))
  : result Z :=
  match l with
  | [] => Ok covered
  | ((sg, so), (eg, eo)) :: l =>
      if negb (String.eqb sg previous) || negb (String.eqb eg previous) || (eo <? so) then Err ErrCursor
      else if u64 (covered + 1) <? so then Err ErrCursor
      else cover previous (if covered <? eo then eo else covered) l
  end.

(** The skip of [old+1 .. resume] is declared in the request. *)
Definition audited (previous : string) (old resume : Z) (request : json) : result unit :=
  ranges ← of_option ErrCursor (decode_ranges request);
  covered ← cover previous old ranges;
  if covered =? resume then Ok tt else Err ErrCursor.

Section Recovery.
(** [protojson.Marshal]: the request's bytes. *)
Context (protojson : json -> string).

Definition upsert_recovered (consumer channel next : string) (resume revision : Z) (x : database)
  : database :=
  set_consumers (insert (consumer, channel) (ConsumerRow next resume None resume revision)) x.

Definition make_decision (consumer channel key previous next : string) (resume expected : Z)
    (request : json) (c : CollectionState) : Mdb RecoveryDecision :=
  guard_ok (String.eqb next (Generation c)) ErrGeneration ;;
  guard_ok (negb ((resume <? ExpiredThrough c) || (Current c <? resume))) ErrCursor ;;
  rp ← try (progressTX consumer channel);
  p ← lift (match rp with Err ErrNoRows => Ok (MkProgress previous 0 0 None 0) | r => r end);
  guard_ok (String.eqb (p_Generation p) previous) ErrGeneration ;;
  guard_ok (negb (expected =? u64_max)) ErrRevision ;;
  guard_ok (expected =? p_Revision p) ErrRevision ;;
  let old := match p_Ack p with Some a => a | None => p_Baseline p end in
  guard_ok (negb (String.eqb previous next && (resume <? old))) ErrCursor ;;
  lift (if String.eqb previous next && (old <? resume)
        then audited previous old resume request else Ok tt) ;;
  let res := MkDecision previous next old resume (u64 (expected + 1)) in
  tx_exec (fun _ x => Ok (tt, upsert_recovered consumer channel next resume (Revision res) x)) ;;
  saveRequest consumer channel "recovery" key (protojson request) (decision_json res) ;;
  tx_exec (fun now x => Ok (tt, set_audit (fun l => l ++
    [AuditRow consumer channel request (decision_json res) now]) x)) ;;
  tx_commit ;;
  mret res.

Definition ResolveRecovery (consumer channel key previous next : string) (resume expected : Z)
    (request : json) : Mdb RecoveryDecision :=
  tx_begin ;;
  c ← tx_query (scanCollection channel);
  saved ← requestResult consumer channel "recovery" key (protojson request);
  match saved with
  | Some j => lift (of_option (ErrMsg "json") (decode_decision j))
  | None => make_decision consumer channel key previous next resume expected request c
  end.
End Recovery.

(** ** Outbox *)

Definition by_created (a b : string * outbox_row) : Prop := ob_created_at a.2 <= ob_created_at b.2.
#[export] Instance by_created_dec a b : Decision (by_created a b).
Proof. unfold by_created. apply _. Defined.

Definition pending_outbox (x : database) : list (string * outbox_row) :=
  take 100 (merge_sort by_created (rows (outbox x))).

Section Dispatch.
(** The caller's notification, [RedisStore.NotifyDonations] in the service. *)
Context (notify : string -> Mdb unit).

Fixpoint dispatch_rows (l : list (string * outbox_row)) : Mdb unit :=
  match l with
  | [] => mret tt
  | (id, r) :: l =>
      notify (ob_channel r) ;;
      pool_exec (fun _ x => Ok (tt, set_outbox (delete id) x)) ;;
      dispatch_rows l
  end.

Definition DispatchDonationOutbox : Mdb unit :=
  pending ← pool_query (fun _ x => Ok (pending_outbox x));
  dispatch_rows pending.
End Dispatch.
