(* ===== verification/Archive.v ===== *)
(** The public chat archive: the worker's transactional append and the
    reconciliation of chats without a broadcast
    (src/shared/store/postgres_chat_archive.go), the exporter that moves hot
    rows into immutable objects, and the pages read from both
    (src/query/archive). The object store is a map of keys to bytes. *)
From S2P Require Import Prelude GoLib Sha256 Json GoText JsonText.
From S2P Require Import Tx Model Db Ownership Segment.

(** ** Tables *)

(** broadcast_sessions, keyed by (started_at, platform, channel_id, session_seq) *)
Notation broadcast_key := (Z * string * string * Z)%type.
Record broadcast_row := BroadcastRow {
  bs_started_observed_at : Z;
  bs_last_seen_at : Z;
  bs_ended_at : option Z;
  bs_ended_observed_at : option Z;
  bs_title : option string;
  bs_gap_detected : bool
}.

(** archive_sessions *)
Record session_row := SessionRow {
  as_platform : string; as_channel : string; as_started_at : Z; as_seq : Z;
  as_recording_started_at : option Z
}.

Record ArchiveChatRecord := MkRecord {
  ar_SpoolID : string; ar_EventID : string; ar_Platform : string; ar_ChannelID : string;
  ar_ReceivedAt : Z; ar_UserIDVersion : Z; ar_PublicUserID : string; ar_DisplayName : string;
  ar_Message : string
}.

(** archive_unassigned_chat, keyed by spool_id *)
Record unassigned_row := UnassignedRow {
  un_id : Z; un_record : ArchiveChatRecord; un_reason : string; un_next_retry_at : Z
}.

(** archive_segments, keyed by segment_id *)
Record segment_row := SegmentRow {
  se_session : string; se_first : Z; se_last : Z; se_count : Z;
  se_bucket : string; se_key : string; se_sha256 : string; se_byte_length : Z
}.

(** archive_event_ids by (session_id, event_id), archive_chat_hot by position,
    archive_quality_gaps by (platform, channel_id, started_at, reason), and
    the objects of the bucket. *)
Record archive := Archive {
  broadcasts : gmap broadcast_key broadcast_row;
  sessions : gmap string session_row;
  event_ids : gmap (string * string) Z;
  position_seq : Z;
  hot : gmap Z ChatRow;
  unassigned : gmap string unassigned_row;
  unassigned_seq : Z;
  segments : gmap Z segment_row;
  segment_seq : Z;
  gaps : gmap (string * string * Z * string) Z;
  objects : gmap string string
}.
Definition empty_archive : archive := Archive ∅ ∅ ∅ 1 ∅ ∅ 1 ∅ 1 ∅ ∅.

Definition set_broadcasts (f : gmap broadcast_key broadcast_row -> gmap broadcast_key broadcast_row) (d : archive) : archive :=
  Archive (f (broadcasts d)) (sessions d) (event_ids d) (position_seq d) (hot d) (unassigned d)
    (unassigned_seq d) (segments d) (segment_seq d) (gaps d) (objects d).
Definition set_sessions (f : gmap string session_row -> gmap string session_row) (d : archive) : archive :=
  Archive (broadcasts d) (f (sessions d)) (event_ids d) (position_seq d) (hot d) (unassigned d)
    (unassigned_seq d) (segments d) (segment_seq d) (gaps d) (objects d).
Definition set_event_ids (f : gmap (string * string) Z -> gmap (string * string) Z) (n : Z) (d : archive) : archive :=
  Archive (broadcasts d) (sessions d) (f (event_ids d)) n (hot d) (unassigned d)
    (unassigned_seq d) (segments d) (segment_seq d) (gaps d) (objects d).
Definition set_hot (f : gmap Z ChatRow -> gmap Z ChatRow) (d : archive) : archive :=
  Archive (broadcasts d) (sessions d) (event_ids d) (position_seq d) (f (hot d)) (unassigned d)
    (unassigned_seq d) (segments d) (segment_seq d) (gaps d) (objects d).
Definition set_unassigned (f : gmap string unassigned_row -> gmap string unassigned_row) (n : Z) (d : archive) : archive :=
  Archive (broadcasts d) (sessions d) (event_ids d) (position_seq d) (hot d) (f (unassigned d))
    n (segments d) (segment_seq d) (gaps d) (objects d).
Definition set_segments (f : gmap Z segment_row -> gmap Z segment_row) (n : Z) (d : archive) : archive :=
  Archive (broadcasts d) (sessions d) (event_ids d) (position_seq d) (hot d) (unassigned d)
    (unassigned_seq d) (f (segments d)) n (gaps d) (objects d).
Definition set_gaps (f : gmap (string * string * Z * string) Z -> gmap (string * string * Z * string) Z) (d : archive) : archive :=
  Archive (broadcasts d) (sessions d) (event_ids d) (position_seq d) (hot d) (unassigned d)
    (unassigned_seq d) (segments d) (segment_seq d) (f (gaps d)) (objects d).
Definition set_objects (f : gmap string string -> gmap string string) (d : archive) : archive :=
  Archive (broadcasts d) (sessions d) (event_ids d) (position_seq d) (hot d) (unassigned d)
    (unassigned_seq d) (segments d) (segment_seq d) (gaps d) (f (objects d)).

Notation Marc := (M archive).

(** Characters of a text, for the limit of [varchar(100)]. *)
Definition char_count (s : string) : Z :=
  Z.of_nat (length (List.filter (fun b => negb ((128 <=? b) && (b <? 192))) (Sha256.bytes_of s))).

(** [SELECT pg_advisory_xact_lock(...)]: transactions that take it run one
    after the other. *)
Definition position_lock : Marc unit := tx_query (fun _ _ => Ok tt).

Section Archive.
(** [uuid.Parse] without an error; [compress/gzip], as in Segment.v. *)
Context (uuid_ok : string -> bool) (gzip : string -> string) (gunzip : string -> option (string * bool)).
(** The worker's collection scope, the query service's channel and bucket. *)
Context (collectionChannel : option string) (channel bucketName : string).

(** ** The worker's append *)

Definition Validate (r : ArchiveChatRecord) : result unit :=
  if negb (uuid_ok (ar_SpoolID r)) then Err (ErrMsg "invalid archive spool ID")
  else if is_empty (ar_EventID r) || (255 <? lenZ (ar_EventID r))
          || negb (String.eqb (ar_Platform r) PlatformSoop) || is_empty (ar_ChannelID r)
          || is_zero_time (ar_ReceivedAt r) || (ar_UserIDVersion r <? 1)
          || (65536 <? lenZ (ar_Message r)) || (2048 <? lenZ (ar_DisplayName r))
  then Err (ErrMsg "invalid archive chat record")
  else if negb (hex_bytes 32 (ar_PublicUserID r)) then Err (ErrMsg "invalid public user ID")
  else Ok tt.

(** The broadcasts open when the chat was received, by start. *)
Definition open_when (r : ArchiveChatRecord) (k : broadcast_key) (b : broadcast_row) : bool :=
  let '(started, platform, chan, _) := k in
  String.eqb platform (ar_Platform r) && String.eqb chan (ar_ChannelID r)
  && (bs_started_observed_at b <=? ar_ReceivedAt r + 30 * second)
  && (started <=? ar_ReceivedAt r + 30 * second)
  && (ar_ReceivedAt r - 10 * minute <=? bs_last_seen_at b)
  && match bs_ended_observed_at b with None => true | Some t => ar_ReceivedAt r <=? t end.

Definition latest_first (a b : broadcast_key) : Prop := b.1.1.1 <= a.1.1.1.
#[export] Instance latest_first_dec a b : Decision (latest_first a b).
Proof. unfold latest_first. apply _. Defined.

Definition matching (r : ArchiveChatRecord) (d : archive) : list broadcast_key :=
  take 2 (merge_sort latest_first
    (map fst (List.filter (fun '(k, b) => open_when r k b) (rows (broadcasts d))))).

Definition record_texts (r : ArchiveChatRecord) : list string :=
  [ar_Platform r; ar_ChannelID r; ar_EventID r; ar_PublicUserID r; ar_DisplayName r; ar_Message r].

Definition insert_unassigned (r : ArchiveChatRecord) (reason : string) (now : Z) (d : archive)
  : result (unit * archive) :=
  if negb (forallb pg_text (record_texts r)) || (100 <? char_count (ar_ChannelID r)) then Err ErrDriver
  else Ok (tt, match unassigned d !! ar_SpoolID r with
               | Some _ => set_unassigned id (unassigned_seq d + 1) d
               | None => set_unassigned (insert (ar_SpoolID r)
                   (UnassignedRow (unassigned_seq d) r reason now)) (unassigned_seq d + 1) d
               end).

Definition same_source (p c : string) (started seq : Z) (_ : string) (s : session_row) : bool :=
  String.eqb (as_platform s) p && String.eqb (as_channel s) c && (as_started_at s =? started)
  && (as_seq s =? seq).
Definition session_of (p c : string) (started seq : Z) (d : archive) : option string :=
  fst <$> find (fun '(id, s) => same_source p c started seq id s) (rows (sessions d)).

(** [ON CONFLICT (...) DO NOTHING]; a collision of the primary key is an error. *)
Definition insert_session (id p c : string) (started seq : Z) (d : archive) : result (unit * archive) :=
  match session_of p c started seq d with
  | Some _ => Ok (tt, d)
  | None =>
      match sessions d !! id with
      | Some _ => Err ErrDriver
      | None => Ok (tt, set_sessions (insert id (SessionRow p c started seq None)) d)
      end
  end.

(** The position of a new event; [None]: it is there already. The identity
    column draws a number either way, and fails past the last [bigint]. *)
Definition insert_event (session event : string) (d : archive) : result (option Z * archive) :=
  if negb (pg_text event) || (9223372036854775807 <? position_seq d) then Err ErrDriver
  else match event_ids d !! (session, event) with
       | Some _ => Ok (None, set_event_ids id (position_seq d + 1) d)
       | None => Ok (Some (position_seq d),
                     set_event_ids (insert (session, event) (position_seq d)) (position_seq d + 1) d)
       end.

Definition hot_row (position : Z) (session : string) (r : ArchiveChatRecord) : ChatRow :=
  MkRow session position (ar_EventID r) (ar_ReceivedAt r) (ar_UserIDVersion r) (ar_PublicUserID r)
    (ar_DisplayName r) (ar_Message r).
Definition insert_hot (position : Z) (session : string) (r : ArchiveChatRecord) (d : archive)
  : result (unit * archive) :=
  if negb (forallb pg_text (record_texts r)) then Err ErrDriver
  else Ok (tt, set_hot (insert position (hot_row position session r)) d).

Definition start_recording (session : string) (at_ : Z) (d : archive) : archive :=
  set_sessions (alter (fun s => SessionRow (as_platform s) (as_channel s) (as_started_at s) (as_seq s)
    (Some (Z.min (default at_ (as_recording_started_at s)) at_))) session) d.
Definition delete_unassigned (spool : string) (d : archive) : archive :=
  set_unassigned (delete spool) (unassigned_seq d) d.

Definition AppendArchiveChat (r : ArchiveChatRecord) : Marc bool :=
  lift (Validate r) ;;
  guard_ok (allowsCollection collectionChannel (ar_Platform r) (ar_ChannelID r)) ErrCollectionDisabled ;;
  tx_begin ;;
  position_lock ;;
  matches ← tx_query (fun _ d => if pg_text (ar_ChannelID r) then Ok (matching r d) else Err ErrDriver);
  match matches with
  | [(started, _, _, seq)] =>
      id ← new_uuid;
      tx_exec (fun _ d => insert_session id (ar_Platform r) (ar_ChannelID r) started seq d) ;;
      session ← tx_query (fun _ d => of_option ErrNoRows
        (session_of (ar_Platform r) (ar_ChannelID r) started seq d));
      position ← tx_exec (fun _ d => insert_event session (ar_EventID r) d);
      match position with
      | None =>
          tx_exec (fun _ d => Ok (tt, delete_unassigned (ar_SpoolID r) d)) ;;
          tx_commit ;; mret true
      | Some p =>
          tx_exec (fun _ d => insert_hot p session r d) ;;
          tx_exec (fun _ d => Ok (tt, start_recording session (ar_ReceivedAt r) d)) ;;
          tx_exec (fun _ d => Ok (tt, delete_unassigned (ar_SpoolID r) d)) ;;
          tx_commit ;; mret true
      end
  | _ =>
      tx_exec (insert_unassigned r
        (match matches with [] => "no_open_session" | _ => "ambiguous_session" end)) ;;
      tx_commit ;; mret false
  end.

(** ** Reconciliation *)

Definition by_retry (a b : string * unassigned_row) : Prop :=
  un_next_retry_at a.2 < un_next_retry_at b.2 \/
  (un_next_retry_at a.2 = un_next_retry_at b.2 /\ un_id a.2 <= un_id b.2).
#[export] Instance by_retry_dec a b : Decision (by_retry a b).
Proof. unfold by_retry. apply _. Defined.

Definition due_records (c : string) (limit : Z) (now : Z) (d : archive) : list ArchiveChatRecord :=
  map (fun '(_, u) => un_record u) (take (Z.to_nat limit) (merge_sort by_retry
    (List.filter (fun '(_, u) => String.eqb (ar_Platform (un_record u)) PlatformSoop
        && String.eqb (ar_ChannelID (un_record u)) c && (un_next_retry_at u <=? now))
      (rows (unassigned d))))).

Definition retry_later (spool : string) (now : Z) (d : archive) : archive :=
  set_unassigned (alter (fun u => UnassignedRow (un_id u) (un_record u) (un_reason u) (now + minute)) spool)
    (unassigned_seq d) d.

(** The records assigned, and the error that stopped it. *)
Fixpoint reconcile_records (l : list ArchiveChatRecord) (assigned : Z) : Marc (Z * option error) :=
  match l with
  | [] => mret (assigned, None)
  | r :: l =>
      res ← try (AppendArchiveChat r);
      match res with
      | Err x => mret (assigned, Some x)
      | Ok true => reconcile_records l (assigned + 1)
      | Ok false =>
          res ← try (pool_exec (fun now d => Ok (tt, retry_later (ar_SpoolID r) now d)));
          match res with Err x => mret (assigned, Some x) | Ok _ => reconcile_records l assigned end
      end
  end.

Definition ReconcileUnassignedArchiveChats (limit : Z) : Marc (Z * Z * option error) :=
  match collectionChannel with
  | Some c =>
      guard_ok (negb ((limit <? 1) || (1000 <? limit) || is_empty c))
        (ErrMsg "invalid archive reconciliation limit") ;;
      records ← pool_query (fun now d => Ok (due_records c limit now d));
      res ← reconcile_records records 0;
      mret (Z.of_nat (length records), res.1, res.2)
  | None => fail (ErrMsg "invalid archive reconciliation limit")
  end.

Definition RecordArchiveSpoolFailure (platform chan : string) (at_ : Z) : Marc unit :=
  guard_ok (negb (is_zero_time at_) && allowsCollection collectionChannel platform chan) ErrCollectionDisabled ;;
  pool_exec (fun _ d =>
    let key := (platform, chan, at_ - at_ mod minute, "spool_save_failed"%string) in
    Ok (tt, set_gaps (insert key (match gaps d !! key with Some t => Z.max t at_ | None => at_ end)) d)).

(** ** Export *)

Definition by_position (a b : ChatRow) : Prop := Position a <= Position b.
#[export] Instance by_position_dec a b : Decision (by_position a b).
Proof. unfold by_position. apply _. Defined.
Definition by_first (a b : segment_row) : Prop := se_first a <= se_first b.
#[export] Instance by_first_dec a b : Decision (by_first a b).
Proof. unfold by_first. apply _. Defined.

(** [SELECT ... FROM archive_chat_hot WHERE p ORDER BY position] *)
Definition select_hot (p : ChatRow -> bool) (d : archive) : list ChatRow :=
  merge_sort by_position (List.filter p (map snd (rows (hot d)))).
Definition select_segments (p : segment_row -> bool) (d : archive) : list segment_row :=
  merge_sort by_first (List.filter p (map snd (rows (segments d)))).

Definition covers (session : string) (position : Z) (s : segment_row) : bool :=
  String.eqb (se_session s) session && (se_first s <=? position) && (position <=? se_last s).
Definition of_channel (d : archive) (session : string) : bool :=
  match sessions d !! session with
  | Some s => String.eqb (as_platform s) PlatformSoop && String.eqb (as_channel s) channel
  | None => false
  end.

Definition export_candidate (cutoff : Z) (d : archive) : option ChatRow :=
  head (select_hot (fun r => of_channel d (SessionID r) && (ReceivedAt r <? cutoff)
    && negb (exists_row (fun _ s => covers (SessionID r) (Position r) s) (segments d))) d).

(** [MIN(first_position)] of the segments that start after [p]. *)
Definition next_indexed (session : string) (p : Z) (d : archive) : option Z :=
  se_first <$> head (select_segments (fun s => String.eqb (se_session s) session && (p <? se_first s)) d).

Definition below (o : option Z) (p : Z) : bool := match o with Some n => p <? n | None => true end.

Definition NextBatch (cutoff limit : Z) : Marc (list ChatRow) :=
  guard_ok (negb ((limit <? 1) || (MaxSegmentRows <? limit))) (ErrMsg "invalid export batch limit") ;;
  tx_begin ;;
  position_lock ;;
  first ← tx_query (fun _ d => Ok (export_candidate cutoff d));
  match first with
  | None => tx_commit ;; mret []
  | Some f =>
      next ← tx_query (fun _ d => Ok (next_indexed (SessionID f) (Position f) d));
      rows ← tx_query (fun _ d => Ok (take (Z.to_nat limit) (select_hot (fun r =>
        String.eqb (SessionID r) (SessionID f) && (Position f <=? Position r) && below next (Position r)) d)));
      guard_ok (negb (length rows =? 0)%nat) (ErrMsg "archive candidate vanished") ;;
      tx_commit ;;
      mret rows
  end.

Record VerifiedSegment := MkVerified { vs_segment : Segment; vs_bucket : string }.

Definition overlaps (s : Segment) (x : segment_row) : bool :=
  String.eqb (se_session x) (sg_SessionID s)
  && negb ((se_last x <? FirstPosition s) || (LastPosition s <? se_first x)).
Definition same_segment (v : VerifiedSegment) (x : segment_row) : bool :=
  let s := vs_segment v in
  String.eqb (se_key x) (ObjectKey s) && String.eqb (se_sha256 x) (SHA256 s)
  && String.eqb (se_bucket x) (vs_bucket v) && (se_count x =? sg_Count s)
  && (se_first x =? FirstPosition s) && (se_last x =? LastPosition s).

Definition insert_segment (v : VerifiedSegment) (d : archive) : result (unit * archive) :=
  let s := vs_segment v in
  Ok (tt, set_segments (insert (segment_seq d)
    (SegmentRow (sg_SessionID s) (FirstPosition s) (LastPosition s) (sg_Count s) (vs_bucket v)
       (ObjectKey s) (SHA256 s) (lenZ (Body s)))) (segment_seq d + 1) d).

Definition in_segment (s : Segment) (_ : Z) (r : ChatRow) : bool :=
  String.eqb (SessionID r) (sg_SessionID s) && (FirstPosition s <=? Position r)
  && (Position r <=? LastPosition s).
Definition delete_hot (s : Segment) (d : archive) : result (Z * archive) :=
  Ok (Z.of_nat (count_where (in_segment s) (hot d)), set_hot (delete_where (in_segment s)) d).

Definition CommitSegment (v : VerifiedSegment) : Marc unit :=
  let s := vs_segment v in
  guard_ok (negb (is_empty (vs_bucket v))) (ErrMsg "archive bucket required") ;;
  lift (Decode uuid_ok gunzip s) ;;
  tx_begin ;;
  position_lock ;;
  owned ← tx_query (fun _ d => Ok (of_channel d (sg_SessionID s)));
  guard_ok owned (ErrMsg "archive session outside configured channel") ;;
  existing ← tx_query (fun _ d => Ok (find (overlaps s) (map snd (rows (segments d)))));
  match existing with
  | Some x => if same_segment v x then tx_commit else fail (ErrMsg "overlapping archive segment")
  | None =>
      tx_exec (fun _ d => insert_segment v d) ;;
      n ← tx_exec (fun _ d => delete_hot s d);
      guard_ok (n =? sg_Count s) (ErrMsg "archive hot row count changed") ;;
      tx_commit
  end.

(** ** Objects *)

Definition GetVerified (key checksum : string) : Marc string :=
  guard_ok (validObject key checksum) (ErrMsg "invalid archive object reference") ;;
  body ← pool_query (fun _ d => of_option ErrDriver (objects d !! key));
  guard_ok (negb (is_empty body || (MaxSegmentGzipBytes <? lenZ body))) (ErrMsg "archive object size limit") ;;
  guard_ok (String.eqb (sum_hex body) checksum) (ErrMsg "archive object checksum mismatch") ;;
  mret body.

Definition PutVerified (s : Segment) : Marc VerifiedSegment :=
  guard_ok (validObject (ObjectKey s) (SHA256 s) && negb (is_empty (Body s))
            && (lenZ (Body s) <=? MaxSegmentGzipBytes)) (ErrMsg "invalid archive object") ;;
  guard_ok (String.eqb (sum_hex (Body s)) (SHA256 s)) (ErrMsg "archive object checksum mismatch") ;;
  pool_exec (fun _ d => Ok (tt, set_objects (insert (ObjectKey s) (Body s)) d)) ;;
  readback ← GetVerified (ObjectKey s) (SHA256 s);
  guard_ok (String.eqb readback (Body s)) (ErrMsg "archive object readback differs") ;;
  mret (MkVerified s bucketName).

(** The exporter's loop around [Build]: half the rows while they are too many. *)
Fixpoint build_fitting (fuel : nat) (rows : list ChatRow) : result Segment :=
  match fuel with
  | O => Err (ErrMsg "fuel")
  | S f =>
      match Build uuid_ok gzip rows with
      | Ok s => Ok s
      | Err x => if bool_decide (x = ErrSegmentTooLarge) && (1 <? length rows)%nat
                 then build_fitting f (take (length rows / 2) rows) else Err x
      end
  end.

(** [Exporter.RunOnce], from the batch on. *)
Definition export_rows (rows : list ChatRow) : Marc VerifiedSegment :=
  segment ← lift (build_fitting (S (length rows)) rows);
  PutVerified segment.
Definition RunOnce (minimumAge : Z) : Marc bool :=
  now ← time_now;
  rows ← NextBatch (now - minimumAge) MaxSegmentRows;
  match rows with
  | [] => mret false
  | _ => verified ← export_rows rows; CommitSegment verified ;; mret true
  end.

(** ** Pages *)

Definition ErrSessionNotFound : error := ErrMsg "archive session not found".
Definition maxObjectsPerPage : nat := 4.

Record ChatPage := MkPage { pg_Rows : list ChatRow; pg_NextPosition : option Z; pg_HasMore : bool }.

(** What the read-only transaction of [ReadChatsPage] sees: the segments to
    read, the first position not to be read, the hot rows. *)
Definition snapshot : Type := list segment_row * option Z * list ChatRow.

Definition page_snapshot (session : string) (after : Z) (limit : Z) : Marc snapshot :=
  guard_ok (uuid_ok session && (0 <=? after) && (1 <=? limit) && (limit <=? 200))
    (ErrMsg "invalid archive page request") ;;
  tx_begin ;;
  belongs ← tx_query (fun _ d => Ok (of_channel d session));
  guard_ok belongs ErrSessionNotFound ;;
  segs ← tx_query (fun _ d => Ok (take (maxObjectsPerPage + 1) (select_segments (fun s =>
    String.eqb (se_session s) session && (after <? se_last s)) d)));
  let boundary := se_first <$> segs !! maxObjectsPerPage in
  hot ← tx_query (fun _ d => Ok (take (Z.to_nat limit + 1) (select_hot (fun r =>
    String.eqb (SessionID r) session && (after <? Position r) && below boundary (Position r)) d)));
  tx_commit ;;
  mret (take maxObjectsPerPage segs, boundary, hot).

(** [appendHotBefore]: hot rows before [p], while the page takes more. *)
Fixpoint append_hot (p : option Z) (limit : nat) (acc h : list ChatRow) : list ChatRow * list ChatRow :=
  match h with
  | r :: h' => if below p (Position r) && (length acc <=? limit)%nat
               then append_hot p limit (acc ++ [r]) h' else (acc, h)
  | [] => (acc, [])
  end.

(** The rows of one segment; stops when the page is full. *)
Fixpoint append_decoded (after : Z) (limit : nat) (h acc l : list ChatRow) : result (list ChatRow) :=
  match l with
  | [] => Ok acc
  | r :: l =>
      if after <? Position r then
        if match h with x :: _ => Position x <=? Position r | [] => false end
        then Err (ErrMsg "archive hot row overlaps segment")
        else let acc := acc ++ [r] in
             if (limit <? length acc)%nat then Ok acc else append_decoded after limit h acc l
      else append_decoded after limit h acc l
  end.

(** The rows of an indexed segment: its object, if the bucket, the key and
    the checksum are those of the index. *)
Definition read_segment (session : string) (item : segment_row) : Marc (list ChatRow) :=
  let s := MkSegment EmptyString (se_sha256 item) session (se_first item) (se_last item) (se_count item) in
  guard_ok (String.eqb (se_bucket item) bucketName) (ErrMsg "archive bucket mismatch") ;;
  guard_ok (String.eqb (se_key item) (ObjectKey s)) (ErrMsg "archive segment key mismatch") ;;
  body ← GetVerified (se_key item) (se_sha256 item);
  lift (Decode uuid_ok gunzip
    (MkSegment body (se_sha256 item) session (se_first item) (se_last item) (se_count item))).

Fixpoint append_segments (session : string) (after : Z) (limit : nat) (segs : list segment_row)
    (acc h : list ChatRow) : Marc (list ChatRow * list ChatRow) :=
  match segs with
  | [] => mret (acc, h)
  | item :: segs =>
      let '(acc, h) := append_hot (Some (se_first item)) limit acc h in
      if (limit <? length acc)%nat then mret (acc, h)
      else
        decoded ← read_segment session item;
        acc ← lift (append_decoded after limit h acc decoded);
        if (limit <? length acc)%nat then mret (acc, h)
        else append_segments session after limit segs acc h
  end.

Fixpoint no_repeats (l : list ChatRow) : bool :=
  match l with
  | a :: (b :: _) as l => negb (Position a =? Position b) && no_repeats l
  | _ => true
  end.

Definition page_assemble (session : string) (after : Z) (limit : Z) (s : snapshot) : Marc ChatPage :=
  let '(segs, boundary, hot) := s in
  let n := Z.to_nat limit in
  x ← append_segments session after n segs [] hot;
  let '(acc, h) := x in
  let rows := if (length acc <=? n)%nat then (append_hot None n acc h).1 else acc in
  guard_ok (no_repeats rows) (ErrMsg "archive position appears twice") ;;
  let more := match boundary with Some _ => true | None => false end || (n <? length rows)%nat in
  let rows := take n rows in
  mret (MkPage rows (if more then Position <$> last rows else None) more).

Definition ReadChatsPage (session : string) (after limit : Z) : Marc ChatPage :=
  s ← page_snapshot session after limit; page_assemble session after limit s.

(** ** Sessions *)

Record Session := MkSession {
  ss_SessionID : string; ss_StartedAt : Z; ss_EndedAt : option Z; ss_Title : option string;
  ss_RecordingStartedAt : option Z; ss_SourceGapDetected : bool; ss_KnownArchiveGap : bool;
  ss_Complete : bool
}.

Definition known_gap (k : broadcast_key) (b : broadcast_row) (d : archive) : bool :=
  let '(started, p, c, _) := k in
  exists_row (fun '(gp, gc, gs, _) ended => String.eqb gp p && String.eqb gc c && (started <=? ended)
    && match bs_ended_observed_at b with None => true | Some t => gs <=? t end) (gaps d).

Definition newest_session (a b : Session) : Prop :=
  ss_StartedAt b < ss_StartedAt a \/
  (ss_StartedAt a = ss_StartedAt b /\ String.le (ss_SessionID b) (ss_SessionID a)).
#[export] Instance newest_session_dec a b : Decision (newest_session a b).
Proof. unfold newest_session. apply _. Defined.

(** [(started_at, session_id) < (beforeAt, beforeID)] *)
Definition before_cursor (cursor : option (Z * string)) (started : Z) (id : string) : bool :=
  match cursor with
  | None => true
  | Some (t, i) => (started <? t) || ((started =? t) && String.ltb id i)
  end.

Definition session_list (cursor : option (Z * string)) (d : archive) : list Session :=
  merge_sort newest_session (omap (fun '(id, a) =>
    let k := (as_started_at a, as_platform a, as_channel a, as_seq a) in
    if String.eqb (as_platform a) PlatformSoop && String.eqb (as_channel a) channel
       && before_cursor cursor (as_started_at a) id
    then match broadcasts d !! k with
         | Some b => Some (MkSession id (as_started_at a) (bs_ended_at b) (bs_title b)
                       (as_recording_started_at a) (bs_gap_detected b) (known_gap k b d) false)
         | None => None
         end
    else None) (rows (sessions d))).

Definition ListSessions (beforeAt : option Z) (beforeID : string) (limit : Z) : Marc (list Session) :=
  guard_ok (negb ((limit <? 1) || (101 <? limit))) (ErrMsg "invalid session page limit") ;;
  guard_ok (match beforeAt with Some _ => uuid_ok beforeID | None => is_empty beforeID end)
    (ErrMsg "invalid session cursor") ;;
  pool_query (fun _ d => Ok (take (Z.to_nat limit)
    (session_list ((fun t => (t, beforeID)) <$> beforeAt) d))).
End Archive.
