(* ===== verification/ArchiveInv.v ===== *)
(** The chat archive's invariant: every chat accepted under a session has one
    position, is hot or in exactly one segment, and the segments hold the
    rows they were built from. A run interleaves workers, exporters and
    damage to the object store; its log keeps every row that was ever hot. *)
From S2P Require Import Prelude GoLib Sha256 Json GoText JsonText.
From S2P Require Import JsonRound Tx Model Db Ownership Segment.
From S2P Require Import Archive.

(** ** Rows in order *)

Lemma ascending_weaken p q l : q <= p -> ascending p l -> ascending q l.
Proof. destruct l; simpl; [done|]. intros ? []. split; [lia|done]. Qed.

Lemma ascending_above p l r : ascending p l -> r ∈ l -> p < Position r.
Proof.
  revert p; induction l as [|x l IH]; intros p; [by intros _ ?%elem_of_nil|].
  intros [H1 H2] [->|Hr]%elem_of_cons; [done|]. specialize (IH _ H2 Hr). lia.
Qed.

Lemma ascending_unique p q l1 l2 : ascending p l1 -> ascending q l2 ->
  (forall r, r ∈ l1 <-> r ∈ l2) -> l1 = l2.
Proof.
  revert p q l2; induction l1 as [|x l1 IH]; intros p q l2 H1 H2 E.
  { destruct l2 as [|y l2]; [done|]. exfalso. apply (not_elem_of_nil y), E. set_solver. }
  destruct l2 as [|y l2]; [exfalso; apply (not_elem_of_nil x), E; set_solver|].
  destruct H1 as [Hp H1], H2 as [Hq H2].
  assert (x = y) as ->.
  { assert (x ∈ y :: l2) as [Hx|Hx]%elem_of_cons by (apply E; set_solver); [done|].
    assert (y ∈ x :: l1) as [Hy|Hy]%elem_of_cons by (apply E; set_solver); [done|].
    pose proof (ascending_above _ _ _ H2 Hx). pose proof (ascending_above _ _ _ H1 Hy). lia. }
  f_equal. apply (IH (Position y) (Position y)); [done..|]. intros r. specialize (E r).
  rewrite !elem_of_cons in E. split; intros Hr.
  - destruct (proj1 E (or_intror Hr)) as [->|]; [|done]. pose proof (ascending_above _ _ _ H1 Hr). lia.
  - destruct (proj2 E (or_intror Hr)) as [->|]; [|done]. pose proof (ascending_above _ _ _ H2 Hr). lia.
Qed.

Lemma ascending_app p l1 l2 : ascending p (l1 ++ l2) <->
  ascending p l1 /\ ascending (last_position p l1) l2.
Proof.
  revert p; induction l1 as [|x l1 IH]; intros p; simpl; [tauto|].
  rewrite IH. unfold last_position. simpl. tauto.
Qed.

Lemma last_position_app p l1 l2 : last_position p (l1 ++ l2) = last_position (last_position p l1) l2.
Proof. unfold last_position. apply fold_left_app. Qed.

Lemma last_position_elem p l : l <> [] -> exists r, r ∈ l /\ Position r = last_position p l.
Proof.
  revert p; induction l as [|x l IH]; intros p Hl; [done|]. destruct l as [|y l].
  - exists x. split; [set_solver|done].
  - destruct (IH (Position x)) as (r & Hr & E); [done|]. exists r. split; [set_solver|done].
Qed.

Lemma below_last p l r : ascending p l -> r ∈ l -> Position r <= last_position p l.
Proof.
  revert p; induction l as [|x l IH]; intros p; [by intros _ ?%elem_of_nil|].
  intros [H1 H2] [->|Hr]%elem_of_cons.
  - exact (last_ascending _ _ H2).
  - exact (IH _ H2 Hr).
Qed.

#[export] Instance by_position_total : Total by_position.
Proof. intros a b. unfold by_position. lia. Qed.
#[export] Instance by_position_trans : Transitive by_position.
Proof. intros a b c. unfold by_position. lia. Qed.

(** Sorting rows of distinct positions. *)
Lemma sorted_ascending p l : StronglySorted by_position l ->
  (forall a b, a ∈ l -> b ∈ l -> Position a = Position b -> a = b) -> NoDup l ->
  (forall r, r ∈ l -> p < Position r) -> ascending p l.
Proof.
  intros Hs. revert p; induction Hs as [|x l Hs IH Hx]; intros p Hi Hn Hp; simpl; [done|].
  apply NoDup_cons in Hn as [Hxl Hn]. rewrite Forall_forall in Hx.
  split; [apply Hp; set_solver|]. apply IH; [set_solver|done|].
  intros r Hr. specialize (Hx _ Hr). unfold by_position in Hx.
  assert (Position x <> Position r); [|lia].
  intros E. apply Hxl. rewrite (Hi x r); set_solver.
Qed.

(** ** The rows of a range *)

Notation table := (gmap Z ChatRow).

(** Exactly the logged rows of a session at the positions [a] to [b]. *)
Definition rows_in (L : table) (session : string) (a b : Z) (l : list ChatRow) : Prop :=
  ascending (a - 1) l /\
  forall r, r ∈ l <-> L !! Position r = Some r /\ SessionID r = session /\ a <= Position r <= b.

Lemma rows_in_unique L session a b l1 l2 : rows_in L session a b l1 -> rows_in L session a b l2 -> l1 = l2.
Proof.
  intros [H1 E1] [H2 E2]. eapply ascending_unique; [exact H1|exact H2|].
  intros r. by rewrite E1, E2.
Qed.

(** [L'] is [L] with rows at positions from [n] on. *)
Definition grows_from (n : Z) (L L' : table) : Prop :=
  L ⊆ L' /\ forall p r, L' !! p = Some r -> L !! p = Some r \/ n <= p.

Lemma rows_in_grows n L L' session a b l : grows_from n L L' -> b < n ->
  rows_in L session a b l -> rows_in L' session a b l.
Proof.
  intros [Hs Hn] Hb [Ha E]. split; [done|]. intros r. rewrite E. split.
  - intros (H1 & H2 & H3). split; [by eapply lookup_weaken|done].
  - intros (H1 & H2 & H3). destruct (Hn _ _ H1) as [H|H]; [done|lia].
Qed.

(** A prefix of a range is the range up to its last row. *)
Lemma rows_in_prefix L session a b l n : rows_in L session a b l -> take n l <> [] ->
  rows_in L session a (last_position 0 (take n l)) (take n l).
Proof.
  intros [Ha E] Hne. rewrite <- (take_drop n l) in Ha. apply ascending_app in Ha as [H1 H2].
  assert (last_position (a - 1) (take n l) = last_position 0 (take n l)) as El
    by (destruct (take n l); [done|reflexivity]).
  split; [done|]. intros r. split.
  - intros Hr. assert (r ∈ l) as Hrl by (rewrite <- (take_drop n l); set_solver).
    apply E in Hrl as (? & ? & ?). repeat split; try done; [lia|].
    rewrite <- El. by apply below_last.
  - intros (HL & Hs & Hp1 & Hp2).
    destruct (last_position_elem (a - 1) (take n l) Hne) as (z & Hz & Ez).
    assert (z ∈ l) as Hzl by (rewrite <- (take_drop n l); set_solver).
    apply E in Hzl as (_ & _ & Hzb).
    assert (r ∈ l) as Hrl by (apply E; split; [done|split; [done|lia]]).
    rewrite <- (take_drop n l) in Hrl. apply elem_of_app in Hrl as [?|Hd]; [done|].
    pose proof (ascending_above _ _ _ H2 Hd). lia.
Qed.

(** ** Runs *)

(** What [uuid.NewString] returns. *)
Definition canonical (s : string) : bool :=
  (String.length s =? 36)%nat && all_chars (fun c => lower_hex c || Ascii.eqb c "-") s.

(** Bytes under a key that does not name their checksum. *)
Definition damaged (key body : string) : Prop :=
  forall session a b, key <> object_key session a b (sum_hex body).

(** Go's [int16]. *)
Definition record_typed (r : ArchiveChatRecord) : bool :=
  (-32768 <=? ar_UserIDVersion r) && (ar_UserIDVersion r <=? 32767).

(** ** Texts and keys *)

Lemma ascii_valid s : all_chars (fun c => Sha256.byte_of c <? 128) s = true -> valid_utf8 s = true.
Proof.
  unfold valid_utf8. intros H. induction s as [|c s IH]; [done|].
  cbn [all_chars] in H. apply andb_true_iff in H as [Hc H].
  change (Sha256.bytes_of (String c s)) with (Sha256.byte_of c :: Sha256.bytes_of s).
  cbn [length valid_bytes rune_len]. rewrite Hc. exact (IH H).
Qed.

Lemma all_chars_weaken p q s : (forall c, p c = true -> q c = true) -> all_chars p s = true ->
  all_chars q s = true.
Proof.
  intros Hpq. induction s as [|c s IH]; [done|]. cbn. rewrite !andb_true_iff. naive_solver.
Qed.

Lemma canonical_valid s : canonical s = true -> valid_utf8 s = true.
Proof.
  intros [_ H]%andb_true_iff. apply ascii_valid. eapply all_chars_weaken; [|exact H].
  intros c. destruct c as [[][][][][][][][]]; vm_compute; done.
Qed.

Lemma canonical_length s : canonical s = true -> String.length s = 36%nat.
Proof. intros [H _]%andb_true_iff. by apply Nat.eqb_eq. Qed.

Lemma split_same_length a b x y : String.length a = String.length b -> a +:+ x = b +:+ y -> a = b /\ x = y.
Proof.
  revert b; induction a as [|c a IH]; intros [|c' b] Hl E; try done. cbn in *.
  injection E as -> E. injection Hl as Hl. by destruct (IH _ Hl E) as [-> ->].
Qed.

Lemma cancel_right a b x : a +:+ x = b +:+ x -> a = b.
Proof.
  intros E. apply (split_same_length a b x x); [|done].
  apply (f_equal String.length) in E. rewrite !app_length_str in E. lia.
Qed.

(** Digits end at the first dash. *)
Lemma split_dash a b x y : all_digits a = true -> all_digits b = true ->
  a +:+ "-" +:+ x = b +:+ "-" +:+ y -> a = b /\ x = y.
Proof.
  unfold all_digits. revert b; induction a as [|c a IH]; intros [|c' b] Ha Hb E; cbn in *.
  - by injection E.
  - injection E as <- _. done.
  - injection E as -> _. done.
  - apply andb_true_iff in Ha as [_ Ha], Hb as [_ Hb]. injection E as -> E.
    by destruct (IH _ Ha Hb E) as [-> ->].
Qed.

Definition int64_pos (n : Z) : Prop := 0 <= n <= 9223372036854775807.

Lemma format_digits n : 0 <= n -> all_digits (format_int n) = true.
Proof.
  intros H. unfold format_int. destruct (n <? 0) eqn:E; b2p; [lia|]. by apply format_uint_digits.
Qed.
Lemma format_int_inj n m : int64_pos n -> int64_pos m -> format_int n = format_int m -> n = m.
Proof.
  unfold int64_pos. intros Hn Hm E. apply (f_equal parse_int) in E.
  rewrite !parse_format_int in E by lia. by injection E.
Qed.

(** A key names its session, range and checksum. *)
Lemma object_key_inj s a b x s' a' b' x' : canonical s = true -> canonical s' = true ->
  int64_pos a -> int64_pos b -> int64_pos a' -> int64_pos b' ->
  object_key s a b x = object_key s' a' b' x' -> s = s' /\ a = a' /\ b = b' /\ x = x'.
Proof.
  unfold object_key. intros Hs Hs' Ha Hb Ha' Hb' E.
  apply split_same_length in E as [_ E]; [|done].
  apply split_same_length in E as [-> E]; [|by rewrite !canonical_length].
  apply split_same_length in E as [_ E]; [|done].
  unfold int64_pos in *. apply split_dash in E as [E1 E]; [|apply format_digits; lia..].
  apply split_dash in E as [E2 E]; [|apply format_digits; lia..].
  apply cancel_right in E. by apply format_int_inj in E1, E2.
Qed.

Lemma below_true o p : below o p = true <-> forall n, o = Some n -> p < n.
Proof. destruct o as [n|]; cbn; rewrite ?Z.ltb_lt; naive_solver. Qed.

Lemma covers_range s p x : covers s p x = true <-> se_session x = s /\ se_first x <= p <= se_last x.
Proof.
  unfold covers. rewrite !andb_true_iff, !Z.leb_le, String.eqb_eq. tauto.
Qed.

Lemma union_below (L h : table) : h ⊆ L -> L ∪ h = L.
Proof.
  intros H. apply map_eq. intros p. rewrite lookup_union. destruct (h !! p) as [r|] eqn:E.
  - by rewrite (lookup_weaken _ _ _ _ E H).
  - by destruct (L !! p).
Qed.

Section Run.
Context (uuid_ok : string -> bool) (gzip : string -> string) (gunzip : string -> option (string * bool)).
Context (collectionChannel : option string) (channel bucketName : string).

Inductive action :=
| AAppend (r : ArchiveChatRecord)
| AReconcile (limit : Z)
| AGap (platform chan : string) (at_ : Z)
| ABroadcasts (b : gmap broadcast_key broadcast_row)
| ABatch (cutoff limit : Z)
| APut (rows : list ChatRow)
| ACommit (v : VerifiedSegment)
| AExport (minimumAge : Z)
| ADamage (key : string) (body : option string).

(** The tables and objects, every row that was ever hot, the batches taken
    and the segments uploaded by exporters. *)
Record sys := Sys {
  arch : archive;
  log : table;
  taken : list (list ChatRow);
  uploaded : list VerifiedSegment
}.
Definition initial : sys := Sys empty_archive ∅ [] [].

Definition start (d : archive) (n : nat) : world archive := World d d n.
Definition move (x : sys) (d : archive) : sys := Sys d (log x ∪ hot d) (taken x) (uploaded x).

Definition act (a : action) (e : env) (n : nat) (x : sys) : sys :=
  let w := start (arch x) n in
  match a with
  | AAppend r => move x (db (AppendArchiveChat uuid_ok collectionChannel r e w).2)
  | AReconcile limit => move x (db (ReconcileUnassignedArchiveChats uuid_ok collectionChannel limit e w).2)
  | AGap p c t => move x (db (RecordArchiveSpoolFailure collectionChannel p c t e w).2)
  | ABroadcasts b => move x (set_broadcasts (fun _ => b) (arch x))
  | ABatch cutoff limit =>
      match NextBatch channel cutoff limit e w with
      | (Ok rows, w) => let x := move x (db w) in Sys (arch x) (log x) (rows :: taken x) (uploaded x)
      | (Err _, w) => move x (db w)
      end
  | APut rows =>
      match export_rows uuid_ok gzip bucketName rows e w with
      | (Ok v, w) => let x := move x (db w) in Sys (arch x) (log x) (taken x) (v :: uploaded x)
      | (Err _, w) => move x (db w)
      end
  | ACommit v => move x (db (CommitSegment uuid_ok gunzip channel v e w).2)
  | AExport age => move x (db (RunOnce uuid_ok gzip gunzip channel bucketName age e w).2)
  | ADamage key None => move x (set_objects (delete key) (arch x))
  | ADamage key (Some body) => move x (set_objects (insert key body) (arch x))
  end.

(** What the actions come with: chats of Go's types, batches and segments
    that an exporter holds, damage the checksum shows. *)
Definition allowed (a : action) (x : sys) : Prop :=
  match a with
  | AAppend r => record_typed r = true
  | APut rows => rows ∈ taken x
  | ACommit v => v ∈ uploaded x
  | ADamage key (Some body) => damaged key body
  | _ => True
  end.

Definition good_env (e : env) : Prop := forall n, canonical (fresh e n) = true.

Inductive runs (x : sys) : sys -> Prop :=
| runs_none : runs x x
| runs_act a e n y : runs x y -> good_env e -> allowed a y -> runs x (act a e n y).
Definition reach : sys -> Prop := runs initial.

(** ** The invariant *)

(** A block of the log: what is at the positions [a] to [b] of a session. *)
Definition block (d : archive) (L : table) (session : string) (b : Z) (l : list ChatRow) : Prop :=
  canonical session = true /\ b < position_seq d /\
  exists f, head l = Some f /\ rows_in L session (Position f) b l.

(** A segment made of a block. *)
Definition made (d : archive) (L : table) (s : Segment) : Prop :=
  exists l, block d L (sg_SessionID s) (LastPosition s) l /\ Build uuid_ok gzip l = Ok s.

Definition indexed (d : archive) (L : table) (x : segment_row) : Prop :=
  exists s, made d L s /\
  x = SegmentRow (sg_SessionID s) (FirstPosition s) (LastPosition s) (sg_Count s) bucketName
        (ObjectKey s) (SHA256 s) (lenZ (Body s)).

Record sound (d : archive) (L : table) : Prop := {
  sound_seq : 0 < position_seq d;
  sound_row : forall p r, L !! p = Some r ->
    Position r = p /\ 0 < p < position_seq d /\ row_ok r = true /\ canonical (SessionID r) = true;
  sound_event : forall s x p, event_ids d !! (s, x) = Some p <->
    exists r, L !! p = Some r /\ SessionID r = s /\ EventID r = x;
  sound_hot : hot d ⊆ L;
  sound_place : forall p r, L !! p = Some r ->
    hot d !! p = Some r \/ exists i s, segments d !! i = Some s /\ covers (SessionID r) p s = true;
  sound_apart : forall p r i s, hot d !! p = Some r -> segments d !! i = Some s ->
    covers (SessionID r) p s = false;
  sound_disjoint : forall i j s t, segments d !! i = Some s -> segments d !! j = Some t ->
    se_session s = se_session t -> i = j \/ se_last s < se_first t \/ se_last t < se_first s;
  sound_segment : forall i s, segments d !! i = Some s -> i < segment_seq d /\ indexed d L s;
  sound_sessions : forall id a, sessions d !! id = Some a -> canonical id = true;
  sound_unassigned : forall k u, unassigned d !! k = Some u -> record_typed (un_record u) = true;
  sound_objects : forall k body, objects d !! k = Some body ->
    damaged k body \/ exists s, made d L s /\ k = ObjectKey s /\ body = Body s
}.

Record inv (x : sys) : Prop := {
  inv_sound : sound (arch x) (log x);
  inv_taken : forall l, l ∈ taken x -> l = [] \/
    exists session, block (arch x) (log x) session (last_position 0 l) l;
  inv_uploaded : forall v, v ∈ uploaded x -> vs_bucket v = bucketName /\ made (arch x) (log x) (vs_segment v)
}.

(** ** Growth *)

(** The log of [d'] continues that of [d]. *)
Definition extends (d : archive) (L : table) (d' : archive) (L' : table) : Prop :=
  position_seq d <= position_seq d' /\ grows_from (position_seq d) L L'.

Lemma block_extends d L d' L' session b l : extends d L d' L' -> block d L session b l ->
  block d' L' session b l.
Proof.
  intros [Hp Hg] (Hc & Hb & f & Hf & Hr). split; [done|]. split; [lia|]. exists f. split; [done|].
  by eapply rows_in_grows.
Qed.
Lemma made_extends d L d' L' s : extends d L d' L' -> made d L s -> made d' L' s.
Proof. intros H (l & Hb & HB). exists l. split; [by eapply block_extends|done]. Qed.
Lemma indexed_extends d L d' L' x : extends d L d' L' -> indexed d L x -> indexed d' L' x.
Proof. intros H (s & Hs & E). exists s. split; [by eapply made_extends|done]. Qed.

Lemma extends_same d L d' : position_seq d <= position_seq d' -> extends d L d' L.
Proof. intros H. split; [done|]. split; [done|]. intros p r ->. by left. Qed.

Lemma extends_trans d L d1 L1 d2 L2 : extends d L d1 L1 -> extends d1 L1 d2 L2 -> extends d L d2 L2.
Proof.
  intros [Hp [Hs Hg]] [Hp' [Hs' Hg']]. split; [lia|]. split; [by etrans|].
  intros p r H. destruct (Hg' _ _ H) as [H'|H']; [|right; lia]. destruct (Hg _ _ H') as [?|?]; auto.
Qed.

(** Steps that leave chats, events and segments alone. *)
Lemma sound_frame d L d' : sound d L ->
  event_ids d' = event_ids d -> hot d' = hot d -> segments d' = segments d ->
  segment_seq d' = segment_seq d -> position_seq d <= position_seq d' ->
  (forall id a, sessions d' !! id = Some a -> canonical id = true) ->
  (forall k u, unassigned d' !! k = Some u -> record_typed (un_record u) = true) ->
  (forall k body, objects d' !! k = Some body -> damaged k body \/
     exists s, made d' L s /\ k = ObjectKey s /\ body = Body s) ->
  sound d' L.
Proof.
  intros [] He Hh Hs Hq Hp HS HU HO. constructor; rewrite ?He, ?Hh, ?Hs, ?Hq; try done.
  - lia.
  - intros p r H. destruct (sound_row0 _ _ H) as (? & ? & ?). split; [done|]. split; [lia|done].
  - intros i s H. destruct (sound_segment0 _ _ H) as [? ?]. split; [done|].
    eapply indexed_extends; [by apply extends_same|done].
Qed.

(** The objects kept by a step that adds none. *)
Lemma objects_kept d L d' L' : sound d L -> objects d' = objects d -> extends d L d' L' ->
  forall k body, objects d' !! k = Some body -> damaged k body \/
    exists s, made d' L' s /\ k = ObjectKey s /\ body = Body s.
Proof.
  intros Hs -> He k body H. destruct (sound_objects _ _ Hs _ _ H) as [?|(s & Hm & E)]; [by left|].
  right. exists s. split; [by eapply made_extends|done].
Qed.

(** A new chat at the next position. *)
Definition with_chat (r : ChatRow) (d : archive) : archive :=
  set_hot (insert (Position r) r)
    (set_event_ids (insert (SessionID r, EventID r) (Position r)) (position_seq d + 1) d).

Lemma fresh_position d L : sound d L -> L !! position_seq d = None.
Proof.
  intros H. destruct (L !! position_seq d) eqn:E; [|done].
  destruct (sound_row _ _ H _ _ E) as (? & ? & ?). lia.
Qed.

Lemma extends_chat d L r : sound d L -> Position r = position_seq d ->
  extends d L (with_chat r d) (<[Position r := r]> L).
Proof.
  intros H E. split; [simpl; lia|]. split.
  - apply insert_subseteq. rewrite E. by apply fresh_position.
  - intros p r' Hl. apply lookup_insert_Some in Hl as [[<- _]|[_ Hl]]; [right; lia|by left].
Qed.

Lemma indexed_below d L x : indexed d L x -> se_last x < position_seq d.
Proof. intros (s & (l & (_ & Hb & _) & _) & ->). done. Qed.

Lemma sound_chat d L r : sound d L -> Position r = position_seq d ->
  row_ok r = true -> canonical (SessionID r) = true -> event_ids d !! (SessionID r, EventID r) = None ->
  sound (with_chat r d) (<[Position r := r]> L).
Proof.
  intros H E Hr Hc Hn. pose proof (extends_chat _ _ r H E) as Hx.
  pose proof (fresh_position _ _ H) as Hf. destruct H. constructor; cbn.
  - lia.
  - intros p x Hl. apply lookup_insert_Some in Hl as [[<- <-]|[_ Hl]].
    + split; [done|]. split; [lia|done].
    + destruct (sound_row0 _ _ Hl) as (? & ? & ?). split; [done|]. split; [lia|done].
  - intros s x p. rewrite lookup_insert_Some, sound_event0. split.
    + intros [[[= <- <-] <-]|[Hne (y & Hy & Es & Ee)]].
      * exists r. by rewrite lookup_insert_eq.
      * exists y. rewrite lookup_insert_ne; [done|]. intros <-. congruence.
    + intros (y & Hy & <- & <-). apply lookup_insert_Some in Hy as [[<- <-]|[Hp Hy]]; [by left|].
      right. split; [|by exists y]. intros [= E1 E2].
      assert (event_ids d !! (SessionID r, EventID r) = Some p) as Hs; [|congruence].
      apply sound_event0. by exists y.
  - by apply insert_mono.
  - intros p x Hl. apply lookup_insert_Some in Hl as [[<- <-]|[Hp Hl]].
    + left. apply lookup_insert_eq.
    + destruct (sound_place0 _ _ Hl) as [?|?]; [left; by rewrite lookup_insert_ne|by right].
  - intros p x i s Hl Hs. apply lookup_insert_Some in Hl as [[<- <-]|[_ Hl]]; [|by eauto].
    apply not_true_iff_false. rewrite covers_range. intros (_ & _ & ?).
    pose proof (indexed_below _ _ _ (proj2 (sound_segment0 _ _ Hs))). lia.
  - done.
  - intros i s Hs. destruct (sound_segment0 _ _ Hs). split; [done|]. by eapply indexed_extends.
  - done.
  - done.
  - intros k body Hk. destruct (sound_objects0 _ _ Hk) as [?|(s & Hm & E')]; [by left|].
    right. exists s. split; [by eapply made_extends|done].
Qed.

(** ** The worker's transactions *)

(** One step of the tables: the log follows, nothing hot is lost. *)
Definition continues (d : archive) (L : table) (d' : archive) : Prop :=
  sound d' (L ∪ hot d') /\ extends d L d' (L ∪ hot d').

Lemma union_log L d : sound d L -> L ∪ hot d = L.
Proof. intros H. by apply union_below, sound_hot. Qed.

Lemma continues_same d L : sound d L -> continues d L d.
Proof. intros H. unfold continues. rewrite union_log by done. split; [done|by apply extends_same]. Qed.

Lemma continues_frame d L d' : sound d L -> hot d' ⊆ hot d -> position_seq d <= position_seq d' ->
  sound d' L -> continues d L d'.
Proof.
  intros H Hh Hp H'. unfold continues.
  replace (L ∪ hot d') with L; [split; [done|by apply extends_same]|].
  symmetry. apply union_below. etrans; [done|by apply sound_hot].
Qed.

Lemma continues_chat d L r : sound d L -> Position r = position_seq d ->
  row_ok r = true -> canonical (SessionID r) = true -> event_ids d !! (SessionID r, EventID r) = None ->
  continues d L (with_chat r d).
Proof.
  intros H E Hr Hc Hn. unfold continues, with_chat. cbn [hot set_hot].
  rewrite <- insert_union_r by (rewrite E; by apply fresh_position). cbn [hot set_event_ids].
  rewrite union_log by done. split; [by apply sound_chat|by apply extends_chat].
Qed.

Lemma continues_trans d L d1 d2 : hot d1 ⊆ hot d2 -> sound d L ->
  continues d L d1 -> continues d1 (L ∪ hot d1) d2 -> continues d L d2.
Proof.
  intros Hh H [H1 E1] [H2 E2]. unfold continues in *.
  rewrite <- map_union_assoc, (map_subseteq_union (hot d1) (hot d2)) in H2, E2 by done.
  split; [done|by eapply extends_trans].
Qed.

Lemma record_valid r : forallb pg_text (record_texts r) = true ->
  Forall (fun s => valid_utf8 s = true) (record_texts r).
Proof.
  intros H. apply Forall_forall. intros s Hs.
  apply list_elem_of_In in Hs. rewrite forallb_forall in H. specialize (H _ Hs).
  unfold pg_text in H. by b2p.
Qed.

(** Steps that touch only sessions, positions and chats without a session. *)
Record tidy (d d' : archive) : Prop := {
  tidy_events : event_ids d' = event_ids d;
  tidy_hot : hot d' = hot d;
  tidy_segments : segments d' = segments d;
  tidy_segment_seq : segment_seq d' = segment_seq d;
  tidy_objects : objects d' = objects d;
  tidy_seq : position_seq d <= position_seq d';
  tidy_sessions : forall id a, sessions d' !! id = Some a ->
    canonical id = true \/ is_Some (sessions d !! id);
  tidy_unassigned : forall k u, unassigned d' !! k = Some u ->
    record_typed (un_record u) = true \/
    exists k u', unassigned d !! k = Some u' /\ un_record u' = un_record u
}.

Lemma tidy_sound d L d' : sound d L -> tidy d d' -> sound d' L.
Proof.
  intros H [Te Th Ts Tq To Tp TS TU]. apply (sound_frame d); try done.
  - intros id a Hl. destruct (TS _ _ Hl) as [?|[x Hx]]; [done|]. by eapply sound_sessions.
  - intros k u Hl. destruct (TU _ _ Hl) as [?|(k' & u' & Hx & <-)]; [done|]. by eapply sound_unassigned.
  - eapply objects_kept; [done|done|by apply extends_same].
Qed.
Lemma tidy_continues d L d' : sound d L -> tidy d d' -> continues d L d'.
Proof.
  intros H T. apply continues_frame; [done|by rewrite (tidy_hot _ _ T)|by apply tidy_seq|by eapply tidy_sound].
Qed.

Lemma tidy_session id p c t seq d d' : canonical id = true ->
  insert_session id p c t seq d = Ok (tt, d') -> tidy d d'.
Proof.
  unfold insert_session. intros Hc H. destruct (session_of _ _ _ _ _); [|destruct (sessions d !! id)]; simplify_eq/=.
  all: constructor; cbn; try done; eauto.
  intros i a [[<- _]|[_ Hl]]%lookup_insert_Some; eauto.
Qed.

Lemma tidy_unassign r reason now d d' : record_typed r = true ->
  insert_unassigned r reason now d = Ok (tt, d') -> tidy d d'.
Proof.
  unfold insert_unassigned. intros Hr H. destruct (_ || _); [done|]. injection H as <-.
  destruct (unassigned d !! _); constructor; cbn; try done; eauto.
  intros k u [[_ <-]|[_ Hl]]%lookup_insert_Some; eauto.
Qed.

Lemma tidy_delete spool d : tidy d (delete_unassigned spool d).
Proof. constructor; cbn; try done; eauto. intros k u [_ H]%lookup_delete_Some. eauto. Qed.

Lemma tidy_recording s t d : tidy d (start_recording s t d).
Proof.
  constructor; cbn; try done; eauto. intros i a H. right. revert H.
  destruct (decide (i = s)) as [->|]; [|by rewrite lookup_alter_ne]. rewrite lookup_alter_eq.
  by destruct (sessions d !! s).
Qed.

Lemma tidy_draw d : tidy d (set_event_ids id (position_seq d + 1) d).
Proof. constructor; cbn; try done; eauto. lia. Qed.

Lemma tidy_retry spool now d : tidy d (retry_later spool now d).
Proof.
  constructor; cbn; try done; eauto. intros k u H. right. revert H.
  destruct (decide (k = spool)) as [->|]; [|rewrite lookup_alter_ne by done; eauto].
  rewrite lookup_alter_eq. destruct (unassigned d !! spool) as [u'|] eqn:E; [|done].
  intros [= <-]. by exists spool, u'.
Qed.

Lemma tidy_trans d1 d2 d3 : tidy d1 d2 -> tidy d2 d3 -> tidy d1 d3.
Proof.
  intros [] []. constructor; try congruence; [lia| |].
  - intros id a H. destruct (tidy_sessions1 _ _ H) as [?|[x Hx]]; [by left|]. eauto.
  - intros k u H. destruct (tidy_unassigned1 _ _ H) as [?|(k' & u' & Hx & E)]; [by left|].
    rewrite <- E. eauto.
Qed.

Lemma session_of_In p c t seq d id : session_of p c t seq d = Some id -> is_Some (sessions d !! id).
Proof.
  unfold session_of. destruct (find _ _) as [[i a]|] eqn:E; [|done]. intros [= <-].
  apply find_some in E as [E _]. apply list_elem_of_In, elem_of_map_to_list in E. by exists a.
Qed.

Lemma hot_row_ok d L id r p : sound d L -> is_Some (sessions d !! id) -> record_typed r = true ->
  forallb pg_text (record_texts r) = true -> p = position_seq d -> p <= 9223372036854775807 ->
  row_ok (hot_row p id r) = true.
Proof.
  intros H [a Ha] Ht Hv -> Hp. apply record_valid in Hv. unfold record_texts in Hv.
  repeat (apply Forall_cons in Hv as [? Hv]). unfold row_ok, record_typed, hot_row in *.
  cbn [forallb SessionID EventID PublicUserID DisplayName Message Position UserIDVersion].
  pose proof (sound_seq _ _ H). pose proof (canonical_valid _ (sound_sessions _ _ H _ _ Ha)).
  b2p. repeat (apply andb_true_iff; split); try done; apply Z.leb_le; lia.
Qed.

Lemma atomic_archive_append r : atomic (AppendArchiveChat uuid_ok collectionChannel r).
Proof. unfold AppendArchiveChat, position_lock. frame_solve. Qed.

Lemma append_ok_continues r e w b w' L : good_env e -> record_typed r = true -> sound (db w) L ->
  AppendArchiveChat uuid_ok collectionChannel r e w = (Ok b, w') ->
  continues (db w) L (db w') /\ hot (db w) ⊆ hot (db w').
Proof.
  intros He Ht H E.
  assert (forall d, tidy (db w) d -> continues (db w) L d /\ hot (db w) ⊆ hot d) as Hdone.
  { intros d T. split; [by apply tidy_continues|by rewrite (tidy_hot _ _ T)]. }
  unfold AppendArchiveChat, position_lock in E. inv_run E.
  match type of E with match ?l with _ => _ end _ _ = _ => destruct l as [|[[[st p] c] seq] [|]] end; inv_run E.
  1,3: destruct a2; apply Hdone; by eapply tidy_unassign.
  match goal with H : insert_session _ _ _ _ _ _ = Ok (?u, ?x) |- _ =>
    destruct u; apply (tidy_session _ _ _ _ _ _ _ (He _)) in H; rename x into d1, H into T1 end.
  match goal with H : of_option _ _ = Ok ?x |- _ =>
    destruct (session_of _ _ _ _ d1) as [id|] eqn:Es; [|done]; injection H as <- end.
  match goal with H : insert_event _ _ _ = Ok (?o, _) |- _ =>
    unfold insert_event in H; destruct (negb _ || _) eqn:Ep; [done|];
    destruct (event_ids d1 !! _) as [q|] eqn:Ev; injection H as <- <- end; inv_run E.
  - apply Hdone. eapply tidy_trans; [exact T1|]. eapply tidy_trans; [apply tidy_draw|apply tidy_delete].
  - match goal with H : insert_hot _ _ _ _ = Ok (_, ?x) |- _ =>
      unfold insert_hot in H; destruct (negb (forallb _ _)) eqn:Et; [done|]; injection H as <- <- end.
    apply orb_false_iff in Ep as [_ Ep]. apply negb_false_iff in Et. apply Z.ltb_ge in Ep.
    assert (sound d1 L) as H1' by (by eapply tidy_sound).
    assert (continues d1 L (with_chat (hot_row (position_seq d1) id r) d1)) as Hc.
    { apply continues_chat; cbn; try done.
      - eapply hot_row_ok; try done. by eapply session_of_In.
      - destruct (session_of_In _ _ _ _ _ _ Es) as [x Hx]. by eapply sound_sessions. }
    assert (hot d1 ⊆ hot (with_chat (hot_row (position_seq d1) id r) d1)) as Hh.
    { apply insert_subseteq. cbn. destruct (hot d1 !! position_seq d1) eqn:Ex; [|done].
      pose proof (fresh_position _ _ H1') as Hf. eapply lookup_weaken in Ex; [|by apply sound_hot]. congruence. }
    rewrite <- (tidy_hot _ _ T1). split; [|exact Hh].
    eapply continues_trans; [|exact H|by apply tidy_continues|]; [exact Hh|].
    rewrite (tidy_hot _ _ T1), (union_log _ _ H). eapply continues_trans; [|exact H1'|exact Hc|]; [done|].
    apply tidy_continues; [exact (proj1 Hc)|]. eapply tidy_trans; [apply tidy_recording|apply tidy_delete].
Qed.

Lemma append_continues r e w res w' L : good_env e -> record_typed r = true -> sound (db w) L ->
  AppendArchiveChat uuid_ok collectionChannel r e w = (res, w') ->
  continues (db w) L (db w') /\ hot (db w) ⊆ hot (db w').
Proof.
  intros He Ht H E.
  apply atomic_after in E as [->|(e' & b & s1 & _ & _ & Ef & E & -> & _)]; [| |apply atomic_archive_append].
  - split; [by apply continues_same|done].
  - eapply append_ok_continues; [|done|done|exact E]. unfold good_env. by rewrite Ef.
Qed.

(** The tables of [s] continue those of [d]. *)
Definition since (d : archive) (L : table) (s : world archive) : Prop :=
  continues d L (db s) /\ hot d ⊆ hot (db s).

Lemma since_step d L s s' : sound d L -> since d L s ->
  continues (db s) (L ∪ hot (db s)) (db s') /\ hot (db s) ⊆ hot (db s') -> since d L s'.
Proof.
  intros H [Hc Hh] [Hc' Hh']. split; [by eapply continues_trans|by etrans].
Qed.

Lemma since_same d L s s' : db s' = db s -> since d L s -> since d L s'.
Proof. unfold since. by intros ->. Qed.

Lemma since_tidy d L s s' : sound d L -> since d L s -> tidy (db s) (db s') -> since d L s'.
Proof.
  intros H Hs T. eapply since_step; [done..|]. split; [|by rewrite (tidy_hot _ _ T)].
  apply tidy_continues; [exact (proj1 (proj1 Hs))|done].
Qed.

Lemma since_append d L e s r : good_env e -> sound d L -> record_typed r = true -> since d L s ->
  since d L (AppendArchiveChat uuid_ok collectionChannel r e s).2.
Proof.
  intros He H Ht Hs. destruct (AppendArchiveChat _ _ _ _ _) as [x s'] eqn:E.
  eapply since_step; [done..|]. eapply append_continues; [done|done|exact (proj1 (proj1 Hs))|exact E].
Qed.

Lemma reconcile_since d L e l : good_env e -> sound d L -> Forall (fun r => record_typed r = true) l ->
  forall n s, since d L s -> since d L (reconcile_records uuid_ok collectionChannel l n e s).2.
Proof.
  intros He H. induction 1 as [|r l Hr Hl IH]; intros n s Hs; [done|]. cbn [reconcile_records].
  unfold mbind at 1, M_bind at 1, try at 1. pose proof (since_append d L e s r He H Hr Hs) as Ha.
  destruct (AppendArchiveChat _ _ _ _ _) as [[[|]|x] s1]; cbn [snd] in *; [by apply IH| |done].
  unfold mbind at 1, M_bind at 1, try at 1.
  destruct (pool_exec _ e s1) as [r2 s2] eqn:E2. apply pool_exec_after in E2 as [_ H2].
  assert (since d L s2) as Ha2.
  { destruct H2 as [[E2 _]|(u & d' & [= _ <-] & E2 & _)].
    - eapply since_same; [exact E2|exact Ha].
    - eapply since_tidy; [done|exact Ha|]. rewrite E2. apply tidy_retry. }
  destruct r2; cbn; [by apply IH|done].
Qed.

Lemma due_typed d L c limit now : sound d L ->
  Forall (fun r => record_typed r = true) (due_records c limit now d).
Proof.
  intros H. unfold due_records. apply Forall_forall. intros r Hr.
  apply list_elem_of_fmap in Hr as ([k u] & -> & Hr). apply elem_of_take in Hr as (j & Hr & _).
  apply list_elem_of_lookup_2 in Hr. rewrite merge_sort_Permutation in Hr.
  apply list_elem_of_In, filter_In in Hr as [Hr _].
  apply list_elem_of_In, elem_of_map_to_list in Hr. by eapply sound_unassigned.
Qed.

Lemma reconcile_continues limit e w L : good_env e -> sound (db w) L ->
  continues (db w) L (db (ReconcileUnassignedArchiveChats uuid_ok collectionChannel limit e w).2).
Proof.
  intros He H. unfold ReconcileUnassignedArchiveChats. destruct collectionChannel as [c|] eqn:Ec;
    [|by apply continues_same]. rewrite <- Ec. clear Ec.
  unfold mbind at 1, M_bind at 1, guard_ok. destruct (negb _); [|by apply continues_same].
  unfold mret at 1, M_ret at 1, mbind at 1, M_bind at 1, pool_query.
  destruct (driver_fails e (tick w)); [by apply continues_same|]. cbn [fst snd].
  unfold mbind at 1, M_bind at 1.
  pose proof (reconcile_since (db w) L e _ He H (due_typed _ _ c limit (clock e (tick w)) H) 0 (bump w)) as Hr.
  destruct (reconcile_records _ _ _ _ _ _) as [[?|] s']; apply Hr;
    (split; [by apply continues_same|done]).
Qed.

Lemma tidy_gap f d : tidy d (set_gaps f d).
Proof. constructor; cbn; try done; eauto. Qed.

Lemma gap_continues p c t e w L : sound (db w) L ->
  continues (db w) L (db (RecordArchiveSpoolFailure collectionChannel p c t e w).2).
Proof.
  intros H. unfold RecordArchiveSpoolFailure, mbind, M_bind, guard_ok, pool_exec.
  destruct (negb _ && _); [|by apply continues_same]. cbn.
  assert (forall f, continues (db w) L (set_gaps f (db w))) as Hg
    by (intros; apply tidy_continues; [done|apply tidy_gap]).
  repeat case_match; cbn; first [apply Hg|by apply continues_same].
Qed.

(** ** The exporter's transactions *)

Lemma hot_keyed d L p r : sound d L -> hot d !! p = Some r -> Position r = p /\ 0 < p.
Proof.
  intros H Hl. eapply lookup_weaken in Hl; [|by apply sound_hot].
  destruct (sound_row _ _ H _ _ Hl) as (? & [? _] & _). done.
Qed.

Lemma elem_of_select_hot d L p r : sound d L ->
  r ∈ select_hot p d <-> hot d !! Position r = Some r /\ p r = true.
Proof.
  intros H. unfold select_hot. rewrite merge_sort_Permutation, list_elem_of_In, filter_In, <- list_elem_of_In.
  split; (intros [Hr Hp]; split; [|done]).
  - apply list_elem_of_fmap in Hr as ([q r'] & -> & Hr). apply elem_of_map_to_list in Hr.
    cbn. by destruct (hot_keyed _ _ _ _ H Hr) as [-> _].
  - apply list_elem_of_fmap. exists (Position r, r). split; [done|]. by apply elem_of_map_to_list.
Qed.

Lemma select_hot_ascending d L p q : sound d L -> (forall r, p r = true -> q < Position r) ->
  ascending q (select_hot p d).
Proof.
  intros H Hq. apply sorted_ascending.
  - apply StronglySorted_merge_sort; apply _.
  - intros a b Ha Hb E. apply (elem_of_select_hot _ _ _ _ H) in Ha as [Ha _], Hb as [Hb _].
    rewrite E in Ha. congruence.
  - unfold select_hot. rewrite merge_sort_Permutation. apply NoDup_ListNoDup, List.NoDup_filter, NoDup_ListNoDup.
    apply NoDup_fmap_2_strong; [|apply NoDup_map_to_list].
    intros [p1 r1] [p2 r2] H1 H2 E. apply elem_of_map_to_list in H1, H2. cbn in E. subst r2.
    destruct (hot_keyed _ _ _ _ H H1), (hot_keyed _ _ _ _ H H2). congruence.
  - intros r Hr. apply (elem_of_select_hot _ _ _ _ H) in Hr as [_ Hr]. by apply Hq.
Qed.

(** The segments of a query, by their first position. *)
Lemma elem_of_select_segments d p x : x ∈ select_segments p d <->
  (exists i, segments d !! i = Some x) /\ p x = true.
Proof.
  unfold select_segments. rewrite merge_sort_Permutation, list_elem_of_In, filter_In, <- list_elem_of_In.
  split; intros [Hx Hp]; (split; [|done]).
  - apply list_elem_of_fmap in Hx as ([i x'] & -> & Hx). apply elem_of_map_to_list in Hx. by exists i.
  - destruct Hx as [i Hx]. apply list_elem_of_fmap. exists (i, x). split; [done|]. by apply elem_of_map_to_list.
Qed.

Lemma by_first_sorted p d : StronglySorted by_first (select_segments p d).
Proof.
  apply StronglySorted_merge_sort.
  - intros x y z. unfold by_first. lia.
  - intros x y. unfold by_first. lia.
Qed.

Lemma next_indexed_spec s p d x i : segments d !! i = Some x -> se_session x = s -> p < se_first x ->
  exists n, next_indexed s p d = Some n /\ n <= se_first x.
Proof.
  intros Hx Es Hp. unfold next_indexed.
  set (q := fun y : segment_row => (_ && _)%bool).
  assert (x ∈ select_segments q d) as Hin.
  { apply elem_of_select_segments. split; [by exists i|]. unfold q. rewrite Es, String.eqb_refl.
    by apply Z.ltb_lt. }
  pose proof (by_first_sorted q d) as Hs. destruct (select_segments q d) as [|y l]; [by apply not_elem_of_nil in Hin|].
  exists (se_first y). split; [done|]. inversion Hs as [|? ? _ Hy]; subst.
  apply elem_of_cons in Hin as [->|Hin]; [lia|]. rewrite Forall_forall in Hy. exact (Hy _ Hin).
Qed.

(** A log row that no segment covers is hot. *)
Lemma uncovered_hot d L r : sound d L -> L !! Position r = Some r ->
  (forall i x, segments d !! i = Some x -> se_session x = SessionID r ->
     ~ se_first x <= Position r <= se_last x) -> hot d !! Position r = Some r.
Proof.
  intros H Hl Hn. destruct (sound_place _ _ H _ _ Hl) as [?|(i & x & Hx & Hc)]; [done|].
  apply covers_range in Hc as [Hs Hc]. exfalso. by eapply Hn.
Qed.

(** The hot rows from an uncovered one up to the next segment are a range of the log. *)
Lemma hot_run d L f : sound d L -> hot d !! Position f = Some f ->
  let next := next_indexed (SessionID f) (Position f) d in
  let l := select_hot (fun r => String.eqb (SessionID r) (SessionID f) && (Position f <=? Position r)
             && below next (Position r)) d in
  forall b, (forall n, next = Some n -> b < n) -> (forall r, r ∈ l -> Position r <= b) ->
  rows_in L (SessionID f) (Position f) b l.
Proof.
  intros H Hf next l b Hb Hl. split.
  - eapply select_hot_ascending; [done|]. intros r Hr. b2p. lia.
  - intros r. split.
    + intros Hr. pose proof (Hl _ Hr). apply (elem_of_select_hot _ _ _ _ H) in Hr as [Hr Hp]. b2p.
      split; [by eapply lookup_weaken; [|apply sound_hot]|]. split; [done|lia].
    + intros (Hr & Es & Hp). apply (elem_of_select_hot _ _ _ _ H). split.
      * eapply uncovered_hot; [done..|]. intros i x Hx Ex Hr'. rewrite Es in Ex.
        pose proof (sound_apart _ _ H _ _ _ _ Hf Hx) as Hn.
        apply not_true_iff_false in Hn. apply Hn, covers_range. split; [done|]. split; [|lia].
        destruct (Z.le_gt_cases (se_first x) (Position f)) as [|Hlt]; [done|].
        destruct (next_indexed_spec _ _ _ _ _ Hx Ex Hlt) as (n & En & Hn'). specialize (Hb _ En). lia.
      * rewrite Es, String.eqb_refl. cbn. apply andb_true_iff. split; [apply Z.leb_le; lia|].
        apply below_true. intros n En. specialize (Hb _ En). lia.
Qed.

Lemma block_prefix d L session b l n : sound d L -> block d L session b l -> take n l <> [] ->
  block d L session (last_position 0 (take n l)) (take n l).
Proof.
  intros H (Hc & Hb & f & Hf & Hr) Hne. split; [done|].
  assert (exists x, x ∈ take n l /\ Position x = last_position 0 (take n l)) as (x & Hx & Ex)
    by by apply last_position_elem.
  assert (x ∈ l) as Hxl by (rewrite <- (take_drop n l); set_solver).
  apply Hr in Hxl as (Hxl & _). destruct (sound_row _ _ H _ _ Hxl) as (_ & Hlt & _).
  split; [lia|]. exists f. split; [|by eapply rows_in_prefix].
  destruct l as [|y l], n as [|n]; try done.
Qed.

Lemma candidate_hot d L cutoff f : sound d L -> export_candidate channel cutoff d = Some f ->
  hot d !! Position f = Some f.
Proof.
  intros H Hf. unfold export_candidate in Hf. apply head_Some_elem_of in Hf.
  by apply (elem_of_select_hot _ _ _ _ H) in Hf as [Hf _].
Qed.

Lemma NextBatch_block cutoff limit e w L rows w' : sound (db w) L ->
  NextBatch channel cutoff limit e w = (Ok rows, w') ->
  db w' = db w /\ (rows = [] \/ exists session, block (db w) L session (last_position 0 rows) rows).
Proof.
  destruct w as [d wk0 k0]. intros H E. unfold NextBatch, position_lock in E. inv_run E.
  match goal with E : match export_candidate ?a ?b ?d with _ => _ end _ _ = _ |- _ =>
    destruct (export_candidate a b d) as [f|] eqn:Ef; inv_run E end; [|by auto].
  split; [done|]. right. exists (SessionID f).
  pose proof (candidate_hot _ _ _ _ H Ef) as Hf.
  match goal with |- context [take _ (select_hot ?p _)] => set (l := select_hot p (d)) in * end.
  match goal with H : negb _ = true |- _ => apply negb_true_iff, Nat.eqb_neq in H; rename H into Hn end.
  assert (take (Z.to_nat limit) l <> []) as Hne by (intros En; rewrite En in Hn; done).
  assert (l <> []) as Hl by (intros En; rewrite En, take_nil in Hne; done).
  assert (ascending (Position f - 1) l) as Ha
    by (eapply select_hot_ascending; [done|]; intros r Hr; b2p; lia).
  destruct (last_position_elem (Position f - 1) l Hl) as (x & Hx & Ex).
  assert (last_position (Position f - 1) l = last_position 0 l) as El by (destruct l; done).
  assert (block d L (SessionID f) (last_position 0 l) l) as Hb.
  { eapply lookup_weaken in Hf as Hlf; [|by apply sound_hot].
    destruct (sound_row _ _ H _ _ Hlf) as (_ & _ & _ & Hc). split; [done|].
    pose proof Hx as Hxh. apply (elem_of_select_hot _ _ _ _ H) in Hxh as [Hxh Hp].
    eapply lookup_weaken in Hxh; [|by apply sound_hot].
    destruct (sound_row _ _ H _ _ Hxh) as (_ & Hlt & _). split; [lia|].
    assert (rows_in L (SessionID f) (Position f) (last_position 0 l) l) as Hr.
    { apply hot_run; [done..| |].
      - intros n En. b2p. rewrite <- El, <- Ex. revert n En. by apply below_true.
      - intros r Hr. rewrite <- El. by apply below_last. }
    assert (f ∈ l) as Hfl.
    { apply Hr. split; [done|]. split; [done|]. split; [lia|]. pose proof (ascending_above _ _ _ Ha Hx). lia. }
    destruct l as [|y l']; [done|]. exists y. split; [done|].
    assert (Position y = Position f) as ->; [|done].
    destruct Ha as [Hy Ha]. apply elem_of_cons in Hfl as [->|Hfl]; [done|].
    pose proof (ascending_above _ _ _ Ha Hfl). lia. }
  by eapply block_prefix.
Qed.

Lemma build_fitting_prefix f rows s : build_fitting uuid_ok gzip f rows = Ok s ->
  exists n, Build uuid_ok gzip (take n rows) = Ok s.
Proof.
  revert rows; induction f as [|f IH]; intros rows H; [done|]. cbn [build_fitting] in H.
  destruct (Build uuid_ok gzip rows) as [s'|x] eqn:E.
  - injection H as ->. exists (length rows). by rewrite firstn_all.
  - destruct (_ && _); [|done]. apply IH in H as [n H]. rewrite take_take in H. eauto.
Qed.

Lemma made_fitting d L session rows s : sound d L -> block d L session (last_position 0 rows) rows ->
  build_fitting uuid_ok gzip (S (length rows)) rows = Ok s -> made d L s.
Proof.
  intros H Hb HB. apply build_fitting_prefix in HB as [n HB]. exists (take n rows). split; [|done].
  destruct (Build_ok _ _ _ _ HB) as (f & rest & E & _ & -> & _ & _ & _ & Hf & _ & _).
  cbn [sg_SessionID LastPosition]. rewrite E. cbn [head].
  pose proof (block_prefix _ _ _ _ _ n H Hb) as Hp. rewrite E in Hp. specialize (Hp ltac:(done)).
  assert (SessionID f = session) as ->; [|done].
  destruct Hp as (_ & _ & g & _ & Hr). apply Hr. set_solver.
Qed.

(** Storing the object of a made segment. *)
Definition stored (s : Segment) (d : archive) : archive := set_objects (insert (ObjectKey s) (Body s)) d.

Lemma sound_objects_change d L f : sound d L ->
  (forall k body, f (objects d) !! k = Some body -> objects d !! k = Some body \/ damaged k body \/
     exists s, made d L s /\ k = ObjectKey s /\ body = Body s) ->
  sound (set_objects f d) L.
Proof.
  intros H Hf. apply (sound_frame d); cbn; try done;
    [by eapply sound_sessions|by eapply sound_unassigned|].
  intros k body Hk. destruct (Hf _ _ Hk) as [Ho|[?|(s & Hs & E)]]; [|by left|].
  - destruct (sound_objects _ _ H _ _ Ho) as [?|(s & Hs & E)]; [by left|right; exists s].
    split; [by eapply made_extends; [apply extends_same|]|done].
  - right. exists s. split; [by eapply made_extends; [apply extends_same|]|done].
Qed.

Lemma continues_objects d L f : sound d L ->
  (forall k body, f (objects d) !! k = Some body -> objects d !! k = Some body \/ damaged k body \/
     exists s, made d L s /\ k = ObjectKey s /\ body = Body s) ->
  continues d L (set_objects f d).
Proof. intros H Hf. apply continues_frame; cbn; [done|done|lia|]. by apply sound_objects_change. Qed.

Lemma continues_stored d L s : sound d L -> made d L s -> continues d L (stored s d).
Proof.
  intros H Hs. apply continues_objects; [done|]. intros k body.
  rewrite lookup_insert_Some. intros [[<- <-]|[_ Hl]]; [|by left]. right. right. by exists s.
Qed.

(** What an upload leaves: the tables unchanged, perhaps one more object. *)
Lemma export_run rows e w res w' : export_rows uuid_ok gzip bucketName rows e w = (res, w') ->
  db w' = db w \/ exists s, build_fitting uuid_ok gzip (S (length rows)) rows = Ok s /\ db w' = stored s (db w).
Proof.
  unfold export_rows, PutVerified. unfold mbind at 1, M_bind at 1, lift at 1.
  destruct (build_fitting _ _ _ _) as [s|x]; [|intros [= _ <-]; by left]. cbn.
  unfold mbind at 1, M_bind at 1, guard_ok at 1. destruct (_ && _); [|intros [= _ <-]; by left]. cbn.
  unfold mbind at 1, M_bind at 1, guard_ok at 1. destruct (String.eqb _ _); [|intros [= _ <-]; by left]. cbn.
  unfold mbind at 1, M_bind at 1. destruct (pool_exec _ e w) as [r1 w1] eqn:E1.
  apply pool_exec_after in E1 as [_ [[Ed [x ->]]|(u & d' & [= <- <-] & Ed & Hr1)]].
  { intros [= _ <-]. by left. }
  intros E. right. exists s. split; [done|]. unfold stored. rewrite <- Ed. revert E.
  destruct Hr1 as [->|[-> _]]; [|by intros [= _ <-]]. cbn.
  match goal with |- ?m e ?v = _ -> _ =>
    assert (quiet m) as Hq by (unfold GetVerified; frame_solve); intros E end.
  by rewrite (quiet_run _ _ _ _ _ Hq E).
Qed.

Lemma export_result rows e w v w' : export_rows uuid_ok gzip bucketName rows e w = (Ok v, w') ->
  exists s, build_fitting uuid_ok gzip (S (length rows)) rows = Ok s /\ v = MkVerified s bucketName.
Proof.
  intros E. unfold export_rows, PutVerified, GetVerified in E. inv_run E. eauto.
Qed.

Lemma export_continues rows session e w res w' L : sound (db w) L ->
  block (db w) L session (last_position 0 rows) rows ->
  export_rows uuid_ok gzip bucketName rows e w = (res, w') ->
  continues (db w) L (db w') /\ hot (db w) ⊆ hot (db w') /\
  forall v, res = Ok v -> vs_bucket v = bucketName /\ made (db w') (L ∪ hot (db w')) (vs_segment v).
Proof.
  intros H Hb E. assert (continues (db w) L (db w') /\ hot (db w') = hot (db w) /\ position_seq (db w') = position_seq (db w)) as (Hc & Hh & Hp).
  { destruct (export_run _ _ _ _ _ E) as [->|(s & HB & ->)]; [by split; [apply continues_same|]|].
    split; [|done]. apply continues_stored; [done|]. by eapply made_fitting. }
  split; [done|]. split; [by rewrite Hh|]. intros v ->.
  destruct (export_result _ _ _ _ _ E) as (s & HB & ->). split; [done|].
  rewrite Hh, (union_log _ _ H). eapply made_extends; [apply extends_same|by eapply made_fitting]. lia.
Qed.

(** The tables after a commit that adds [s] to the index. *)
Definition segment_row_of (s : Segment) : segment_row :=
  SegmentRow (sg_SessionID s) (FirstPosition s) (LastPosition s) (sg_Count s) bucketName
    (ObjectKey s) (SHA256 s) (lenZ (Body s)).
Definition committed (s : Segment) (d : archive) : archive :=
  set_hot (delete_where (in_segment s))
    (set_segments (insert (segment_seq d) (segment_row_of s)) (segment_seq d + 1) d).

Lemma overlaps_false s x : overlaps s x = false ->
  se_session x <> sg_SessionID s \/ se_last x < FirstPosition s \/ LastPosition s < se_first x.
Proof.
  unfold overlaps. rewrite andb_false_iff, negb_false_iff, orb_true_iff, !Z.ltb_lt, String.eqb_neq. tauto.
Qed.

Lemma in_segment_covers s p r : Position r = p -> in_segment s p r = covers (SessionID r) p (segment_row_of s).
Proof. intros <-. unfold in_segment, covers. cbn. by rewrite (String.eqb_sym (SessionID r)). Qed.

Lemma sound_committed d L s : sound d L -> made d L s ->
  (forall i x, segments d !! i = Some x -> overlaps s x = false) -> sound (committed s d) L.
Proof.
  intros H Hm Ho. pose proof H as []. 
  assert (forall i x, <[segment_seq d := segment_row_of s]> (segments d) !! i = Some x ->
    (i = segment_seq d /\ x = segment_row_of s) \/ segments d !! i = Some x) as Hs.
  { intros i x [[<- <-]|[_ ?]]%lookup_insert_Some; auto. }
  constructor; cbn; try done.
  - etrans; [|done]. apply map_subseteq_spec. intros p r [Hp _]%lookup_delete_where_Some. done.
  - intros p r Hl. destruct (sound_row0 _ _ Hl) as [Ep _].
    destruct (sound_place0 _ _ Hl) as [Hh|(i & x & Hx & Hc)].
    + rewrite lookup_delete_where, Hh. cbn. destruct (in_segment s p r) eqn:E; [|by left]. right.
      exists (segment_seq d), (segment_row_of s). rewrite lookup_insert_eq. split; [done|].
      by rewrite <- in_segment_covers.
    + right. exists i, x. split; [|done]. rewrite lookup_insert_ne; [done|]. intros <-.
      destruct (sound_segment0 _ _ Hx). lia.
  - intros p r i x [Hp Hi]%lookup_delete_where_Some [[-> ->]|Hx]%Hs; [|by eauto].
    rewrite <- in_segment_covers; [done|]. by destruct (hot_keyed _ _ _ _ H Hp).
  - intros i j x y [[-> ->]|Hx]%Hs [[-> ->]|Hy]%Hs Es; [by left| | |by eauto]; right; cbn in *.
    + destruct (overlaps_false _ _ (Ho _ _ Hy)) as [?|?]; [congruence|lia].
    + destruct (overlaps_false _ _ (Ho _ _ Hx)) as [?|?]; [congruence|lia].
  - intros i x [[-> ->]|Hx]%Hs.
    + split; [lia|]. exists s. split; [|done]. by eapply made_extends; [apply extends_same|].
    + destruct (sound_segment0 _ _ Hx). split; [lia|].
      by eapply indexed_extends; [apply extends_same|].
Qed.

(** A commit that succeeds finds the segment in the index or adds it. *)
Lemma commit_run_ok v e w w' : vs_bucket v = bucketName ->
  CommitSegment uuid_ok gunzip channel v e w = (Ok tt, w') ->
  db w' = db w \/ (db w' = committed (vs_segment v) (db w) /\
    forall i x, segments (db w) !! i = Some x -> overlaps (vs_segment v) x = false).
Proof.
  destruct w as [d wk0 k0]. intros Hb E. unfold CommitSegment, position_lock in E. inv_run E.
  match type of E with match ?l with _ => _ end _ _ = _ => destruct l as [x|] eqn:Ef end.
  - destruct (same_segment v x); inv_run E. by left.
  - inv_run E. right. split.
    + unfold insert_segment, delete_hot, committed, segment_row_of in *. rewrite Hb in *. by simplify_eq/=.
    + intros i y Hy. apply (find_none _ _ Ef). apply list_elem_of_In, list_elem_of_fmap.
      exists (i, y). split; [done|]. by apply elem_of_map_to_list.
Qed.

Lemma atomic_segment_commit v : atomic (CommitSegment uuid_ok gunzip channel v).
Proof. unfold CommitSegment, position_lock. frame_solve. Qed.

Lemma commit_continues v e w L : sound (db w) L -> vs_bucket v = bucketName ->
  made (db w) L (vs_segment v) ->
  continues (db w) L (db (CommitSegment uuid_ok gunzip channel v e w).2).
Proof.
  intros H Hb Hm. destruct (CommitSegment _ _ _ _ _ _) as [res w'] eqn:E; cbn.
  apply atomic_after in E as [->|(e' & [] & s1 & _ & _ & _ & E & -> & _)];
    [by apply continues_same| |apply atomic_segment_commit].
  destruct (commit_run_ok _ _ _ _ Hb E) as [->|[-> Ho]]; [by apply continues_same|].
  apply continues_frame; [done| |cbn; lia|by apply sound_committed].
  apply map_subseteq_spec. intros p r [Hp _]%lookup_delete_where_Some. done.
Qed.

Lemma NextBatch_quiet cutoff limit e w : db (NextBatch channel cutoff limit e w).2 = db w.
Proof.
  destruct (NextBatch channel cutoff limit e w) as [res w'] eqn:E; cbn.
  apply atomic_after in E as [->|(e' & rows & s1 & _ & _ & _ & E & -> & _)];
    [done| |unfold NextBatch, position_lock; frame_solve].
  unfold NextBatch, position_lock in E. destruct w as [d wk0 k0]. inv_run E.
  match type of E with match ?l with _ => _ end _ _ = _ => destruct l end; inv_run E; done.
Qed.

Lemma run_once_continues age e w L : sound (db w) L ->
  continues (db w) L (db (RunOnce uuid_ok gzip gunzip channel bucketName age e w).2).
Proof.
  intros H. unfold RunOnce. unfold mbind at 1, M_bind at 1, time_now at 1.
  cbn beta zeta. change (db w) with (db (bump w)) in H |- *.
  generalize dependent (bump w). generalize (wall e (tick w) - age). clear w. intros cutoff w1 H.
  unfold mbind at 1, M_bind at 1.
  pose proof (NextBatch_quiet cutoff MaxSegmentRows e w1) as Hq.
  destruct (NextBatch channel cutoff MaxSegmentRows e w1) as [[rows|x] w2] eqn:E; cbn [snd] in *;
    [|rewrite Hq; by apply continues_same].
  destruct (NextBatch_block _ _ _ _ _ _ _ H E) as [_ [->|[session Hb]]]; [cbn; rewrite Hq; by apply continues_same|].
  destruct rows as [|f rest] eqn:Er; [cbn; rewrite Hq; by apply continues_same|]. rewrite <- Er in *. clear Er f rest.
  rewrite <- Hq in H, Hb |- *. unfold mbind at 1, M_bind at 1.
  destruct (export_rows uuid_ok gzip bucketName rows e w2) as [[v|x] w3] eqn:Ee;
    destruct (export_continues _ _ _ _ _ _ _ H Hb Ee) as (Hc & Hh & Hv); [|done].
  destruct (Hv _ eq_refl) as [Hb' Hm]. destruct Hc as [Hs Hx].
  assert (L ∪ hot (db w3) = L) as EL.
  { apply union_below. destruct (export_run _ _ _ _ _ Ee) as [->|(s & _ & ->)]; exact (sound_hot _ _ H). }
  rewrite EL in Hs, Hx, Hm. pose proof (commit_continues v e w3 L Hs Hb' Hm) as Hcc.
  unfold mbind at 1, M_bind at 1. 
  assert (continues (db w2) L (db (CommitSegment uuid_ok gunzip channel v e w3).2)) as Hd.
  { destruct Hcc as [H1 H2]. split; [done|]. by eapply extends_trans. }
  by destruct (CommitSegment _ _ _ _ _ _) as [[?|?] w4].
Qed.

(** ** Every reachable state *)

(** A state that satisfies the invariant and continues an earlier one. *)
Definition later (x y : sys) : Prop := inv y /\ extends (arch x) (log x) (arch y) (log y).

Lemma later_move x d : inv x -> continues (arch x) (log x) d -> later x (move x d).
Proof.
  intros [Hs Ht Hu] [H He]. split; [|exact He]. constructor; cbn; [done| |].
  - intros l Hl. destruct (Ht _ Hl) as [?|[s Hb]]; [by left|]. right. exists s. by eapply block_extends.
  - intros v Hv. destruct (Hu _ Hv). split; [done|]. by eapply made_extends.
Qed.

Lemma sound_initial : sound empty_archive ∅.
Proof.
  constructor; cbn; try (by intros *; rewrite ?lookup_empty).
  intros s x p. rewrite lookup_empty. split; [done|]. intros (r & Hr & _). by rewrite lookup_empty in Hr.
Qed.

Lemma act_later a e n x : good_env e -> allowed a x -> inv x -> later x (act a e n x).
Proof.
  intros He Ha Hx. pose proof Hx as [H Ht Hu]. destruct a; cbn [act].
  - destruct (AppendArchiveChat _ _ _ _ _) as [res w'] eqn:E. apply later_move; [done|].
    exact (proj1 (append_continues r e (start (arch x) n) _ _ _ He Ha H E)).
  - apply later_move; [done|]. by apply (reconcile_continues limit e (start (arch x) n)).
  - apply later_move; [done|]. by apply (gap_continues platform chan at_ e (start (arch x) n)).
  - apply later_move; [done|]. apply tidy_continues; [done|]. constructor; cbn; try done; eauto.
  - pose proof (NextBatch_quiet cutoff limit e (start (arch x) n)) as Hq.
    destruct (NextBatch _ _ _ _ _) as [[rows|y] w'] eqn:E; cbn in Hq; rewrite Hq;
      (assert (later x (move x (arch x))) as Hm by (apply later_move; [done|by apply continues_same])); [|done].
    destruct Hm as [[H1 H2 H3] Hx']. split; [|exact Hx']. constructor; [done| |done].
    intros l [->|Hl]%elem_of_cons; [|by apply H2].
    destruct (NextBatch_block _ _ _ (start (arch x) n) _ _ _ H E) as [_ [?|[s Hb]]]; [by left|]. right. exists s.
    eapply block_extends; [|exact Hb]. exact (proj2 (continues_same _ _ H)).
  - destruct (export_rows _ _ _ _ _ _) as [res w'] eqn:E. destruct (Ht _ Ha) as [->|[s Hb]].
    + destruct (export_run _ _ (start (arch x) n) _ _ E) as [Hd|(s & HB & _)]; [|done].
      destruct res as [v|y]; [by destruct (export_result _ _ _ _ _ E) as (s & HB & _)|].
      rewrite Hd. apply later_move; [done|by apply continues_same].
    + destruct (export_continues _ _ _ (start (arch x) n) _ _ _ H Hb E) as (Hc & _ & Hv).
      pose proof (later_move _ _ Hx Hc) as Hm. destruct res as [v|y]; [|done].
      destruct Hm as [[H1 H2 H3] Hx']. split; [|exact Hx']. constructor; [done|done|].
      intros v' [->|Hl]%elem_of_cons; [|by apply H3]. destruct (Hv _ eq_refl) as [? Hmd]. split; [done|].
exact Hmd.
  - apply later_move; [done|]. destruct (Hu _ Ha). by apply (commit_continues v e (start (arch x) n)).
  - apply later_move; [done|]. by apply (run_once_continues minimumAge e (start (arch x) n)).
  - destruct body as [body|]; apply later_move; try done; apply continues_objects; try done.
    + intros k b [[<- <-]|[_ Hl]]%lookup_insert_Some; [by right; left|by left].
    + intros k b [_ Hl]%lookup_delete_Some. by left.
Qed.

Lemma inv_initial : inv initial.
Proof.
  constructor; cbn; [exact sound_initial| |]; by intros ? ?%elem_of_nil.
Qed.

Lemma runs_later x y : inv x -> runs x y -> later x y.
Proof.
  intros Hx. induction 1 as [|a e n y Hr [IH He] Hg Ha]; [split; [done|by apply extends_same]|].
  destruct (act_later a e n y Hg Ha IH) as [H1 H2]. split; [done|]. by eapply extends_trans.
Qed.

Lemma reach_inv x : reach x -> inv x.
Proof. intros H. exact (proj1 (runs_later _ _ inv_initial H)). Qed.

Lemma runs_trans x y z : runs x y -> runs y z -> runs x z.
Proof. intros Hx. induction 1; [done|]. by apply runs_act. Qed.
End Run.
