(* ===== verification/ArchivePage.v ===== *)
(** A page of the chat archive: what [ReadChatsPage] assembles from its
    snapshot and the objects is the next part of the log. *)
From S2P Require Import Prelude GoLib Sha256 Json GoText JsonText.
From S2P Require Import JsonRound Tx Model Db Ownership Segment.
From S2P Require Import Archive ArchiveInv.

(** ** Lists *)

Lemma ascending_bound p q l : ascending p l -> (forall r, r ∈ l -> q < Position r) -> ascending q l.
Proof. destruct l as [|r l]; [done|]. intros [_ H] Hq. split; [apply Hq; set_solver|done]. Qed.

Lemma elem_of_where f (l : list ChatRow) r : r ∈ List.filter f l <-> r ∈ l /\ f r = true.
Proof. by rewrite list_elem_of_In, filter_In, <- list_elem_of_In. Qed.

Lemma where_nothing f (l : list ChatRow) : (forall r, r ∈ l -> f r = false) -> List.filter f l = [].
Proof.
  intros H. destruct (List.filter f l) as [|r m] eqn:E; [done|].
  assert (r ∈ List.filter f l) as Hr by (rewrite E; set_solver).
  apply elem_of_where in Hr as [Hr Hf]. rewrite H in Hf; done.
Qed.

Lemma ascending_where f p l : ascending p l -> ascending p (List.filter f l).
Proof.
  revert p; induction l as [|r l IH]; intros p H; [done|]. destruct H as [Hp H]. cbn [List.filter].
  specialize (IH _ H). destruct (f r); [done|]. eapply ascending_weaken; [|exact IH]. lia.
Qed.

Lemma last_position_bound p b l : p <= b -> (forall r, r ∈ l -> Position r <= b) -> last_position p l <= b.
Proof.
  revert p; induction l as [|r l IH]; intros p Hp Hl; [done|]. apply (IH (Position r)); set_solver.
Qed.

(** ** The rows of a page before the limit *)

(** Segments with their rows, and hot rows, both in order. *)
Fixpoint interleave (after : Z) (items : list (segment_row * list ChatRow)) (h : list ChatRow) : list ChatRow :=
  match items with
  | [] => h
  | (x, l) :: items =>
      List.filter (fun r => Position r <? se_first x) h
      ++ List.filter (fun r => after <? Position r) l
      ++ interleave after items (List.filter (fun r => se_first x <=? Position r) h)
  end.

Lemma elem_of_interleave after items h r : r ∈ interleave after items h <->
  r ∈ h \/ exists x l, (x, l) ∈ items /\ r ∈ l /\ after < Position r.
Proof.
  revert h; induction items as [|[x l] items IH]; intros h; cbn [interleave].
  - split; [by left|]. intros [?|(x & l & H & _)]; [done|]. by apply not_elem_of_nil in H.
  - rewrite !elem_of_app, IH, !elem_of_where, Z.ltb_lt, Z.ltb_lt, Z.leb_le. split.
    + intros [[? _]|[[? ?]|[[? _]|(y & m & ? & ?)]]]; [by left| |by left|]; right.
      * exists x, l. set_solver.
      * exists y, m. set_solver.
    + intros [Hr|(y & m & Hin & Hr & Ha)].
      * destruct (Z.lt_ge_cases (Position r) (se_first x)); [by left|right; right; left; split; [done|lia]].
      * apply elem_of_cons in Hin as [[= -> ->]|Hin]; [by right; left|]. right. right. right. by exists y, m.
Qed.

(** Segments in order, each with its rows, none of them hot. *)
Fixpoint in_order (p : Z) (items : list (segment_row * list ChatRow)) : Prop :=
  match items with
  | [] => True
  | (x, l) :: items => p < se_first x /\ se_first x <= se_last x /\ ascending (se_first x - 1) l /\
      (forall r, r ∈ l -> Position r <= se_last x) /\ in_order (se_last x) items
  end.
Definition outside (items : list (segment_row * list ChatRow)) (h : list ChatRow) : Prop :=
  forall x l r, (x, l) ∈ items -> r ∈ h -> ~ se_first x <= Position r <= se_last x.

Lemma outside_where x l items f h : outside ((x, l) :: items) h -> outside items (List.filter f h).
Proof. intros Ho y m r Hy Hr. apply elem_of_where in Hr as [Hr _]. apply (Ho y m); set_solver. Qed.

(** [p] bounds the hot rows, [q] the segments from below. *)
Lemma interleave_ascending after items : forall p q h, in_order q items -> outside items h ->
  (forall x l, (x, l) ∈ items -> after < se_last x) ->
  ascending p h -> p <= after \/ p <= q -> ascending p (interleave after items h).
Proof.
  induction items as [|[x l] items IH]; intros p q h Hi Ho Ha Hp Hpq; [done|].
  destruct Hi as (Hq & Hx & Hl & Hlast & Hi). cbn [interleave].
  assert (after < se_last x) as Hax by (apply (Ha x l); set_solver).
  apply ascending_app. split; [by apply ascending_where|]. apply ascending_app. split.
  - eapply ascending_bound; [by apply ascending_where|]. intros r Hr. apply elem_of_where in Hr as [Hr Hra].
    pose proof (ascending_above _ _ _ Hl Hr). b2p.
    enough (last_position p (List.filter (fun r => Position r <? se_first x) h) <= Position r - 1) by lia.
    apply last_position_bound; [lia|]. intros y Hy. apply elem_of_where in Hy as [_ Hy]. b2p. lia.
  - apply (ascending_weaken (se_last x)).
    + apply last_position_bound; [apply last_position_bound; [lia|]|].
      * intros y Hy. apply elem_of_where in Hy as [_ Hy]. b2p. lia.
      * intros y Hy. apply elem_of_where in Hy as [Hy _]. by apply Hlast.
    + apply (IH _ (se_last x)); [done|by eapply outside_where|set_solver| |lia].
      eapply ascending_bound; [by apply ascending_where|]. intros r Hr.
      apply elem_of_where in Hr as [Hr Hf]. b2p. pose proof (Ho x l r ltac:(set_solver) Hr). lia.
Qed.

(** ** The page under its limit *)

(** Hot rows in order split at a position. *)
Lemma split_at q (h : list ChatRow) p : ascending q h ->
  h = List.filter (fun r => Position r <? p) h ++ List.filter (fun r => p <=? Position r) h.
Proof.
  revert q; induction h as [|r h IH]; intros q H; [done|]. destruct H as [_ H]. cbn [List.filter].
  destruct (Position r <? p) eqn:E; b2p.
  - replace (p <=? Position r) with false by (symmetry; compare). cbn. f_equal. by eapply IH.
  - replace (p <=? Position r) with true by (symmetry; compare).
    assert (List.filter (fun r => Position r <? p) h = []) as En.
    { apply where_nothing. intros y Hy. pose proof (ascending_above _ _ _ H Hy). apply Z.ltb_ge. lia. }
    specialize (IH _ H). rewrite En in *. cbn in *. by f_equal.
Qed.

Lemma take_full {A} n (a b : list A) : (n <= length a)%nat -> take n (a ++ b) = take n a.
Proof. intros H. by rewrite take_app_le. Qed.

(** [appendHotBefore]: [g] before [p], [rest] not. *)
Lemma append_hot_take p n g : forall (A rest : list ChatRow) k,
  Forall (fun r => below p (Position r) = true) g ->
  (forall r, head rest = Some r -> below p (Position r) = false) ->
  ((length A <= n)%nat -> (S n <= length A + k)%nat) ->
  exists h, append_hot p n (take (S n) A) (take k (g ++ rest)) = (take (S n) (A ++ g), h) /\
    ((length (A ++ g) <= n)%nat -> exists k', h = take k' rest /\ (S n <= length (A ++ g) + k')%nat).
Proof.
  induction g as [|r g IH]; intros A rest k Hg Hr Hk.
  - rewrite app_nil_r. exists (take k rest). split; [|by eauto]. cbn [app].
    destruct rest as [|y rest]; [by rewrite take_nil|]. destruct k as [|k]; [done|].
    cbn [take append_hot]. by rewrite (Hr y).
  - inversion Hg as [|? ? Hb Hg']; subst. rewrite length_app. cbn [length].
    destruct (Nat.le_gt_cases (length A) n) as [Hn|Hn].
    + destruct k as [|k]; [lia|]. cbn [app take append_hot]. rewrite Hb, (take_ge A) by lia. cbn [andb].
      replace (length A <=? n)%nat with true by (symmetry; apply Nat.leb_le; lia).
      specialize (IH (A ++ [r]) rest k Hg' Hr). rewrite length_app in IH. cbn [length] in IH.
      destruct IH as (h & E & Hh); [lia|]. exists h. rewrite <- app_assoc in E, Hh. cbn [app] in E, Hh.
      rewrite take_ge in E by (rewrite length_app; cbn; lia). split; [exact E|].
      intros H. rewrite length_app in Hh. cbn [length] in Hh. exact (Hh H).
    + rewrite (take_full _ A) by lia.
      exists (take k ((r :: g) ++ rest)). split; [|lia]. cbn [app].
      destruct k as [|k]; [done|]. cbn [take append_hot]. rewrite Hb. cbn [andb].
      rewrite length_take. replace (_ <=? n)%nat with false by (symmetry; apply Nat.leb_gt; lia). done.
Qed.

(** The rows of a segment, all before the next hot row. *)
Lemma append_decoded_take after n h l : forall A,
  (length A <= n)%nat -> (forall r x, r ∈ l -> head h = Some x -> Position r < Position x) ->
  append_decoded after n h A l = Ok (take (S n) (A ++ List.filter (fun r => after <? Position r) l)).
Proof.
  induction l as [|r l IH]; intros A Hn Hh; cbn [append_decoded List.filter].
  { rewrite app_nil_r, take_ge by lia. done. }
  destruct (after <? Position r) eqn:Ea; [|apply IH; [done|set_solver]].
  replace (match h with x :: _ => Position x <=? Position r | [] => false end) with false.
  2: { destruct h as [|x h]; [done|]. symmetry. apply Z.leb_gt. apply Hh; [set_solver|done]. }
  rewrite length_app. cbn [length].
  destruct (n <? length A + 1)%nat eqn:E; [apply Nat.ltb_lt in E|apply Nat.ltb_ge in E].
  - assert (length (A ++ [r]) = S n) as El by (rewrite length_app; cbn; lia).
    set (m := List.filter _ _). replace (A ++ r :: m) with ((A ++ [r]) ++ m) by (by rewrite <- app_assoc).
    rewrite (take_full _ (A ++ [r])), take_ge by lia. done.
  - rewrite IH; [by rewrite <- app_assoc|rewrite length_app; cbn; lia|set_solver].
Qed.

Section Page.
Context (uuid_ok : string -> bool) (gzip : string -> string) (gunzip : string -> option (string * bool)).
Context (channel bucketName : string).
Hypothesis laws : gzip_laws gzip gunzip.

Notation sound := (sound uuid_ok gzip bucketName).
Notation made := (made uuid_ok gzip).

(** ** Segments and their objects *)

Lemma rows_ok d L session a b l : sound d L -> rows_in L session a b l -> forallb row_ok l = true.
Proof.
  intros H [_ Hr]. apply forallb_forall. intros r Hin. apply list_elem_of_In in Hin.
  apply Hr in Hin as [Hl _]. by destruct (sound_row _ _ _ _ _ H _ _ Hl) as (_ & _ & ? & _).
Qed.

(** What a made segment is. *)
Lemma made_rows d L s : sound d L -> made d L s ->
  exists l, rows_in L (sg_SessionID s) (FirstPosition s) (LastPosition s) l /\ Build uuid_ok gzip l = Ok s /\
    l <> [] /\ canonical (sg_SessionID s) = true /\ int64_pos (FirstPosition s) /\ int64_pos (LastPosition s) /\
    last_position 0 l = LastPosition s /\ SHA256 s = sum_hex (Body s).
Proof.
  intros H (l & (Hc & Hb & f & Hf & Hr) & HB). exists l.
  destruct (Build_ok _ _ _ _ HB) as (f' & rest & -> & _ & E & Hp & _ & Ha & _). injection Hf as ->.
  rewrite E in *. cbn [sg_SessionID FirstPosition LastPosition Body SHA256] in *.
  assert (forall r, r ∈ f :: rest -> int64_pos (Position r)) as Hpos.
  { intros r Hin. apply Hr in Hin as [Hl _]. destruct (sound_row _ _ _ _ _ H _ _ Hl) as (_ & ? & Hok & _).
    unfold row_ok in Hok. b2p. unfold int64_pos. lia. }
  destruct (last_position_elem 0 (f :: rest)) as (z & Hz & Ez); [done|].
  split; [done|]. split; [done|]. split; [done|]. split; [done|]. split; [apply Hpos; set_solver|].
  split; [rewrite <- Ez; by apply Hpos|done].
Qed.

(** One key, one segment. *)
Lemma made_same d L s t : sound d L -> made d L s -> made d L t -> ObjectKey s = ObjectKey t -> s = t.
Proof.
  intros H Hs Ht E.
  destruct (made_rows _ _ _ H Hs) as (l & Hr & HB & _ & Hc & Hf & Hl & _).
  destruct (made_rows _ _ _ H Ht) as (l' & Hr' & HB' & _ & Hc' & Hf' & Hl' & _).
  destruct (object_key_inj _ _ _ _ _ _ _ _ Hc Hc' Hf Hl Hf' Hl' E) as (E1 & E2 & E3 & _).
  rewrite E1, E2, E3 in Hr. rewrite (rows_in_unique _ _ _ _ _ _ Hr Hr') in HB. congruence.
Qed.

(** The object of an indexed segment decodes, later too, to its rows unless
    the checksum shows the damage. *)
Lemma indexed_decodes d L d' L' x body : sound d L -> extends d L d' L' -> sound d' L' ->
  indexed uuid_ok gzip bucketName d L x ->
  objects d' !! se_key x = Some body -> sum_hex body = se_sha256 x ->
  exists l, Decode uuid_ok gunzip (MkSegment body (se_sha256 x) (se_session x) (se_first x) (se_last x) (se_count x)) = Ok l
    /\ rows_in L (se_session x) (se_first x) (se_last x) l.
Proof.
  intros H He H' (s & Hm & ->) Ho Hsum. cbn [se_key se_sha256 se_session se_first se_last se_count] in *.
  destruct (made_rows _ _ _ H Hm) as (l & Hr & HB & _).
  destruct (sound_objects _ _ _ _ _ H' _ _ Ho) as [Hd|(t & Ht & Ek & ->)].
  - exfalso. apply (Hd (sg_SessionID s) (FirstPosition s) (LastPosition s)). by rewrite Hsum.
  - rewrite <- (made_same _ _ _ _ H' (made_extends _ _ _ _ _ _ _ He Hm) Ht Ek). exists l. split; [|done].
    destruct s as [b h u f z c]. cbn. eapply Decode_Build; [done| |exact HB]. exact (rows_ok _ _ _ _ _ _ H Hr).
Qed.

(** ** Assembling *)

(** What the object store can answer instead of an object. *)
Definition object_error (x : error) : Prop :=
  x ∈ [ErrDriver; ErrMsg "archive object checksum mismatch"; ErrMsg "archive object size limit";
       ErrMsg "invalid archive object reference"]%string.

Lemma GetVerified_run key sum e (w : world archive) : exists w', db w' = db w /\
  ((exists body, GetVerified key sum e w = (Ok body, w') /\ objects (db w) !! key = Some body /\ sum_hex body = sum)
   \/ exists x, GetVerified key sum e w = (Err x, w') /\ object_error x).
Proof.
  unfold object_error, GetVerified, mbind, M_bind, guard_ok, pool_query.
  destruct (validObject key sum); [|exists w; split; [done|right; eexists; split; [done|set_solver]]]. cbn [mret M_ret].
  destruct (driver_fails e (tick w)); [exists (bump w); split; [done|right; eexists; split; [done|set_solver]]|].
  exists (bump w). split; [done|].
  destruct (objects (db w) !! key) as [body|] eqn:Eo; cbn [of_option];
    [|right; eexists; split; [done|set_solver]].
  destruct (negb _); [|right; eexists; split; [done|set_solver]].
  destruct (String.eqb _ _) eqn:E; [|right; eexists; split; [done|set_solver]].
  apply String.eqb_eq in E. left. by exists body.
Qed.

Record item_ok (d : archive) (L : table) (session : string) (i : segment_row * list ChatRow) : Prop := {
  item_indexed : indexed uuid_ok gzip bucketName d L i.1;
  item_session : se_session i.1 = session;
  item_rows : rows_in L session (se_first i.1) (se_last i.1) i.2
}.

(** One segment's object: its rows or an error of the store. *)
Lemma read_segment_run d L d' L' session i e w : sound d L -> sound d' L' ->
  extends d L d' L' -> item_ok d L session i -> db w = d' ->
  exists r w', read_segment uuid_ok gunzip bucketName session i.1 e w = (r, w') /\ db w' = d' /\
    match r with Ok l => l = i.2 | Err x => object_error x end.
Proof.
  intros H H' He [Hi Hs Hr] Hw. unfold read_segment. destruct i as [x rs]. cbn [fst snd] in *.
  pose proof Hi as (t & Ht & Ex).
  destruct (GetVerified_run (se_key x) (se_sha256 x) e w) as (w' & Hd & Hg).
  assert (String.eqb (se_bucket x) bucketName = true) as Eb by (rewrite Ex; apply String.eqb_refl).
  set (s := MkSegment EmptyString _ _ _ _ _). assert (String.eqb (se_key x) (ObjectKey s) = true) as Ek.
  { unfold s. rewrite <- Hs, Ex. apply String.eqb_refl. }
  rewrite (guard_run _ _ _ _ _ Eb), (guard_run _ _ _ _ _ Ek).
  destruct Hg as [(body & Eg & Ho & Hsum)|(y & E & Hy)].
  - rewrite Hw in Ho. destruct (indexed_decodes _ _ _ _ _ _ H He H' Hi Ho Hsum) as (l & Hl & Hlr).
    rewrite Hs in Hl, Hlr. rewrite (bind_run _ _ _ _ _ _ Eg), Hl. exists (Ok l), w'. split; [done|].
    split; [congruence|]. exact (rows_in_unique _ _ _ _ _ _ Hlr Hr).
  - exists (Err y), w'. split; [|split; [congruence|done]]. unfold mbind at 1, M_bind at 1. by rewrite E.
Qed.

(** The segments of a snapshot, read at a later state. *)
Lemma append_segments_run d L d' L' session after n items : sound d L -> sound d' L' -> extends d L d' L' ->
  forall p q A G k e w, db w = d' -> Forall (item_ok d L session) items ->
  in_order q items -> outside items G -> ascending p G ->
  ((length A <= n)%nat -> (S n <= length A + k)%nat) ->
  match append_segments uuid_ok gunzip bucketName session after n items.*1 (take (S n) A) (take k G) e w with
  | (Ok (acc, h), w') => exists A' G' k', A' ++ G' = A ++ interleave after items G /\ acc = take (S n) A' /\
      ((length A' <= n)%nat -> h = take k' G' /\ (S n <= length A' + k')%nat)
  | (Err x, _) => object_error x
  end.
Proof.
  intros H H' He. induction items as [|[x l] items IH]; intros p q A G k e w Hw Hok Hq Ho Hp Hk.
  { cbn. exists A, G, k. auto. }
  inversion Hok as [|? ? Hi Hok']; subst. destruct Hq as (Hq & Hx & Hl & Hlast & Hin).
  cbn [fmap list_fmap fst append_segments].
  set (g := List.filter (fun r => Position r <? se_first x) G).
  set (rest := List.filter (fun r => se_first x <=? Position r) G).
  destruct (append_hot_take (Some (se_first x)) n g A rest k) as (h & Eh & Hh).
  { apply Forall_forall. intros r Hr. by apply elem_of_where in Hr as [_ Hr]. }
  { intros r Hr. apply head_Some_elem_of, elem_of_where in Hr as [_ Hr]. cbn. apply Z.ltb_ge. by apply Z.leb_le. }
  { exact Hk. }
  set (mid := List.filter (fun r => after <? Position r) l).
  assert (A ++ interleave after ((x, l) :: items) G = (A ++ g) ++ mid ++ interleave after items rest) as EI
    by (cbn [interleave]; by rewrite <- app_assoc).
  rewrite EI, (split_at p G (se_first x) Hp). fold g rest. rewrite Eh. rewrite length_take.
  destruct (n <? S n `min` length (A ++ g))%nat eqn:En.
  { apply Nat.ltb_lt in En. exists ((A ++ g) ++ mid ++ interleave after items rest), [], k.
    rewrite app_nil_r, (take_full _ (A ++ g)) by lia.
    split; [done|]. split; [done|]. rewrite (length_app (A ++ g)). lia. }
  apply Nat.ltb_ge in En. destruct Hh as (k' & -> & Hk'); [lia|].
  destruct (read_segment_run d L (db w) L' session (x, l) e w) as ([rs|y] & w1 & Er & Hw1 & Hrs);
    [done..| |unfold mbind at 1, M_bind at 1; cbn [fst] in Er; by rewrite Er].
  rewrite (bind_run _ _ _ _ _ _ Er), Hrs. cbn [snd]. rewrite (take_ge (A ++ g)) by lia.
  erewrite lift_run.
  2: { apply append_decoded_take; [lia|]. intros r y Hr Hy. apply head_Some_elem_of in Hy.
       apply elem_of_take in Hy as (j & Hy & _). apply list_elem_of_lookup_2, elem_of_where in Hy as [HyG Hy].
       pose proof (Ho x l y ltac:(set_solver) HyG). specialize (Hlast _ Hr). b2p. lia. }
  fold mid. rewrite length_take. destruct (n <? _)%nat eqn:En2.
  { apply Nat.ltb_lt in En2. exists (((A ++ g) ++ mid) ++ interleave after items rest), [], k.
    rewrite app_nil_r, (take_full _ ((A ++ g) ++ mid)), <- app_assoc by lia.
    split; [done|]. split; [done|]. rewrite !length_app in *. lia. }
  apply Nat.ltb_ge in En2.
  specialize (IH p (se_last x) ((A ++ g) ++ mid) rest k' e w1 Hw1 Hok' Hin
    ltac:(by eapply outside_where) ltac:(by apply ascending_where)).
  rewrite <- (app_assoc (A ++ g) mid) in IH. apply IH. intros _. rewrite !length_app in *. lia.
Qed.

Lemma ascending_no_repeats p l : ascending p l -> no_repeats l = true.
Proof.
  revert p; induction l as [|a l IH]; intros p H; [done|]. destruct H as [Hp H], l as [|b l]; [done|].
  change (no_repeats (a :: b :: l)) with (negb (Position a =? Position b) && no_repeats (b :: l)).
  rewrite (IH _ H). destruct H as [Hb H].
  replace (Position a =? Position b) with false by (symmetry; apply Z.eqb_neq; lia). done.
Qed.

Lemma ascending_take n p l : ascending p l -> ascending p (take n l).
Proof. intros H. rewrite <- (take_drop n l) in H. by apply ascending_app in H as [H _]. Qed.

(** The whole page: what the snapshot interleaves to, up to the limit. *)
Lemma page_assemble_run d L d' L' session after limit items boundary G p q e w :
  sound d L -> sound d' L' -> extends d L d' L' -> db w = d' -> Forall (item_ok d L session) items ->
  in_order q items -> outside items G -> ascending p G -> p <= after \/ p <= q ->
  (forall x l, (x, l) ∈ items -> after < se_last x) ->
  let n := Z.to_nat limit in
  let all := interleave after items G in
  let more := match boundary with Some _ => true | None => false end || (n <? length all)%nat in
  match page_assemble uuid_ok gunzip bucketName session after limit (items.*1, boundary, take (S n) G) e w with
  | (Ok page, _) => page = MkPage (take n all) (if more then Position <$> last (take n all) else None) more
  | (Err x, _) => object_error x
  end.
Proof.
  intros H H' He Hw Hok Hq Ho Hp Hpq Hlast n all more. unfold page_assemble. fold n.
  pose proof (append_segments_run _ _ _ _ session after n _ H H' He p q [] G (S n) e w Hw Hok Hq Ho Hp ltac:(lia)) as Hr.
  rewrite take_nil in Hr.
  destruct (append_segments _ _ _ _ _ _ _ _ _ e w) as [[[acc h]|x] w1] eqn:Er;
    [|unfold mbind, M_bind; by rewrite Er].
  rewrite (bind_run _ _ _ _ _ _ Er). destruct Hr as (A' & G' & k' & EA & -> & Hh). cbn [app] in EA. fold all in EA.
  assert ((if (length (take (S n) A') <=? n)%nat then (append_hot None n (take (S n) A') h).1 else take (S n) A')
    = take (S n) all) as ->.
  { rewrite length_take. destruct (_ <=? n)%nat eqn:En.
    - apply Nat.leb_le in En. destruct Hh as [-> Hk]; [lia|].
      destruct (append_hot_take None n G' A' [] k') as (h' & Eh & _); [by apply Forall_forall|done|done|].
      rewrite app_nil_r in Eh. by rewrite Eh, EA.
    - apply Nat.leb_gt in En. rewrite <- EA, (take_full _ A') by lia. done. }
  assert (ascending p all) as Ha by by eapply interleave_ascending.
  rewrite guard_run by (by eapply ascending_no_repeats, ascending_take).
  cbn [mret M_ret]. rewrite take_take, length_take. replace (n `min` S n)%nat with n by lia.
  assert ((n <? S n `min` length all)%nat = (n <? length all)%nat) as ->; [|done].
  destruct (n <? length all)%nat eqn:En; [apply Nat.ltb_lt in En; apply Nat.ltb_lt|apply Nat.ltb_ge in En; apply Nat.ltb_ge]; lia.
Qed.

(** ** The snapshot *)

Notation of_session session after := (fun s : segment_row => String.eqb (se_session s) session && (after <? se_last s)).

Lemma indexed_item d L x : sound d L -> indexed uuid_ok gzip bucketName d L x ->
  exists l, item_ok d L (se_session x) (x, l) /\ 0 < se_first x <= se_last x /\
    exists r, r ∈ l /\ Position r = se_last x.
Proof.
  intros H Hi. pose proof Hi as (s & Hm & ->).
  destruct (made_rows _ _ _ H Hm) as (l & Hr & HB & Hne & _ & Hf & _ & El & _). exists l.
  split; [by constructor|]. cbn [se_first se_last].
  destruct (last_position_elem 0 l Hne) as (z & Hz & Ez). rewrite El in Ez.
  destruct (Build_ok _ _ _ _ HB) as (f & rest & _ & _ & E & Hp & _). rewrite E in Ez, Hr |- *. cbn in *.
  apply Hr in Hz as Hz'. split; [lia|]. eauto.
Qed.

(** Segments one after the other. *)
Fixpoint spaced (q : Z) (l : list segment_row) : Prop :=
  match l with [] => True | x :: l => q < se_first x /\ se_first x <= se_last x /\ spaced (se_last x) l end.

Lemma spaced_take n q l : spaced q l -> spaced q (take n l).
Proof. revert q n; induction l as [|x l IH]; intros q [|n] H; [done..|]. cbn in *. naive_solver. Qed.

Lemma sorted_spaced q l : StronglySorted by_first l -> NoDup l ->
  (forall x, x ∈ l -> q < se_first x /\ se_first x <= se_last x) ->
  (forall x y, x ∈ l -> y ∈ l -> x = y \/ se_last x < se_first y \/ se_last y < se_first x) -> spaced q l.
Proof.
  intros Hs. revert q; induction Hs as [|x l Hs IH Hx]; intros q Hn Hq Hd; [done|].
  apply NoDup_cons in Hn as [Hxl Hn]. rewrite Forall_forall in Hx.
  destruct (Hq x ltac:(set_solver)). split; [done|]. split; [done|]. apply IH; [done| |set_solver].
  intros y Hy. destruct (Hq y ltac:(set_solver)). split; [|done]. specialize (Hx _ Hy). unfold by_first in Hx.
  destruct (Hd x y) as [->|Hl]; [set_solver..|done|lia].
Qed.

Lemma session_spaced d L session after : sound d L ->
  spaced 0 (select_segments (of_session session after) d).
Proof.
  intros H.
  assert (forall x, x ∈ select_segments (of_session session after) d ->
    exists i, segments d !! i = Some x /\ se_session x = session /\ 0 < se_first x <= se_last x) as Hin.
  { intros x Hx. apply elem_of_select_segments in Hx as [[i Hx] Hp]. b2p. exists i. split; [done|]. split; [done|].
    destruct (sound_segment _ _ _ _ _ H _ _ Hx) as [_ Hi]. by destruct (indexed_item _ _ _ H Hi) as (l & _ & ? & _). }
  apply sorted_spaced.
  - apply by_first_sorted.
  - unfold select_segments. rewrite merge_sort_Permutation.
    apply NoDup_ListNoDup, List.NoDup_filter, NoDup_ListNoDup, NoDup_fmap_2_strong; [|apply NoDup_map_to_list].
    intros [i x] [j y] Hi Hj E. apply elem_of_map_to_list in Hi, Hj. cbn in E. subst y.
    destruct (sound_disjoint _ _ _ _ _ H _ _ _ _ Hi Hj eq_refl) as [->|Hd]; [done|].
    destruct (sound_segment _ _ _ _ _ H _ _ Hi) as [_ Hx].
    destruct (indexed_item _ _ _ H Hx) as (l & _ & ? & _). lia.
  - intros x Hx. destruct (Hin _ Hx) as (_ & _ & _ & ? & ?). lia.
  - intros x y Hx Hy. destruct (Hin _ Hx) as (i & Hi & Es & _), (Hin _ Hy) as (j & Hj & Es' & _).
    destruct (sound_disjoint _ _ _ _ _ H _ _ _ _ Hi Hj) as [->|Hd]; [congruence| |by right]. left. congruence.
Qed.

Lemma spaced_items d L session q l : sound d L -> spaced q l ->
  (forall x, x ∈ l -> indexed uuid_ok gzip bucketName d L x /\ se_session x = session) ->
  exists items, items.*1 = l /\ Forall (item_ok d L session) items /\ in_order q items.
Proof.
  intros H. revert q; induction l as [|x l IH]; intros q Hs Hi; [by exists []|]. destruct Hs as (Hq & Hx & Hs).
  destruct (IH _ Hs) as (items & <- & Hok & Ho); [set_solver|].
  destruct (Hi x) as [Hxi Es]; [set_solver|]. destruct (indexed_item _ _ _ H Hxi) as (rs & Hr & _).
  rewrite Es in Hr. exists ((x, rs) :: items). split; [done|]. split; [by constructor|].
  cbn. split; [done|]. split; [done|]. destruct Hr as [_ _ [Ha Hr]]. cbn in *.
  split; [done|]. split; [|done]. intros r Hin. apply Hr in Hin as (_ & _ & ?). lia.
Qed.

Lemma spaced_from q l x : spaced q l -> x ∈ l -> q < se_first x <= se_last x.
Proof.
  revert q; induction l as [|y l IH]; intros q H; [by intros ?%elem_of_nil|]. destruct H as (? & ? & H).
  intros [->|Hx]%elem_of_cons; [lia|]. specialize (IH _ H Hx). lia.
Qed.

(** The boundary separates the segments read from the others. *)
Lemma spaced_boundary n q l : spaced q l ->
  let b := se_first <$> l !! n in
  (forall x, x ∈ take n l -> below b (se_last x) = true) /\
  (forall x, x ∈ l -> x ∈ take n l \/ exists y, b = Some y /\ y <= se_first x).
Proof.
  revert n q; induction l as [|z l IH]; intros n q H; cbn.
  { rewrite take_nil. split; [by intros ? ?%elem_of_nil|by intros ? ?%elem_of_nil]. }
  destruct H as (Hq & Hz & H). destruct n as [|n]; cbn.
  - split; [by intros ? ?%elem_of_nil|]. intros x [->|Hx]%elem_of_cons;
      (right; exists (se_first z); split; [done|]); [lia|]. pose proof (spaced_from _ _ _ H Hx). lia.
  - destruct (IH n _ H) as [H1 H2]. split.
    + intros x [->|Hx]%elem_of_cons; [|by apply H1]. apply below_true. intros b Eb.
      destruct (l !! n) as [y|] eqn:Ey; [|done]. injection Eb as <-.
      pose proof (spaced_from _ _ y H ltac:(by eapply list_elem_of_lookup_2)). lia.
    + intros x [->|Hx]%elem_of_cons; [left; set_solver|]. destruct (H2 _ Hx); [left; set_solver|by right].
Qed.

Definition end_of (d : archive) (boundary : option Z) : Z :=
  match boundary with Some b => b - 1 | None => position_seq d - 1 end.
Notation hot_after session after boundary := (fun r : ChatRow =>
  String.eqb (SessionID r) session && (after <? Position r) && below boundary (Position r)).

Lemma elem_items_1 (items : list (segment_row * list ChatRow)) x l : (x, l) ∈ items -> x ∈ items.*1.
Proof. intros H. apply list_elem_of_fmap. by exists (x, l). Qed.

(** The interleaved rows are those of the log after the cursor, up to the boundary. *)
Lemma snapshot_rows d L session after items : sound d L ->
  let F := select_segments (of_session session after) d in
  let boundary := se_first <$> F !! maxObjectsPerPage in
  let G := select_hot (hot_after session after boundary) d in
  items.*1 = take maxObjectsPerPage F -> Forall (item_ok d L session) items -> in_order 0 items ->
  outside items G /\ rows_in L session (after + 1) (end_of d boundary) (interleave after items G).
Proof.
  intros H F boundary G Ei Hok Hin.
  destruct (spaced_boundary maxObjectsPerPage 0 F) as [Hb1 Hb2]; [by eapply session_spaced|]. fold boundary in Hb1, Hb2.
  assert (forall x, x ∈ F -> after < se_last x) as Hafter.
  { intros x Hx. apply elem_of_select_segments in Hx as [_ Hp]. by b2p. }
  assert (forall x l, (x, l) ∈ items -> x ∈ F /\ x ∈ take maxObjectsPerPage F) as HF.
  { intros x l Hx. apply elem_items_1 in Hx. rewrite Ei in Hx. split; [|done].
    rewrite <- (take_drop maxObjectsPerPage F). set_solver. }
  assert (outside items G) as Ho.
  { intros x l r Hx Hr. destruct (HF _ _ Hx) as [HxF _].
    apply elem_of_select_segments in HxF as [[i Hi] Hp]. apply (elem_of_select_hot _ _ _ _ _ _ _ H) in Hr as [Hr Hp'].
    b2p. pose proof (sound_apart _ _ _ _ _ H _ _ _ _ Hr Hi) as Hn. apply not_true_iff_false in Hn.
    intros Hc. apply Hn, covers_range. split; [congruence|done]. }
  assert (forall r, L !! Position r = Some r -> Position r < position_seq d) as Hseq.
  { intros r Hr. by destruct (sound_row _ _ _ _ _ H _ _ Hr) as (_ & [_ ?] & _). }
  split; [done|]. split.
  - replace (after + 1 - 1) with after by lia. eapply (interleave_ascending _ _ after 0); [done|done| | |by left].
    + intros x l Hx. apply Hafter. by destruct (HF _ _ Hx).
    + eapply select_hot_ascending; [done|]. intros r Hr. by b2p.
  - intros r. rewrite elem_of_interleave. split.
    + intros [Hr|(x & l & Hx & Hr & Ha)].
      * apply (elem_of_select_hot _ _ _ _ _ _ _ H) in Hr as [Hr Hp]. eapply lookup_weaken in Hr; [|by eapply sound_hot].
        b2p. split; [done|]. split; [done|]. specialize (Hseq _ Hr).
        unfold end_of. destruct boundary as [b|]; cbn in *; b2p; lia.
      * rewrite Forall_forall in Hok. destruct (Hok _ Hx) as [_ _ [_ Hl]]. cbn in Hl. apply Hl in Hr as (Hr & Es & Hp).
        split; [done|]. split; [done|]. specialize (Hseq _ Hr). destruct (HF _ _ Hx) as [_ Ht]. specialize (Hb1 _ Ht).
        unfold end_of. destruct boundary as [b|]; cbn in *; b2p; lia.
    + intros (Hr & Es & Hp). destruct (sound_place _ _ _ _ _ H _ _ Hr) as [Hh|(i & x & Hi & Hc)].
      * left. apply (elem_of_select_hot _ _ _ _ _ _ _ H). split; [done|]. rewrite Es, String.eqb_refl.
        replace (after <? Position r) with true by (symmetry; compare). cbn.
        apply below_true. intros b Eb. rewrite Eb in Hp. cbn in Hp. lia.
      * apply covers_range in Hc as [Ec Hc]. right.
        assert (x ∈ F) as HxF.
        { apply elem_of_select_segments. split; [by exists i|]. rewrite Ec, Es, String.eqb_refl. cbn. compare. }
        destruct (Hb2 _ HxF) as [Ht|(y & Ey & Hy)].
        -- rewrite <- Ei in Ht. apply list_elem_of_fmap in Ht as ([x' l] & -> & Hx). cbn in *.
           exists x', l. split; [done|]. split; [|lia]. rewrite Forall_forall in Hok.
           destruct (Hok _ Hx) as [_ _ [_ Hl]]. apply Hl. done.
        -- rewrite Ey in Hp. cbn in Hp. lia.
Qed.
End Page.
