(* ===== verification/ArchiveProps.v ===== *)
(** The chat archive: no chat is lost or archived twice, an acknowledged chat
    stays readable, and a page is the next part of the log. *)
From S2P Require Import Prelude GoLib Sha256 Json GoText JsonText.
From S2P Require Import JsonRound Tx Model Db Ownership Segment.
From S2P Require Import Archive ArchiveInv ArchivePage.

(** ** The segment codec *)

Section Codec.
Context (uuid_ok : string -> bool) (gzip : string -> string) (gunzip : string -> option (string * bool)).

Lemma decode_rows_sound s f : forall plain rows p rows' p',
  decode_rows f s plain rows p = Ok (rows', p') -> ascending 0 rows -> last_position 0 rows = p ->
  Forall (fun r => SessionID r = sg_SessionID s) rows ->
  ascending 0 rows' /\ last_position 0 rows' = p' /\ Forall (fun r => SessionID r = sg_SessionID s) rows'.
Proof.
  induction f as [|f IH]; intros plain rows p rows' p' E Ha Hl Hs; [done|]. cbn [decode_rows] in E.
  destruct (is_empty _); [by injection E as <- <-|].
  destruct (p_value _ _ _) as [[t rest]|]; [|done].
  destruct (d_struct _ _ _) as [row ok]. destruct (negb ok); [done|]. destruct (_ || _) eqn:Eo; [done|]. b2p.
  destruct (sg_Count s <? _); [done|]. eapply IH; [exact E| | |].
  - apply ascending_app. split; [done|]. cbn. rewrite Hl. done.
  - by rewrite last_position_app.
  - apply Forall_app. auto.
Qed.

(** C30: a segment decodes to exactly the rows it was built from, and
    whatever [Decode] accepts has the checksum, the session, the count and
    the range its index entry gives, in ascending positions: a body with
    another checksum is refused. *)
Theorem segment_codec : gzip_laws gzip gunzip ->
  (forall rows s, forallb row_ok rows = true -> Build uuid_ok gzip rows = Ok s -> Decode uuid_ok gunzip s = Ok rows) /\
  (forall s rows, Decode uuid_ok gunzip s = Ok rows ->
     sum_hex (Body s) = SHA256 s /\ Z.of_nat (length rows) = sg_Count s /\ 1 <= sg_Count s <= MaxSegmentRows /\
     Forall (fun r => SessionID r = sg_SessionID s) rows /\ ascending 0 rows /\
     Position <$> head rows = Some (FirstPosition s) /\ last_position 0 rows = LastPosition s).
Proof.
  intros laws. split; [intros; by eapply Decode_Build|]. intros s rows E. unfold Decode in E.
  destruct (_ || _) eqn:Eg; [done|]. destruct (negb (String.eqb _ _)) eqn:Es; [done|]. b2p.
  destruct (gunzip _) as [x|]; [|done]. cbn [of_option] in E. rewrite bind_Ok in E.
  apply result_bind_ok in E as (plain & _ & E). destruct (_ <? lenZ plain); [done|].
  apply result_bind_ok in E as ([rows' p'] & Er & E). cbn [fst snd] in E.
  destruct (decode_rows_sound _ _ _ _ _ _ _ Er) as (Ha & Hl & Hs); [done|done|done|].
  destruct rows' as [|f rest]; [done|]. destruct (_ || _) eqn:Ee; [done|]. injection E as <-. b2p.
  split_and!; try done; [cbn; congruence|by rewrite Hl].
Qed.
End Codec.

Section Props.
Context (uuid_ok : string -> bool) (gzip : string -> string) (gunzip : string -> option (string * bool)).
Context (collectionChannel : option string) (channel bucketName : string).

Notation runs := (runs uuid_ok gzip gunzip collectionChannel channel bucketName).
Notation reach := (reach uuid_ok gzip gunzip collectionChannel channel bucketName).
Notation sound := (sound uuid_ok gzip bucketName).

(** ** Places *)

Definition covering (d : archive) (r : ChatRow) (x : segment_row) : Prop :=
  exists i, segments d !! i = Some x /\ covers (SessionID r) (Position r) x = true.

(** Hot and not archived, or in one segment and no longer hot. *)
Definition one_place (d : archive) (r : ChatRow) : Prop :=
  (hot d !! Position r = Some r /\ forall x, ~ covering d r x) \/
  (hot d !! Position r = None /\ exists x, covering d r x /\ forall y, covering d r y -> y = x).

Lemma sound_one_place d L r : sound d L -> L !! Position r = Some r -> one_place d r.
Proof.
  intros H Hl. destruct (hot d !! Position r) as [r'|] eqn:Eh.
  - left. assert (r' = r) as ->.
    { eapply lookup_weaken in Eh; [|by eapply sound_hot]. congruence. }
    split; [done|]. intros x (i & Hi & Hc). pose proof (sound_apart _ _ _ _ _ H _ _ _ _ Eh Hi). congruence.
  - right. split; [done|]. destruct (sound_place _ _ _ _ _ H _ _ Hl) as [?|(i & x & Hi & Hc)]; [congruence|].
    exists x. split; [by exists i|]. intros y (j & Hj & Hc'). apply covers_range in Hc as [Es Hc], Hc' as [Es' Hc'].
    destruct (sound_disjoint _ _ _ _ _ H _ _ _ _ Hi Hj) as [->|Hd]; [congruence| |lia]. congruence.
Qed.

(** C14: in every state of the archive, with worker and exporters
    interleaved, failing and repeating their transactions and objects lost or
    damaged, a chat that was ever stored is hot or in exactly one segment of
    its session, never both, and a session holds an event at one position. *)
Theorem archive_places x : reach x ->
  (forall p r, log x !! p = Some r -> Position r = p /\ one_place (arch x) r) /\
  (forall p q r s, log x !! p = Some r -> log x !! q = Some s ->
     SessionID r = SessionID s -> EventID r = EventID s -> p = q).
Proof.
  intros [H _ _]%reach_inv. split.
  - intros p r Hl. destruct (sound_row _ _ _ _ _ H _ _ Hl) as [<- _]. split; [done|]. by eapply sound_one_place.
  - intros p q r s Hr Hs E1 E2.
    assert (event_ids (arch x) !! (SessionID r, EventID r) = Some p) as Hp by (apply (sound_event _ _ _ _ _ H); eauto).
    assert (event_ids (arch x) !! (SessionID r, EventID r) = Some q) as Hq by (apply (sound_event _ _ _ _ _ H); eauto).
    congruence.
Qed.

(** ** Pages *)

(** The page holds the chats of the session after the cursor up to its last
    row, none missing; the next position is its last row exactly when there
    is another. *)
Definition next_part (d : archive) (L : table) (session : string) (after limit : Z) (page : ChatPage) : Prop :=
  let l := last_position after (pg_Rows page) in
  rows_in L session (after + 1) l (pg_Rows page) /\ Z.of_nat (length (pg_Rows page)) <= limit /\
  if pg_HasMore page
  then after < l /\ pg_NextPosition page = Some l /\
       exists r, L !! Position r = Some r /\ SessionID r = session /\ l < Position r
  else pg_NextPosition page = None /\ rows_in L session (after + 1) (position_seq d) (pg_Rows page).

Lemma last_row l a : l <> [] -> Position <$> last l = Some (last_position a l).
Proof.
  revert a; induction l as [|x l IH]; intros a H; [done|]. destruct l as [|y l]; [done|].
  change (last (x :: y :: l)) with (last (y :: l)). by rewrite (IH (Position x)).
Qed.

Lemma last_position_any a b l : l <> [] -> last_position a l = last_position b l.
Proof. by destruct l. Qed.

Lemma rows_in_first L session a b l : rows_in L session a b l -> l <> [] -> rows_in L session a (last_position 0 l) l.
Proof.
  intros H Hne. rewrite <- (firstn_all l) in Hne |- *. by eapply rows_in_prefix.
Qed.

(** Nothing of the log lies beyond the range. *)
Lemma rows_in_all d L session a b l : (forall r, L !! Position r = Some r -> Position r < position_seq d) ->
  position_seq d - 1 <= b -> rows_in L session a b l -> rows_in L session a (position_seq d) l.
Proof.
  intros Hs Hb [Ha Hr]. split; [done|]. intros r. rewrite Hr. split.
  - intros (Hl & Es & Hp). specialize (Hs _ Hl). split; [done|]. split; [done|lia].
  - intros (Hl & Es & Hp). specialize (Hs _ Hl). split; [done|]. split; [done|lia].
Qed.

(** A row beyond the first [n]. *)
Lemma row_beyond L session a b (all : list ChatRow) n : rows_in L session a b all -> take n all <> [] -> (n < length all)%nat ->
  exists r, L !! Position r = Some r /\ SessionID r = session /\ last_position 0 (take n all) < Position r.
Proof.
  intros [Ha Hr] Hne Hn. destruct (lookup_lt_is_Some_2 all n Hn) as [r Er]. exists r.
  assert (r ∈ all) as Hin by by eapply list_elem_of_lookup_2. apply Hr in Hin as (? & ? & _).
  split; [done|]. split; [done|]. rewrite <- (take_drop n all) in Ha. apply ascending_app in Ha as [_ Ha].
  rewrite (last_position_any _ 0) in Ha by done.
  apply (ascending_above _ _ _ Ha), list_elem_of_lookup. exists 0%nat. rewrite lookup_drop, Nat.add_0_r. done.
Qed.

(** The rows of a range under a limit. *)
Lemma next_part_take d L session after b n all more : 0 < n ->
  rows_in L session (after + 1) b all ->
  (forall r, L !! Position r = Some r -> Position r < position_seq d) ->
  (more = false -> (length all <= Z.to_nat n)%nat /\ position_seq d - 1 <= b) ->
  (more = true -> all <> [] /\ ((Z.to_nat n < length all)%nat \/
     exists r, L !! Position r = Some r /\ SessionID r = session /\ b < Position r)) ->
  next_part d L session after n
    (MkPage (take (Z.to_nat n) all) (if more then Position <$> last (take (Z.to_nat n) all) else None) more).
Proof.
  intros Hn Hr Hs Hf Ht. unfold next_part. cbn [pg_Rows pg_HasMore pg_NextPosition].
  set (T := take (Z.to_nat n) all).
  assert (Z.of_nat (length T) <= n) as Hlen by (unfold T; rewrite length_take; lia).
  assert (more = false -> rows_in L session (after + 1) (position_seq d) T) as Hend.
  { intros E. destruct (Hf E) as [H1 H2]. unfold T. rewrite take_ge by done. by eapply rows_in_all. }
  destruct (decide (T = [])) as [E|Hne].
  - assert (all = []) as ->.
    { destruct all as [|y all]; [done|]. unfold T in E. destruct (Z.to_nat n) eqn:Ez; [lia|done]. }
    destruct more; [by destruct (Ht eq_refl)|]. rewrite E in *. cbn. split; [|auto].
    split; [done|]. intros r. split; [by intros ?%elem_of_nil|]. lia.
  - rewrite (last_position_any after 0) by done. unfold T in *.
    pose proof (rows_in_prefix _ _ _ _ _ _ Hr Hne) as Hp. split; [done|]. split; [done|].
    destruct more; [|by auto].
    destruct (last_position_elem 0 _ Hne) as (z & Hz & Ez). apply Hp in Hz as Hz'.
    split; [lia|]. split; [by apply last_row|].
    destruct (Ht eq_refl) as [_ [Hl|(r & ? & ? & ?)]]; [by eapply row_beyond|].
    exists r. split; [done|]. split; [done|].
    assert (z ∈ all) as Hza by (rewrite <- (take_drop (Z.to_nat n) all); set_solver).
    apply Hr in Hza. lia.
Qed.

(** What a snapshot holds. *)
Lemma page_snapshot_ok session after limit e w s w' : page_snapshot uuid_ok channel session after limit e w = (Ok s, w') ->
  let F := select_segments (fun x => String.eqb (se_session x) session && (after <? se_last x)) (db w) in
  let boundary := se_first <$> F !! maxObjectsPerPage in
  1 <= limit /\ s = (take maxObjectsPerPage F, boundary,
    take (S (Z.to_nat limit)) (select_hot (fun r =>
      String.eqb (SessionID r) session && (after <? Position r) && below boundary (Position r)) (db w))).
Proof.
  destruct w as [d wk0 k0]. intros E F boundary. unfold page_snapshot in E. inv_run E. b2p. split; [done|].
  replace (Z.to_nat limit + 1)%nat with (S (Z.to_nat limit)) by lia.
  rewrite take_take, lookup_take_lt by (unfold maxObjectsPerPage; lia). done.
Qed.

Lemma fifth_row d L session after x : gzip_laws gzip gunzip -> sound d L ->
  select_segments (fun x => String.eqb (se_session x) session && (after <? se_last x)) d !! maxObjectsPerPage = Some x ->
  exists r, L !! Position r = Some r /\ SessionID r = session /\ se_first x - 1 < Position r.
Proof.
  intros laws H Hx. apply list_elem_of_lookup_2, elem_of_select_segments in Hx as [[i Hi] Hp]. b2p.
  destruct (sound_segment _ _ _ _ _ H _ _ Hi) as [_ Hx].
  destruct (indexed_item _ _ _ _ laws _ _ _ H Hx) as (l & [_ _ [_ Hl]] & Hb & r & Hr & Er). cbn in *.
  apply Hl in Hr as (? & ? & ?). exists r. split; [done|]. split; [congruence|lia].
Qed.

(** With four segments to read there are rows to return. *)
Lemma items_rows d L session after items G x : Forall (item_ok uuid_ok gzip bucketName d L session) items ->
  gzip_laws gzip gunzip -> sound d L -> x ∈ items.*1 -> after < se_last x -> interleave after items G <> [].
Proof.
  intros Hok laws H Hx Ha. apply list_elem_of_fmap in Hx as ([x' l] & -> & Hx). cbn in *.
  rewrite Forall_forall in Hok. destruct (Hok _ Hx) as [Hi Es [_ Hl]]. cbn in *.
  destruct (indexed_item _ _ _ _ laws _ _ _ H Hi) as (l' & [_ _ Hl'] & _ & r & Hr & Er). cbn in *.
  apply Hl' in Hr as (Hr & Es' & Hp). intros E. apply (not_elem_of_nil r). rewrite <- E.
  apply elem_of_interleave. right. exists x', l. split; [done|]. split; [|lia]. apply Hl. rewrite <- Es. done.
Qed.

(** A page assembled from a snapshot, whatever workers and exporters did
    between the snapshot and the reads of the objects, is exactly the next
    part of the session's chats as of the snapshot: none missing, none twice,
    in order, with a next position exactly when there are more. The only
    errors are the object store's: the checks of the index, of the rows of a
    segment and of their order against the hot rows never fail. *)
Theorem page_exact x y session after limit s e n w e' n' : gzip_laws gzip gunzip -> reach x -> runs x y ->
  page_snapshot uuid_ok channel session after limit e (start (arch x) n) = (Ok s, w) ->
  match page_assemble uuid_ok gunzip bucketName session after limit s e' (start (arch y) n') with
  | (Ok page, _) => next_part (arch x) (log x) session after limit page
  | (Err z, _) => object_error z
  end.
Proof.
  intros laws Hx%reach_inv Hy Es. destruct (runs_later _ _ _ _ _ _ _ _ Hx Hy) as [[H' _ _] He].
  destruct Hx as [H _ _]. apply page_snapshot_ok in Es as [Hlim ->]. cbn [db start].
  set (F := select_segments _ (arch x)). set (boundary := se_first <$> F !! maxObjectsPerPage).
  set (G := select_hot _ (arch x)).
  pose proof (session_spaced _ _ _ _ laws _ _ session after H) as Hsp. fold F in Hsp.
  assert (forall z, z ∈ take maxObjectsPerPage F -> z ∈ F) as Hsub
    by (intros z Hz; rewrite <- (take_drop maxObjectsPerPage F); set_solver).
  assert (forall z, z ∈ F -> after < se_last z /\ indexed uuid_ok gzip bucketName (arch x) (log x) z /\ se_session z = session) as HF.
  { intros z Hz. apply elem_of_select_segments in Hz as [[i Hi] Hp]. b2p.
    by destruct (sound_segment _ _ _ _ _ H _ _ Hi) as [_ Hx]. }
  destruct (spaced_items _ _ _ _ laws _ _ session 0 (take maxObjectsPerPage F) H) as (items & Ei & Hok & Hin);
    [by apply spaced_take|intros z Hz; by apply HF, Hsub|].
  destruct (snapshot_rows _ _ _ _ laws _ _ session after items H Ei Hok Hin) as [Ho Hr]. fold F boundary G in Ho, Hr.
  rewrite <- Ei.
  assert (ascending after G) as Ha by (eapply select_hot_ascending; [done|]; intros r Hrp; by b2p).
  assert (forall z l, (z, l) ∈ items -> after < se_last z) as Hlast.
  { intros z l Hz%elem_items_1. rewrite Ei in Hz. by apply HF, Hsub. }
  pose proof (page_assemble_run _ _ _ _ laws _ _ _ _ session after limit items boundary G after 0 e' (start (arch y) n')
    H H' He eq_refl Hok Hin Ho Ha (or_introl (Z.le_refl _)) Hlast) as Hp. cbn zeta in Hp.
  destruct (page_assemble _ _ _ _ _ _ _ _ _) as [[page|z] w']; [|done]. rewrite Hp; clear Hp.
  apply (next_part_take _ _ _ _ (end_of (arch x) boundary)); [lia|done| | |].
  - intros r Hl. by destruct (sound_row _ _ _ _ _ H _ _ Hl) as (_ & [_ ?] & _).
  - intros [Hb Hn]%orb_false_iff. apply Nat.ltb_ge in Hn. split; [done|].
    destruct boundary; [done|]. cbn. lia.
  - unfold boundary. destruct (F !! maxObjectsPerPage) as [z|] eqn:Ef; cbn.
    + intros _. split; [|right; by eapply fifth_row].
      destruct (lookup_lt_is_Some_2 F 0) as [z0 Hz0]; [apply lookup_lt_Some in Ef; lia|].
      apply (items_rows (arch x) (log x) session after items G z0 Hok laws H).
      * rewrite Ei. apply list_elem_of_lookup. exists 0%nat. by rewrite lookup_take_lt by (unfold maxObjectsPerPage; lia).
      * by apply HF, (list_elem_of_lookup_2 _ 0%nat).
    + intros Hn%Nat.ltb_lt. split; [|by left]. intros E. rewrite E in Hn. cbn in Hn. lia.
Qed.

(** ** Acknowledged chats *)

Lemma session_of_source p c t seq d id : session_of p c t seq d = Some id ->
  exists a, sessions d !! id = Some a /\ as_platform a = p /\ as_channel a = c.
Proof.
  unfold session_of. destruct (find _ _) as [[i a]|] eqn:E; [|done]. intros [= <-].
  apply find_some in E as [E Hs]. apply list_elem_of_In, elem_of_map_to_list in E. exists a.
  unfold same_source in Hs. by b2p.
Qed.

(** What [true] acknowledges. *)
Lemma append_true r e w w' : AppendArchiveChat uuid_ok collectionChannel r e w = (Ok true, w') ->
  exists id a p, sessions (db w') !! id = Some a /\ as_platform a = ar_Platform r /\ as_channel a = ar_ChannelID r /\
    event_ids (db w') !! (id, ar_EventID r) = Some p.
Proof.
  destruct w as [d wk0 k0]. intros E. unfold AppendArchiveChat, position_lock in E. inv_run E.
  match type of E with match ?l with _ => _ end _ _ = _ => destruct l as [|[[[st p] c] seq] [|]] end; inv_run E; try done.
  match goal with H : of_option _ (session_of _ _ _ _ ?d) = Ok ?x |- _ =>
    destruct (session_of _ _ _ _ d) as [id|] eqn:Es; [|done]; injection H as <-;
    destruct (session_of_source _ _ _ _ _ _ Es) as (a' & Ha & Hp & Hc) end.
  match goal with H : insert_event _ _ _ = Ok _ |- _ => unfold insert_event in H; destruct (negb _ || _) eqn:Ep; [done|];
    destruct (event_ids _ !! _) as [q|] eqn:Ev; injection H as <- <- end; inv_run E.
  - exists id, a', q. auto.
  - match goal with H : insert_hot _ _ _ _ = Ok _ |- _ =>
      unfold insert_hot in H; destruct (negb (forallb _ _)) eqn:Et; [done|]; injection H as <- <- end.
    cbn. exists id. eexists. exists (position_seq x). rewrite lookup_alter_eq, Ha, lookup_insert_eq. done.
Qed.

(** An acknowledged chat is kept for good: whatever happens after
    [AppendArchiveChat] reported it stored, a row with its event under a
    session of its channel is hot or in exactly one segment. *)
Theorem acknowledged_kept x y r e n w : reach x -> record_typed r = true -> good_env e ->
  AppendArchiveChat uuid_ok collectionChannel r e (start (arch x) n) = (Ok true, w) ->
  runs (act uuid_ok gzip gunzip collectionChannel channel bucketName (AAppend r) e n x) y ->
  exists row a, sessions (db w) !! SessionID row = Some a /\
    as_platform a = ar_Platform r /\ as_channel a = ar_ChannelID r /\ EventID row = ar_EventID r /\
    log y !! Position row = Some row /\ one_place (arch y) row.
Proof.
  intros Hx Ht He E Hy. destruct (append_true _ _ _ _ E) as (id & a & p & Ha & Hp & Hc & Hv).
  assert (reach (act uuid_ok gzip gunzip collectionChannel channel bucketName (AAppend r) e n x)) as Hx'
    by by apply runs_act.
  apply reach_inv in Hx'. destruct (runs_later _ _ _ _ _ _ _ _ Hx' Hy) as [[H' _ _] [_ [Hs _]]].
  destruct Hx' as [H _ _]. revert H Hs. cbn [act]. rewrite E. cbn [snd move arch log]. intros H Hs.
  apply (sound_event _ _ _ _ _ H) in Hv as (row & Hl & <- & Ev).
  destruct (sound_row _ _ _ _ _ H _ _ Hl) as [<- _]. exists row, a.
  assert (log y !! Position row = Some row) as Hly by by eapply lookup_weaken.
  repeat (split; [done|]). by eapply sound_one_place.
Qed.
End Props.

(** ** A concrete run *)

Module Sample.
Definition uuid_ok (s : string) : bool := (String.length s =? 36)%nat.
Definition gzip (s : string) : string := String "z" s.
Definition gunzip (s : string) : option (string * bool) :=
  match s with String "z" s => Some (s, true) | _ => None end.
Definition id : string := "0a1b2c3d-0000-4000-8000-00000000000f".
Definition now : Z := 1700000000 * second.
Definition quiet_env : env := Env (fun _ => false) (fun _ => false) (fun _ => now + hour) (fun _ => now + hour) (fun _ => id).
Definition on_air : gmap broadcast_key broadcast_row :=
  {[ (now - hour, PlatformSoop, "ch"%string, 1) := BroadcastRow (now - hour) now None None None false ]}.
Definition chat (event : string) : ArchiveChatRecord :=
  MkRecord id event PlatformSoop "ch" now 1
    "aaaaaaaaaaaaaaaaaaaaaaaaaaaaaaaaaaaaaaaaaaaaaaaaaaaaaaaaaaaaaaaa" "name" "hello".
Definition step (a : action) (x : sys) : sys := act uuid_ok gzip gunzip (Some "ch"%string) "ch" "bucket" a quiet_env 0 x.
Definition live : sys := step (ABroadcasts on_air) initial.
Definition first_chat : sys := step (AAppend (chat "e1")) live.
Definition exported : sys := step (AExport minute) first_chat.
Definition second_chat : sys := step (AAppend (chat "e2")) exported.

Lemma laws : gzip_laws gzip gunzip.
Proof. by split. Qed.
Lemma good : good_env quiet_env.
Proof. intros n. vm_compute. done. Qed.
End Sample.
Import Sample.

Notation sample_runs := (runs uuid_ok gzip gunzip (Some "ch"%string) "ch" "bucket").
Lemma live_reached : sample_runs initial live.
Proof. apply runs_act; [apply runs_none|exact good|done]. Qed.
Lemma first_chat_reached : sample_runs initial first_chat.
Proof. apply runs_act; [exact live_reached|exact good|done]. Qed.
Lemma exported_reached : sample_runs initial exported.
Proof. apply runs_act; [exact first_chat_reached|exact good|done]. Qed.
Lemma second_chat_reached : sample_runs initial second_chat.
Proof. apply runs_act; [exact exported_reached|exact good|done]. Qed.

Example sample_states : 
  (size (hot (arch first_chat)), size (segments (arch first_chat))) = (1, 0)%nat /\
  (size (hot (arch second_chat)), size (segments (arch second_chat)), size (log second_chat)) = (1, 1, 2)%nat.
Proof. vm_compute. done. Qed.

Lemma archive_places_witness :
  (forall p r, log second_chat !! p = Some r -> Position r = p /\ one_place (arch second_chat) r) /\
  (forall p q r s, log second_chat !! p = Some r -> log second_chat !! q = Some s ->
     SessionID r = SessionID s -> EventID r = EventID s -> p = q).
Proof. exact (archive_places _ _ _ _ _ _ _ second_chat_reached). Defined.

Lemma page_exact_witness :
  match page_snapshot uuid_ok "ch" id 0 1 quiet_env (start (arch second_chat) 0) with
  | (Ok s, _) =>
      match page_assemble uuid_ok gunzip "bucket" id 0 1 s quiet_env (start (arch second_chat) 0) with
      | (Ok page, _) => next_part (arch second_chat) (log second_chat) id 0 1 page
      | (Err z, _) => object_error z
      end
  | (Err _, _) => False
  end.
Proof.
  destruct (page_snapshot uuid_ok "ch" id 0 1 quiet_env (start (arch second_chat) 0)) as [[s|z] w] eqn:E.
  - exact (page_exact uuid_ok gzip gunzip (Some "ch"%string) "ch" "bucket" second_chat second_chat id 0 1 s quiet_env 0 w
      quiet_env 0 laws second_chat_reached (runs_none _ _ _ _ _ _ _) E).
  - assert (is_ok (page_snapshot uuid_ok "ch" id 0 1 quiet_env (start (arch second_chat) 0)).1 = true) as Hk
      by (vm_compute; reflexivity).
    rewrite E in Hk. discriminate Hk.
Defined.

Lemma acknowledged_kept_witness :
  exists row a, sessions (arch first_chat) !! SessionID row = Some a /\
    as_platform a = PlatformSoop /\ as_channel a = "ch"%string /\ EventID row = "e1"%string /\
    log exported !! Position row = Some row /\ one_place (arch exported) row.
Proof.
  destruct (AppendArchiveChat uuid_ok (Some "ch"%string) (chat "e1") quiet_env (start (arch live) 0)) as [res w] eqn:E.
  assert ((AppendArchiveChat uuid_ok (Some "ch"%string) (chat "e1") quiet_env (start (arch live) 0)).1 = Ok true) as Hr
    by (vm_compute; reflexivity).
  rewrite E in Hr. cbn in Hr. subst res.
  assert (arch first_chat = db w) as Ew.
  { change (arch first_chat) with
      (db (AppendArchiveChat uuid_ok (Some "ch"%string) (chat "e1") quiet_env (start (arch live) 0)).2). by rewrite E. }
  rewrite Ew.
  exact (acknowledged_kept uuid_ok gzip gunzip (Some "ch"%string) "ch" "bucket" live exported (chat "e1") quiet_env 0 w
    live_reached eq_refl good E (runs_act _ _ _ _ _ _ _ (AExport minute) quiet_env 0 _ (runs_none _ _ _ _ _ _ _) good I)).
Defined.

Lemma segment_codec_witness : gzip_laws gzip gunzip /\
  exists s, Build uuid_ok gzip (map snd (rows (hot (arch first_chat)))) = Ok s /\
    Decode uuid_ok gunzip s = Ok (map snd (rows (hot (arch first_chat)))).
Proof.
  split; [exact laws|].
  destruct (Build uuid_ok gzip (map snd (rows (hot (arch first_chat))))) as [s|z] eqn:E.
  - exists s. split; [done|]. apply (segment_codec uuid_ok gzip gunzip laws); [vm_compute; reflexivity|exact E].
  - assert (is_ok (Build uuid_ok gzip (map snd (rows (hot (arch first_chat))))) = true) as Hk by (vm_compute; reflexivity).
    rewrite E in Hk. discriminate Hk.
Defined.
