(* ===== verification/JournalInv.v ===== *)
(** The journal's invariant: what holds of every reachable database, stated
    over the projection of the tables the journal consists of, and its
    preservation by each effect the operations of Journal and Consumer have. *)
From S2P Require Import Prelude GoLib Json Tx Model Db.
From S2P Require Import Ownership Journal Consumer.

(** ** The journal's view of a channel *)

Definition position (d : database) (c : string) : option (string * Z * Z) :=
  (fun r => (cr_generation r, cr_next_offset r, cr_expired_through r)) <$> channels d !! c.

(** What a stored payload says of the row it is in. *)
Definition labelled (g c : string) (dd : Donation.t) : Prop :=
  (Donation.Generation dd = g \/ Donation.Generation dd = coerce g) /\
  Donation.ChannelID dd = coerce c.

Record journal_inv (d : database) : Prop := {
  ji_bounds : forall c g n x, position d c = Some (g, n, x) -> 0 <= x <= n /\ n <= u64_max;
  ji_rows : forall id r, donations d !! id = Some r -> exists n x,
    position d (do_channel r) = Some (do_generation r, n, x) /\
    1 <= do_offset r <= n /\ (do_payload r <> None <-> x < do_offset r);
  ji_unique : forall id1 id2 r1 r2,
    donations d !! id1 = Some r1 -> donations d !! id2 = Some r2 ->
    do_channel r1 = do_channel r2 -> do_offset r1 = do_offset r2 -> id1 = id2;
  ji_complete : forall c g n x o, position d c = Some (g, n, x) -> x < o <= n ->
    exists id r, donations d !! id = Some r /\ do_channel r = c /\ do_offset r = o;
  ji_payload : forall id r j, donations d !! id = Some r -> do_payload r = Some j ->
    j <> JNull /\ exists dd, Donation.unmarshal j Donation.zero = Some dd /\
    Donation.Offset dd = do_offset r /\ Donation.EventID dd = coerce id /\
    labelled (do_generation r) (do_channel r) dd;
  ji_consumers : forall k c r, consumers d !! (k, c) = Some r -> exists g n x,
    position d c = Some (g, n, x) /\ 0 <= co_baseline r <= co_offered r /\ co_offered r <= n /\
    (forall a, co_ack r = Some a -> co_baseline r < a <= co_offered r) /\
    0 <= co_revision r <= u64_max;
  ji_outbox : forall id o, outbox d !! id = Some o ->
    exists r, donations d !! id = Some r /\ do_channel r = ob_channel o
}.

Lemma journal_inv_empty : journal_inv empty_db.
Proof. split; intros *; unfold position; simpl; rewrite ?lookup_empty; done. Qed.

(** Effects outside the journal's projection. *)
Lemma journal_inv_frame d d' :
  (forall c, position d' c = position d c) -> donations d' = donations d ->
  consumers d' = consumers d -> outbox d' = outbox d ->
  journal_inv d -> journal_inv d'.
Proof.
  intros Hp Hd Hc Ho [I1 I2 I3 I4 I5 I6 I7].
  split; intros *; rewrite ?Hp, ?Hd, ?Hc, ?Ho; eauto.
Qed.

Lemma position_update_channel k f d c :
  (forall r, cr_generation (f r) = cr_generation r /\ cr_next_offset (f r) = cr_next_offset r /\
             cr_expired_through (f r) = cr_expired_through r) ->
  position (update_channel k f d) c = position d c.
Proof.
  intros Hf. unfold position, update_channel; simpl. rewrite lookup_alter.
  case_decide as E; [subst c|done]. destruct (channels d !! k) as [r|]; simpl; [|done].
  destruct (Hf r) as (-> & -> & ->). done.
Qed.

Lemma lookup_update_channel k f d c :
  channels (update_channel k f d) !! c = if decide (k = c) then f <$> channels d !! c else channels d !! c.
Proof. unfold update_channel; simpl. rewrite lookup_alter. case_decide; by subst. Qed.

Lemma journal_inv_update_channel k f d :
  (forall r, cr_generation (f r) = cr_generation r /\ cr_next_offset (f r) = cr_next_offset r /\
             cr_expired_through (f r) = cr_expired_through r) ->
  journal_inv d -> journal_inv (update_channel k f d).
Proof. intros Hf. apply journal_inv_frame; try done. intros. by apply position_update_channel. Qed.

Lemma journal_inv_set_grants f d : journal_inv d -> journal_inv (set_grants f d).
Proof. by apply journal_inv_frame. Qed.
Lemma journal_inv_set_requests f d : journal_inv d -> journal_inv (set_requests f d).
Proof. by apply journal_inv_frame. Qed.
Lemma journal_inv_set_audit f d : journal_inv d -> journal_inv (set_audit f d).
Proof. by apply journal_inv_frame. Qed.
#[export] Hint Resolve journal_inv_set_grants journal_inv_set_requests journal_inv_set_audit
  journal_inv_update_channel : collector.

(** ** One lemma per effect *)

Lemma journal_inv_new_channel c g now d : channels d !! c = None -> journal_inv d ->
  journal_inv (set_channel c (ChannelRow g 0 0 true None "waiting" now None) d).
Proof.
  intros Hn [I1 I2 I3 I4 I5 I6 I7].
  assert (forall c', position (set_channel c (ChannelRow g 0 0 true None "waiting" now None) d) c'
      = if decide (c = c') then Some (g, 0, 0) else position d c') as Hp.
  { intros c'. unfold position, set_channel; simpl. rewrite lookup_insert. by case_decide. }
  assert (position d c = None) as Hc by (unfold position; by rewrite Hn).
  split; intros *; rewrite ?Hp; simpl.
  - case_decide; [|apply I1]. intros [= <- <- <-]. unfold u64_max. lia.
  - intros H. destruct (I2 _ _ H) as (n & x & H1 & H2). exists n, x.
    rewrite ?Hp. case_decide; [congruence|done].
  - apply I3.
  - case_decide; [|apply I4]. intros [= <- <- <-]. lia.
  - apply I5.
  - intros H. destruct (I6 _ _ _ H) as (g' & n & x & H1 & H2). exists g', n, x.
    rewrite ?Hp. case_decide; [congruence|done].
  - apply I7.
Qed.

(** The append: one more row at the next position. *)
Definition appended (id key : string) (dd : Donation.t) (j : json) (t1 t2 : Z) (d : database)
  : database :=
  let c := Donation.ChannelID dd in
  update_channel c (with_received (Donation.Offset dd) (Donation.ObservedAt dd))
    (set_outbox (insert id (OutboxRow c t2))
      (set_donations (insert id (DonationRow c (Donation.Generation dd) (Donation.Offset dd) key
         (Donation.ConnectionEpoch dd) (Donation.ObservedAt dd) (Some j) t1)) d)).

Lemma journal_inv_appended id key dd j t1 t2 d n x :
  position d (Donation.ChannelID dd) = Some (Donation.Generation dd, n, x) ->
  Donation.Offset dd = n + 1 -> n < u64_max -> donations d !! id = None ->
  (j <> JNull /\ exists dj, Donation.unmarshal j Donation.zero = Some dj /\
     Donation.Offset dj = Donation.Offset dd /\ Donation.EventID dj = coerce id /\
     labelled (Donation.Generation dd) (Donation.ChannelID dd) dj) ->
  journal_inv d -> journal_inv (appended id key dd j t1 t2 d).
Proof.
  intros Hpos Hoff Hmax Hid Hj [I1 I2 I3 I4 I5 I6 I7].
  set (c := Donation.ChannelID dd) in *.
  assert (forall c', position (appended id key dd j t1 t2 d) c' =
      if decide (c = c') then Some (Donation.Generation dd, n + 1, x) else position d c') as Hp.
  { intros c'. unfold appended, position. fold c. rewrite lookup_update_channel; simpl.
    case_decide as E; [subst c'|done]. unfold position in Hpos.
    destruct (channels d !! c) as [r|]; simpl in *; [|done]. unfold with_received; simpl.
    injection Hpos as E1 E2 E3. by rewrite E1, E3, Hoff. }
  destruct (I1 _ _ _ _ Hpos) as [B1 B2].
  split; intros *; rewrite ?Hp; unfold appended; fold c; simpl.
  - case_decide; [|apply I1]. intros [= <- <- <-]. lia.
  - rewrite lookup_insert_Some. intros [[<- <-]|[Hne H]]; simpl.
    + exists (n + 1), x. rewrite ?Hp. rewrite decide_True by done.
      split; [done|]. split; [lia|]. split; [lia|done].
    + destruct (I2 _ _ H) as (n' & x' & H1 & H2 & H3). rewrite ?Hp.
      case_decide as E; [|eauto]. rewrite <- E in H1.
      rewrite Hpos in H1. injection H1 as H1 <- <-. exists (n + 1), x. rewrite H1.
      split; [done|]. split; [lia|done].
  - rewrite !lookup_insert_Some. intros [[<- <-]|[Hn1 H1]] [[<- <-]|[Hn2 H2]]; simpl; intros E1 E2.
    + done.
    + exfalso. destruct (I2 _ _ H2) as (n' & x' & P & Q & _). rewrite <- E1, Hpos in P.
      injection P as _ <- <-. lia.
    + exfalso. destruct (I2 _ _ H1) as (n' & x' & P & Q & _). rewrite E1, Hpos in P.
      injection P as _ <- <-. lia.
    + eauto.
  - case_decide as E.
    + intros [= <- <- <-] Ho. subst c0. destruct (decide (o = n + 1)) as [->|].
      * exists id, (DonationRow c (Donation.Generation dd) (Donation.Offset dd) key
         (Donation.ConnectionEpoch dd) (Donation.ObservedAt dd) (Some j) t1).
        by rewrite lookup_insert_eq.
      * destruct (I4 _ _ _ _ o Hpos) as (id' & r & H1 & H2); [lia|].
        exists id', r. rewrite lookup_insert_ne by congruence. done.
    + intros H Ho. destruct (I4 _ _ _ _ o H Ho) as (id' & r & H1 & H2).
      exists id', r. rewrite lookup_insert_ne by congruence. done.
  - rewrite lookup_insert_Some. intros [[<- <-]|[Hne H]]; simpl; [|eauto].
    intros [= <-]. done.
  - intros H. destruct (I6 _ _ _ H) as (g' & n' & x' & H1 & H2 & H3 & H4 & H5).
    rewrite ?Hp. case_decide as E; [|eauto 10]. subst c0. rewrite Hpos in H1.
    injection H1 as <- <- <-. exists (Donation.Generation dd), (n + 1), x. auto with lia.
  - rewrite !lookup_insert_Some. intros [[<- <-]|[Hne H]]; simpl.
    + eexists. by rewrite lookup_insert_eq.
    + destruct (I7 _ _ H) as (r & H1 & H2). exists r. by rewrite lookup_insert_ne.
Qed.

(** Retention: payloads up to [through] go, the position moves. *)
Lemma journal_inv_expired c g n x through d :
  position d c = Some (g, n, x) -> x <= through <= n ->
  journal_inv d ->
  journal_inv (update_channel c (with_expired through) (drop_through c g through d)).
Proof.
  intros Hpos Ht [I1 I2 I3 I4 I5 I6 I7].
  assert (forall c', position (update_channel c (with_expired through) (drop_through c g through d)) c'
     = if decide (c = c') then Some (g, n, through) else position d c') as Hp.
  { intros c'. unfold position. rewrite lookup_update_channel; simpl.
    case_decide as E; [subst c'|done]. unfold position in Hpos.
    destruct (channels d !! c) as [r|]; simpl in *; [|done]. congruence. }
  destruct (I1 _ _ _ _ Hpos) as [B1 B2].
  assert (forall id r', donations (update_channel c (with_expired through) (drop_through c g through d)) !! id
     = Some r' -> exists r, donations d !! id = Some r /\ do_channel r' = do_channel r /\
       do_offset r' = do_offset r /\ do_generation r' = do_generation r /\
       do_payload r' = if String.eqb (do_channel r) c && String.eqb (do_generation r) g
                          && (do_offset r <=? through) then None else do_payload r) as Hd.
  { intros id r'. simpl. rewrite lookup_update_where_Some. intros (r & H & ->).
    exists r. by destruct (_ && _). }
  split; intros *; rewrite ?Hp.
  - case_decide; [|apply I1]. intros [= <- <- <-]. lia.
  - intros (r0 & H & -> & Ho & -> & ->)%Hd. destruct (I2 _ _ H) as (n' & x' & H1 & H2 & H3).
    rewrite ?Hp, ?Ho. case_decide as E.
    + rewrite <- E in H1. rewrite Hpos in H1. injection H1 as Hg <- <-. exists n, through.
      rewrite Hg. split; [done|]. split; [done|].
      rewrite <- E, !String.eqb_refl; simpl.
      destruct (do_offset r0 <=? through) eqn:El; b2p; [split; [done|lia]|].
      rewrite H3. lia.
    + exists n', x'. split; [done|]. split; [done|].
      destruct (String.eqb (do_channel r0) c) eqn:El; [|done].
      apply String.eqb_eq in El. congruence.
  - intros (r0 & H & -> & -> & _)%Hd (r0' & H' & -> & -> & _)%Hd. eauto.
  - intros H Ho.
    assert (exists id r, donations d !! id = Some r /\ do_channel r = c0 /\ do_offset r = o)
      as (id & r & H1 & H2 & H3).
    { case_decide; [|eauto]. injection H as <- <- <-. subst c0. eapply I4; [done|lia]. }
    simpl. setoid_rewrite lookup_update_where. exists id. rewrite H1; simpl.
    eexists. split; [done|]. by destruct (_ && _).
  - intros (r0 & H & Hc & Ho & Hg & Hq)%Hd. rewrite Hq, Ho, Hg, Hc. destruct (_ && _); [done|]. eauto.
  - intros H. destruct (I6 _ _ _ H) as (g' & n' & x' & H1 & H2).
    rewrite ?Hp. case_decide as E; [|eauto]. subst c0. rewrite Hpos in H1.
    injection H1 as <- <- <-. eauto 10.
  - intros H. destruct (I7 _ _ H) as (r & H1 & H2). simpl. rewrite lookup_update_where, H1; simpl.
    eexists. split; [done|]. by destruct (_ && _).
Qed.

(** Purging a row without payload nobody is told about any more. *)
Lemma journal_inv_purge_rows p d :
  (forall id r, donations d !! id = Some r -> p id r = true ->
     do_payload r = None /\ outbox d !! id = None) ->
  journal_inv d -> journal_inv (set_donations (delete_where p) d).
Proof.
  intros Hp [I1 I2 I3 I4 I5 I6 I7]. split; intros *; simpl;
    rewrite ?lookup_delete_where_Some.
  - apply I1.
  - intros [H _]. apply (I2 _ _ H).
  - intros [H1 _] [H2 _]. eauto.
  - intros H Ho. destruct (I4 _ _ _ _ _ H Ho) as (id & r & H1 & H2 & H3).
    exists id, r. rewrite lookup_delete_where_Some. split; [|done]. split; [done|].
    destruct (p id r) eqn:E; [|done]. exfalso.
    destruct (Hp _ _ H1 E) as [Hpay _]. destruct (I2 _ _ H1) as (n' & x' & Q1 & _ & Q2).
    change (position (set_donations (delete_where p) d) c) with (position d c) in H.
    rewrite H2, H in Q1. injection Q1 as _ <- <-. rewrite Hpay in Q2. apply Q2; [|done]. lia.
  - intros [H _]. eauto.
  - apply I6.
  - intros H. destruct (I7 _ _ H) as (r & H1 & H2). exists r.
    rewrite lookup_delete_where_Some. split; [|done]. split; [done|].
    destruct (p id r) eqn:E; [|done]. destruct (Hp _ _ H1 E). congruence.
Qed.

Lemma journal_inv_outbox_subset m d :
  m ⊆ outbox d -> journal_inv d -> journal_inv (set_outbox (fun _ => m) d).
Proof.
  intros Hs [I1 I2 I3 I4 I5 I6 I7]. split; intros *; simpl.
  - apply I1.
  - apply I2.
  - apply I3.
  - apply I4.
  - apply I5.
  - apply I6.
  - intros H. eapply I7, lookup_weaken, Hs. done.
Qed.

(** The restore: a new generation for the channel, its rows and payloads. *)
Lemma journal_inv_rotated c old next now d n x :
  position d c = Some (old, n, x) -> journal_inv d ->
  journal_inv (update_channel c (with_generation next now)
    (set_donations (update_where (fun _ r => String.eqb (do_channel r) c
       && String.eqb (do_generation r) old) (regenerate next)) d)).
Proof.
  intros Hpos [I1 I2 I3 I4 I5 I6 I7].
  set (d' := update_channel _ _ _).
  assert (forall c', position d' c' = if decide (c = c') then Some (next, n, x) else position d c') as Hp.
  { intros c'. unfold position, d'. rewrite lookup_update_channel; simpl.
    case_decide as E; [subst c'|done]. unfold position in Hpos.
    destruct (channels d !! c) as [r|]; simpl in *; [|done]. congruence. }
  assert (forall id r', donations d' !! id = Some r' -> exists r, donations d !! id = Some r /\
     do_channel r' = do_channel r /\ do_offset r' = do_offset r /\
     ((do_channel r = c /\ do_generation r' = next /\
       do_payload r' = (fun j => set_field j "journalGeneration" (JStr next)) <$> do_payload r)
      \/ (do_channel r <> c /\ r' = r))) as Hd.
  { intros id r'. unfold d'; simpl. rewrite lookup_update_where_Some. intros (r & H & ->).
    exists r. destruct (I2 _ _ H) as (n' & x' & H1 & _).
    destruct (String.eqb (do_channel r) c) eqn:E.
    - apply String.eqb_eq in E. rewrite E, Hpos in H1. injection H1 as -> _ _.
      rewrite String.eqb_refl; simpl. eauto 10.
    - apply String.eqb_neq in E. simpl. eauto 10. }
  split; intros *; rewrite ?Hp.
  - case_decide; [|apply I1]. intros [= <- <- <-]. apply (I1 _ _ _ _ Hpos).
  - intros (r0 & H & -> & -> & HH)%Hd. destruct (I2 _ _ H) as (n' & x' & H1 & H2 & H3).
    rewrite ?Hp. destruct HH as [(E & -> & ->)|(E & ->)].
    + rewrite decide_True by done. exists n, x. rewrite E, Hpos in H1. injection H1 as _ <- <-.
      split; [done|]. split; [done|]. rewrite <- H3. by destruct (do_payload r0).
    + rewrite decide_False by congruence. eauto.
  - intros (r0 & H & -> & -> & _)%Hd (r0' & H' & -> & -> & _)%Hd. eauto.
  - intros H Ho.
    assert (exists id r, donations d !! id = Some r /\ do_channel r = c0 /\ do_offset r = o)
      as (id & r & H1 & H2 & H3).
    { case_decide; [|eauto]. injection H as <- <- <-. subst c0. eapply I4; [done|lia]. }
    unfold d'; simpl. setoid_rewrite lookup_update_where. exists id. rewrite H1; simpl.
    eexists. split; [done|]. by destruct (_ && _).
  - intros (r0 & H & Hc & -> & HH)%Hd. destruct HH as [(E & Hg & ->)|(E & ->)]; [|eauto].
    destruct (do_payload r0) as [j0|] eqn:E0; [|done]. intros [= <-].
    destruct (I5 _ _ _ H E0) as (Hn & dd & U & U1 & U2 & _ & U3).
    split; [by destruct j0|].
    exists (Donation.with_generation next dd).
    rewrite (Donation.unmarshal_set_generation _ _ _ _ U Hn). rewrite Hg, Hc.
    unfold labelled; simpl. repeat split; auto.
  - intros H. destruct (I6 _ _ _ H) as (g' & n' & x' & H1 & H2).
    rewrite ?Hp. case_decide as E; [|eauto]. subst c0. rewrite Hpos in H1.
    injection H1 as <- <- <-. eauto 10.
  - intros H. destruct (I7 _ _ H) as (r & H1 & H2). unfold d'; simpl.
    rewrite lookup_update_where, H1; simpl. eexists. split; [done|]. by destruct (_ && _).
Qed.

(** Consumer rows. *)
Definition consumer_wf (n : Z) (r : consumer_row) : Prop :=
  0 <= co_baseline r <= co_offered r /\ co_offered r <= n /\
  (forall a, co_ack r = Some a -> co_baseline r < a <= co_offered r) /\
  0 <= co_revision r <= u64_max.

Lemma journal_inv_consumer k c r g n x d :
  position d c = Some (g, n, x) -> consumer_wf n r ->
  journal_inv d -> journal_inv (set_consumers (insert (k, c) r) d).
Proof.
  intros Hpos Hr [I1 I2 I3 I4 I5 I6 I7]. split; intros *; simpl.
  - apply I1.
  - apply I2.
  - apply I3.
  - apply I4.
  - apply I5.
  - rewrite lookup_insert_Some. intros [[E <-]|[_ H]]; [|apply (I6 _ _ _ H)].
    injection E as <- <-. exists g, n, x. split; [exact Hpos|]. exact Hr.
  - apply I7.
Qed.

Lemma consumer_row_wf d k c r g n x :
  journal_inv d -> consumers d !! (k, c) = Some r -> position d c = Some (g, n, x) ->
  consumer_wf n r.
Proof.
  intros I H Hp. destruct (ji_consumers _ I _ _ _ H) as (g' & n' & x' & H1 & H2).
  rewrite Hp in H1. injection H1 as <- <- <-. exact H2.
Qed.
