(* ===== verification/JournalRun.v ===== *)
(** Reading the journal: in a database satisfying the invariant the query
    returns exactly the next offsets, in order, and every row decodes. What
    each journal operation does when it succeeds, that it does nothing when it
    fails, and the runs of the store: sequences of operations by workers,
    consumers and maintenance, under any driver failures. *)
From S2P Require Import Prelude GoLib Json Tx Model Db.
From S2P Require Import Ownership Journal Consumer JournalInv.

#[export] Instance by_offset_total : Total by_offset.
Proof. intros a b. unfold by_offset. lia. Qed.
#[export] Instance by_offset_trans : Transitive by_offset.
Proof. intros a b c. unfold by_offset. lia. Qed.

Lemma strictly_sorted_map {A} (R : A -> A -> Prop) (f : A -> Z) (l : list A) :
  (forall a b, R a b -> f a <= f b) -> NoDup (map f l) ->
  StronglySorted R l -> StronglySorted Z.lt (map f l).
Proof.
  intros HR Hn Hs. induction Hs as [|a l Hs IH Ha]; simpl in *; constructor.
  - apply IH. by inversion Hn.
  - apply NoDup_cons in Hn as [Hni _]. rewrite Forall_forall in Ha. apply Forall_forall.
    intros y (b & -> & Hb)%list_elem_of_fmap. specialize (HR _ _ (Ha _ Hb)).
    assert (f a <> f b); [|lia]. intros E. apply Hni. rewrite E.
    apply list_elem_of_fmap. eauto.
Qed.


Lemma sorted_filter (l : list Z) (p : Z -> bool) :
  StronglySorted Z.lt l -> StronglySorted Z.lt (List.filter p l).
Proof.
  induction 1 as [|x l Hs IH Hx]; simpl; [constructor|].
  destruct (p x); [|done]. constructor; [done|]. rewrite Forall_forall in Hx. apply Forall_forall.
  intros y Hy. apply Hx. apply list_elem_of_In, filter_In in Hy as [Hy _].
  by apply list_elem_of_In.
Qed.

Lemma map_filter {A} (f : A -> Z) (p : Z -> bool) (l : list A) :
  map f (List.filter (fun a => p (f a)) l) = List.filter p (map f l).
Proof. induction l as [|a l IH]; simpl; [done|]. destruct (p (f a)); simpl; by rewrite IH. Qed.

Lemma retained_spec c g r :
  retained c g r = true <-> do_channel r = c /\ do_generation r = g /\ do_payload r <> None.
Proof.
  unfold retained. rewrite !andb_true_iff, !String.eqb_eq.
  destruct (do_payload r); intuition congruence.
Qed.

(** The row a donation was read from. *)
Definition read_from (p : string * donation_row) (dd : Donation.t) : Prop :=
  exists j, do_payload p.2 = Some j /\ Donation.unmarshal j Donation.zero = Some dd.

Section Read.
Context (d : database) (I : journal_inv d) (c g : string) (n x : Z).
Context (Hpos : position d c = Some (g, n, x)).

Lemma elem_select_retained id r :
  (id, r) ∈ select_retained c g d <->
  donations d !! id = Some r /\ do_channel r = c /\ x < do_offset r <= n.
Proof.
  unfold select_retained. rewrite merge_sort_Permutation, list_elem_of_In, filter_In.
  rewrite <- list_elem_of_In, retained_spec. unfold rows. rewrite elem_of_map_to_list.
  split.
  - intros (H & Hc & Hg & Hp). destruct (ji_rows _ I _ _ H) as (n' & x' & H1 & H2 & H3).
    rewrite Hc, Hpos in H1. injection H1 as _ <- <-. apply H3 in Hp. auto with lia.
  - intros (H & Hc & Ho). destruct (ji_rows _ I _ _ H) as (n' & x' & H1 & H2 & H3).
    rewrite Hc, Hpos in H1. injection H1 as Hg <- <-. repeat split; auto. apply H3. lia.
Qed.

Lemma select_retained_nodup : NoDup (map (fun p => do_offset p.2) (select_retained c g d)).
Proof.
  assert (NoDup (select_retained c g d)) as Hn.
  { unfold select_retained. rewrite merge_sort_Permutation.
    apply NoDup_ListNoDup, List.NoDup_filter, NoDup_ListNoDup, NoDup_map_to_list. }
  apply NoDup_ListNoDup in Hn. apply NoDup_ListNoDup.
  assert (forall p, In p (select_retained c g d) -> p ∈ select_retained c g d) as Hin
    by (intros; by apply list_elem_of_In).
  revert Hn Hin. generalize (select_retained c g d) at 1 2 4. intros l.
  induction l as [|[id r] l IH]; simpl; intros Hn Hin; constructor.
  - intros ([id' r'] & E & H')%in_map_iff. simpl in E. inversion Hn; subst.
    pose proof (Hin _ (or_introl eq_refl)) as P0%elem_select_retained.
    pose proof (Hin _ (or_intror H')) as P1%elem_select_retained.
    destruct_ex. assert (id = id') as <- by (eapply (ji_unique _ I); eauto; congruence).
    assert (r = r') as <- by congruence. done.
  - inversion Hn; subst. apply IH; auto.
Qed.

Lemma select_retained_offsets :
  map (fun p => do_offset p.2) (select_retained c g d) = zseq (x + 1) (Z.to_nat (n - x)).
Proof.
  destruct (ji_bounds _ I _ _ _ _ Hpos) as [B1 B2].
  apply sorted_interval; [|lia|].
  - eapply strictly_sorted_map; [|apply select_retained_nodup|].
    + intros a b H. exact H.
    + apply Sorted_StronglySorted; [apply _|]. unfold select_retained. apply Sorted_merge_sort, _.
  - intros o. rewrite list_elem_of_fmap. split.
    + intros ([id r] & -> & H%elem_select_retained). simpl. lia.
    + intros Ho. destruct (ji_complete _ I _ _ _ _ o Hpos Ho) as (id & r & H1 & H2 & H3).
      exists (id, r). split; [done|]. apply elem_select_retained. subst. auto.
Qed.

Definition after_rows (after : Z) : list (string * donation_row) :=
  List.filter (fun '(_, r) => after <? do_offset r) (select_retained c g d).

Lemma after_rows_offsets after : x <= after <= n ->
  map (fun p => do_offset p.2) (after_rows after) = zseq (after + 1) (Z.to_nat (n - after)).
Proof.
  intros Ha. unfold after_rows.
  rewrite (filter_ext _ (fun p => after <? do_offset p.2)) by (by intros []).
  rewrite (map_filter (fun p => do_offset p.2) (fun o => after <? o)), select_retained_offsets.
  apply sorted_interval; [apply sorted_filter, zseq_sorted|lia|].
  intros o. rewrite list_elem_of_In, filter_In, <- list_elem_of_In, elem_of_zseq, Z.ltb_lt. lia.
Qed.

Lemma after_rows_payload after p : p ∈ after_rows after ->
  exists j dd, do_payload p.2 = Some j /\ Donation.unmarshal j Donation.zero = Some dd /\
    Donation.Offset dd = do_offset p.2 /\ Donation.EventID dd = coerce p.1 /\ labelled g c dd.
Proof.
  destruct p as [id r]. unfold after_rows.
  rewrite list_elem_of_In, filter_In, <- list_elem_of_In, elem_select_retained.
  intros [(H & Hc & Ho) _]. simpl.
  destruct (ji_rows _ I _ _ H) as (n' & x' & H1 & H2 & H3).
  rewrite Hc, Hpos in H1. injection H1 as Hg <- <-.
  destruct (do_payload r) as [j|] eqn:E; [|exfalso; apply H3; [lia|done]].
  destruct (ji_payload _ I _ _ _ H E) as (_ & dd & U). rewrite Hc, <- Hg in U.
    exists j, dd. tauto.
Qed.

Lemma read_rows_run l after acc :
  (forall p, p ∈ l -> exists j dd, do_payload p.2 = Some j /\
     Donation.unmarshal j Donation.zero = Some dd /\
     Donation.Offset dd = do_offset p.2 /\ Donation.EventID dd = coerce p.1 /\ labelled g c dd) ->
  map (fun p => do_offset p.2) l = zseq (after + 1) (length l) ->
  0 <= after -> after + Z.of_nat (length l) <= u64_max ->
  exists ds, read_rows after acc (omap (fun '(_, r) => do_payload r) l)
      = Ok (after + Z.of_nat (length l), acc ++ ds) /\
    map Donation.Offset ds = zseq (after + 1) (length l) /\
    map Donation.EventID ds = map (fun p => coerce p.1) l /\ Forall (labelled g c) ds /\
    Forall2 read_from l ds.
Proof.
  revert after acc; induction l as [|[id r] l IH]; intros after acc Hl Ho H0 Hm; simpl in *.
  - exists []. rewrite app_nil_r, Z.add_0_r. repeat split; constructor.
  - injection Ho as Ho1 Ho2.
    destruct (Hl (id, r)) as (j & dd & E1 & E2 & E3 & E4 & E5); [by left|]. simpl in *.
    rewrite E1. simpl. rewrite E2, E3, Ho1, u64_succ, Z.eqb_refl by lia.
    destruct (IH (after + 1) (acc ++ [dd])) as (ds & R1 & R2 & R3 & R4 & R5);
      [intros; apply Hl; by right|by rewrite Ho2|lia|lia|].
    exists (dd :: ds). unfold omap in R1. rewrite R1. simpl. rewrite R2, R3, E3, E4, <- app_assoc, Ho1.
    split; [f_equal; f_equal; lia|]. split; [done|]. split; [done|].
    split; [by constructor|]. constructor; [by exists j|done].
Qed.

Lemma take_omap_payload k l :
  (forall p, p ∈ l -> exists j, do_payload (p : string * donation_row).2 = Some j) ->
  take k (omap (fun '(_, r) => do_payload r) l) = omap (fun '(_, r) => do_payload r) (take k l).
Proof.
  revert k; induction l as [|[id r] l IH]; intros [|k] Hl; simpl; try done.
  destruct (Hl (id, r)) as [j E]; [by left|]. simpl in E. rewrite E. simpl.
  rewrite IH; [done|]. intros; apply Hl; by right.
Qed.

(** The page after [after]: exactly the next offsets, up to [limit]. *)
Lemma read_page after limit : x <= after <= n -> 0 < limit ->
  exists ds, read_rows after [] (select_after c g after limit d)
      = Ok (after + Z.min limit (n - after), ds) /\
    map Donation.Offset ds = zseq (after + 1) (Z.to_nat (Z.min limit (n - after))) /\
    map Donation.EventID ds =
      map (fun p => coerce p.1) (take (Z.to_nat limit) (after_rows after)) /\
    Forall (labelled g c) ds /\ Forall2 read_from (take (Z.to_nat limit) (after_rows after)) ds.
Proof.
  intros Ha Hl. destruct (ji_bounds _ I _ _ _ _ Hpos) as [B1 B2].
  unfold select_after. fold (after_rows after).
  rewrite take_omap_payload.
  2:{ intros p Hp. destruct (after_rows_payload after p Hp) as (j & dd & E & _). eauto. }
  pose proof (after_rows_offsets after Ha) as Ho.
  assert (length (after_rows after) = Z.to_nat (n - after)) as Hlen.
  { apply (f_equal length) in Ho. by rewrite length_map, zseq_length in Ho. }
  set (k := Z.to_nat limit) in *.
  destruct (read_rows_run (take k (after_rows after)) after []) as (ds & R1 & R2 & R3 & R4 & R5).
  - intros p Hp%elem_of_take. destruct Hp as (i & Hp & _).
    apply (after_rows_payload after). by eapply list_elem_of_lookup_2.
  - rewrite <- firstn_map, Ho, take_zseq, length_take, Hlen. done.
  - lia.
  - rewrite length_take, Hlen. lia.
  - rewrite length_take, Hlen in R1, R2. exists ds.
    replace (Z.of_nat (k `min` Z.to_nat (n - after))) with (Z.min limit (n - after)) in R1 by lia.
    replace (Z.to_nat (Z.min limit (n - after))) with (k `min` Z.to_nat (n - after))%nat by lia.
    simpl in R1. auto.
Qed.
End Read.

(** ** Small computations *)

Lemma scan_position channel t d c : journal_inv d -> scanCollection channel t d = Ok c ->
  position d channel = Some (Generation c, Current c, ExpiredThrough c) /\ Channel c = channel.
Proof.
  intros I H. apply scanCollection_ok in H as (r & H & H0 & H1 & _ & H2 & H3).
  split; [|done]. unfold position. rewrite H; simpl.
  destruct (ji_bounds _ I channel (cr_generation r) (cr_next_offset r) (cr_expired_through r)).
  { unfold position. by rewrite H. }
  rewrite parseNum_format in H2, H3 by lia. congruence.
Qed.

Lemma scan_run d c g n x t : journal_inv d -> position d c = Some (g, n, x) ->
  exists col, scanCollection c t d = Ok col /\ Channel col = c /\ Generation col = g /\
    Current col = n /\ ExpiredThrough col = x.
Proof.
  intros I Hp. destruct (ji_bounds _ I _ _ _ _ Hp) as [B1 B2].
  unfold scanCollection. unfold position in Hp.
  destruct (channels d !! c) as [r|]; simpl in *; [|done]. injection Hp as E1 E2 E3.
  rewrite E2, E3, !parseNum_format by lia. simpl. eauto 10.
Qed.

Lemma progress_ok d k c r : journal_inv d -> consumers d !! (k, c) = Some r ->
  progress_of r =
  Ok (MkProgress (co_generation r) (co_baseline r) (co_offered r) (co_ack r) (co_revision r)).
Proof.
  intros I H. destruct (ji_consumers _ I _ _ _ H) as (g & n & x & Hp & H1 & H2 & H3 & H4).
  destruct (ji_bounds _ I _ _ _ _ Hp) as [B1 B2].
  unfold progress_of. rewrite !parseNum_format by lia. simpl.
  destruct (co_ack r) as [a|] eqn:E; [|done]. specialize (H3 _ eq_refl).
  rewrite parseNum_format by lia. done.
Qed.

Lemma progressTX_ok consumer channel e s p s' : journal_inv (wk s) ->
  progressTX consumer channel e s = (Ok p, s') ->
  s' = bump s /\ exists r, consumers (wk s) !! (consumer, channel) = Some r /\
  p = MkProgress (co_generation r) (co_baseline r) (co_offered r) (co_ack r) (co_revision r).
Proof.
  intros I H. unfold progressTX in H. inv_run H. split; [done|].
  match goal with H : _ = Ok p |- _ => apply result_bind_ok in H as (r & H1 & H2) end.
  destruct (consumers (wk s) !! (consumer, channel)) as [r'|] eqn:E; [|done].
  injection H1 as ->. rewrite (progress_ok _ _ _ _ I E) in H2. injection H2 as <-. eauto.
Qed.

Lemma quiet_progressTX consumer channel : quiet (progressTX consumer channel).
Proof. unfold progressTX. frame_solve. Qed.
Lemma forward_progressTX consumer channel : forward (progressTX consumer channel).
Proof. unfold progressTX. frame_solve. Qed.
Lemma quiet_requestResult a b c d f : quiet (requestResult a b c d f).
Proof. unfold requestResult. frame_solve. Qed.
Lemma forward_requestResult a b c d f : forward (requestResult a b c d f).
Proof. unfold requestResult. frame_solve. Qed.
Lemma quiet_saveRequest a b c d f g : quiet (saveRequest a b c d f g).
Proof. apply quiet_exec. Qed.
Lemma forward_saveRequest a b c d f g : forward (saveRequest a b c d f g).
Proof. apply forward_exec. Qed.
Lemma quiet_classify d k : quiet (classify d k).
Proof. unfold classify. frame_solve. Qed.
Lemma forward_classify d k : forward (classify d k).
Proof. unfold classify. frame_solve. Qed.
Lemma quiet_expire_loop c g a b m l th tot : quiet (expire_loop c g a b m th tot l).
Proof. revert th tot; induction l; intros; simpl; frame_solve. Qed.
Lemma forward_expire_loop c g a b m l th tot : forward (expire_loop c g a b m th tot l).
Proof. revert th tot; induction l; intros; simpl; frame_solve. Qed.
Lemma local_progressTX consumer channel : local (progressTX consumer channel).
Proof. unfold progressTX. frame_solve. Qed.
Lemma local_requestResult a b c d f : local (requestResult a b c d f).
Proof. unfold requestResult. frame_solve. Qed.
Lemma local_saveRequest a b c d f g : local (saveRequest a b c d f g).
Proof. apply local_exec. Qed.
Lemma local_classify d k : local (classify d k).
Proof. unfold classify. frame_solve. Qed.
Lemma local_expire_loop c g a b m l th tot : local (expire_loop c g a b m th tot l).
Proof. revert th tot; induction l; intros; simpl; frame_solve. Qed.
#[export] Hint Resolve quiet_progressTX forward_progressTX quiet_requestResult
  forward_requestResult quiet_saveRequest forward_saveRequest quiet_classify forward_classify
  quiet_expire_loop forward_expire_loop : collector.
#[export] Hint Resolve local_progressTX local_requestResult local_saveRequest local_classify
  local_expire_loop : collector.

Lemma requestResult_ok a b c d f e s r s' : requestResult a b c d f e s = (Ok r, s') ->
  db s' = db s /\ wk s' = wk s /\
  match requests (wk s) !! (a, b, c, d) with
  | None => r = None
  | Some q => rq_body_hash q = requestHash f /\ r = Some (rq_result q)
  end.
Proof.
  unfold requestResult. intros H. inv_run H.
  destruct (requests (wk s) !! (a, b, c, d)) as [q|]; inv_run H; [|done].
  repeat split; auto. by apply String.eqb_eq.
Qed.

Lemma saveRequest_ok a b c d f g e s u s' : saveRequest a b c d f g e s = (Ok u, s') ->
  requests (wk s) !! (a, b, c, d) = None /\ db s' = db s /\
  wk s' = set_requests (insert (a, b, c, d) (RequestRow (requestHash f) g (clock e (tick s)))) (wk s).
Proof.
  unfold saveRequest. intros H. inv_run H.
  destruct (requests (wk s) !! (a, b, c, d)) eqn:E; [done|]. simplify_eq. done.
Qed.

Lemma classify_ok d k e s d' s' : classify d k e s = (Ok d', s') ->
  db s' = db s /\ wk s' = wk s /\ Donation.SourceID d = None /\
  exists i rs rl, d' = with_identity i rs rl d /\
    (rs = Donation.Reasons d \/ rs <> []) /\ (rl = Donation.Related d \/ rl <> []).
Proof.
  unfold classify. intros H. simpl in H. destruct (Donation.SourceID d) eqn:Es; [done|].
  destruct (_ && _); [|inv_run H; eauto 15].
  inv_run H. case_match; inv_run H; eauto 15.
Qed.

(** ** Successful operations *)

Section Ok.
Context (cc : option string) (sz : json -> Z).

(** An append that succeeded was a replay or one new row under a valid grant. *)
Lemma AppendDonation_ok g d at_ e s d' s' :
  AppendDonation cc sz g d at_ e s = (Ok d', s') -> journal_inv (db s) ->
  Donation.Validate d = Ok tt /\ Donation.ChannelID d = g_Channel g /\
  exists n x, position (db s) (Donation.ChannelID d) = Some (g_Generation g, n, x) /\
  ((exists r j, donations (db s) !! Donation.EventID d = Some r /\ do_payload r = Some j /\
      Donation.unmarshal j d = Some d' /\ same_observation d' d = true /\ db s' = db s) \/
   (donations (db s) !! Donation.EventID d = None /\ n <> u64_max /\
    Donation.SourceID d = None /\
    (exists row, channels (db s) !! Donation.ChannelID d = Some row /\ cr_subscribed row = true) /\
    opted_out (db s) PlatformSoop (Donation.ChannelID d) = false /\
    (exists r m, grants (db s) !! g_Token g = Some r /\ (tick s <= m < tick s')%nat /\
       grant_admits g at_ (clock e m) r = true) /\
    (exists i rs rl,
       d' = with_identity i rs rl (with_position (g_Generation g) (u64 (n + 1)) d) /\
       (rs = Donation.Reasons d \/ rs <> []) /\ (rl = Donation.Related d \/ rl <> [])) /\
    exists j t1 t2, Donation.marshal d' = Ok j /\
      db s' = appended (Donation.EventID d)
                (content_key (with_position (g_Generation g) (u64 (n + 1)) d)) d' j t1 t2 (db s))).
Proof.
  unfold AppendDonation. intros H I. inv_run H. b2p.
  repeat match goal with u : () |- _ => destruct u end.
  match goal with Hs : scanCollection _ _ _ = Ok ?c |- _ =>
    rename c into col; destruct (scan_position _ _ _ _ I Hs) as [Hp _] end.
  match goal with Hg : g_Generation g = _ |- _ => rewrite <- Hg in Hp end.
  split; [done|]. split; [done|]. exists (Current col), (ExpiredThrough col). split; [done|].
  destruct (donations (db s0) !! Donation.EventID d) as [r|] eqn:Er; simpl in H.
  - left. unfold replay in H. destruct (do_payload r) as [j|] eqn:Ej; [|done].
    destruct (Donation.unmarshal j d) as [dj|] eqn:Eu; [|done].
    inv_run H. exists r, j. auto.
  - right. unfold append_fresh in H. inv_run H.
    match goal with Hr : enabledTX _ _ _ = _ |- _ =>
      apply enabledTX_ok in Hr as (-> & row & Hrow & Hsub & Hopt) end.
    match goal with Hr : classify _ _ _ _ = _ |- _ =>
      pose proof (classify_ok _ _ _ _ _ _ Hr) as (C1 & C2 & C3 & i & rs & rl & -> & C4 & C5);
      pose proof (quiet_run _ _ _ _ _ (quiet_classify _ _) Hr) as _;
      match type of Hr with classify ?dd ?kk ?ee ?ss = _ =>
        pose proof (forward_classify dd kk ee ss) as Hf; rewrite Hr in Hf end end.
    cbn [tick bump snd db wk] in *. rewrite ?C1, ?C2 in *. cbn [db wk] in *.
    match goal with
      Hq : (of_option ErrOwner _ ≫= _) = Ok ?v |- _ =>
        apply result_bind_ok in Hq as (gr & Hgr & Hadm); injection Hadm as Hadm
    end.
    destruct (grants (db s0) !! g_Token g) as [gr'|] eqn:Eg; [|done]. injection Hgr as ->.
    b2p. split; [done|]. split; [congruence|]. split; [done|].
    split; [eauto|]. split; [done|].
    split. { exists gr. eexists. split; [done|]. split; [|exact Hadm]. lia. }
    split; [exists i, rs, rl; split; [congruence|done]|].
    unfold insert_donation, insert_outbox in *. repeat case_match; simplify_eq.
    eexists _, _, _. split; [done|].
    match goal with Hg : g_Generation g = Generation col |- _ => rewrite Hg end. reflexivity.
Qed.

Lemma update_consumer_insert k c f d r : consumers d !! (k, c) = Some r ->
  update_consumer k c f d = set_consumers (insert (k, c) (f r)) d.
Proof.
  intros H. unfold update_consumer, set_consumers. f_equal. apply map_eq. intros i.
  rewrite lookup_alter, lookup_insert. case_decide as E; [|done]. subst. by rewrite H.
Qed.

Lemma ensure_consumer_spec k c g n x d : journal_inv d -> position d c = Some (g, n, x) ->
  journal_inv (ensure_consumer k c g x d) /\
  (forall c', position (ensure_consumer k c g x d) c' = position d c') /\
  donations (ensure_consumer k c g x d) = donations d /\
  exists r, consumers (ensure_consumer k c g x d) !! (k, c) = Some r /\
    (consumers d !! (k, c) = Some r \/
     consumers d !! (k, c) = None /\ r = ConsumerRow g x None x 0).
Proof.
  intros I Hp. unfold ensure_consumer.
  destruct (consumers d !! (k, c)) as [r|] eqn:E; [eauto 10|].
  destruct (ji_bounds _ I _ _ _ _ Hp) as [B1 B2].
  split.
  { eapply journal_inv_consumer; [exact Hp| |done]. unfold consumer_wf, u64_max; simpl.
    repeat split; try lia; done. }
  split; [done|]. split; [done|]. simpl. rewrite lookup_insert_eq. eauto.
Qed.

(** A read that succeeded returned the next offsets without a hole. *)
Lemma ReadDonations_ok k c g after rev limit e s ds col s' :
  ReadDonations k c g after rev limit e s = (Ok (ds, col), s') -> journal_inv (db s) ->
  exists n x r, position (db s) c = Some (g, n, x) /\ Generation col = g /\ Current col = n /\
    ExpiredThrough col = x /\ x <= after <= n /\
    consumers (ensure_consumer k c g x (db s)) !! (k, c) = Some r /\
    co_generation r = g /\ co_revision r = rev /\ co_baseline r <= after <= co_offered r /\
    let k' := Z.min (clamp_limit limit) (n - after) in
    map Donation.Offset ds = zseq (after + 1) (Z.to_nat k') /\
    map Donation.EventID ds = map (fun p => coerce p.1)
      (take (Z.to_nat (clamp_limit limit)) (after_rows (db s) c g after)) /\
    Forall (labelled g c) ds /\
    Forall2 read_from (take (Z.to_nat (clamp_limit limit)) (after_rows (db s) c g after)) ds /\
    db s' = if co_offered r <? after + k'
            then set_consumers (insert (k, c) (with_offered (after + k') r))
                   (ensure_consumer k c g x (db s))
            else ensure_consumer k c g x (db s).
Proof.
  unfold ReadDonations. intros H I. inv_run H.
  match goal with Hs : scanCollection _ _ _ = Ok ?c |- _ =>
    rename c into col0; destruct (scan_position _ _ _ _ I Hs) as [Hp _] end.
  b2p. simplify_eq.
  destruct (ensure_consumer_spec k c _ _ _ _ I Hp) as (I' & Hp' & Hd' & r & Hr & Hr').
  match goal with Hq : progressTX _ _ _ _ = _ |- _ =>
    apply progressTX_ok in Hq as (-> & r' & Hr'' & ->); [|exact I'] end.
  cbn [wk db tick bump p_Generation p_Revision p_Baseline p_Offered] in *.
  rewrite Hr in Hr''. injection Hr'' as <-.
  assert (0 < clamp_limit limit) as Hlim.
  { unfold clamp_limit. destruct ((limit <? 1) || (500 <? limit)) eqn:El; b2p; lia. }
  destruct (ji_bounds _ I _ _ _ _ Hp) as [B1 B2].
  pose proof (read_page _ I' _ _ _ _ (eq_trans (Hp' _) Hp) after (clamp_limit limit)) as HR.
  destruct HR as (ds' & R1 & R2 & R3 & R4 & R5); [lia|done|].
  match goal with Hrr : read_rows _ _ _ = Ok _ |- _ => rewrite R1 in Hrr; injection Hrr as <- end.
  cbn [fst snd] in *.
  unfold after_rows at 1 in R3. unfold select_retained in R3 at 1. rewrite Hd' in R3.
  unfold after_rows at 1 in R5. unfold select_retained in R5 at 1. rewrite Hd' in R5.
  exists (Current col), (ExpiredThrough col), r.
  split; [exact Hp|]. split; [reflexivity|]. split; [reflexivity|]. split; [reflexivity|].
  split; [lia|]. split; [exact Hr|]. split; [assumption || reflexivity|].
  split; [assumption || reflexivity|]. split; [lia|].
  cbv zeta. split; [exact R2|]. split; [exact R3|]. split; [exact R4|]. split; [exact R5|].
  destruct (co_offered r <? after + Z.min (clamp_limit limit) (Current col - after)) eqn:Eo;
    match goal with Hq : _ e _ = (Ok _, _) |- _ => inv_run Hq end; [|reflexivity].
  by apply update_consumer_insert.
Qed.

Lemma AckDonations_ok k c g off rev e s u s' :
  AckDonations k c g off rev e s = (Ok u, s') -> journal_inv (db s) ->
  exists n x r, position (db s) c = Some (g, n, x) /\ x <= off /\
    consumers (db s) !! (k, c) = Some r /\ co_generation r = g /\ co_revision r = rev /\
    co_baseline r < off <= co_offered r /\ (forall a, co_ack r = Some a -> a <= off) /\
    db s' = set_consumers (insert (k, c) (with_ack off r)) (db s).
Proof.
  unfold AckDonations. intros H I. inv_run H.
  match goal with Hs : scanCollection _ _ _ = Ok ?c |- _ =>
    rename c into col0; destruct (scan_position _ _ _ _ I Hs) as [Hp _] end.
  match goal with Hq : progressTX _ _ _ _ = (?q, _) |- _ =>
    destruct q as [p|x]; [|by destruct x];
    apply progressTX_ok in Hq as (-> & r & Hr & ->); [|exact I] end.
  simplify_eq/=.
  cbn [wk db tick bump p_Generation p_Revision p_Baseline p_Offered p_Ack] in *. b2p.
  exists (Current col0), (ExpiredThrough col0), r. simplify_eq.
  repeat (split; [done || lia|]). split.
  - intros v Ev. rewrite Ev in *. b2p. lia.
  - by apply update_consumer_insert.
Qed.

(** ** Recovery *)

(** Declared ranges that pass the check leave no skipped offset out. *)
Lemma cover_sound previous l covered last :
  0 <= covered -> cover previous covered l = Ok last ->
  covered <= last /\ forall o, covered < o <= last -> exists so eo,
    ((previous, so), (previous, eo)) ∈ l /\ so <= o <= eo.
Proof.
  revert covered; induction l as [|[[sg so] [eg eo]] l IH]; intros covered H0; cbn [cover].
  - intros [= <-]. split; [lia|]. intros; lia.
  - destruct (negb (String.eqb sg previous) || _ || _) eqn:E1; [done|].
    destruct (u64 (covered + 1) <? so) eqn:E2; [done|]. b2p. subst sg eg.
    assert (u64 (covered + 1) <= covered + 1) as Hu
      by (unfold u64; apply Z.mod_le; lia).
    intros H. destruct (covered <? eo) eqn:E3; b2p.
    + destruct (IH eo) as [L1 L2]; [lia|done|]. split; [lia|]. intros o Ho.
      destruct (decide (o <= eo)).
      * exists so, eo. split; [by left|lia].
      * destruct (L2 o) as (so' & eo' & Hin & Ho'); [lia|]. exists so', eo'. split; [by right|done].
    + destruct (IH covered) as [L1 L2]; [lia|done|]. split; [lia|]. intros o Ho.
      destruct (L2 o) as (so' & eo' & Hin & Ho'); [lia|]. exists so', eo'. split; [by right|done].
Qed.

Lemma audited_sound previous old resume request : 0 <= old ->
  audited previous old resume request = Ok tt ->
  exists ranges, decode_ranges request = Some ranges /\
    forall o, old < o <= resume -> exists so eo,
      ((previous, so), (previous, eo)) ∈ ranges /\ so <= o <= eo.
Proof.
  intros H0 H. unfold audited in H.
  apply result_bind_ok in H as (ranges & H1 & H).
  apply result_bind_ok in H as (covered & H2 & H).
  destruct (decode_ranges request) as [r|]; [|done]. injection H1 as ->.
  destruct (covered =? resume) eqn:E; [|done]. b2p. subst.
  exists ranges. split; [done|]. by destruct (cover_sound _ _ _ _ H0 H2).
Qed.

(** The consumer's position before the decision. *)
Definition previous_position (previous : string) (o : option consumer_row) : string * Z * Z :=
  match o with
  | Some r => (co_generation r, match co_ack r with Some a => a | None => co_baseline r end,
               co_revision r)
  | None => (previous, 0, 0)
  end.

(** Whatever [progressTX] reports, it is what the consumer's row says. *)
Lemma progressTX_run prev consumer channel e s r s' : journal_inv (wk s) ->
  progressTX consumer channel e s = (r, s') -> s' = bump s /\
  match r with
  | Ok p => consumers (wk s) !! (consumer, channel) <> None /\
      previous_position prev (consumers (wk s) !! (consumer, channel)) =
      (p_Generation p, match p_Ack p with Some a => a | None => p_Baseline p end, p_Revision p)
  | Err ErrNoRows => consumers (wk s) !! (consumer, channel) = None
  | Err _ => True
  end.
Proof.
  intros I H. destruct r as [p|x].
  - apply progressTX_ok in H as (-> & r & Hr & ->); [|done]. by rewrite Hr.
  - unfold progressTX, tx_query in H.
    destruct (driver_fails e (tick s)); simplify_eq; [done|]. split; [done|].
    destruct (consumers (wk s) !! (consumer, channel)) as [r|] eqn:Er; [|by destruct x].
    simpl in *. rewrite (progress_ok _ _ _ _ I Er) in *. done.
Qed.

Lemma ResolveRecovery_ok proto k c key prev next resume expected req e s res s' :
  ResolveRecovery proto k c key prev next resume expected req e s = (Ok res, s') ->
  journal_inv (db s) ->
  (exists q, requests (db s) !! (k, c, "recovery"%string, key) = Some q /\
     rq_body_hash q = requestHash (proto req) /\ decode_decision (rq_result q) = Some res /\
     db s' = db s) \/
  (requests (db s) !! (k, c, "recovery"%string, key) = None /\
   exists n x old, position (db s) c = Some (next, n, x) /\ x <= resume <= n /\
     previous_position prev (consumers (db s) !! (k, c)) = (prev, old, expected) /\
     expected <> u64_max /\ (prev = next -> old <= resume) /\
     (prev = next -> old < resume -> audited prev old resume req = Ok tt) /\
     res = MkDecision prev next old resume (u64 (expected + 1)) /\
     exists t1 t2, db s' =
       set_audit (fun l => l ++ [AuditRow k c req (decision_json res) t2])
         (set_requests (insert (k, c, "recovery"%string, key)
            (RequestRow (requestHash (proto req)) (decision_json res) t1))
           (upsert_recovered k c next resume (u64 (expected + 1)) (db s)))).
Proof.
  unfold ResolveRecovery. intros H I. inv_run H.
  match goal with Hs : scanCollection _ _ _ = Ok ?c |- _ =>
    rename c into col; destruct (scan_position _ _ _ _ I Hs) as [Hp _] end.
  match goal with Hr : requestResult _ _ _ _ _ _ _ = _ |- _ =>
    apply requestResult_ok in Hr as (D1 & W1 & Hq) end.
  cbn [db wk bump] in *.
  destruct (requests (db s) !! (k, c, "recovery"%string, key)) as [q|] eqn:Eq.
  - destruct Hq as [Hh ->]. inv_run H. left. exists q. rewrite D1.
    destruct (decode_decision (rq_result q)); simplify_eq/=. auto.
  - subst. right. split; [done|]. unfold make_decision in H. inv_run H. b2p.
    match goal with Hq : progressTX _ _ _ _ = (?q, _) |- _ =>
      apply (progressTX_run prev) in Hq as [-> Hprev]; [|by rewrite W1]; rename q into pr end.
    cbn [db wk tick bump] in *. rewrite W1 in *.
    match goal with Hs : saveRequest _ _ _ _ _ _ _ _ = _ |- _ =>
      apply saveRequest_ok in Hs as (S1 & S2 & S3) end.
    cbn [db wk tick bump] in *. simplify_eq.
    match goal with Hl : @eq (result ConsumerProgress) _ (Ok ?p) |- _ =>
      rename p into pp, Hl into Hp' end.
    assert (previous_position (p_Generation pp) (consumers (db s) !! (k, c)) =
        (p_Generation pp, match p_Ack pp with Some a => a | None => p_Baseline pp end,
         p_Revision pp)) as Hpos.
    { destruct pr as [p|x].
      - injection Hp' as ->. by destruct Hprev.
      - destruct x; try discriminate Hp'. rewrite Hprev. by injection Hp' as <-. }
    exists (Current col), (ExpiredThrough col),
      (match p_Ack pp with Some a => a | None => p_Baseline pp end).
    split; [congruence|]. split; [lia|]. split; [exact Hpos|]. split; [done|].
    match goal with Hb : (String.eqb _ _ && (resume <? _))%bool = false |- _ =>
      apply andb_false_iff in Hb as Hcmp end.
    split.
    { intros E. destruct Hcmp as [Hc|Hc]; b2p; [congruence|lia]. }
    split.
    { intros E Hlt.
      match goal with Ha : (if _ then _ else _) = Ok _ |- _ =>
        rewrite <- E, String.eqb_refl in Ha; simpl in Ha;
        apply Z.ltb_lt in Hlt; rewrite Hlt in Ha; rewrite Ha end.
      match goal with Ha : audited _ _ _ _ = Ok ?u |- _ => by destruct u end. }
    split; [done|]. eexists _, _. rewrite S3. reflexivity.
Qed.
End Ok.
