(* ===== verification/OwnerRun.v ===== *)
(** What the ownership, subscription and maintenance operations do when they
    succeed: the effect of each on the database, with the facts its guards
    established. *)
From S2P Require Import Prelude GoLib Json Tx Model Db.
From S2P Require Import Ownership Journal Consumer JournalInv JournalRun.

Section Ok.
Context (cc : option string) (sz : json -> Z).

(** ** Ownership *)

Lemma EnsureCollection_ok c e s u s' : EnsureCollection cc c e s = (Ok u, s') ->
  db s' = db s \/
  (channels (db s) !! c = None /\ exists g t,
     db s' = set_channel c (ChannelRow g 0 0 true None "waiting" t None) (db s)).
Proof.
  unfold EnsureCollection. destruct (is_empty c); intros H; inv_run H; [by left|].
  cbn [db bump] in *. case_match; simplify_eq/=; [by left|]. right. eauto.
Qed.

Lemma owner_gone_ok tok e s u s' : owner_gone tok e s = (Ok u, s') ->
  db s' = db s /\ wk s' = wk s /\ (tick s <= tick s')%nat /\
  forall t, tok = Some t -> exists g m, grants (wk s) !! t = Some g /\
    (tick s <= m < tick s')%nat /\ open_at (clock e m) g = false.
Proof.
  unfold owner_gone. destruct tok as [t|]; intros H; inv_run H.
  - match goal with Hq : _ = Ok _ |- _ => apply result_bind_ok in Hq as (g & Hg & Hv) end.
    destruct (grants (wk s) !! t) as [g'|] eqn:E; [|done]. injection Hg as ->. injection Hv as <-.
    repeat split; [lia|]. intros t' [= <-]. exists g, (tick s). b2p. auto with lia.
  - repeat split; [lia|done].
Qed.

(** A grant is issued on an enabled channel, to the worker assigned to it,
    when the previous owner's grant is no longer open. *)
Lemma AcquireCollection_ok c w e s g s' :
  AcquireCollection cc c w e s = (Ok g, s') ->
  allowsCollection cc PlatformSoop c = true /\
  exists row t m, channels (db s) !! c = Some row /\ cr_subscribed row = true /\
    opted_out (db s) PlatformSoop c = false /\ live_assigned c w (db s) = true /\
    (forall tok, cr_owner_token row = Some tok -> exists r k, grants (db s) !! tok = Some r /\
       (tick s <= k < m)%nat /\ open_at (clock e k) r = false) /\
    (tick s <= m < tick s')%nat /\
    grants (db s) !! g_Token g = None /\
    g = MkGrant (g_Token g) c (cr_generation row) (clock e m) (clock e m + grant_ttl) /\
    db s' = update_channel c (fun c => with_runtime "connecting" t (with_owner (Some (g_Token g)) c))
      (set_grants (insert (g_Token g) (GrantRow c w (cr_generation row) (clock e m)
                                         (clock e m + grant_ttl) None)) (db s)).
Proof.
  unfold AcquireCollection. intros H. inv_run H.
  match goal with Hr : enabledTX _ _ _ = _ |- _ =>
    apply enabledTX_ok in Hr as (-> & row & Hrow & Hsub & Hopt) end.
  match goal with Hr : owner_gone _ _ _ = _ |- _ =>
    apply owner_gone_ok in Hr as (O1 & O2 & O3 & O4) end.
  cbn [db wk tick bump] in *. rewrite ?O1, ?O2 in *.
  repeat case_match; simplify_eq/=. split; [done|].
  match goal with Hq : of_option ErrNoRows _ = Ok ?r |- _ =>
    rewrite Hrow in Hq; injection Hq as <- end.
  eexists row, _, _. split; [exact Hrow|]. split; [done|]. split; [done|]. split; [done|].
  split.
  { intros tok Htok. destruct (O4 _ Htok) as (r & k & K1 & K2 & K3). exists r, k.
    split; [done|]. split; [|done]. split; [lia|]. apply K2. }
  split; [lia|]. repeat split; done.
Qed.

Lemma RenewCollection_ok g e s u s' : RenewCollection g e s = (Ok u, s') ->
  exists row r m, channels (db s) !! g_Channel g = Some row /\
    cr_owner_token row = Some (g_Token g) /\ cr_generation row = g_Generation g /\
    cr_subscribed row = true /\ opted_out (db s) PlatformSoop (g_Channel g) = false /\
    grants (db s) !! g_Token g = Some r /\ (tick s <= m < tick s')%nat /\
    open_at (clock e m) r = true /\ live_assigned (gr_channel r) (gr_worker r) (db s) = true /\
    u = clock e m + grant_ttl /\
    db s' = set_grants (insert (g_Token g) (extend_grant u r)) (db s).
Proof.
  unfold RenewCollection. intros H. inv_run H. b2p.
  match goal with Hr : enabledTX _ _ _ = _ |- _ =>
    apply enabledTX_ok in Hr as (-> & row & Hrow & Hsub & Hopt) end.
  cbn [db wk tick bump] in *.
  match goal with Hq : of_option ErrNoRows _ = Ok ?r |- _ =>
    rewrite Hrow in Hq; injection Hq as <- end.
  match goal with Hq : match ?x with _ => _ end = Ok _ |- _ => unfold renewable in Hq end.
  destruct (grants (db s) !! g_Token g) as [r|] eqn:Er; [|done].
  match goal with Hq : match (if ?b then _ else _) with _ => _ end = Ok _ |- _ =>
    destruct b eqn:Eb; [|done]; injection Hq as <- <- end.
  b2p. exists row, r, (S (S (S (tick s)))).
  match goal with Ho : opt_eqb _ _ = true |- _ =>
    unfold opt_eqb in Ho; destruct (cr_owner_token row) as [tk|]; [|done];
    apply String.eqb_eq in Ho as -> end.
  split; [done|]. repeat split; auto; lia.
Qed.

(** ** Subscription and restore *)

Definition close_channel_grants (c : string) (t : Z) : database -> database :=
  set_grants (update_where (fun _ r => String.eqb (gr_channel r) c) (close_grant t)).

(** Either the saved answer, or the new one with its effect. *)
Lemma SetSubscription_ok k c key b e s r s' :
  SetSubscription k c key b e s = (Ok r, s') ->
  is_empty key = false /\ lenZ key <= 200 /\
  ((exists q, requests (db s) !! (k, c, "subscription"%string, key) = Some q /\
      rq_body_hash q = requestHash (render (JBool b)) /\ dec_bool (rq_result q) = Some r /\
      db s' = db s) \/
   (requests (db s) !! (k, c, "subscription"%string, key) = None /\ r = b /\
    channels (db s) !! c <> None /\
    (b = true -> opted_out (db s) PlatformSoop c = false) /\
    exists t1 t2, let d1 := update_channel c (with_subscribed b) (db s) in
      db s' = set_requests (insert (k, c, "subscription"%string, key)
                (RequestRow (requestHash (render (JBool b))) (JBool b) t2))
                (if b then d1 else close_channel_grants c t1 d1))).
Proof.
  unfold SetSubscription. intros H. inv_run H. b2p. split; [done|]. split; [done|].
  match goal with Hs : scanCollection _ _ _ = Ok ?c |- _ =>
    rename c into col; apply scanCollection_ok in Hs as (row & Hrow & Hc & _) end.
  match goal with Hr : requestResult _ _ _ _ _ _ _ = _ |- _ =>
    apply requestResult_ok in Hr as (D1 & W1 & Hq) end.
  cbn [db wk bump] in *. rewrite Hc in *.
  destruct (requests (db s0) !! (k, c, "subscription"%string, key)) as [q|] eqn:Eq.
  - destruct Hq as [Hh ->]. left. exists q.
    destruct (dec_bool (rq_result q)) as [old|] eqn:Ed; [|done].
    inv_run H. cbn [db wk]. rewrite W1. auto.
  - subst. right. inv_run H. split; [done|]. split; [done|]. split; [congruence|].
    match goal with Hs : saveRequest _ _ _ _ _ _ _ _ = _ |- _ =>
      apply saveRequest_ok in Hs as (S1 & S2 & S3) end.
    cbn [db wk tick bump] in *. simplify_eq. rewrite S3.
    destruct r; match goal with Hq : _ e _ = (Ok _, _) |- _ => inv_run Hq end;
      repeat match goal with Hq : _ e _ = (Ok _, _) |- _ => inv_run Hq end;
      simplify_eq; cbn [db wk tick bump] in *; b2p; simplify_eq; rewrite ?W1 in *.
    + split; [auto|]. eexists 0, _. reflexivity.
    + split; [done|]. eexists _, _. reflexivity.
Qed.

Lemma RotateJournal_ok c old reason e s next s' :
  RotateJournal c old reason e s = (Ok next, s') ->
  (exists row, channels (db s) !! c = Some row /\ cr_generation row = old) /\
  (exists m, (tick s <= m < tick s')%nat /\ next = fresh e m) /\
  exists t1 t2 a, db s' = set_audit (fun l => l ++ [a])
    (update_channel c (with_generation next t2)
      (set_donations (update_where (fun _ r => String.eqb (do_channel r) c
          && String.eqb (do_generation r) old) (regenerate next))
        (close_channel_grants c t1 (db s)))).
Proof.
  unfold RotateJournal. intros H. inv_run H. b2p.
  match goal with Hq : of_option ErrNoRows (_ <$> ?o) = _ |- _ =>
    destruct o as [row|] eqn:Er; [|done]; injection Hq as <- end.
  split; [eauto|]. split.
  { eexists. split; [|reflexivity]. lia. }
  simplify_eq. eexists _, _, _. reflexivity.
Qed.

(** ** Retention *)

(** Every consumer of the channel is on this generation and has acknowledged
    [o]; there is at least one. *)
Definition all_acked (c g : string) (o : Z) (d : database) : Prop :=
  (exists k r, consumers d !! (k, c) = Some r) /\
  forall k r, consumers d !! (k, c) = Some r -> co_generation r = g /\
    o <= match co_ack r with Some a => a | None => co_baseline r end.

Lemma unacked_false c g o d : unacked c g o d = false -> all_acked c g o d.
Proof.
  unfold unacked. intros H. apply orb_false_iff in H as [H1 H2]. apply negb_false_iff in H1.
  split.
  - apply exists_row_true in H1 as ([k c'] & r & H & E). apply String.eqb_eq in E.
    simpl in E. subst c'. eauto.
  - intros k r Hr. pose proof (proj1 (exists_row_false _ _) H2 _ _ Hr) as E.
    simpl in E. rewrite String.eqb_refl in E. simpl in E. b2p. auto.
Qed.

(** The bytes left when the candidates before one are gone. *)
Definition left_after (total : Z) (l : list candidate) : Z :=
  fold_left (fun t v => i64 (t - cd_size v)) l total.

(** Why a row may go: too old by a reading of the clock, over the budget, or
    acknowledged by everyone and old enough. *)
Definition may_drop (c g : string) (minAge maxAge maxBytes : Z) (e : env) (lo hi : nat)
    (total : Z) (v : candidate) (d : database) : Prop :=
  maxBytes < total \/
  exists m, (lo <= m < hi)%nat /\
    (maxAge < time_sub (wall e m) (cd_at v) \/
     minAge <= time_sub (wall e m) (cd_at v) /\ all_acked c g (cd_offset v) d).

Lemma may_drop_weaken c g a b m e lo hi lo' hi' total v d : (lo' <= lo)%nat -> (hi <= hi')%nat ->
  may_drop c g a b m e lo hi total v d -> may_drop c g a b m e lo' hi' total v d.
Proof. intros H1 H2 [H|(k & Hk & H)]; [by left|]. right. exists k. split; [lia|done]. Qed.

Lemma last_cons {A} (l : list A) x y : List.last (x :: l) y = List.last l x.
Proof. revert x y; induction l as [|z l IH]; intros x y; [done|]. simpl in *. by destruct l. Qed.

Lemma expire_loop_ok c g a b m l : forall through total e s th s',
  expire_loop c g a b m through total l e s = (Ok th, s') ->
  db s' = db s /\ wk s' = wk s /\ (tick s <= tick s')%nat /\
  exists dropped rest, l = dropped ++ rest /\
    th = List.last (map cd_offset dropped) through /\
    forall pre v post, dropped = pre ++ v :: post ->
      may_drop c g a b m e (tick s) (tick s') (left_after total pre) v (wk s).
Proof.
  induction l as [|v l IH]; intros through total e s th s' H.
  { simpl in H. inv_run H. split; [done|]. split; [done|]. split; [lia|]. exists [], []. split; [done|].
    split; [done|]. intros pre ? ? E. by destruct pre. }
  assert (forall s1, tick s <= tick s1 -> db s1 = db s -> wk s1 = wk s ->
    may_drop c g a b m e (tick s) (tick s1) total v (wk s) ->
    expire_loop c g a b m (cd_offset v) (i64 (total - cd_size v)) l e s1 = (Ok th, s') ->
    db s' = db s /\ wk s' = wk s /\ (tick s <= tick s')%nat /\
    exists dropped rest, v :: l = dropped ++ rest /\
      th = List.last (map cd_offset dropped) through /\
      forall pre w post, dropped = pre ++ w :: post ->
        may_drop c g a b m e (tick s) (tick s') (left_after total pre) w (wk s))%nat as Hstep.
  { intros s1 T1 D1 W1 M1 Hr.
    destruct (IH _ _ _ _ _ _ Hr) as (D2 & W2 & T2 & dr & rest & -> & -> & Hm).
    split; [congruence|]. split; [congruence|]. split; [lia|].
    exists (v :: dr), rest. split; [done|]. split.
    { simpl map. by rewrite last_cons. }
    intros pre w post E. destruct pre as [|p pre]; injection E as -> E.
    - eapply may_drop_weaken; [| |exact M1]; lia.
    - rewrite <- W1. simpl. eapply may_drop_weaken; [| |by eapply Hm]; lia. }
  assert (forall s1, (tick s <= tick s1)%nat -> db s1 = db s -> wk s1 = wk s ->
    (mret through : Mdb Z) e s1 = (Ok th, s') ->
    db s' = db s /\ wk s' = wk s /\ (tick s <= tick s')%nat /\
    exists dropped rest, v :: l = dropped ++ rest /\
      th = List.last (map cd_offset dropped) through /\
      forall pre w post, dropped = pre ++ w :: post ->
        may_drop c g a b m e (tick s) (tick s') (left_after total pre) w (wk s))%nat as Hstop.
  { intros s1 T1 D1 W1 Hr. inv_run Hr. split; [done|]. split; [done|]. split; [done|].
    exists [], (v :: l). split; [done|]. split; [done|]. intros pre ? ? E. by destruct pre. }
  simpl in H. apply bind_ok in H as (now & s1 & H1 & H). apply time_now_ok in H1 as [<- <-].
  destruct ((b <? time_sub (wall e (tick s)) (cd_at v)) || (m <? total)) eqn:E1.
  - apply (Hstep (bump s)); simpl; try done; [lia|].
    apply orb_true_iff in E1 as [E1|E1]; apply Z.ltb_lt in E1; [right|by left].
    exists (tick s). split; [lia|by left].
  - apply bind_ok in H as (now & s1 & H1 & H). apply time_now_ok in H1 as [<- <-].
    cbn [tick bump] in H.
    destruct (_ <? a) eqn:E2; [apply (Hstop (bump (bump s))); simpl; auto with lia|].
    apply bind_ok in H as (u & s1 & H1 & H). apply tx_query_ok in H1 as (_ & [= Hu] & ->).
    destruct u; [apply (Hstop (bump (bump (bump s)))); simpl; auto with lia|].
    apply (Hstep (bump (bump (bump s)))); simpl; try done; [lia|].
    right. exists (S (tick s)). split; [lia|]. right. b2p. split; [lia|].
    by apply unacked_false.
Qed.

Lemma parse_candidates l : (forall v, v ∈ l -> 0 <= cd_offset v <= u64_max) ->
  mapM (fun v => n ← parseNum (format_int (cd_offset v)); mret (Candidate n (cd_at v) (cd_size v))) l
  = Ok l.
Proof.
  induction l as [|v l IH]; intros H; [done|]. simpl.
  rewrite parseNum_format by (apply H; by left). simpl.
  rewrite IH; [by destruct v|]. intros; apply H; by right.
Qed.

Lemma candidates_offsets d c g n x : journal_inv d -> position d c = Some (g, n, x) ->
  map cd_offset (candidates sz c g d) = zseq (x + 1) (500 `min` Z.to_nat (n - x)).
Proof.
  intros I Hp. unfold candidates. rewrite map_map, <- take_zseq.
  rewrite <- (select_retained_offsets d I c g n x Hp), firstn_map.
  apply map_ext. by intros [id r].
Qed.

Lemma last_zseq y a k : List.last (zseq (a + 1) k) y = match k with O => y | _ => a + Z.of_nat k end.
Proof.
  revert y a; induction k as [|k IH]; intros y a; [done|].
  simpl zseq. rewrite last_cons, IH. destruct k; lia.
Qed.

(** Retention drops a prefix of the retained rows, each for a reason. *)
Lemma ExpireDonations_ok c a b m e s u s' :
  ExpireDonations sz c a b m e s = (Ok u, s') -> journal_inv (db s) ->
  0 <= a <= b /\ 0 < m /\ exists g n x k, position (db s) c = Some (g, n, x) /\
    (k <= 500)%nat /\ x + Z.of_nat k <= n /\
    (forall i v, (i < k)%nat -> candidates sz c g (db s) !! i = Some v ->
       cd_offset v = x + 1 + Z.of_nat i /\
       may_drop c g a b m e (tick s) (tick s')
         (left_after (payload_total sz c (db s)) (take i (candidates sz c g (db s)))) v (db s)) /\
    db s' = if (k =? 0)%nat then db s
            else update_channel c (with_expired (x + Z.of_nat k))
                   (drop_through c g (x + Z.of_nat k) (db s)).
Proof.
  unfold ExpireDonations. intros H I. inv_run H. b2p. split; [lia|]. split; [lia|].
  match goal with Hs : scanCollection _ _ ?d0 = Ok ?c |- _ =>
    rename c into col; destruct (scan_position _ _ _ _ I Hs) as [Hp _] end.
  match goal with Hl : expire_loop _ _ _ _ _ _ _ _ _ ?w = _ |- _ =>
    apply expire_loop_ok in Hl as (D & W & T & dr & rest & E1 & E2 & Hm) end.
  cbn [db wk tick bump] in *. destruct (ji_bounds _ I _ _ _ _ Hp) as [B1 B2].
  pose proof (candidates_offsets _ _ _ _ _ I Hp) as Hoff.
  match goal with Hc : mapM _ _ = Ok _ |- _ => rewrite parse_candidates in Hc end.
  2:{ intros v Hv. assert (cd_offset v ∈ map cd_offset (candidates sz c (Generation col) (db s0))) as Hi
        by (apply list_elem_of_fmap; eauto). rewrite Hoff in Hi. apply elem_of_zseq in Hi. lia. }
  simplify_eq.
  match goal with Hq : candidates _ _ _ _ = dr ++ rest |- _ => rename Hq into Hc end.
  assert (length dr + length rest = 500 `min` Z.to_nat (Current col - ExpiredThrough col))%nat as Hlen.
  { rewrite <- length_app, <- Hc. apply (f_equal length) in Hoff.
    by rewrite length_map, zseq_length in Hoff. }
  assert (map cd_offset dr = zseq (ExpiredThrough col + 1) (length dr)) as Hdr.
  { rewrite Hc in Hoff. apply (f_equal (take (length dr))) in Hoff.
    rewrite take_zseq, map_app, take_app_le, take_ge in Hoff by (rewrite length_map; lia).
    rewrite Hoff. f_equal. lia. }
  match goal with Hq : (if ?bb then _ else _) e ?q = (Ok _, ?q') |- _ =>
    assert (tick q <= tick q')%nat as T2
      by (destruct bb; inv_run Hq; cbn [tick]; lia) end.
  exists (Generation col), (Current col), (ExpiredThrough col), (length dr).
  split; [done|]. split; [lia|]. split; [lia|]. split.
  { intros i v Hi Hv. rewrite Hc in Hv |- *. rewrite lookup_app_l in Hv by done. split.
    - assert (map cd_offset dr !! i = Some (cd_offset v)) as Hz by by rewrite list_lookup_fmap, Hv.
      rewrite Hdr in Hz. clear -Hz. revert i Hz. generalize (ExpiredThrough col) as z.
      induction (length dr) as [|k IH]; intros z [|i]; simpl; try done.
      + intros [= <-]. lia.
      + intros Hz%IH. lia.
    - rewrite take_app_le by lia.
      eapply may_drop_weaken; [| |apply (Hm (take i dr) v (drop (S i) dr))].
      + cbn [tick bump]. lia.
      + cbn [tick]. lia.
      + symmetry. by apply take_drop_middle. }
  rewrite Hdr, last_zseq in *.
  destruct (length dr) as [|k] eqn:Ek; simpl Nat.eqb.
  - rewrite Z.ltb_irrefl in *.
    match goal with Hq : _ e _ = (Ok _, _) |- _ => inv_run Hq end. simpl in *. congruence.
  - match goal with Hq : (if ?bb then _ else _) e _ = _ |- _ =>
      replace bb with true in Hq by (symmetry; apply Z.ltb_lt; lia); inv_run Hq end.
    simpl in *. simplify_eq. rewrite W. reflexivity.
Qed.
End Ok.
