(* ===== verification/Store.v ===== *)
(** The store as a whole: its operations as one type, their runs in any order
    and under any driver failures, and the two invariants every run keeps,
    the journal's ([journal_inv]) and the ownership grants' ([owner_inv]). *)
From S2P Require Import Prelude GoLib Json Tx Model Db.
From S2P Require Import Ownership Journal Consumer JournalInv JournalRun.
From S2P Require Import OwnerRun.

(** ** Operations *)

Inductive op : Type :=
| OpEnsure (channel : string)
| OpState (channel state : string)
| OpAcquire (channel worker : string)
| OpRenew (g : OwnerGrant)
| OpRelease (g : OwnerGrant)
| OpHeartbeat (g : OwnerGrant) (state : string) (last : Z)
| OpAppend (g : OwnerGrant) (d : Donation.t) (acceptedAt : Z)
| OpExpire (channel : string) (minAge maxAge maxBytes : Z)
| OpMaintain (channel : string)
| OpRotate (channel expected reason : string)
| OpRead (consumer channel generation : string) (after revision limit : Z)
| OpAck (consumer channel generation : string) (offset revision : Z)
| OpSubscribe (consumer channel key : string) (enabled : bool)
| OpRecover (consumer channel key previous next : string) (resume expected : Z) (request : json)
| OpDispatch
(** Committed writes of the coordinator and of the opt-out interface, to the
    tables the journal's operations only read. *)
| OpLive (m : gmap Z live_row)
| OpOptOuts (m : gmap Z opt_row).

(** The integers of an operation's arguments fit their Go types. *)
Definition op_typed (o : op) : bool :=
  match o with OpAppend _ d _ => Donation.in_width d | _ => true end.

Definition discard {A} (m : Mdb A) : Mdb unit := m ≫= fun _ => mret tt.

Section Run.
Context (collectionChannel : option string) (pg_column_size : json -> Z)
  (protojson : json -> string) (notify : string -> Mdb unit).

Definition run (o : op) : Mdb unit :=
  match o with
  | OpEnsure c => EnsureCollection collectionChannel c
  | OpState c st => SetCollectionState c st
  | OpAcquire c w => discard (AcquireCollection collectionChannel c w)
  | OpRenew g => discard (RenewCollection g)
  | OpRelease g => ReleaseCollection g
  | OpHeartbeat g st l => CollectionHeartbeat g st l
  | OpAppend g d at_ => discard (AppendDonation collectionChannel pg_column_size g d at_)
  | OpExpire c a b m => ExpireDonations pg_column_size c a b m
  | OpMaintain c => MaintainCollection pg_column_size c
  | OpRotate c x r => discard (RotateJournal c x r)
  | OpRead k c g a r l => discard (ReadDonations k c g a r l)
  | OpAck k c g o r => AckDonations k c g o r
  | OpSubscribe k c key b => discard (SetSubscription k c key b)
  | OpRecover k c key p n r x q => discard (ResolveRecovery protojson k c key p n r x q)
  | OpDispatch => DispatchDonationOutbox notify
  | OpLive m => pool_exec (fun _ d => Ok (tt, set_live (fun _ => m) d))
  | OpOptOuts m => pool_exec (fun _ d => Ok (tt, set_opt_outs (fun _ => m) (opt_seq d) d))
  end.

(** One after the other; an operation that reports an error is followed by
    whatever comes next. *)
Fixpoint run_all (l : list op) (e : env) (s : world database) : world database :=
  match l with [] => s | o :: l => run_all l e (run o e s).2 end.

Definition initial : world database := World empty_db empty_db 0.

Definition reachable (e : env) (s : world database) : Prop :=
  exists l, forallb op_typed l = true /\ s = run_all l e initial.

(** ** One transaction per operation *)

(** Maintenance runs two transactions and the outbox one per notification. *)
Definition single_tx (o : op) : bool :=
  match o with OpMaintain _ | OpDispatch => false | _ => true end.

Lemma atomic_discard {A} (m : Mdb A) : atomic m -> atomic (discard m).
Proof. apply atomic_bind_ret. Qed.
Lemma forward_discard {A} (m : Mdb A) : forward m -> forward (discard m).
Proof. intros. apply forward_bind; [done|]. intros. apply forward_ret. Qed.

Lemma atomic_Expire c a b m : atomic (ExpireDonations pg_column_size c a b m).
Proof. unfold ExpireDonations. frame_solve. Qed.
Lemma forward_Expire c a b m : forward (ExpireDonations pg_column_size c a b m).
Proof. unfold ExpireDonations. frame_solve. Qed.

Lemma atomic_append_fresh g d a c : atomic (append_fresh pg_column_size g d a c).
Proof. unfold append_fresh. frame_solve. Qed.
Lemma atomic_replay d o : atomic (replay d o).
Proof. unfold replay. frame_solve. Qed.
Lemma atomic_make_decision k c key p n r x q col :
  atomic (make_decision protojson k c key p n r x q col).
Proof. unfold make_decision. frame_solve. Qed.
#[local] Hint Resolve atomic_discard forward_discard atomic_append_fresh atomic_replay
  atomic_make_decision : collector.

Lemma atomic_Append g d a : atomic (AppendDonation collectionChannel pg_column_size g d a).
Proof. unfold AppendDonation. frame_solve. Qed.

Lemma atomic_run o : single_tx o = true -> atomic (run o).
Proof.
  destruct o; intros Ho; try done; simpl run.
  - unfold EnsureCollection. frame_solve.
  - unfold SetCollectionState. frame_solve.
  - apply atomic_discard. unfold AcquireCollection. frame_solve.
  - apply atomic_discard. unfold RenewCollection. frame_solve.
  - unfold ReleaseCollection. frame_solve.
  - unfold CollectionHeartbeat. frame_solve.
  - apply atomic_discard, atomic_Append.
  - apply atomic_Expire.
  - apply atomic_discard. unfold RotateJournal. frame_solve.
  - apply atomic_discard. unfold ReadDonations. frame_solve.
  - unfold AckDonations. frame_solve.
  - apply atomic_discard. unfold SetSubscription. frame_solve.
  - apply atomic_discard. unfold ResolveRecovery. frame_solve.
  - frame_solve.
  - frame_solve.
Qed.

(** ** The journal invariant *)

(** Operations that do not touch the journal's projection. *)
Definition same_journal (d d' : database) : Prop :=
  (forall c, position d' c = position d c) /\ donations d' = donations d /\
  consumers d' = consumers d /\ outbox d' = outbox d.

Lemma same_journal_inv d d' : same_journal d d' -> journal_inv d -> journal_inv d'.
Proof. intros (H1 & H2 & H3 & H4). by apply journal_inv_frame. Qed.

Lemma discard_ok {A} (m : Mdb A) e s u s' :
  discard m e s = (Ok u, s') -> exists a, m e s = (Ok a, s').
Proof. unfold discard. intros H. apply bind_ok in H as (a & s1 & H & H1). inv_run H1. eauto. Qed.

Lemma same_journal_update_channel c f d :
  (forall r, cr_generation (f r) = cr_generation r /\ cr_next_offset (f r) = cr_next_offset r /\
             cr_expired_through (f r) = cr_expired_through r) ->
  same_journal d (update_channel c f d).
Proof. intros Hf. split; [|done]. intros. by apply position_update_channel. Qed.

Lemma same_position_channels d d' : channels d' = channels d ->
  forall c, position d' c = position d c.
Proof. intros H c. unfold position. by rewrite H. Qed.

Definition own_op (o : op) : bool :=
  match o with
  | OpState _ _ | OpAcquire _ _ | OpRenew _ | OpRelease _ | OpHeartbeat _ _ _
  | OpSubscribe _ _ _ _ | OpLive _ | OpOptOuts _ => true
  | _ => false
  end.

Lemma run_same_journal o e s u s' : own_op o = true ->
  run o e s = (Ok u, s') -> same_journal (db s) (db s').
Proof.
  destruct o; intros Ho H; try done; simpl in H.
  - unfold SetCollectionState in H. inv_run H. simplify_eq. by apply same_journal_update_channel.
  - apply discard_ok in H as [g H].
    apply AcquireCollection_ok in H as (_ & row & t & m & _ & _ & _ & _ & _ & _ & _ & _ & ->).
    split; [|done]. intros c. by rewrite position_update_channel.
  - apply discard_ok in H as [w H].
    apply RenewCollection_ok in H as (row & r & m & _ & _ & _ & _ & _ & _ & _ & _ & _ & _ & ->).
    done.
  - unfold ReleaseCollection in H. inv_run H. simplify_eq. done.
  - unfold CollectionHeartbeat in H. inv_run H. simplify_eq.
    apply (same_journal_update_channel (g_Channel g)). intros r. by case_match.
  - apply discard_ok in H as [w H].
    apply SetSubscription_ok in H as (_ & _ & [(q & _ & _ & _ & ->)|(_ & _ & _ & _ & t1 & t2 & ->)]);
      [done|]. split; [|by destruct enabled].
    intros c. rewrite <- (position_update_channel channel (with_subscribed enabled) (db s) c) by done.
    by destruct enabled.
  - inv_run H. by simplify_eq.
  - inv_run H. by simplify_eq.
Qed.

Lemma journal_inv_recovered k c g rev resume n x d : journal_inv d ->
  position d c = Some (g, n, x) -> x <= resume <= n ->
  journal_inv (upsert_recovered k c g resume (u64 rev) d).
Proof.
  intros I Hp Hr. eapply journal_inv_consumer; [exact Hp| |done].
  destruct (ji_bounds _ I _ _ _ _ Hp). pose proof (u64_range rev).
  unfold consumer_wf; simpl. repeat split; try lia; done.
Qed.

(** A fresh append stores what decodes again. *)
Lemma appended_row g d i rs rl n j :
  Donation.in_width d = true -> 0 <= n < u64_max ->
  let d' := with_identity i rs rl (with_position g (u64 (n + 1)) d) in
  Donation.marshal d' = Ok j ->
  Donation.Offset d' = n + 1 /\
  (j <> JNull /\ exists dj, Donation.unmarshal j Donation.zero = Some dj /\
     Donation.Offset dj = Donation.Offset d' /\ Donation.EventID dj = coerce (Donation.EventID d) /\
     labelled g (Donation.ChannelID d) dj).
Proof.
  intros Hw Hn d' Hm. pose proof (u64_succ n Hn) as Eu. pose proof (u64_range (n + 1)) as Hr.
  split; [exact Eu|].
  assert (Donation.in_width d' = true) as Hw'.
  { unfold d', Donation.in_width, with_identity, with_position in *; simpl. b2p.
    repeat (apply andb_true_iff; split); apply Z.leb_le; lia. }
  split; [by apply Donation.marshal_ok in Hm as ->|].
  exists (Donation.coerced d'). split; [by apply Donation.unmarshal_marshal|].
  split; [done|]. split; [done|]. split; [by right|done].
Qed.

Lemma append_inv cc' sz' g d a e s d' s' : Donation.in_width d = true -> journal_inv (db s) ->
  AppendDonation cc' sz' g d a e s = (Ok d', s') -> journal_inv (db s').
Proof.
  intros Hw I H. apply AppendDonation_ok in H; [|done].
  destruct H as (_ & _ & n & x & Hp & [(r & j & _ & _ & _ & _ & ->)|Hf]); [done|].
  destruct Hf as (Hid & Hn & _ & _ & _ & _ & (i & rs & rl & -> & _) & j & t1 & t2 & Hj & ->).
  destruct (ji_bounds _ I _ _ _ _ Hp) as [B1 B2].
  destruct (appended_row (g_Generation g) d i rs rl n j Hw) as [Ho Hr]; [unfold u64_max in *; lia|done|].
  eapply journal_inv_appended; [exact Hp|exact Ho|unfold u64_max in *; lia|exact Hid| |exact I].
  exact Hr.
Qed.

Lemma expire_inv c a b m e s u s' : journal_inv (db s) ->
  ExpireDonations pg_column_size c a b m e s = (Ok u, s') -> journal_inv (db s').
Proof.
  intros I H. apply ExpireDonations_ok in H as (_ & _ & g & n & x & k & Hp & _ & Hk & _ & ->); [|done].
  destruct (ji_bounds _ I _ _ _ _ Hp). destruct (k =? 0)%nat; [done|].
  eapply journal_inv_expired; [exact Hp|lia|done].
Qed.

Lemma read_inv k c g a r l e s p s' : journal_inv (db s) ->
  ReadDonations k c g a r l e s = (Ok p, s') -> journal_inv (db s').
Proof.
  intros I H. destruct p as [ds col]. apply ReadDonations_ok in H; [|done].
  destruct H as (n & x & row & Hp & _ & _ & _ & Ha & Hr & _ & _ & _ & _ & _ & _ & _ & ->).
  destruct (ensure_consumer_spec k c _ _ _ _ I Hp) as (I' & Hp' & _).
  destruct (_ <? _) eqn:E; [|done]. b2p.
  pose proof (consumer_row_wf _ _ _ _ _ _ _ I' Hr (eq_trans (Hp' _) Hp)) as (W1 & W2 & W3 & W4).
  eapply journal_inv_consumer; [exact (eq_trans (Hp' _) Hp)| |done].
  unfold consumer_wf, with_offered; simpl. split; [lia|]. split; [lia|]. split; [|done].
  intros y Hy. specialize (W3 _ Hy). lia.
Qed.

Lemma ack_inv k c g o r e s u s' : journal_inv (db s) ->
  AckDonations k c g o r e s = (Ok u, s') -> journal_inv (db s').
Proof.
  intros I H. apply AckDonations_ok in H; [|done].
  destruct H as (n & x & row & Hp & _ & Hr & _ & _ & Ho & _ & ->).
  pose proof (consumer_row_wf _ _ _ _ _ _ _ I Hr Hp) as (W1 & W2 & W3 & W4).
  eapply journal_inv_consumer; [exact Hp| |done].
  unfold consumer_wf, with_ack; simpl. split; [lia|]. split; [lia|]. split; [|done].
  intros y [= <-]. lia.
Qed.

Lemma recover_inv k c key prev next resume x q e s r s' : journal_inv (db s) ->
  ResolveRecovery protojson k c key prev next resume x q e s = (Ok r, s') -> journal_inv (db s').
Proof.
  intros I H. apply ResolveRecovery_ok in H as [(rq & _ & _ & _ & ->)|(_ & n & x' & old & Hp & Hr & H)];
    [done| |done].
  destruct H as (_ & _ & _ & _ & _ & t1 & t2 & ->).
  apply journal_inv_set_audit, journal_inv_set_requests. by eapply journal_inv_recovered.
Qed.

Lemma rotate_inv c old reason e s r s' : journal_inv (db s) ->
  RotateJournal c old reason e s = (Ok r, s') -> journal_inv (db s').
Proof.
  intros I H. apply RotateJournal_ok in H as ((row & Hrow & <-) & _ & t1 & t2 & a & ->).
  apply journal_inv_set_audit.
  eapply journal_inv_rotated; [|by apply journal_inv_set_grants].
  unfold position, close_channel_grants; simpl. by rewrite Hrow.
Qed.

Lemma ensure_inv c e s u s' : journal_inv (db s) ->
  EnsureCollection collectionChannel c e s = (Ok u, s') -> journal_inv (db s').
Proof.
  intros I H. apply EnsureCollection_ok in H as [->|(Hn & g & t & ->)]; [done|].
  by apply journal_inv_new_channel.
Qed.

Lemma delete_where_subseteq {K A} `{Countable K} (p : K -> A -> bool) (m : gmap K A) :
  delete_where p m ⊆ m.
Proof. apply map_subseteq_spec. intros k a Hk. by apply lookup_delete_where_Some in Hk as [? _]. Qed.

Lemma purge_inv c i now d : journal_inv d -> journal_inv (purge c i now d).
Proof.
  intros I. destruct i as [|[|[|[|i]]]]; simpl.
  - apply (journal_inv_outbox_subset (delete_where _ (outbox d)));
      [apply delete_where_subseteq|done].
  - apply journal_inv_purge_rows; [|done]. intros id r _ Hp. b2p.
    destruct (do_payload r), (outbox d !! id); done.
  - by apply journal_inv_set_grants.
  - by apply journal_inv_set_requests.
  - by apply journal_inv_set_audit.
Qed.

(** The second transaction of [MaintainCollection]. *)
Definition purge_tx (channel : string) : Mdb unit :=
  tx_begin ;;
  tx_query (fun _ _ => Ok tt) ;;
  tx_exec (fun now x => Ok (tt, purge channel 0 now x)) ;;
  tx_exec (fun now x => Ok (tt, purge channel 1 now x)) ;;
  tx_exec (fun now x => Ok (tt, purge channel 2 now x)) ;;
  tx_exec (fun now x => Ok (tt, purge channel 3 now x)) ;;
  tx_exec (fun now x => Ok (tt, purge channel 4 now x)) ;;
  tx_commit.

Lemma purge_tx_ok c e s u s' : purge_tx c e s = (Ok u, s') -> exists t0 t1 t2 t3 t4,
  db s' = purge c 4 t4 (purge c 3 t3 (purge c 2 t2 (purge c 1 t1 (purge c 0 t0 (db s))))).
Proof.
  unfold purge_tx. generalize (purge c). intros p H. inv_run H.
  repeat match goal with E : Ok (_, _) = Ok (_, _) |- _ => injection E as <- <- end.
  do 5 eexists. reflexivity.
Qed.
Lemma atomic_purge_tx c : atomic (purge_tx c).
Proof. unfold purge_tx. frame_solve. Qed.
Lemma forward_purge_tx c : forward (purge_tx c).
Proof. unfold purge_tx. frame_solve. Qed.

(** ** Any invariant the single transactions keep, every run keeps *)

Section Keep.
Context (P : env -> nat -> database -> Prop).
Context (Pmono : forall e n n' d, (n <= n')%nat -> P e n d -> P e n' d).
Context (Penv : forall e k n d, P (forgiving k e) n d <-> P e n d).
Context (Pok : forall o e s u s', single_tx o = true -> op_typed o = true ->
  P e (tick s) (db s) -> run o e s = (Ok u, s') -> P e (tick s') (db s')).
Context (Ppurge : forall e n d c i now, P e n d -> P e n (purge c i now d)).
Context (Pdispatch : forall e n d id, P e n d -> P e n (set_outbox (delete id) d)).
Context (Hnq : forall c, quiet (notify c)) (Hnf : forall c, forward (notify c)).

Lemma forward_append_fresh g d a c : forward (append_fresh pg_column_size g d a c).
Proof. unfold append_fresh. frame_solve. Qed.
Lemma forward_replay d o : forward (replay d o).
Proof. unfold replay. frame_solve. Qed.
Lemma forward_make_decision k c key p n r x q col :
  forward (make_decision protojson k c key p n r x q col).
Proof. unfold make_decision. frame_solve. Qed.
#[local] Hint Resolve forward_append_fresh forward_replay forward_make_decision : collector.

Lemma forward_single o : single_tx o = true -> forward (run o).
Proof.
  destruct o; intros Ho; try done; simpl run.
  - unfold EnsureCollection. frame_solve.
  - unfold SetCollectionState. frame_solve.
  - apply forward_discard. unfold AcquireCollection. frame_solve.
  - apply forward_discard. unfold RenewCollection. frame_solve.
  - unfold ReleaseCollection. frame_solve.
  - unfold CollectionHeartbeat. frame_solve.
  - apply forward_discard. unfold AppendDonation. frame_solve.
  - apply forward_Expire.
  - apply forward_discard. unfold RotateJournal. frame_solve.
  - apply forward_discard. unfold ReadDonations. frame_solve.
  - unfold AckDonations. frame_solve.
  - apply forward_discard. unfold SetSubscription. frame_solve.
  - apply forward_discard. unfold ResolveRecovery. frame_solve.
  - frame_solve.
  - frame_solve.
Qed.

Let K {A} (m : Mdb A) : Prop := keeps (fun e s => P e (tick s) (db s)) m.

Lemma keeps_dispatch l : K (dispatch_rows notify l).
Proof.
  induction l as [|[id r] l IH]; [by intros e s Hs|]. simpl. apply keeps_bind.
  - by apply keeps_quiet.
  - intros _. apply keeps_bind; [|intros _; apply IH].
    apply keeps_atomic; [done|done|apply forward_pool_exec|apply atomic_pool_exec|].
    intros e s a s' Hs H. inv_run H. simplify_eq. cbn [db tick].
    apply (Pmono _ (tick s)); [lia|]. by apply Pdispatch.
Qed.

Lemma keeps_run o : op_typed o = true -> K (run o).
Proof.
  intros Ht. destruct (single_tx o) eqn:Es.
  - apply keeps_atomic; [done|done|by apply forward_single|by apply atomic_run|].
    intros. by eapply Pok.
  - destruct o; try done; simpl.
    + change (K (ExpireDonations pg_column_size channel (7 * day) (30 * day) (1073741824 - 1048576)
        ≫= fun _ => purge_tx channel)).
      apply keeps_bind.
      * apply keeps_atomic; [done|done|apply forward_Expire|apply atomic_Expire|].
        intros e s a s' Hs H.
        by apply (Pok (OpExpire channel (7 * day) (30 * day) (1073741824 - 1048576)) e s a).
      * intros _. apply keeps_atomic; [done|done|apply forward_purge_tx|apply atomic_purge_tx|].
        intros e s a s' Hs H. pose proof (forward_purge_tx channel e s) as F. rewrite H in F.
        apply purge_tx_ok in H as (t0 & t1 & t2 & t3 & t4 & ->). apply (Pmono _ _ _ _ F).
        by repeat apply Ppurge.
    + unfold DispatchDonationOutbox. apply keeps_bind; [|intros; apply keeps_dispatch].
      apply keeps_quiet; [done|apply forward_pool_query|apply quiet_pool_query].
Qed.

Lemma keeps_run_all l e s : forallb op_typed l = true ->
  P e (tick s) (db s) -> P e (tick (run_all l e s)) (db (run_all l e s)).
Proof.
  revert s; induction l as [|o l IH]; intros s Hl Hs; [done|]. simpl in *. b2p.
  apply IH; [done|]. by apply (keeps_run o).
Qed.
End Keep.

Lemma journal_single o e s u s' : single_tx o = true -> op_typed o = true ->
  journal_inv (db s) -> run o e s = (Ok u, s') -> journal_inv (db s').
Proof.
  intros Hs Ht I H. destruct (own_op o) eqn:Eo.
  { eapply same_journal_inv; [|exact I]. by eapply run_same_journal. }
  destruct o; try done; simpl in H;
    try (apply discard_ok in H as [? H]).
  - by eapply ensure_inv.
  - by eapply append_inv.
  - by eapply expire_inv.
  - by eapply rotate_inv.
  - by eapply read_inv.
  - by eapply ack_inv.
  - by eapply recover_inv.
Qed.

Lemma journal_dispatch d id : journal_inv d -> journal_inv (set_outbox (delete id) d).
Proof.
  intros I. apply (journal_inv_outbox_subset (delete id (outbox d))); [|done].
  apply delete_subseteq.
Qed.

Lemma run_all_journal l e s : (forall c, quiet (notify c)) -> (forall c, forward (notify c)) ->
  forallb op_typed l = true -> journal_inv (db s) -> journal_inv (db (run_all l e s)).
Proof.
  intros Hq Hf Hl I.
  apply (keeps_run_all (fun _ _ d => journal_inv d)); eauto using journal_single, purge_inv,
    journal_dispatch.
Qed.
End Run.
