(* ===== verification/OwnerInv.v ===== *)
(** Exclusive ownership: at any moment a channel has at most one open grant,
    and the open one is the channel's current owner, on its current
    generation. Kept by every run of the store whatever the driver does, as
    long as the server's clock does not run backwards. *)
From S2P Require Import Prelude GoLib Json Tx Model Db.
From S2P Require Import Ownership Journal Consumer JournalInv JournalRun.
From S2P Require Import OwnerRun Store.

Definition clock_monotone (e : env) : Prop :=
  forall i j, (i <= j)%nat -> clock e i <= clock e j.

Definition owner_view (d : database) (c : string) : option (option string * string) :=
  (fun r => (cr_owner_token r, cr_generation r)) <$> channels d !! c.

(** From round trip [n] on, an open grant is its channel's owner. *)
Definition owner_inv (e : env) (n : nat) (d : database) : Prop :=
  forall tok r m, grants d !! tok = Some r -> (n <= m)%nat -> open_at (clock e m) r = true ->
    owner_view d (gr_channel r) = Some (Some tok, gr_generation r).

Lemma owner_inv_mono e n n' d : (n <= n')%nat -> owner_inv e n d -> owner_inv e n' d.
Proof. intros Hn H tok r m Hr Hm. apply H; [done|lia]. Qed.

Lemma open_at_earlier t t' r : t <= t' -> open_at t' r = true -> open_at t r = true.
Proof. unfold open_at. destruct (gr_closed_at r); [done|]. intros ? H. b2p. apply Z.ltb_lt. lia. Qed.

Lemma open_at_closed t t' r : open_at t (close_grant t' r) = false.
Proof. done. Qed.

(** No grant is opened or moved, and the owners are what they were. *)
Definition owner_frame (d d' : database) : Prop :=
  (forall tok r', grants d' !! tok = Some r' -> exists r, grants d !! tok = Some r /\
     (r' = r \/ exists t, r' = close_grant t r)) /\
  (forall c v, owner_view d c = Some v -> owner_view d' c = Some v).

Lemma owner_inv_frame e n d d' : owner_frame d d' -> owner_inv e n d -> owner_inv e n d'.
Proof.
  intros [H1 H2] I tok r' m Hr Hm Ho. destruct (H1 _ _ Hr) as (r & Hr0 & [->|[t ->]]); [|done].
  apply H2. by eapply I.
Qed.

Lemma owner_frame_refl d d' : channels d' = channels d -> grants d' = grants d -> owner_frame d d'.
Proof. intros Hc Hg. unfold owner_frame, owner_view. rewrite Hc, Hg. split; eauto. Qed.

Lemma owner_frame_trans d1 d2 d3 : owner_frame d1 d2 -> owner_frame d2 d3 -> owner_frame d1 d3.
Proof.
  intros [A1 A2] [B1 B2]. split; [|auto].
  intros tok r3 H. destruct (B1 _ _ H) as (r2 & H2 & E2). destruct (A1 _ _ H2) as (r1 & H1 & E1).
  exists r1. split; [done|]. destruct E1 as [->|[t ->]]; [done|]. right.
  destruct E2 as [->|[t' ->]]; by eexists.
Qed.

Lemma owner_frame_update c f d :
  (forall r, cr_owner_token (f r) = cr_owner_token r /\ cr_generation (f r) = cr_generation r) ->
  owner_frame d (update_channel c f d).
Proof.
  intros Hf. split; [simpl; eauto|]. intros c' v. unfold owner_view.
  rewrite lookup_update_channel. case_decide as E; [subst c'|done].
  destruct (channels d !! c) as [r|]; simpl; [|done]. by destruct (Hf r) as [-> ->].
Qed.

Lemma owner_frame_close d m :
  (forall tok r', m !! tok = Some r' -> exists r, grants d !! tok = Some r /\
     (r' = r \/ exists t, r' = close_grant t r)) ->
  owner_frame d (set_grants (fun _ => m) d).
Proof. intros H. by split. Qed.

(** One grant [tok] is or becomes the owner of its channel. *)
Lemma owner_inv_insert e n d d' tok r :
  owner_inv e n d ->
  (forall t, grants d' !! t = if decide (tok = t) then Some r else grants d !! t) ->
  owner_view d' (gr_channel r) = Some (Some tok, gr_generation r) ->
  (forall c, c <> gr_channel r -> owner_view d' c = owner_view d c) ->
  (forall t v m, (n <= m)%nat -> grants d !! t = Some v -> t <> tok -> gr_channel v = gr_channel r ->
     open_at (clock e m) v = false) ->
  owner_inv e n d'.
Proof.
  intros I Hg Hv Hc Ho t v m Ht Hm Hop. rewrite Hg in Ht.
  case_decide as E; [subst t; injection Ht as <-; done|].
  destruct (decide (gr_channel v = gr_channel r)) as [Ec|Ec].
  - rewrite (Ho t v m Hm Ht) in Hop; [done|congruence|done].
  - rewrite Hc by done. by eapply I.
Qed.

Section Run.
Context (cc : option string) (sz : json -> Z) (proto : json -> string)
  (notify : string -> Mdb unit).

Lemma owner_frame_appended id key dd j t1 t2 d : owner_frame d (appended id key dd j t1 t2 d).
Proof.
  unfold appended. eapply owner_frame_trans; [|by apply owner_frame_update].
  by apply owner_frame_refl.
Qed.

Lemma owner_frame_expired c g th d :
  owner_frame d (update_channel c (with_expired th) (drop_through c g th d)).
Proof.
  eapply owner_frame_trans; [|by apply owner_frame_update]. by apply owner_frame_refl.
Qed.

Lemma owner_frame_ensure k c g x d : owner_frame d (ensure_consumer k c g x d).
Proof. unfold ensure_consumer. case_match; by apply owner_frame_refl. Qed.

Lemma owner_frame_closed c t d : owner_frame d (close_channel_grants c t d).
Proof.
  apply (owner_frame_close d (update_where _ _ (grants d))).
  intros tok r'. rewrite lookup_update_where_Some.
  intros (r & Hr & ->). exists r. split; [done|]. case_match; eauto.
Qed.

(** Operations that issue no grant. *)
Definition frame_op (o : op) : bool :=
  match o with OpAcquire _ _ | OpRenew _ | OpRotate _ _ _ => false | _ => single_tx o end.

Lemma run_owner_frame o e s u s' : frame_op o = true -> op_typed o = true ->
  journal_inv (db s) -> run cc sz proto notify o e s = (Ok u, s') -> owner_frame (db s) (db s').
Proof.
  destruct o; intros Ho Ht I H; try done; simpl in H; try (apply discard_ok in H as [a H]).
  - apply EnsureCollection_ok in H as [->|(Hn & g & t & ->)]; [by apply owner_frame_refl|].
    split; [simpl; eauto|]. intros c v. unfold owner_view, set_channel; simpl.
    rewrite lookup_insert. case_decide; [subst; by rewrite Hn|done].
  - unfold SetCollectionState in H. inv_run H. simplify_eq. by apply owner_frame_update.
  - unfold ReleaseCollection in H. inv_run H. simplify_eq. cbn [db].
    apply (owner_frame_close _ (alter _ _ (grants _))). intros tok r'.
    rewrite lookup_alter_Some. intros [(E & r & Hr & ->)|[_ Hr]]; subst; eauto.
  - unfold CollectionHeartbeat in H. inv_run H. simplify_eq. cbn [db].
    apply (owner_frame_update (g_Channel g)). intros r. by case_match.
  - apply AppendDonation_ok in H; [|done].
    destruct H as (_ & _ & n & x & Hp & [(r & j & _ & _ & _ & _ & ->)|Hf]); [by apply owner_frame_refl|].
    destruct Hf as (_ & _ & _ & _ & _ & _ & _ & j & t1 & t2 & _ & ->).
    apply owner_frame_appended.
  - apply ExpireDonations_ok in H as (_ & _ & g & n & x & k & _ & _ & _ & _ & ->); [|done].
    destruct (k =? 0)%nat; [by apply owner_frame_refl|apply owner_frame_expired].
  - destruct a as [ds col]. apply ReadDonations_ok in H; [|done].
    destruct H as (n & x & row & _ & _ & _ & _ & _ & _ & _ & _ & _ & _ & _ & _ & _ & ->).
    destruct (_ <? _); [|apply owner_frame_ensure].
    eapply owner_frame_trans; [apply owner_frame_ensure|by apply owner_frame_refl].
  - apply AckDonations_ok in H; [|done].
    destruct H as (n & x & row & _ & _ & _ & _ & _ & _ & _ & ->). by apply owner_frame_refl.
  - apply SetSubscription_ok in H as (_ & _ & [(q & _ & _ & _ & ->)|(_ & _ & _ & _ & t1 & t2 & ->)]);
      [by apply owner_frame_refl|].
    eapply owner_frame_trans; [apply (owner_frame_update channel (with_subscribed enabled)); done|].
    eapply owner_frame_trans; [|by apply owner_frame_refl].
    destruct enabled; [by apply owner_frame_refl|apply owner_frame_closed].
  - apply ResolveRecovery_ok in H as [(rq & _ & _ & _ & ->)|(_ & n & x' & old & _ & _ & H)];
      [by apply owner_frame_refl| |done].
    destruct H as (_ & _ & _ & _ & _ & t1 & t2 & ->). by apply owner_frame_refl.
  - inv_run H. simplify_eq. by apply owner_frame_refl.
  - inv_run H. simplify_eq. by apply owner_frame_refl.
Qed.

(** Acquiring: the previous owner's grant has run out, so the new one is alone. *)
Lemma acquire_owner c w e s g s' : clock_monotone e -> owner_inv e (tick s) (db s) ->
  AcquireCollection cc c w e s = (Ok g, s') -> owner_inv e (tick s') (db s').
Proof.
  intros Hc I H. apply AcquireCollection_ok in H.
  destruct H as (_ & row & t & m & Hrow & _ & _ & _ & Hgone & Hm & Hnew & _ & ->).
  eapply (owner_inv_insert e (tick s') (db s) _ (g_Token g)
    (GrantRow c w (cr_generation row) (clock e m) (clock e m + grant_ttl) None)).
  - eapply owner_inv_mono; [|exact I]. lia.
  - intros t'. apply lookup_insert.
  - simpl. unfold owner_view. rewrite lookup_update_channel, decide_True by done.
    simpl. by rewrite Hrow.
  - intros c' Hne. simpl in Hne. unfold owner_view. by rewrite lookup_update_channel, decide_False by congruence.
  - intros t' v k Hk Hv _ Hcv. simpl in Hcv. apply not_true_is_false. intros Ho.
    pose proof (I t' v k Hv) as Hown. rewrite Hcv in Hown. unfold owner_view in Hown.
    rewrite Hrow in Hown. simpl in Hown.
    assert (cr_owner_token row = Some t') as Ht.
    { assert (Some (cr_owner_token row, cr_generation row) = Some (Some t', gr_generation v)) as Hq
        by (apply Hown; [lia|done]). congruence. }
    destruct (Hgone _ Ht) as (r & j & Hr & Hj & Hcl).
    rewrite Hv in Hr. injection Hr as <-.
    rewrite (open_at_earlier (clock e j) (clock e k)) in Hcl; [done|apply Hc; lia|done].
Qed.

Lemma renew_owner g e s u s' : owner_inv e (tick s) (db s) ->
  RenewCollection g e s = (Ok u, s') -> owner_inv e (tick s') (db s').
Proof.
  intros I H. apply RenewCollection_ok in H.
  destruct H as (row & r & m & _ & _ & _ & _ & _ & Hr & Hm & Hop & _ & _ & ->).
  assert (owner_view (db s) (gr_channel r) = Some (Some (g_Token g), gr_generation r)) as Hv
    by (apply (I _ _ m Hr); [lia|done]).
  eapply (owner_inv_insert e (tick s') (db s) _ (g_Token g) (extend_grant u r)).
  - eapply owner_inv_mono; [|exact I]. lia.
  - intros t'. apply lookup_insert.
  - exact Hv.
  - done.
  - intros t' v k Hk Hv' Hne Hcv. apply not_true_is_false. intros Ho. simpl in Hcv.
    assert (owner_view (db s) (gr_channel v) = Some (Some t', gr_generation v)) as Hv2
      by (apply (I _ _ k Hv'); [lia|done]).
    rewrite Hcv, Hv in Hv2. congruence.
Qed.

Lemma rotate_owner c old reason e s r s' : owner_inv e (tick s) (db s) -> (tick s <= tick s')%nat ->
  RotateJournal c old reason e s = (Ok r, s') -> owner_inv e (tick s') (db s').
Proof.
  intros I Hn H. apply RotateJournal_ok in H as (_ & _ & t1 & t2 & a & ->).
  intros tok g m Hg Hm Ho. simpl in Hg. apply lookup_update_where_Some in Hg as (g0 & Hg & ->).
  destruct (String.eqb (gr_channel g0) c) eqn:E; [done|]. apply String.eqb_neq in E.
  rewrite <- (I tok g0 m Hg ltac:(lia) Ho).
  unfold owner_view. simpl. by rewrite lookup_alter_ne by congruence.
Qed.

Lemma owner_single o e s u s' : clock_monotone e -> single_tx o = true -> op_typed o = true ->
  journal_inv (db s) -> owner_inv e (tick s) (db s) -> (tick s <= tick s')%nat ->
  run cc sz proto notify o e s = (Ok u, s') -> owner_inv e (tick s') (db s').
Proof.
  intros Hc Hs Ht J I Hn H. destruct (frame_op o) eqn:Eo.
  - eapply owner_inv_mono; [exact Hn|]. eapply owner_inv_frame; [by eapply run_owner_frame|done].
  - destruct o; simpl in Eo, Hs; try congruence; simpl in H; apply discard_ok in H as [a H].
    + by eapply acquire_owner.
    + by eapply renew_owner.
    + by eapply rotate_owner.
Qed.

Lemma owner_purge e n d c i now : owner_inv e n d -> owner_inv e n (purge c i now d).
Proof.
  apply owner_inv_frame. destruct i as [|[|[|[|i]]]]; simpl; try by apply owner_frame_refl.
  split; [|done]. intros tok r'. simpl. rewrite lookup_delete_where_Some. intros [H _]. eauto.
Qed.

Lemma run_all_owner l e s : (forall c, quiet (notify c)) -> (forall c, forward (notify c)) ->
  clock_monotone e -> forallb op_typed l = true -> journal_inv (db s) ->
  owner_inv e (tick s) (db s) ->
  owner_inv e (tick (run_all cc sz proto notify l e s)) (db (run_all cc sz proto notify l e s)).
Proof.
  intros Hq Hf Hc Hl J I.
  pose (P := fun (e : env) (n : nat) d => journal_inv d /\ (clock_monotone e -> owner_inv e n d)).
  enough (P e (tick (run_all cc sz proto notify l e s)) (db (run_all cc sz proto notify l e s)))
    as [_ ?] by auto.
  apply keeps_run_all; try done; unfold P.
  - intros ? ? ? ? Hn [? H]. split; [done|]. intros. eapply owner_inv_mono; eauto.
  - intros o e0 s0 u s1 Hs Ht [J0 I0] H. split; [by eapply journal_single|]. intros Hm.
    eapply owner_single; eauto.
    pose proof (forward_single cc sz proto notify o Hs e0 s0) as F. by rewrite H in F.
  - intros ? ? ? ? ? ? [J0 I0]. split; [by apply purge_inv|]. intros. apply owner_purge. auto.
  - intros ? ? ? ? [J0 I0]. split; [by apply journal_dispatch|]. intros.
    eapply owner_inv_frame; [by apply owner_frame_refl|auto].
Qed.
End Run.
