(* ===== verification/JournalTotal.v ===== *)
(** Progress: without driver failures the journal's operations do succeed
    when their preconditions hold, and a consumer that reads and
    acknowledges page after page sees the whole journal, in order. *)
From S2P Require Import Prelude GoLib Json Tx Model Db.
From S2P Require Import Ownership Journal Consumer JournalInv JournalRun.
From S2P Require Import OwnerRun Store.

Section Append.
Context (cc : option string) (sz : json -> Z).

(** An event already journalled: the append answers with the stored one. *)
Lemma append_replay_run g d at_ e s n x r j dj :
  no_failures e -> journal_inv (db s) ->
  Donation.Validate d = Ok tt -> wall e (tick s) - 30 * day <= at_ ->
  Donation.ChannelID d = g_Channel g -> allowsCollection cc PlatformSoop (g_Channel g) = true ->
  position (db s) (Donation.ChannelID d) = Some (g_Generation g, n, x) ->
  donations (db s) !! Donation.EventID d = Some r -> do_payload r = Some j ->
  Donation.unmarshal j d = Some dj -> same_observation dj d = true ->
  exists s', AppendDonation cc sz g d at_ e s = (Ok dj, s') /\ db s' = db s.
Proof.
  intros Hn I Hv Ha Hc Hal Hp Hr Hj Hd Hs.
  destruct (scan_run _ _ _ _ _ (clock e (S (S (tick s)))) I Hp) as (col & Hcol & _ & Hg & _).
  unfold AppendDonation. rewrite (lift_run _ _ _ _ tt) by done.
  rewrite now_run, guard_run by (apply negb_true_iff, Z.ltb_ge; lia).
  rewrite guard_run by (by rewrite Hc, String.eqb_refl).
  rewrite begin_run by done. erewrite query_run; [|done|exact Hcol].
  rewrite guard_run by (rewrite Hg; apply String.eqb_refl).
  erewrite query_run; [|done|reflexivity]. cbn [wk bump db]. rewrite Hr. cbn [fmap option_fmap option_map].
  unfold replay. rewrite Hj, Hd, guard_run by done. rewrite commit_run by done.
  eexists. split; [reflexivity|done].
Qed.
End Append.

Lemma progressTX_succeeds k c e s r : no_failures e -> journal_inv (wk s) ->
  consumers (wk s) !! (k, c) = Some r ->
  progressTX k c e s = (Ok (MkProgress (co_generation r) (co_baseline r) (co_offered r)
                              (co_ack r) (co_revision r)), bump s).
Proof.
  intros Hn I Hr. unfold progressTX, tx_query. rewrite Hn, Hr. simpl.
  by rewrite (progress_ok _ _ _ _ I Hr).
Qed.

Section Read.
Context (k c g : string) (rev limit : Z) (e : env) (Hn : no_failures e).

Lemma read_run after s n x r : journal_inv (db s) -> position (db s) c = Some (g, n, x) ->
  x <= after <= n ->
  consumers (ensure_consumer k c g x (db s)) !! (k, c) = Some r ->
  co_generation r = g -> co_revision r = rev -> co_baseline r <= after <= co_offered r ->
  exists ds col s', ReadDonations k c g after rev limit e s = (Ok (ds, col), s').
Proof.
  intros I Hp Ha Hr Hg Hrev Hb.
  destruct (scan_run _ _ _ _ _ (clock e (S (tick s))) I Hp) as (col & Hcol & _ & Hcg & Hcn & Hcx).
  destruct (ensure_consumer_spec k c _ _ _ _ I Hp) as (I' & Hp' & _).
  unfold ReadDonations. rewrite begin_run by done.
  erewrite query_run; [|done|exact Hcol].
  rewrite guard_run by (rewrite Hcg; apply String.eqb_refl).
  rewrite guard_run by (apply negb_true_iff, Z.ltb_ge; lia).
  rewrite guard_run by (apply negb_true_iff, Z.ltb_ge; lia).
  erewrite exec_run; [|done|reflexivity]. cbn [wk bump db tick]. rewrite Hcx.
  erewrite bind_run; [|apply progressTX_succeeds; [done|exact I'|exact Hr]].
  cbn [p_Generation p_Revision p_Baseline p_Offered].
  rewrite guard_run by (rewrite Hg; apply String.eqb_refl).
  rewrite guard_run by (by apply Z.eqb_eq).
  rewrite guard_run by (apply negb_true_iff, orb_false_iff; split; apply Z.ltb_ge; lia).
  erewrite query_run; [|done|reflexivity]. cbn [wk bump db tick].
  assert (0 < clamp_limit limit) as Hlim.
  { unfold clamp_limit. destruct ((limit <? 1) || (500 <? limit)) eqn:El; [lia|b2p; lia]. }
  destruct (read_page _ I' _ _ _ _ (eq_trans (Hp' _) Hp) after (clamp_limit limit)) as (ds & R & _);
    [lia|done|].
  rewrite (lift_run _ _ _ _ _ R). cbn [fst snd].
  destruct (_ <? _).
  - erewrite exec_run; [|done|reflexivity]. rewrite commit_run by done. do 3 eexists. reflexivity.
  - erewrite bind_run; [|reflexivity]. rewrite commit_run by done. do 3 eexists. reflexivity.
Qed.

Lemma ack_run off s n x r : journal_inv (db s) -> position (db s) c = Some (g, n, x) ->
  x <= off -> consumers (db s) !! (k, c) = Some r ->
  co_generation r = g -> co_revision r = rev -> co_baseline r < off <= co_offered r ->
  (forall a, co_ack r = Some a -> a <= off) ->
  exists s', AckDonations k c g off rev e s = (Ok tt, s').
Proof.
  intros I Hp Hx Hr Hg Hrev Hb Hack.
  destruct (scan_run _ _ _ _ _ (clock e (S (tick s))) I Hp) as (col & Hcol & _ & Hcg & Hcn & Hcx).
  unfold AckDonations. rewrite begin_run by done.
  erewrite query_run; [|done|exact Hcol].
  rewrite guard_run by (rewrite Hcg; apply String.eqb_refl).
  rewrite guard_run by (apply negb_true_iff, Z.ltb_ge; lia).
  erewrite bind_run.
  2:{ unfold try. rewrite (progressTX_succeeds k c e _ r) by done. reflexivity. }
  erewrite lift_run by reflexivity. cbn [p_Generation p_Revision p_Baseline p_Offered p_Ack].
  rewrite guard_run by (rewrite Hg; apply String.eqb_refl).
  rewrite guard_run by (by apply Z.eqb_eq).
  rewrite guard_run.
  2:{ apply negb_true_iff, orb_false_iff. split; [apply orb_false_iff; split|].
      - apply Z.leb_gt; lia.
      - apply Z.ltb_ge; lia.
      - destruct (co_ack r) as [a|] eqn:Ea; [|done]. apply Z.ltb_ge. by apply Hack. }
  erewrite exec_run; [|done|reflexivity]. unfold tx_commit. rewrite Hn. eauto.
Qed.

(** ** A consumer that keeps reading *)

(** Read a page, acknowledge its last offset, and so on until a page is
    empty: the loop the contract of [Read] and [Ack] is written for. *)
Fixpoint drain (fuel : nat) (after : Z) : Mdb (list Donation.t) :=
  match fuel with
  | O => mret []
  | S fuel =>
      p ← ReadDonations k c g after rev limit;
      match last p.1 with
      | None => mret []
      | Some d =>
          AckDonations k c g (Donation.Offset d) rev ;;
          rest ← drain fuel (Donation.Offset d);
          mret (p.1 ++ rest)
      end
  end.

Lemma last_offset ds a m : map Donation.Offset ds = zseq (a + 1) m ->
  match last ds with
  | None => m = 0%nat
  | Some d => Donation.Offset d = a + Z.of_nat m /\ (0 < m)%nat
  end.
Proof.
  revert a m; induction ds as [|d ds IH]; intros a m H; destruct m as [|m]; try done.
  simpl in H. injection H as H1 H2. destruct ds as [|d2 ds].
  - destruct m; [|done]. simpl. rewrite H1. lia.
  - change (last (d :: d2 :: ds)) with (last (d2 :: ds)).
    specialize (IH (a + 1) m H2). destruct (last (d2 :: ds)); [lia|]. by subst m.
Qed.

Lemma zseq_app a m1 m2 : zseq a (m1 + m2) = zseq a m1 ++ zseq (a + Z.of_nat m1) m2.
Proof.
  revert a; induction m1 as [|m IH]; intros a; simpl.
  - f_equal. lia.
  - f_equal. rewrite IH. do 2 f_equal. lia.
Qed.

Lemma after_rows_frame d1 d2 ch gen a :
  donations d1 = donations d2 -> after_rows d1 ch gen a = after_rows d2 ch gen a.
Proof. intros H. unfold after_rows, select_retained. by rewrite H. Qed.

(** The state a reader is in after the page up to [after]. *)
Definition at_position (n x after : Z) (d : database) : Prop :=
  journal_inv d /\ position d c = Some (g, n, x) /\ x <= after <= n /\
  exists r, consumers (ensure_consumer k c g x d) !! (k, c) = Some r /\
    co_generation r = g /\ co_revision r = rev /\ co_baseline r <= after <= co_offered r /\
    (forall a, co_ack r = Some a -> a <= after).

Lemma read_ack_step after s n x : at_position n x after (db s) -> after < n ->
  exists ds col s1 d s2, ReadDonations k c g after rev limit e s = (Ok (ds, col), s1) /\
    last ds = Some d /\ AckDonations k c g (Donation.Offset d) rev e s1 = (Ok tt, s2) /\
    at_position n x (Donation.Offset d) (db s2) /\ donations (db s2) = donations (db s) /\
    after < Donation.Offset d <= n /\
    map Donation.Offset ds = zseq (after + 1) (Z.to_nat (Donation.Offset d - after)).
Proof.
  intros (I & Hp & Ha & r & Hr & Hg & Hrev & Hb & Hack) Hlt.
  destruct (read_run after s n x r) as (ds & col & s1 & H1); try done.
  pose proof (read_inv _ _ _ _ _ _ _ _ _ _ I H1) as I1.
  pose proof H1 as H1'. apply ReadDonations_ok in H1'; [|done].
  destruct H1' as (n' & x' & r' & Hp' & _ & _ & _ & _ & Hr' & _ & _ & _ & Hk & _ & _ & _ & Hdb).
  rewrite Hp in Hp'. injection Hp' as <- <-. rewrite Hr in Hr'. injection Hr' as <-.
  cbv zeta in Hk. set (k' := Z.min (clamp_limit limit) (n - after)) in *.
  assert (0 < clamp_limit limit) as Hlim.
  { unfold clamp_limit. destruct ((limit <? 1) || (500 <? limit)) eqn:El; [lia|b2p; lia]. }
  pose proof (last_offset _ _ _ Hk) as Hlast.
  destruct (last ds) as [d|] eqn:Ed; [|lia]. destruct Hlast as [Ho _].
  assert (Donation.Offset d = after + k') as Ho' by lia.
  destruct (ensure_consumer_spec k c _ _ _ _ I Hp) as (I' & Hpe & Hde & _).
  assert (position (db s1) c = Some (g, n, x) /\ donations (db s1) = donations (db s) /\
    consumers (db s1) !! (k, c) = Some (with_offered (Z.max (co_offered r) (after + k')) r))
    as (Hp1 & Hd1 & Hr1).
  { rewrite Hdb. destruct (co_offered r <? after + k') eqn:E; b2p.
    - split; [by rewrite <- Hp, <- (Hpe c)|]. split; [done|]. simpl.
      rewrite lookup_insert_eq. do 2 f_equal. lia.
    - split; [by rewrite <- Hp|]. split; [done|]. rewrite Hr. rewrite Z.max_l by lia.
      by destruct r. }
  edestruct (ack_run (Donation.Offset d) s1 n x) as (s2 & H2);
    [exact I1|exact Hp1|lia|exact Hr1|done|done|simpl; lia| |].
  { simpl. intros a Hak. specialize (Hack _ Hak). lia. }
  pose proof (ack_inv _ _ _ _ _ _ _ _ _ I1 H2) as I2.
  pose proof H2 as H2'. apply AckDonations_ok in H2'; [|done].
  destruct H2' as (_ & _ & r2 & _ & _ & Hr2 & _ & _ & _ & _ & Hdb2).
  rewrite Hr1 in Hr2. injection Hr2 as <-.
  exists ds, col, s1, d, s2. split; [done|]. split; [done|]. split; [done|].
  split; [|split; [by rewrite Hdb2, <- Hd1|split; [lia|]]].
  - split; [done|]. split; [by rewrite Hdb2, <- Hp1|]. split; [lia|].
    assert (consumers (db s2) !! (k, c) = Some (with_ack (Donation.Offset d)
      (with_offered (Z.max (co_offered r) (after + k')) r))) as Hc2.
    { rewrite Hdb2. simpl. apply lookup_insert_eq. }
    exists (with_ack (Donation.Offset d) (with_offered (Z.max (co_offered r) (after + k')) r)).
    split; [unfold ensure_consumer; by rewrite Hc2|]. simpl.
    repeat split; try done; try lia. intros a [= <-]. lia.
  - rewrite Hk. f_equal. lia.
Qed.

Lemma read_end_step after s n x : at_position n x after (db s) -> after = n ->
  exists col s1, ReadDonations k c g after rev limit e s = (Ok ([], col), s1).
Proof.
  intros (I & Hp & Ha & r & Hr & Hg & Hrev & Hb & Hack) ->.
  destruct (read_run n s n x r) as (ds & col & s1 & H1); try done.
  pose proof H1 as H1'. apply ReadDonations_ok in H1'; [|done].
  destruct H1' as (n' & x' & r' & Hp' & _ & _ & _ & _ & _ & _ & _ & _ & Hk & _).
  rewrite Hp in Hp'. injection Hp' as <- <-. cbv zeta in Hk.
  replace (Z.to_nat (Z.min (clamp_limit limit) (n - n))) with 0%nat in Hk by lia.
  destruct ds; [|done]. eauto.
Qed.

Lemma drain_all fuel : forall after s n x, at_position n x after (db s) ->
  n - after < Z.of_nat fuel ->
  exists ds s', drain fuel after e s = (Ok ds, s') /\
    map Donation.Offset ds = zseq (after + 1) (Z.to_nat (n - after)) /\
    donations (db s') = donations (db s).
Proof.
  induction fuel as [|fuel IH]; intros after s n x Hat Hf.
  { destruct Hat as (_ & _ & Ha & _). lia. }
  pose proof Hat as (_ & _ & Ha & _). simpl drain.
  destruct (decide (after = n)) as [E|E].
  - destruct (read_end_step after s n x Hat E) as (col & s1 & H1).
    rewrite (bind_run _ _ _ _ _ _ H1). exists [], s1. split; [done|].
    replace (Z.to_nat (n - after)) with 0%nat by lia. split; [done|].
    pose proof Hat as (I & Hp & _). apply ReadDonations_ok in H1; [|done].
    destruct H1 as (n' & x' & r' & Hp' & _ & _ & _ & _ & _ & _ & _ & _ & _ & _ & _ & _ & ->).
    unfold ensure_consumer. by repeat case_match.
  - destruct (read_ack_step after s n x Hat) as (ds & col & s1 & d & s2 & H1 & Hl & H2 & Hat2 & Hd & Ho & Hk);
      [lia|].
    rewrite (bind_run _ _ _ _ _ _ H1). cbn [fst]. rewrite Hl.
    rewrite (bind_run _ _ _ _ _ _ H2).
    destruct (IH (Donation.Offset d) s2 n x Hat2) as (rest & s' & H3 & Hk3 & Hd3); [lia|].
    rewrite (bind_run _ _ _ _ _ _ H3). exists (ds ++ rest), s'. split; [done|].
    split; [|congruence]. rewrite map_app, Hk, Hk3.
    replace (Z.to_nat (n - after))
      with (Z.to_nat (Donation.Offset d - after) + Z.to_nat (n - Donation.Offset d))%nat by lia.
    rewrite zseq_app. do 2 f_equal. lia.
Qed.
End Read.
