(* ===== verification/JournalProps.v ===== *)
(** The properties of the journal and of its ownership, over every run of
    the store, each with a concrete run it applies to. *)
From S2P Require Import Prelude GoLib Json Tx Model Db.
From S2P Require Import Ownership Journal Consumer JournalInv JournalRun.
From S2P Require Import OwnerRun Store OwnerInv JournalTotal.

(** ** A concrete service *)

Module Demo.
(** No failure, a clock advancing one millisecond per statement. *)
Definition e : env :=
  Env (fun _ => false) (fun _ => false) (fun n => 1700000000 * second + Z.of_nat n * millisecond)
      (fun n => 1700000000 * second + Z.of_nat n * millisecond)
      (fun n => "uuid-" +:+ format_uint (Z.of_nat n)).
Definition size : json -> Z := fun j => lenZ (render j).
Definition notify : string -> Mdb unit := fun _ => mret tt.
Definition go : list op -> world database := fun l => run_all None size render notify l e initial.

Definition live : gmap Z live_row :=
  {[ 1 := LiveRow PlatformSoop "bj1" "streamer" 10 ChannelStatusLive (Some "w1"%string) 0 0
            None None None None ]}.
Definition setup : list op := [OpEnsure "bj1"; OpLive live; OpAcquire "bj1" "w1"].

Definition grant : OwnerGrant :=
  match AcquireCollection None "bj1" "w1" e (go [OpEnsure "bj1"; OpLive live]) with
  | (Ok g, _) => g
  | _ => MkGrant EmptyString EmptyString EmptyString 0 0
  end.
Definition generation : string := g_Generation grant.
Definition now : Z := g_GrantedAt grant + 5 * millisecond.

Definition donation (id : string) (count seq : Z) : Donation.t :=
  Donation.Mk id "bj1" count "balloon" "donor" "Donor" "hello" "epoch-1" seq now
    zero_time None None EmptyString [] [] EmptyString 0.

Definition appends : list op :=
  setup ++ [OpAppend grant (donation "ev-1" 100 1) now;
            OpAppend grant (donation "ev-2" 200 2) now;
            OpAppend grant (donation "ev-3" 300 3) now].

Lemma monotone : clock_monotone e.
Proof. intros i j H. unfold e, clock. unfold second, millisecond. lia. Qed.
Lemma notify_quiet c : quiet (notify c).
Proof. apply quiet_ret. Qed.
Lemma notify_forward c : forward (notify c).
Proof. apply forward_ret. Qed.
End Demo.

Example demo_offsets :
  position (db (Demo.go Demo.appends)) "bj1" = Some (Demo.generation, 3, 0).
Proof. vm_compute. reflexivity. Qed.

Section Props.
Context (cc : option string) (sz : json -> Z) (proto : json -> string)
  (notify : string -> Mdb unit).
Context (Hquiet : forall c, quiet (notify c)) (Hforward : forall c, forward (notify c)).
#[local] Notation reach := (reachable cc sz proto notify).

Lemma reachable_journal e s : reach e s -> journal_inv (db s).
Proof.
  intros (l & Hl & ->). apply run_all_journal; try done; apply journal_inv_empty.
Qed.

Lemma reachable_owner e s : clock_monotone e -> reach e s -> owner_inv e (tick s) (db s).
Proof.
  intros Hc (l & Hl & ->). apply run_all_owner; try done; apply journal_inv_empty.
Qed.

(** C1: in every database the store can reach (any operations in any order,
    any driver failures) the journal is consistent: offsets of a channel's
    rows are distinct and lie between the expired mark and the current
    offset, every offset above the mark has a row with its payload, every
    payload decodes to the row it is stored in, consumer cursors stay within
    the journal and every notification belongs to a row. *)
Theorem journal_always_consistent e s : reach e s -> journal_inv (db s).
Proof. apply reachable_journal. Qed.

(** C2: at any time a channel has at most one open ownership grant, and it
    is the one of the channel's owner, on the channel's current generation. *)
Theorem single_owner e s m t1 t2 r1 r2 :
  clock_monotone e -> reach e s -> (tick s <= m)%nat ->
  grants (db s) !! t1 = Some r1 -> grants (db s) !! t2 = Some r2 ->
  gr_channel r1 = gr_channel r2 ->
  open_at (clock e m) r1 = true -> open_at (clock e m) r2 = true ->
  t1 = t2 /\ exists row, channels (db s) !! gr_channel r1 = Some row /\
    cr_owner_token row = Some t1 /\ cr_generation row = gr_generation r1.
Proof.
  intros Hc Hr Hm H1 H2 Ech O1 O2. pose proof (reachable_owner _ _ Hc Hr) as I.
  pose proof (I _ _ _ H1 Hm O1) as V1. pose proof (I _ _ _ H2 Hm O2) as V2.
  rewrite Ech in V1. rewrite V1 in V2. split; [congruence|].
  rewrite <- Ech in V1. unfold owner_view in V1.
  destruct (channels (db s) !! gr_channel r1) as [row|]; [|done]. exists row.
  simpl in V1. split; [done|]. split; congruence.
Qed.

(** C3: a successful append either found the event already journalled, and
    changes nothing, or stores exactly one new row, at the next offset of the
    channel, under a grant of the channel's generation that admits the
    acceptance time, with its notification; no other row changes. *)
Theorem append_exactly_one_row g d at_ e s d' s' :
  reach e s -> Donation.in_width d = true ->
  AppendDonation cc sz g d at_ e s = (Ok d', s') ->
  exists n x, position (db s) (Donation.ChannelID d) = Some (g_Generation g, n, x) /\
  ((donations (db s) !! Donation.EventID d <> None /\ db s' = db s) \/
   (donations (db s) !! Donation.EventID d = None /\
    Donation.Offset d' = n + 1 /\ Donation.Generation d' = g_Generation g /\
    Donation.EventID d' = Donation.EventID d /\
    position (db s') (Donation.ChannelID d) = Some (g_Generation g, n + 1, x) /\
    (exists row j, do_offset row = n + 1 /\ do_payload row = Some j /\
      Donation.unmarshal j Donation.zero = Some (Donation.coerced d') /\
      donations (db s') = <[Donation.EventID d := row]> (donations (db s))) /\
    (exists t, outbox (db s') =
       <[Donation.EventID d := OutboxRow (Donation.ChannelID d) t]> (outbox (db s))) /\
    exists r m, grants (db s) !! g_Token g = Some r /\ (tick s <= m < tick s')%nat /\
      grant_admits g at_ (clock e m) r = true)).
Proof.
  intros Hr Hw H. pose proof (reachable_journal _ _ Hr) as I.
  apply AppendDonation_ok in H; [|done].
  destruct H as (_ & Hch & n & x & Hp & Hcase). exists n, x. split; [done|].
  destruct Hcase as [(r & j & Hrow & _ & _ & _ & ->)|Hf]; [left; split; [congruence|done]|].
  destruct Hf as (Hid & Hn & _ & _ & _ & Hg & (i & rs & rl & -> & _) & j & t1 & t2 & Hj & ->).
  destruct (ji_bounds _ I _ _ _ _ Hp) as [B1 B2].
  destruct (appended_row (g_Generation g) d i rs rl n j Hw) as [Ho _]; [unfold u64_max in *; lia|done|].
  right. split; [done|]. split; [exact Ho|]. split; [done|]. split; [done|]. split.
  { unfold appended, position. rewrite lookup_update_channel; simpl. rewrite decide_True by done.
    unfold position in Hp. destruct (channels (db s) !! Donation.ChannelID d) as [row|]; [|done].
    simpl in Hp |- *. injection Hp as -> _ ->.
    change (u64 (n + 1) = n + 1) in Ho. by rewrite Ho. }
  split; [|split; [by eexists|done]].
  do 2 eexists. split; [|split; [|split; [|reflexivity]]].
  - exact Ho.
  - reflexivity.
  - apply Donation.unmarshal_marshal; [|done].
    unfold Donation.in_width, with_identity, with_position in *; simpl in *.
    pose proof (u64_range (n + 1)). b2p.
    repeat (apply andb_true_iff; split); apply Z.leb_le; lia.
Qed.

Lemma merge_coerced i rs rl g0 n0 d :
  (rs = Donation.Reasons d \/ rs <> []) -> (rl = Donation.Related d \/ rl <> []) ->
  Donation.SourceID d = None -> Donation.valid_texts d = true ->
  let d1 := with_identity i rs rl (with_position g0 n0 d) in
  Donation.merge_omitted (Donation.coerced d1) d = Donation.coerced d1.
Proof.
  intros Hrs Hrl Hs Hv d1.
  assert (Donation.coerced d = d) as Hc by (by apply Donation.coerced_valid).
  destruct d as [? ? ? ? ? ? ? ? ? ? ? src br ident R L ? ?]; simpl in *. subst src.
  unfold d1, Donation.coerced, Donation.merge_omitted; simpl. f_equal.
  - by destruct br.
  - destruct rs; simpl; [|done]. destruct Hrs as [<-|?]; done.
  - destruct rl; simpl; [|done]. destruct Hrl as [<-|?]; done.
Qed.

(** C4: retrying an append that succeeded (from any process, with the same
    observation, even after the grant was closed) answers with the stored
    donation and changes nothing, when the driver works, the journal was not
    restored in between and the observation is not older than thirty days. *)
Theorem append_retry_same g g2 d at1 at2 e1 e2 s d1 s1 :
  reach e1 s -> Donation.in_width d = true -> Donation.valid_texts d = true ->
  donations (db s) !! Donation.EventID d = None ->
  AppendDonation cc sz g d at1 e1 s = (Ok d1, s1) ->
  no_failures e2 -> wall e2 (tick s1) - 30 * day <= at2 ->
  g_Channel g2 = g_Channel g -> g_Generation g2 = g_Generation g ->
  exists s2, AppendDonation cc sz g2 d at2 e2 s1 = (Ok (Donation.coerced d1), s2) /\ db s2 = db s1.
Proof.
  intros Hr Hw Hv Hfresh H Hn Ha Hgc Hgg. pose proof (reachable_journal _ _ Hr) as I.
  pose proof (append_inv cc sz _ _ _ _ _ _ _ Hw I H) as I1.
  assert (allowsCollection cc PlatformSoop (Donation.ChannelID d) = true) as Hal.
  { unfold AppendDonation in H. clear -H. inv_run H. by b2p. }
  apply AppendDonation_ok in H; [|done].
  destruct H as (Hval & Hch & n & x & Hp & [(r & j & Hrow & _)|Hf]); [congruence|].
  destruct Hf as (_ & Hne & Hsrc & _ & _ & _ & (i & rs & rl & -> & Hrs & Hrl) & j & t1 & t2 & Hj & Hdb).
  destruct (ji_bounds _ I _ _ _ _ Hp) as [B1 B2].
  destruct (appended_row (g_Generation g) d i rs rl n j Hw) as [Ho _]; [unfold u64_max in *; lia|done|].
  set (d1 := with_identity i rs rl (with_position (g_Generation g) (u64 (n + 1)) d)) in *.
  eapply (append_replay_run cc sz g2 d at2 e2 s1 (n + 1) x).
  - done.
  - done.
  - done.
  - done.
  - congruence.
  - by rewrite Hgc, <- Hch.
  - rewrite Hdb, Hgg. unfold appended, position. rewrite lookup_update_channel; simpl.
    rewrite decide_True by done. unfold position in Hp.
    destruct (channels (db s) !! Donation.ChannelID d) as [row|]; [|done].
    simpl in Hp |- *. injection Hp as -> _ ->. change (u64 (n + 1) = n + 1) in Ho. by rewrite Ho.
  - rewrite Hdb. apply lookup_insert_eq.
  - done.
  - rewrite (Donation.marshal_ok _ _ Hj), Donation.unmarshal_fields.
    + f_equal. apply merge_coerced; try done.
    + unfold d1, Donation.in_width, with_identity, with_position in *; simpl in *.
      pose proof (u64_range (n + 1)). b2p. repeat (apply andb_true_iff; split); apply Z.leb_le; lia.
  - unfold same_observation, Donation.valid_texts in *. cbn [forallb] in Hv. b2p. simpl.
    rewrite !coerce_valid by done. by rewrite !String.eqb_refl, !Z.eqb_refl.
Qed.

Lemma set_consumers_insert key r r' d :
  set_consumers (insert key r) (set_consumers (insert key r') d) = set_consumers (insert key r) d.
Proof. destruct d. unfold set_consumers. simpl. by rewrite insert_insert_eq. Qed.

(** What a read leaves in the consumer's row: a first read makes the row, at
    the beginning of what is kept. *)
Definition consumer_or_new (g : string) (x : Z) (o : option consumer_row) : consumer_row :=
  default (ConsumerRow g x None x 0) o.

Lemma ensured k c g x d r : consumers (ensure_consumer k c g x d) !! (k, c) = Some r ->
  consumer_or_new g x (consumers d !! (k, c)) = r /\
  ensure_consumer k c g x d = set_consumers (insert (k, c) r) d.
Proof.
  unfold ensure_consumer, consumer_or_new. destruct (consumers d !! (k, c)) as [r'|] eqn:E.
  - rewrite E. intros [= <-]. split; [done|]. destruct d. unfold set_consumers. simpl in *.
    by rewrite insert_id.
  - simpl. rewrite lookup_insert_eq. by intros [= <-].
Qed.

(** C5: a read that succeeds is one under the journal's generation, the
    consumer's revision and at a cursor the consumer was offered. It returns
    exactly the next offsets after the cursor, without a hole or a repetition,
    as many as the limit allows and the journal holds; and it moves the
    consumer's offered mark forward to the last of them, never back, and
    changes nothing else in the database. *)
Theorem read_contiguous k c g after rev limit e s ds col s' :
  reach e s -> ReadDonations k c g after rev limit e s = (Ok (ds, col), s') ->
  exists n x, position (db s) c = Some (g, n, x) /\ x <= after <= n /\
    let last := after + Z.min (clamp_limit limit) (n - after) in
    let r := consumer_or_new g x (consumers (db s) !! (k, c)) in
    map Donation.Offset ds = zseq (after + 1) (Z.to_nat (last - after)) /\
    (forall i d, ds !! i = Some d -> exists id r, donations (db s) !! id = Some r /\
       do_channel r = c /\ do_offset r = Donation.Offset d /\ Donation.EventID d = coerce id) /\
    co_generation r = g /\ co_revision r = rev /\ co_baseline r <= after <= co_offered r /\
    db s' = set_consumers (insert (k, c) (ConsumerRow g (co_baseline r) (co_ack r)
              (Z.max (co_offered r) last) rev)) (db s).
Proof.
  intros Hr H. pose proof (reachable_journal _ _ Hr) as I. apply ReadDonations_ok in H; [|done].
  destruct H as (n & x & r & Hp & _ & _ & _ & Ha & Hc & Hg & Hrev & Hb & Hk & Hids & _ & _ & Hdb).
  cbv zeta in Hk, Hdb. set (m := Z.min (clamp_limit limit) (n - after)) in *.
  exists n, x. split; [done|]. split; [lia|]. cbv zeta. fold m.
  destruct (ensured k c g x (db s) r Hc) as [-> Hens].
  split; [by replace (after + m - after) with m by lia|]. split.
  { intros i d Hi.
    assert (map Donation.EventID ds !! i = Some (Donation.EventID d)) as Hid
      by by rewrite list_lookup_fmap, Hi.
    rewrite Hids in Hid. rewrite list_lookup_fmap in Hid.
    destruct (take _ _ !! i) as [[id r0]|] eqn:Ei; [|done]. injection Hid as Hid.
    apply lookup_take_Some in Ei as [Ei Hlt].
    pose proof (list_elem_of_lookup_2 _ _ _ Ei) as Hin.
    assert ((id, r0) ∈ select_retained c g (db s)) as Hin'.
    { unfold after_rows in Hin. apply list_elem_of_In, filter_In in Hin as [Hin _].
      by apply list_elem_of_In. }
    apply (elem_select_retained _ I _ _ _ _ Hp) in Hin' as (Hd & Hch & _).
    exists id, r0. split; [done|]. split; [done|]. split; [|done].
    pose proof (after_rows_offsets _ I _ _ _ _ Hp after Ha) as Hoffs.
    assert (map (fun p => do_offset p.2) (after_rows (db s) c g after) !! i = Some (do_offset r0)) as H1
      by by rewrite list_lookup_fmap, Ei.
    assert (map Donation.Offset ds !! i = Some (Donation.Offset d)) as H2
      by by rewrite list_lookup_fmap, Hi.
    rewrite Hoffs in H1. rewrite Hk in H2.
    apply lookup_zseq in H1 as [-> _]. apply lookup_zseq in H2 as [-> _]. done. }
  do 3 (split; [done|]). rewrite Hdb, Hens. destruct (co_offered r <? after + m) eqn:E; b2p.
  - rewrite Z.max_r, set_consumers_insert by lia. destruct r; simpl in *. by subst.
  - rewrite Z.max_l by lia. destruct r; simpl in *. by subst.
Qed.

(** An acknowledgement moves the consumer's cursor forward only, to an
    offset that was offered to it, and touches nothing else. *)
Theorem ack_monotone k c g off rev e s u s' :
  reach e s -> AckDonations k c g off rev e s = (Ok u, s') ->
  exists r n x, position (db s) c = Some (g, n, x) /\ consumers (db s) !! (k, c) = Some r /\
    co_revision r = rev /\ co_baseline r < off /\ x <= off <= co_offered r /\ co_offered r <= n /\
    (forall a, co_ack r = Some a -> a <= off) /\
    db s' = set_consumers (insert (k, c)
      (ConsumerRow g (co_baseline r) (Some off) (co_offered r) rev)) (db s).
Proof.
  intros Hr H. pose proof (reachable_journal _ _ Hr) as I. apply AckDonations_ok in H; [|done].
  destruct H as (n & x & r & Hp & Hx & Hrow & Hg & Hrev & Ho & Ha & ->).
  destruct (ji_consumers _ I _ _ _ Hrow) as (g' & n' & x' & Hp' & _ & Hn & _).
  rewrite Hp in Hp'. injection Hp' as <- <- <-.
  exists r, n, x. repeat split; try done; try lia. unfold with_ack. by rewrite Hg, Hrev.
Qed.

(** C7: a consumer that reads and acknowledges page after page, with a
    working driver, receives every offset after its cursor exactly once and
    in order, and reaches the end of the journal. *)
Theorem consumer_receives_everything k c g rev limit fuel after e0 e s n x r :
  reach e0 s -> no_failures e -> position (db s) c = Some (g, n, x) -> x <= after <= n ->
  consumers (db s) !! (k, c) = Some r -> co_generation r = g -> co_revision r = rev ->
  co_baseline r <= after <= co_offered r -> (forall a, co_ack r = Some a -> a <= after) ->
  n - after < Z.of_nat fuel ->
  exists ds s', drain k c g rev limit fuel after e s = (Ok ds, s') /\
    map Donation.Offset ds = zseq (after + 1) (Z.to_nat (n - after)) /\
    donations (db s') = donations (db s).
Proof.
  intros Hr Hn Hp Ha Hrow Hg Hrev Hb Hack Hf. pose proof (reachable_journal _ _ Hr) as I.
  apply (drain_all k c g rev limit e Hn fuel after s n x); [|done].
  split; [done|]. split; [done|]. split; [done|]. exists r.
  unfold ensure_consumer. rewrite Hrow. auto.
Qed.

(** C8: retention removes a prefix of the retained donations, at most five
    hundred at a time, and each only because it is older than the maximum
    age, because the rows after it still exceed the byte budget, or because
    every consumer has acknowledged it and it has the minimum age; it clears
    payloads and moves the expired mark, and nothing else. *)
Theorem retention_justified c a b m e s u s' :
  reach e s -> ExpireDonations sz c a b m e s = (Ok u, s') ->
  exists g n x k, position (db s) c = Some (g, n, x) /\ (k <= 500)%nat /\
    x + Z.of_nat k <= n /\ position (db s') c = Some (g, n, x + Z.of_nat k) /\
    (forall i v, (i < k)%nat -> candidates sz c g (db s) !! i = Some v ->
       cd_offset v = x + 1 + Z.of_nat i /\
       may_drop c g a b m e (tick s) (tick s')
         (left_after (payload_total sz c (db s)) (take i (candidates sz c g (db s)))) v (db s)) /\
    (forall id r', donations (db s') !! id = Some r' -> exists r, donations (db s) !! id = Some r /\
       r' = if String.eqb (do_channel r) c && String.eqb (do_generation r) g
               && (do_offset r <=? x + Z.of_nat k) then clear_payload r else r) /\
    consumers (db s') = consumers (db s) /\ grants (db s') = grants (db s).
Proof.
  intros Hr H. pose proof (reachable_journal _ _ Hr) as I.
  pose proof H as H'. apply ExpireDonations_ok in H as (_ & _ & g & n & x & k & Hp & Hk & Hb & Hm & Hdb); [|done].
  exists g, n, x, k. split; [done|]. split; [done|]. split; [done|].
  destruct k as [|k]; simpl Nat.eqb in Hdb; cbv iota in Hdb.
  - replace (x + Z.of_nat 0) with x in * by lia. rewrite Hdb.
    split; [done|]. split; [exact Hm|]. split; [|done].
    intros id r' Hrow. exists r'. split; [done|].
    destruct (ji_rows _ I _ _ Hrow) as (n' & x' & P1 & P2 & P3).
    destruct (_ && _) eqn:E; [|done]. b2p. subst. rewrite P1 in Hp. injection Hp as -> ->.
    destruct (do_payload r') eqn:Ep; [|by destruct r'; simpl in *; subst].
    exfalso. assert (x < do_offset r') by (by apply P3). lia.
  - rewrite Hdb. split.
    { unfold position. rewrite lookup_update_channel; simpl. rewrite decide_True by done.
      unfold position in Hp. destruct (channels (db s) !! c); simpl in *; [|done]. congruence. }
    split; [exact Hm|]. split; [|done].
    intros id r'. simpl. rewrite lookup_update_where_Some. eauto.
Qed.

(** C9: a restore moves the channel to a new generation that keeps every
    offset, and fences everything issued before: no append, renewal, read or
    acknowledgement on the old generation succeeds any more. *)
Theorem restore_fences c old reason e s next s' :
  reach e s -> RotateJournal c old reason e s = (Ok next, s') -> next <> old ->
  (exists n x, position (db s) c = Some (old, n, x) /\ position (db s') c = Some (next, n, x)) /\
  (forall id r, donations (db s) !! id = Some r -> do_channel r = c ->
     exists r', donations (db s') !! id = Some r' /\ do_generation r' = next /\
       do_offset r' = do_offset r) /\
  forall e2 s2, db s2 = db s' ->
  (forall g d at_ d2 s3, g_Channel g = c -> g_Generation g = old ->
     AppendDonation cc sz g d at_ e2 s2 <> (Ok d2, s3)) /\
  (forall g u s3, g_Channel g = c -> RenewCollection g e2 s2 <> (Ok u, s3)) /\
  (forall k after rev limit p s3, ReadDonations k c old after rev limit e2 s2 <> (Ok p, s3)) /\
  (forall k off rev u s3, AckDonations k c old off rev e2 s2 <> (Ok u, s3)).
Proof.
  intros Hr H Hne. pose proof (reachable_journal _ _ Hr) as I.
  pose proof (rotate_inv _ _ _ _ _ _ _ I H) as I'.
  apply RotateJournal_ok in H as ((row & Hrow & Hg) & _ & t1 & t2 & a & Hdb).
  assert (position (db s) c = Some (old, cr_next_offset row, cr_expired_through row)) as Hp
    by (unfold position; rewrite Hrow; simpl; congruence).
  assert (position (db s') c = Some (next, cr_next_offset row, cr_expired_through row)) as Hp'.
  { rewrite Hdb. unfold position; simpl. rewrite lookup_alter_eq, Hrow. done. }
  assert (owner_view (db s') c = Some (None, next)) as Hv.
  { rewrite Hdb. unfold owner_view; simpl. rewrite lookup_alter_eq, Hrow. done. }
  split; [eauto|]. split.
  { intros id r Hd Hc. rewrite Hdb. simpl. rewrite lookup_update_where, Hd. simpl.
    destruct (ji_rows _ I _ _ Hd) as (n & x & Q & _). rewrite Hc, Hp in Q.
    injection Q as Q _ _. rewrite Hc, <- Q, !String.eqb_refl. simpl. eauto. }
  intros e2 s2 E2. rewrite <- E2 in I', Hp', Hv. split; [|split; [|split]].
  - intros g d at_ d2 s3 Hgc Hgg H. apply AppendDonation_ok in H; [|done].
    destruct H as (_ & Hch & n & x & Hq & _). rewrite Hch, Hgc, Hp' in Hq. congruence.
  - intros g u s3 Hgc H. apply RenewCollection_ok in H as (row2 & r & m & Hrow2 & Ho & _).
    unfold owner_view in Hv. rewrite <- Hgc, Hrow2 in Hv. simpl in Hv. congruence.
  - intros k after rev limit [ds col] s3 H. apply ReadDonations_ok in H; [|done].
    destruct H as (n & x & r & Hq & _). congruence.
  - intros k off rev u s3 H. apply AckDonations_ok in H; [|done].
    destruct H as (n & x & r & Hq & _). congruence.
Qed.

(** Once a channel is unsubscribed every grant on it is closed, and no
    grant is issued or renewed and no new donation stored until it is
    subscribed again. *)
Theorem unsubscribe_stops k c key e s r s' :
  reach e s -> requests (db s) !! (k, c, "subscription"%string, key) = None ->
  SetSubscription k c key false e s = (Ok r, s') ->
  (forall tok g, grants (db s') !! tok = Some g -> gr_channel g = c -> gr_closed_at g <> None) /\
  forall e2 s2, db s2 = db s' ->
  (forall w g s3, AcquireCollection cc c w e2 s2 <> (Ok g, s3)) /\
  (forall g u s3, g_Channel g = c -> RenewCollection g e2 s2 <> (Ok u, s3)) /\
  (forall g d at_ d2 s3, Donation.ChannelID d = c -> donations (db s') !! Donation.EventID d = None ->
     AppendDonation cc sz g d at_ e2 s2 <> (Ok d2, s3)).
Proof.
  intros Hr Hreq H. pose proof (reachable_journal _ _ Hr) as I.
  assert (journal_inv (db s')) as I'.
  { eapply same_journal_inv; [|exact I].
    eapply (run_same_journal cc sz proto notify (OpSubscribe k c key false) e s tt s'); [done|].
    simpl. unfold discard. by rewrite (bind_run _ _ _ _ _ _ H). }
  apply SetSubscription_ok in H as (_ & _ & [(q & Hq & _)|(_ & _ & Hch & _ & t1 & t2 & Hdb)]);
    [congruence|].
  assert (forall row, channels (db s') !! c = Some row -> cr_subscribed row = false) as Hs.
  { intros row. rewrite Hdb. simpl. rewrite lookup_alter_eq.
    destruct (channels (db s) !! c); [|done]. simpl. by intros [= <-]. }
  split.
  { intros tok g Hg Hc. rewrite Hdb in Hg. simpl in Hg.
    apply lookup_update_where_Some in Hg as (g0 & _ & ->).
    destruct (String.eqb (gr_channel g0) c) eqn:E; [done|]. by apply String.eqb_neq in E. }
  intros e2 s2 E2. rewrite <- E2 in I', Hs. split; [|split].
  - intros w g s3 H. apply AcquireCollection_ok in H as (_ & row & t & m & Hrow & Hsub & _).
    specialize (Hs _ Hrow). congruence.
  - intros g u s3 <- H. apply RenewCollection_ok in H as (row & r0 & m & Hrow & _ & _ & Hsub & _).
    specialize (Hs _ Hrow). congruence.
  - intros g d at_ d2 s3 <- Hnew H. rewrite <- E2 in Hnew. apply AppendDonation_ok in H; [|done].
    destruct H as (_ & _ & n & x & _ & [(r0 & j & Hrow & _)|Hf]); [congruence|].
    destruct Hf as (_ & _ & _ & (row & Hrow & Hsub) & _). specialize (Hs _ Hrow). congruence.
Qed.

(** C11: a recovery decision that is not a repetition moves the consumer to
    the current generation at an offset the journal still holds, raises its
    revision by one and records the request in the audit log; within a
    generation it never rewinds the cursor, and every offset it skips lies in
    a range the request declares as lost. *)
Theorem recovery_audited k c key prev next resume expected req e s res s' :
  reach e s -> requests (db s) !! (k, c, "recovery"%string, key) = None ->
  0 <= expected <= u64_max ->
  ResolveRecovery proto k c key prev next resume expected req e s = (Ok res, s') ->
  exists n x old, position (db s) c = Some (next, n, x) /\ x <= resume <= n /\
    previous_position prev (consumers (db s) !! (k, c)) = (prev, old, expected) /\
    consumers (db s') !! (k, c) = Some (ConsumerRow next resume None resume (expected + 1)) /\
    (exists t, audit (db s') = audit (db s) ++ [AuditRow k c req (decision_json res) t]) /\
    (prev = next -> old <= resume) /\
    (prev = next -> old < resume -> exists ranges, decode_ranges req = Some ranges /\
       forall o, old < o <= resume -> exists so eo,
         ((prev, so), (prev, eo)) ∈ ranges /\ so <= o <= eo).
Proof.
  intros Hr Hreq He H. pose proof (reachable_journal _ _ Hr) as I.
  apply ResolveRecovery_ok in H as [(q & Hq & _)|(_ & n & x & old & Hp & Hb & H)];
    [congruence| |done].
  destruct H as (Hpos & Hmax & Hre & Haud & -> & t1 & t2 & Hdb).
  assert (0 <= old) as H0.
  { unfold previous_position in Hpos. destruct (consumers (db s) !! (k, c)) as [r|] eqn:E;
      [|injection Hpos as <- _; lia].
    destruct (ji_consumers _ I _ _ _ E) as (g' & n' & x' & _ & Q1 & _ & Q2 & _).
    destruct (co_ack r) as [a|]; injection Hpos as _ <- _; [specialize (Q2 _ eq_refl); lia|lia]. }
  exists n, x, old. split; [done|]. split; [done|]. split; [done|].
  rewrite Hdb. simpl. rewrite lookup_insert_eq, u64_succ by (unfold u64_max in *; lia).
  split; [done|]. split; [eauto|]. split; [done|].
  intros E Hlt. apply audited_sound; auto.
Qed.

(** C12: an operation that runs in one transaction and reports an error is
    all or nothing: a refusal of the code or of a constraint has changed
    nothing; a failed round trip has changed nothing either, unless it is one
    the server had carried out and only its reply was lost, and then the
    database is exactly the one the operation leaves when this same round
    trip does not fail. *)
Theorem error_all_or_nothing o e s x s' : single_tx o = true ->
  run cc sz proto notify o e s = (Err x, s') ->
  db s' = db s \/
  x = ErrDriver /\ exists n s1, (tick s <= n < tick s')%nat /\
    driver_fails e n = true /\ applied e n = true /\
    run cc sz proto notify o (forgiving n e) s = (Ok tt, s1) /\ db s' = db s1.
Proof.
  intros Ho H. apply atomic_run in H as [?|(-> & n & [] & s1 & ? & ? & ? & ? & ? & _)];
    [by left|right; eauto 10|done..].
Qed.
End Props.

(** ** A text PostgreSQL does not take *)

(** A donation whose message has a NUL byte passes [Validate], and its append
    fails each time, with an error that does not count as terminal. *)
Example nul_never_journalled :
  let d := Demo.donation "ev-9" 100 9 in
  let bad := Donation.Mk "ev-9" "bj1" 100 "balloon" "donor" "Donor" (String "000"%char EmptyString) "epoch-1" 9
               Demo.now zero_time None None EmptyString [] [] EmptyString 0 in
  Donation.Validate bad = Ok tt /\
  (AppendDonation None Demo.size Demo.grant bad Demo.now Demo.e (Demo.go Demo.setup)).1 = Err ErrDriver /\
  is_ok (AppendDonation None Demo.size Demo.grant d Demo.now Demo.e (Demo.go Demo.setup)).1 = true.
Proof. vm_compute. auto. Qed.

(** ** The properties at a concrete run *)

Lemma demo_reachable l : forallb op_typed l = true ->
  reachable None Demo.size render Demo.notify Demo.e (Demo.go l).
Proof. intros H. exists l. by split. Qed.

Lemma journal_always_consistent_witness : journal_inv (db (Demo.go Demo.appends)).
Proof.
  apply (journal_always_consistent None Demo.size render Demo.notify Demo.notify_quiet
    Demo.notify_forward Demo.e). apply demo_reachable. vm_compute. reflexivity.
Defined.

Lemma single_owner_witness : exists r,
  grants (db (Demo.go Demo.setup)) !! g_Token Demo.grant = Some r /\
  open_at (clock Demo.e (tick (Demo.go Demo.setup))) r = true /\
  g_Token Demo.grant = g_Token Demo.grant /\
  exists row, channels (db (Demo.go Demo.setup)) !! gr_channel r = Some row /\
    cr_owner_token row = Some (g_Token Demo.grant) /\ cr_generation row = gr_generation r.
Proof.
  destruct (grants (db (Demo.go Demo.setup)) !! g_Token Demo.grant) as [r|] eqn:E;
    [|vm_compute in E; discriminate E].
  exists r. split; [reflexivity|].
  assert (open_at (clock Demo.e (tick (Demo.go Demo.setup))) r = true) as Ho.
  { vm_compute in E. injection E as <-. vm_compute. reflexivity. }
  split; [exact Ho|].
  apply (single_owner None Demo.size render Demo.notify Demo.notify_quiet
    Demo.notify_forward Demo.e (Demo.go Demo.setup) (tick (Demo.go Demo.setup))
    (g_Token Demo.grant) (g_Token Demo.grant) r r); auto.
  - apply Demo.monotone.
  - apply demo_reachable. vm_compute. reflexivity.
Defined.

(** Runs a computation at a concrete input. *)
Ltac run_demo R E :=
  let a := fresh "a" in let s1 := fresh "s1" in let H := fresh "Hok" in
  assert (is_ok (fst R) = true) as H by (vm_compute; reflexivity);
  destruct R as [[a|] s1] eqn:E; [clear H|discriminate H].
Ltac demo_reach_tac := apply demo_reachable; vm_compute; reflexivity.

#[local] Notation props P := (P None Demo.size render Demo.notify Demo.notify_quiet
  Demo.notify_forward).

Definition demo_append : result Donation.t * world database :=
  AppendDonation None Demo.size Demo.grant (Demo.donation "ev-1" 100 1) Demo.now Demo.e
    (Demo.go Demo.setup).

Lemma append_exactly_one_row_witness : exists d' s',
  demo_append = (Ok d', s') /\ exists n x,
    position (db (Demo.go Demo.setup)) "bj1" = Some (Demo.generation, n, x).
Proof.
  unfold demo_append.
  run_demo (AppendDonation None Demo.size Demo.grant (Demo.donation "ev-1" 100 1) Demo.now Demo.e
    (Demo.go Demo.setup)) E.
  do 2 eexists. split; [reflexivity|].
  destruct (props append_exactly_one_row Demo.grant (Demo.donation "ev-1" 100 1) Demo.now
    Demo.e (Demo.go Demo.setup) a s1)
    as (n & x & Hp & _); [demo_reach_tac|reflexivity|exact E|].
  exists n, x. exact Hp.
Defined.

Lemma append_retry_same_witness : exists d1 s1 s2, demo_append = (Ok d1, s1) /\
  AppendDonation None Demo.size Demo.grant (Demo.donation "ev-1" 100 1) Demo.now Demo.e s1
    = (Ok (Donation.coerced d1), s2) /\ db s2 = db s1.
Proof.
  unfold demo_append.
  run_demo (AppendDonation None Demo.size Demo.grant (Demo.donation "ev-1" 100 1) Demo.now Demo.e
    (Demo.go Demo.setup)) E.
  destruct (props append_retry_same Demo.grant Demo.grant (Demo.donation "ev-1" 100 1)
    Demo.now Demo.now Demo.e Demo.e (Demo.go Demo.setup) a s1) as (s2 & H1 & H2);
    [demo_reach_tac|vm_compute; reflexivity|vm_compute; reflexivity|vm_compute; reflexivity
    |exact E|intros m; reflexivity| |reflexivity|reflexivity|].
  - apply (f_equal snd) in E. simpl in E. subst. vm_compute. discriminate.
  - do 3 eexists. split; [reflexivity|]. split; [exact H1|exact H2].
Defined.

Lemma read_contiguous_witness : exists ds col s',
  ReadDonations "c1" "bj1" Demo.generation 0 0 2 Demo.e (Demo.go Demo.appends)
    = (Ok (ds, col), s') /\
  map Donation.Offset ds = [1; 2] /\
  db s' = set_consumers (insert ("c1", "bj1")%string (ConsumerRow Demo.generation 0 None 2 0))
            (db (Demo.go Demo.appends)).
Proof.
  run_demo (ReadDonations "c1" "bj1" Demo.generation 0 0 2 Demo.e (Demo.go Demo.appends)) E.
  destruct a as [ds col].
  destruct (props read_contiguous "c1"%string "bj1"%string Demo.generation 0 0 2
    Demo.e (Demo.go Demo.appends) ds col s1)
    as (n & x & Hp & _ & H & _ & _ & _ & _ & Hdb); [demo_reach_tac|exact E|].
  assert (n = 3 /\ x = 0) as [-> ->] by (vm_compute in Hp; injection Hp; auto).
  do 3 eexists. split; [reflexivity|]. split; [exact H|exact Hdb].
Defined.

(** A consumer that has read the first page. *)
Definition demo_read : list op := Demo.appends ++ [OpRead "c1" "bj1" Demo.generation 0 0 2].

Lemma ack_monotone_witness : exists s',
  AckDonations "c1" "bj1" Demo.generation 2 0 Demo.e (Demo.go demo_read) = (Ok tt, s') /\
  exists r, db s' = set_consumers (insert ("c1", "bj1")%string
    (ConsumerRow Demo.generation (co_baseline r) (Some 2) (co_offered r) 0)) (db (Demo.go demo_read)).
Proof.
  run_demo (AckDonations "c1" "bj1" Demo.generation 2 0 Demo.e (Demo.go demo_read)) E.
  destruct a.
  destruct (props ack_monotone "c1"%string "bj1"%string Demo.generation 2 0
    Demo.e (Demo.go demo_read) tt s1)
    as (r & n & x & _ & _ & _ & _ & _ & _ & _ & H); [demo_reach_tac|exact E|].
  eexists. split; [reflexivity|]. exists r. exact H.
Defined.

Lemma consumer_receives_everything_witness : exists ds s',
  drain "c1" "bj1" Demo.generation 0 1 4 0 Demo.e (Demo.go demo_read) = (Ok ds, s') /\
  map Donation.Offset ds = [1; 2; 3] /\ donations (db s') = donations (db (Demo.go demo_read)).
Proof.
  destruct (consumers (db (Demo.go demo_read)) !! ("c1", "bj1")%string) as [r|] eqn:E;
    [|exfalso; vm_compute in E; discriminate E].
  assert (r = ConsumerRow Demo.generation 0 None 2 0) as ->
    by (apply (inj Some); rewrite <- E; vm_compute; reflexivity).
  apply (props consumer_receives_everything "c1"%string "bj1"%string Demo.generation 0 1 4%nat 0
    Demo.e Demo.e (Demo.go demo_read) 3 0 (ConsumerRow Demo.generation 0 None 2 0)).
  - demo_reach_tac.
  - intros m. reflexivity.
  - vm_compute. reflexivity.
  - lia.
  - exact E.
  - reflexivity.
  - reflexivity.
  - simpl. lia.
  - intros a Ha. discriminate Ha.
  - lia.
Defined.

Lemma retention_justified_witness : exists s',
  ExpireDonations Demo.size "bj1" 0 0 1 Demo.e (Demo.go Demo.appends) = (Ok tt, s') /\
  exists k, position (db s') "bj1" = Some (Demo.generation, 3, Z.of_nat k).
Proof.
  run_demo (ExpireDonations Demo.size "bj1" 0 0 1 Demo.e (Demo.go Demo.appends)) E.
  destruct a.
  destruct (props retention_justified "bj1"%string 0 0 1 Demo.e (Demo.go Demo.appends) tt s1)
    as (g & n & x & k & Hp & _ & _ & Hp' & _); [demo_reach_tac|exact E|].
  eexists. split; [reflexivity|]. exists k. rewrite Hp'.
  assert (position (db (Demo.go Demo.appends)) "bj1" = Some (Demo.generation, 3, 0)) as Hq
    by (vm_compute; reflexivity).
  rewrite Hp in Hq. injection Hq as -> -> ->. reflexivity.
Defined.

Lemma restore_fences_witness : exists next s',
  RotateJournal "bj1" Demo.generation "restore" Demo.e (Demo.go Demo.appends) = (Ok next, s') /\
  forall p s3, ReadDonations "c1" "bj1" Demo.generation 0 0 100 Demo.e s' <> (Ok p, s3).
Proof.
  run_demo (RotateJournal "bj1" Demo.generation "restore" Demo.e (Demo.go Demo.appends)) E.
  destruct (props restore_fences "bj1"%string Demo.generation "restore"%string
    Demo.e (Demo.go Demo.appends) a s1)
    as (_ & _ & H); [demo_reach_tac|exact E| |].
  - intros Heq. apply (f_equal fst) in E. rewrite Heq in E. vm_compute in E. discriminate E.
  - do 2 eexists. split; [reflexivity|]. apply (H Demo.e _ eq_refl).
Defined.

Lemma unsubscribe_stops_witness : exists s',
  SetSubscription "c1" "bj1" "key" false Demo.e (Demo.go Demo.appends) = (Ok false, s') /\
  forall w g s3, AcquireCollection None "bj1" w Demo.e s' <> (Ok g, s3).
Proof.
  run_demo (SetSubscription "c1" "bj1" "key" false Demo.e (Demo.go Demo.appends)) E.
  assert (a = false) as -> by (apply (f_equal fst) in E; vm_compute in E; congruence).
  destruct (props unsubscribe_stops "c1"%string "bj1"%string "key"%string
    Demo.e (Demo.go Demo.appends) false s1)
    as (_ & H); [demo_reach_tac|vm_compute; reflexivity|exact E|].
  eexists. split; [reflexivity|]. apply (H Demo.e _ eq_refl).
Defined.

(** Offset 1 is declared lost, the consumer resumes after it. *)
Definition demo_request : json :=
  let cursor n := JObj [("journalGeneration", JStr Demo.generation);
                        ("channelOffset", JStr n)]%string in
  JObj [("unrecoveredRanges", JArr [JObj [("start", cursor "1"); ("end", cursor "1")]])]%string.

Lemma recovery_audited_witness : exists res s',
  ResolveRecovery render "c1" "bj1" "key" Demo.generation Demo.generation 1 0 demo_request Demo.e
    (Demo.go demo_read) = (Ok res, s') /\
  consumers (db s') !! ("c1", "bj1")%string = Some (ConsumerRow Demo.generation 1 None 1 1).
Proof.
  run_demo (ResolveRecovery render "c1" "bj1" "key" Demo.generation Demo.generation 1 0
    demo_request Demo.e (Demo.go demo_read)) E.
  destruct (props recovery_audited "c1"%string "bj1"%string "key"%string Demo.generation
    Demo.generation 1 0 demo_request Demo.e (Demo.go demo_read) a s1) as (n & x & old & _ & _ & _ & H & _);
    [demo_reach_tac|vm_compute; reflexivity|unfold u64_max; lia|exact E|].
  do 2 eexists. split; [reflexivity|exact H].
Defined.

(** An acquisition whose commit the server carries out without an answer: the
    caller sees an error, and the grant is there. *)
Definition demo_lost : env :=
  Env (fun n => n =? 10)%nat (fun _ => true) (clock Demo.e) (wall Demo.e) (fresh Demo.e).

Lemma error_all_or_nothing_witness : exists s',
  let s := Demo.go [OpEnsure "bj1"; OpLive Demo.live] in
  run None Demo.size render Demo.notify (OpAcquire "bj1" "w1") demo_lost s = (Err ErrDriver, s') /\
  size (grants (db s)) = 0%nat /\ size (grants (db s')) = 1%nat /\
  exists s1, run None Demo.size render Demo.notify (OpAcquire "bj1" "w1") (forgiving 10 demo_lost) s
    = (Ok tt, s1) /\ db s' = db s1.
Proof.
  destruct (run None Demo.size render Demo.notify (OpAcquire "bj1" "w1") demo_lost
    (Demo.go [OpEnsure "bj1"; OpLive Demo.live])) as [[u|x] s'] eqn:E; [vm_compute in E; discriminate E|].
  assert (size (grants (db s')) = 1%nat) as H1.
  { change s' with (snd (Err (A := unit) x, s')). rewrite <- E. vm_compute. reflexivity. }
  destruct (error_all_or_nothing None Demo.size render Demo.notify (OpAcquire "bj1" "w1") demo_lost
    (Demo.go [OpEnsure "bj1"; OpLive Demo.live]) x s' eq_refl E)
    as [H|(-> & n & s1 & _ & Hn & _ & H & Hs)].
  - rewrite H in H1. vm_compute in H1. discriminate H1.
  - apply Nat.eqb_eq in Hn as ->. exists s'. split; [exact E|]. split; [vm_compute; reflexivity|].
    split; [exact H1|]. exists s1. split; [exact H|exact Hs].
Defined.
