(* ===== verification/Spool.v ===== *)
(** The worker's durable donation spool (src/worker/internal/pipeline/spool.go):
    an observation is written and fsynced to a file before it counts as
    accepted, and the files are drained, in acceptance order, into the
    journal. The directory is modelled twice, as processes see it and as a
    crash would leave it. *)
From S2P Require Import Prelude GoLib Sha256 Json Tx Model Ownership Journal.
Import Donation (t).

(** [DonationJournal], the interface the spool drains into. *)
Class DonationJournal (J : Type) := journal_append : OwnerGrant -> t -> Z -> M J t.

Record spoolRecord := SpoolRecord { sr_Grant : OwnerGrant; sr_Donation : t; sr_AcceptedAt : Z }.

(** [json.RawMessage]: the bytes, and the tree they parse to. *)
Record raw_message := Raw { raw_text : string; raw_tree : option json }.
Record spoolEnvelope := SpoolEnvelope { Version : Z; Checksum : string; Record_ : raw_message }.

(** A directory entry. [None]: bytes that are no JSON envelope; [synced]:
    the contents survive a crash. *)
Inductive file : Type :=
| Regular (size : Z) (contents : option spoolEnvelope) (synced : bool)
| Irregular.

(** ** Encoding of the records *)

Definition grant_json (g : OwnerGrant) : json :=
  JObj [("token", JStr (coerce (g_Token g))); ("channel", JStr (coerce (g_Channel g)));
        ("generation", JStr (coerce (g_Generation g))); ("grantedAt", JTime (g_GrantedAt g));
        ("validUntil", JTime (g_ValidUntil g))]%string.

Definition zero_grant : OwnerGrant :=
  MkGrant EmptyString EmptyString EmptyString zero_time zero_time.

Definition decode_grant (j : json) : option OwnerGrant :=
  match j with
  | JObj _ =>
      f1 ← decode_with dec_string (field j "token") EmptyString;
      f2 ← decode_with dec_string (field j "channel") EmptyString;
      f3 ← decode_with dec_string (field j "generation") EmptyString;
      f4 ← decode_with dec_time (field j "grantedAt") zero_time;
      f5 ← decode_with dec_time (field j "validUntil") zero_time;
      Some (MkGrant f1 f2 f3 f4 f5)
  | _ => None
  end.

(** [json.Marshal(spoolRecord{g, d, accepted})] *)
Definition marshal_record (r : spoolRecord) : result json :=
  d ← Donation.marshal (sr_Donation r);
  if marshalable_time (g_GrantedAt (sr_Grant r)) && marshalable_time (g_ValidUntil (sr_Grant r))
     && marshalable_time (sr_AcceptedAt r)
  then Ok (JObj [("grant", grant_json (sr_Grant r)); ("donation", d);
                 ("acceptedAt", JTime (sr_AcceptedAt r))]%string)
  else Err (ErrMsg "json: time").

Definition decode_record (j : json) : option spoolRecord :=
  match j with
  | JNull => Some (SpoolRecord zero_grant Donation.zero zero_time)
  | JObj _ =>
      g ← decode_with decode_grant (field j "grant") zero_grant;
      d ← decode_with (fun x => Donation.unmarshal x Donation.zero) (field j "donation") Donation.zero;
      a ← decode_with dec_time (field j "acceptedAt") zero_time;
      Some (SpoolRecord g d a)
  | _ => None
  end.

(** [json.Marshal(spoolEnvelope{1, sum, raw})]: the envelope and its bytes. *)
Definition make_envelope (j : json) : spoolEnvelope :=
  SpoolEnvelope 1 (sum_hex (render j)) (Raw (render j) (Some j)).
Definition envelope_text (j : json) : string :=
  render (JObj [("version", JNum 1); ("checksum", JStr (sum_hex (render j))); ("record", j)]%string).

(** [filepath.Base] *)
Fixpoint trim_slashes (l : list Ascii.ascii) : list Ascii.ascii :=
  match l with
  | c :: r => if Ascii.eqb c "/"%char then trim_slashes r else l
  | [] => []
  end.
Fixpoint upto_slash (l : list Ascii.ascii) : list Ascii.ascii :=
  match l with
  | c :: r => if Ascii.eqb c "/"%char then [] else c :: upto_slash r
  | [] => []
  end.
Definition filepath_base (s : string) : string :=
  match s with
  | EmptyString => "."
  | _ =>
      match trim_slashes (rev (String.list_ascii_of_string s)) with
      | [] => "/"
      | l => String.string_of_list_ascii (rev (upto_slash l))
      end
  end.

Section Spool.
Context {J : Type} `{DonationJournal J}.

(** The directory now, the directory a crash would leave, and the journal. *)
Record disk := Disk { visible : gmap string file; durable : gmap string file; jr : J }.

Definition set_visible (f : gmap string file -> gmap string file) (x : disk) : disk :=
  Disk (f (visible x)) (durable x) (jr x).

Context (maxBytes maxFiles : Z).
(** Whether the caller's context is done, at each point of time. *)
Context (ctx_done : nat -> bool).

Notation Mdisk := (M disk).

Definition ctx_err : Mdisk unit := fun _ s =>
  if ctx_done (tick s) then (Err ErrContext, s) else (Ok tt, s).

(** An operating system call that changes the directory. *)
Definition io (f : disk -> result disk) : Mdisk unit :=
  sys_exec (fun _ x => y ← f x; Ok (tt, y)).

(** [syncDir]: the names, and what was synced of the files, become durable. *)
Definition syncDir : Mdisk unit := io (fun x => Ok (Disk (visible x) (visible x) (jr x))).

Definition by_name (a b : string * file) : Prop := String.le a.1 b.1.
#[export] Instance by_name_dec a b : Decision (by_name a b).
Proof. unfold by_name. apply _. Defined.

Fixpoint scan_entries (l : list (string * file)) (names : list string) (size : Z)
  : result (list string * Z) :=
  match l with
  | [] => Ok (names, size)
  | (name, f) :: l =>
      if String.eqb name ".writer.lock" then scan_entries l names size
      else match f with
      | Irregular => Err (ErrMsg "unexpected spool entry")
      | Regular n _ _ =>
          let size := i64 (size + n) in
          if has_suffix name ".pending"
          then Err (ErrMsg "incomplete spool record: recovery required")
          else if negb (has_suffix name ".json") then Err (ErrMsg "unknown spool record")
          else scan_entries l (names ++ [name]) size
      end
  end.

(** [os.ReadDir] lists the entries by name. *)
Definition files_of (x : disk) : result (list string * Z) :=
  fz ← scan_entries (merge_sort by_name (map_to_list (visible x))) [] 0;
  mret (merge_sort String.le fz.1, fz.2).

Definition files : Mdisk (list string * Z) := pool_query (fun _ x => files_of x).

(** ** Draining *)

Definition journal_call (g : OwnerGrant) (d : t) (at_ : Z) : Mdisk t := fun e s =>
  let '(r, w) := journal_append g d at_ e (World (jr (db s)) (jr (db s)) (tick s)) in
  (r, World (Disk (visible (db s)) (durable (db s)) (db w)) (wk s) (tick w)).

(** Failures that repeating cannot cure. *)
Definition terminal (x : error) : bool :=
  match x with
  | ErrOwner | ErrGeneration | ErrCollectionDisabled | ErrCursorExpired | ErrConflict => true
  | _ => false
  end.

Definition stat (name : string) : Mdisk Z := pool_query (fun _ x =>
  match visible x !! name with Some (Regular n _ _) => Ok n | _ => Err ErrDriver end).
Definition read_file (name : string) : Mdisk (option spoolEnvelope) := pool_query (fun _ x =>
  match visible x !! name with Some (Regular _ c _) => Ok c | _ => Err ErrDriver end).
Definition remove (name : string) : Mdisk unit := io (fun x =>
  match visible x !! name with
  | Some _ => Ok (set_visible (delete name) x)
  | None => Err ErrDriver
  end).

(** The checks on one file's contents. *)
Definition open_envelope (c : option spoolEnvelope) : result spoolRecord :=
  e ← of_option (ErrMsg "corrupt spool record") c;
  check (Version e =? 1) (ErrMsg "corrupt spool record") ;;
  check (String.eqb (sum_hex (raw_text (Record_ e))) (Checksum e))
    (ErrMsg "spool checksum mismatch") ;;
  of_option (ErrMsg "corrupt spool payload") (raw_tree (Record_ e) ≫= decode_record).

(** [Some e]: stopped by [journalUnavailable{e}]. *)
Fixpoint drain_files (l : list string) : Mdisk (option error) :=
  match l with
  | [] => mret None
  | name :: l =>
      ctx_err ;;
      size ← stat name;
      guard_ok (size <=? 1048576) (ErrMsg "spool record too large") ;;
      body ← read_file name;
      r ← lift (open_envelope body);
      now ← time_now;
      guard_ok (negb (30 * day <? time_sub now (sr_AcceptedAt r)))
        (ErrMsg "old spool record: recovery required") ;;
      res ← try (journal_call (sr_Grant r) (sr_Donation r) (sr_AcceptedAt r));
      match res with
      | Err x => if terminal x then fail x else mret (Some x)
      | Ok _ => remove name ;; syncDir ;; drain_files l
      end
  end.

Definition drain : Mdisk (option error) := fz ← files; drain_files fz.1.

(** [Drain] reports an unavailable journal as an error too. *)
Definition Drain : Mdisk unit :=
  r ← drain; match r with None => mret tt | Some x => fail x end.

(** ** Saving *)

Definition create (name : string) : Mdisk unit := io (fun x =>
  match visible x !! name with
  | Some _ => Err ErrDriver   (* O_EXCL *)
  | None => Ok (set_visible (insert name (Regular 0 None false)) x)
  end).
Definition write_file (name : string) (j : json) : Mdisk unit := io (fun x =>
  Ok (set_visible (insert name (Regular (lenZ (envelope_text j)) (Some (make_envelope j)) false)) x)).
Definition sync_file (name : string) : Mdisk unit := io (fun x =>
  Ok (set_visible (alter (fun f => match f with
                                   | Regular n c _ => Regular n c true
                                   | Irregular => Irregular end) name) x)).
Definition rename (a b : string) : Mdisk unit := io (fun x =>
  match visible x !! a with
  | Some f => Ok (set_visible (fun m => <[b := f]> (delete a m)) x)
  | None => Err ErrDriver
  end).
Definition close_file : Mdisk unit := io (fun x => Ok x).

Definition record_name (accepted : Z) (id : string) : string := pad20 accepted +:+ "-" +:+ id.

Definition Save (g : OwnerGrant) (d : t) (deadline : Z) : Mdisk unit :=
  lift (Donation.Validate d) ;;
  now ← time_now;
  guard_ok (now <? deadline) ErrOwner ;;
  fz ← files;
  guard_ok (negb (maxFiles <=? Z.of_nat (length fz.1))) (ErrMsg "donation spool full") ;;
  accepted ← time_now;
  raw ← lift (marshal_record (SpoolRecord g d accepted));
  guard_ok (i64 (fz.2 + lenZ (envelope_text raw)) <=? maxBytes) (ErrMsg "donation spool full") ;;
  let name := record_name accepted (Donation.EventID d) in
  guard_ok (String.eqb (filepath_base name) name) (ErrMsg "invalid event ID") ;;
  create (name +:+ ".pending") ;;
  write_file (name +:+ ".pending") raw ;;
  sync_file (name +:+ ".pending") ;;
  close_file ;;
  now ← time_now;
  guard_ok (now <? deadline) ErrOwner ;;
  rename (name +:+ ".pending") (name +:+ ".json") ;;
  syncDir ;;
  r ← drain;
  mret tt.

Definition Backlog : Mdisk (Z * Z) := fz ← files; mret (Z.of_nat (length fz.1), fz.2).

(** ** Crash *)

(** What a crash leaves of a file. *)
Definition after_crash (f : file) : file :=
  match f with
  | Regular n c false => Regular 0 None true
  | f => f
  end.
(** Each name is what was durable or what was there; unsynced contents are lost. *)
Definition crash_to (x y : disk) : Prop :=
  jr y = jr x /\ durable y = visible y /\
  forall name, visible y !! name = after_crash <$> durable x !! name \/
               visible y !! name = after_crash <$> visible x !! name.
End Spool.
Arguments disk J : clear implicits.
