(* ===== verification/SpoolInv.v ===== *)
(** The spool's invariant: a record that is durable is still in the directory
    or already in the journal. Stated over any journal that keeps what it
    stored ([JournalLaws]); the store's journal is one. *)
From S2P Require Import Prelude GoLib Sha256 Json Tx Model Db.
From S2P Require Import Ownership Journal JournalInv JournalRun Store Spool.
Import Donation (t).

(** What the spool relies on. *)
Class JournalLaws (J : Type) `{DonationJournal J} := {
  jinv : J -> Prop;
  stored : J -> string -> Prop;
  journal_append_keeps : forall g d a e s r s', Donation.in_width d = true -> jinv (db s) ->
    journal_append g d a e s = (r, s') ->
    jinv (db s') /\ forall id, stored (db s) id -> stored (db s') id;
  journal_append_stores : forall g d a e s d' s', Donation.in_width d = true -> jinv (db s) ->
    journal_append g d a e s = (Ok d', s') -> stored (db s') (Donation.EventID d)
}.

(** ** File names determine the event *)

Lemma append_length s1 s2 : String.length (s1 +:+ s2) = (String.length s1 + String.length s2)%nat.
Proof. induction s1 as [|c s1 IH]; simpl; [done|]. by rewrite IH. Qed.

Lemma append_assoc s1 s2 s3 : s1 +:+ (s2 +:+ s3) = (s1 +:+ s2) +:+ s3.
Proof. induction s1 as [|c s1 IH]; [done|]. by apply (f_equal (String c)) in IH. Qed.

Lemma zeros_length n : String.length (zeros n) = n.
Proof. induction n; simpl; auto. Qed.

Lemma num_fuel_length f n acc :
  (String.length (num_fuel f n acc) <= f + String.length acc)%nat.
Proof.
  revert n acc; induction f as [|f IH]; intros n acc; simpl; [lia|].
  destruct (n <? 10); simpl; [lia|]. specialize (IH (n / 10) (String (digit_chr (n mod 10)) acc)).
  simpl in IH. lia.
Qed.

Lemma pad20_length n : String.length (pad20 n) = 20%nat.
Proof.
  unfold pad20. rewrite append_length, zeros_length.
  pose proof (num_fuel_length 20 n EmptyString) as H. fold (format_uint n) in H.
  change (String.length EmptyString) with 0%nat in H. lia.
Qed.

Lemma append_inj_prefix s1 s2 t1 t2 : String.length s1 = String.length s2 ->
  s1 +:+ t1 = s2 +:+ t2 -> s1 = s2 /\ t1 = t2.
Proof.
  revert s2; induction s1 as [|c s1 IH]; intros [|c2 s2]; simpl; try done.
  intros [= L] [= -> E]. by destruct (IH s2 L E) as [-> ->].
Qed.

Lemma append_inj_suffix s1 s2 t1 t2 : String.length t1 = String.length t2 ->
  s1 +:+ t1 = s2 +:+ t2 -> s1 = s2 /\ t1 = t2.
Proof.
  intros L E. apply append_inj_prefix; [|done].
  apply (f_equal String.length) in E. rewrite !append_length in E. lia.
Qed.

(** ".json" and ".pending" do not end the same way. *)
Lemma json_not_pending a b : a +:+ ".json" <> b +:+ ".pending".
Proof.
  intros E. pose proof (f_equal String.length E) as L. rewrite !append_length in L. simpl in L.
  assert (a +:+ ".json" = (b +:+ ".pe") +:+ "nding") as E' by (by rewrite E, <- append_assoc).
  apply append_inj_suffix in E' as [_ E']; [discriminate E'|done].
Qed.

Definition named (name id : string) : Prop :=
  exists a raw sfx, name = record_name a raw +:+ sfx /\ (sfx = ".json" \/ sfx = ".pending")%string /\
    id = coerce raw.

Lemma named_unique name id1 id2 : named name id1 -> named name id2 -> id1 = id2.
Proof.
  intros (a1 & r1 & s1 & -> & H1 & ->) (a2 & r2 & s2 & E & H2 & ->).
  unfold record_name in E. rewrite <- !append_assoc in E.
  apply append_inj_prefix in E as [_ E]; [|by rewrite !pad20_length].
  simpl in E. injection E as E. change (r1 +:+ s1 = r2 +:+ s2) in E.
  destruct H1 as [-> | ->], H2 as [-> | ->].
  - destruct (append_inj_suffix _ _ _ _ eq_refl E) as [E2 _]. by rewrite E2.
  - by apply json_not_pending in E.
  - by apply eq_sym, json_not_pending in E.
  - destruct (append_inj_suffix _ _ _ _ eq_refl E) as [E2 _]. by rewrite E2.
Qed.

(** ** Records round-trip through their files *)

Definition coerced_grant (g : OwnerGrant) : OwnerGrant :=
  MkGrant (coerce (g_Token g)) (coerce (g_Channel g)) (coerce (g_Generation g)) (g_GrantedAt g)
    (g_ValidUntil g).

Definition coerced_record (r : spoolRecord) : spoolRecord :=
  SpoolRecord (coerced_grant (sr_Grant r)) (Donation.coerced (sr_Donation r)) (sr_AcceptedAt r).

Lemma decode_marshal_record r j : Donation.in_width (sr_Donation r) = true ->
  marshal_record r = Ok j -> decode_record j = Some (coerced_record r).
Proof.
  intros Hw H. unfold marshal_record in H. apply result_bind_ok in H as (dj & Hd & H).
  destruct (_ && _); [|done]. injection H as <-.
  pose proof (Donation.unmarshal_marshal _ _ Hw Hd) as Hu.
  unfold decode_record. simpl.
  pose proof (Donation.marshal_ok _ _ Hd) as ->. simpl.
  unfold Donation.unmarshal in Hu. rewrite Hu. reflexivity.
Qed.

Lemma open_make_envelope r j : Donation.in_width (sr_Donation r) = true ->
  marshal_record r = Ok j -> open_envelope (Some (make_envelope j)) = Ok (coerced_record r).
Proof.
  intros Hw H. unfold open_envelope, make_envelope. simpl. rewrite String.eqb_refl. simpl.
  by rewrite (decode_marshal_record _ _ Hw H).
Qed.

(** Decoded observations are within their Go types. *)
Lemma decode_fields_width j d d' : Donation.in_width d = true ->
  Donation.decode_fields j d = Some d' -> Donation.in_width d' = true.
Proof.
  intros Hw H. unfold Donation.in_width in *. unfold Donation.decode_fields in H.
  repeat match type of H with
  | mbind _ ?o = Some _ =>
      let x := fresh "f" in let E := fresh "E" in
      destruct o as [x|] eqn:E; [cbn [mbind option_bind] in H|discriminate H]
  end.
  injection H as <-. simpl.
  assert (forall o old n, decode_with dec_uint_string o old = Some n ->
    0 <= old <= u64_max -> 0 <= n <= u64_max) as Hu.
  { intros [[]|] old v Hd Ho; simpl in Hd; try discriminate Hd; try (injection Hd as <-; lia).
    by eapply parse_uint_range. }
  assert (forall o old n, decode_with dec_int o old = Some n ->
    -9223372036854775808 <= old <= 9223372036854775807 ->
    -9223372036854775808 <= n <= 9223372036854775807) as Hi.
  { intros [[]|] old v Hd Ho; simpl in Hd; try discriminate Hd; try (injection Hd as <-; lia).
    destruct (_ && _) eqn:Ei in Hd; [|done]. injection Hd as <-. b2p. lia. }
  b2p.
  repeat match goal with
  | E : decode_with dec_uint_string _ _ = Some _ |- _ => apply Hu in E; [|lia]
  | E : decode_with dec_int _ _ = Some _ |- _ => apply Hi in E; [|lia]
  end.
  repeat (apply andb_true_iff; split); apply Z.leb_le; lia.
Qed.

Lemma decode_record_width j r : decode_record j = Some r -> Donation.in_width (sr_Donation r) = true.
Proof.
  unfold decode_record. destruct j; try done; [by intros [= <-]|].
  intros H.
  repeat match type of H with
  | mbind _ ?o = Some _ =>
      let x := fresh "f" in let E := fresh "E" in
      destruct o as [x|] eqn:E; [cbn [mbind option_bind] in H|discriminate H]
  end.
  injection H as <-. cbn [sr_Donation].
  match goal with Hq : decode_with _ (field _ "donation") _ = Some ?d |- _ =>
    rename Hq into Hd; clear -Hd end.
  destruct (field _ "donation") as [x|]; [|by injection Hd as <-].
  destruct x; simpl in Hd; try discriminate Hd; try by injection Hd as <-.
  apply (decode_fields_width _ Donation.zero _ eq_refl Hd).
Qed.

Lemma open_envelope_width c r : open_envelope c = Ok r -> Donation.in_width (sr_Donation r) = true.
Proof.
  unfold open_envelope. intros H.
  apply result_bind_ok in H as (e & _ & H). apply result_bind_ok in H as (? & _ & H).
  apply result_bind_ok in H as (? & _ & H).
  destruct (raw_tree (Record_ e) ≫= decode_record) as [r'|] eqn:E; [|done]. injection H as <-.
  destruct (raw_tree (Record_ e)) as [j|]; [|done]. by eapply decode_record_width.
Qed.

(** ** The invariant *)

(** The event a synced file holds a record of. *)
Definition record_id (f : file) : option string :=
  match f with
  | Regular _ c true =>
      match open_envelope c with Ok r => Some (Donation.EventID (sr_Donation r)) | Err _ => None end
  | _ => None
  end.

Section Inv.
Context {J : Type} `{JournalLaws J}.
Notation disk := (disk J).

Definition holds (m : gmap string file) (name id : string) : Prop :=
  exists f, m !! name = Some f /\ record_id f = Some id.

Record spool_inv (x : disk) : Prop := {
  si_jr : jinv (jr x);
  si_visible : forall name id, holds (visible x) name id -> named name id;
  si_durable : forall name id, holds (durable x) name id -> named name id;
  si_kept : forall name id, holds (durable x) name id ->
    stored (jr x) id \/ holds (visible x) name id
}.

(** The event survives a crash, or is in the journal already. *)
Definition secured (x : disk) (id : string) : Prop :=
  stored (jr x) id \/ exists name, holds (durable x) name id.

Definition good (A : list string) (x : disk) : Prop :=
  spool_inv x /\ forall id, id ∈ A -> secured x id.

Lemma good_cons A id x : good A x -> secured x id -> good (id :: A) x.
Proof. intros [I S] Hid. split; [done|]. intros i [->|Hi]%elem_of_cons; auto. Qed.

Lemma good_visible A x m :
  (forall name id, holds m name id -> named name id) ->
  (forall name id, holds (durable x) name id -> holds (visible x) name id ->
     stored (jr x) id \/ holds m name id) ->
  good A x -> good A (Disk m (durable x) (jr x)).
Proof.
  intros Hn Hk [[I1 I2 I3 I4] S]. split; [split; simpl; auto|].
  - intros name id Hd. destruct (I4 _ _ Hd) as [?|Hv]; [by left|].
    by apply Hk.
  - intros id Hi. apply (S id Hi).
Qed.

Lemma holds_insert m name f n id : holds (<[n := f]> m) name id <->
  (n = name /\ record_id f = Some id) \/ (n <> name /\ holds m name id).
Proof.
  unfold holds. rewrite lookup_insert. case_decide; split.
  - intros (g & [= <-] & ?). auto.
  - intros [[_ ?]|[? _]]; [eauto|done].
  - intros ?. auto.
  - intros [[? _]|[_ ?]]; done.
Qed.

Lemma holds_delete m name n id : holds (delete n m) name id <-> n <> name /\ holds m name id.
Proof.
  unfold holds. rewrite lookup_delete. case_decide; split.
  - by intros (g & ? & _).
  - by intros [? _].
  - auto.
  - by intros [_ ?].
Qed.

Lemma holds_fun m name i1 i2 : holds m name i1 -> holds m name i2 -> i1 = i2.
Proof. intros (f & H1 & H2) (g & H3 & H4). congruence. Qed.

Lemma good_syncDir A x : good A x -> good A (Disk (visible x) (visible x) (jr x)).
Proof.
  intros [[I1 I2 I3 I4] S]. split; [split; simpl; auto|].
  intros id Hi. destruct (S id Hi) as [?|[name Hn]]; [by left|].
  destruct (I4 _ _ Hn) as [?|?]; [by left|]. right. by exists name.
Qed.

Lemma hoare_syncDir A : hoare (good A) syncDir (fun _ => good A) (good A).
Proof.
  apply hoare_sys_exec; [|done]. intros t x u x' Hg [= <- <-]. by apply good_syncDir.
Qed.

(** ** Draining keeps everything *)

Lemma hoare_journal A m d' g d a : Donation.in_width d = true ->
  hoare (fun x => good A x /\ visible x = m /\ durable x = d') (journal_call g d a)
    (fun _ x => (good A x /\ visible x = m /\ durable x = d') /\ stored (jr x) (Donation.EventID d))
    (fun x => good A x /\ visible x = m /\ durable x = d').
Proof.
  intros Hw e s ([[I1 I2 I3 I4] S] & Ev & Ed). unfold journal_call.
  destruct (journal_append g d a e _) as [r w] eqn:E.
  destruct (journal_append_keeps g d a e (World (jr (db s)) (jr (db s)) (tick s)) r w Hw I1 E)
    as [K1 K2]. simpl in K2.
  assert (good A (Disk (visible (db s)) (durable (db s)) (db w)) /\
    visible (Disk (visible (db s)) (durable (db s)) (db w)) = m /\
    durable (Disk (visible (db s)) (durable (db s)) (db w)) = d') as Hg.
  { split; [|done]. split; [split; simpl; auto|].
    - intros name id Hd. destruct (I4 _ _ Hd); auto.
    - intros id Hi. destruct (S id Hi) as [?|?]; [left; simpl; auto|by right]. }
  destruct r as [d2|x]; simpl; [|exact Hg]. split; [exact Hg|].
  by apply (journal_append_stores g d a e (World (jr (db s)) (jr (db s)) (tick s)) d2 w Hw I1).
Qed.

Lemma hoare_remove A m d' name id n c y : m !! name = Some (Regular n c y) ->
  (exists r, open_envelope c = Ok r /\ Donation.EventID (sr_Donation r) = id) ->
  hoare (fun x => (good A x /\ visible x = m /\ durable x = d') /\ stored (jr x) id)
    (remove name) (fun _ => good A) (good A).
Proof.
  intros Hm (r & Hr & Hid). apply hoare_sys_exec; [|by intros x [[? _] _]].
  intros t x u x' [[Hg [Ev Ed]] Hs] Hx.
  rewrite Ev, Hm in Hx. injection Hx as _ <-. unfold set_visible. rewrite Ev.
  apply good_visible; [| |done].
  - intros nm i [_ Hh]%holds_delete. destruct Hg as [I _]. apply (si_visible _ I). by rewrite Ev.
  - rewrite Ev. intros nm i _ Hh. destruct (decide (name = nm)) as [->|Hne].
    + left. destruct Hh as (f & Hf & Hi). rewrite Hm in Hf. injection Hf as <-.
      unfold record_id in Hi. destruct y; [|done]. rewrite Hr in Hi. congruence.
    + right. by apply holds_delete.
Qed.

Lemma hoare_ctx_err ctx A : hoare (good A) (ctx_err (J := J) ctx) (fun _ => good A) (good A).
Proof. intros e s Hs. unfold ctx_err. by destruct (ctx _). Qed.

Lemma hoare_try_bind {X B} P (m : M disk X) (k : result X -> M disk B) R Q E :
  hoare P m R E -> (forall a, hoare (R a) (k (Ok a)) Q E) -> (forall x, hoare E (k (Err x)) Q E) ->
  hoare P (try m ≫= k) Q E.
Proof.
  intros Hm Hk Hx e s Hs. specialize (Hm e s Hs). unfold mbind, M_bind, try.
  destruct (m e s) as [[a|x] s1]; [by apply Hk|by apply Hx].
Qed.

Lemma hoare_read A name : hoare (good A) (read_file (J := J) name)
  (fun c x => good A x /\ exists n y, visible x !! name = Some (Regular n c y)) (good A).
Proof.
  apply hoare_pool_query; [|done]. intros t x c Hg Hc. split; [done|].
  destruct (visible x !! name) as [[n c' y|]|]; [|done|done]. injection Hc as ->. eauto.
Qed.

Lemma hoare_guard (P : disk -> Prop) c x : hoare P (guard_ok c x) (fun _ d => P d) P.
Proof. intros e s Hs. unfold guard_ok. by destruct c. Qed.
Lemma hoare_now (P : disk -> Prop) : hoare P time_now (fun _ d => P d) P.
Proof. by intros e s Hs. Qed.
Lemma hoare_lift {X} (P : disk -> Prop) (r : result X) :
  hoare P (lift r) (fun a d => P d /\ r = Ok a) P.
Proof. intros e s Hs. by destruct r. Qed.

Lemma hoare_same {X} (P : disk -> Prop) (m : M disk X) : quiet m -> hoare P m (fun _ d => P d) P.
Proof.
  intros Hq e s Hs. specialize (Hq e s). destruct (m e s) as [[a|x] s']; simpl in *; by rewrite Hq.
Qed.

Lemma hoare_fact {X} (P : disk -> Prop) (F : Prop) (m : M disk X) Q E :
  (F -> hoare P m Q E) -> hoare (fun d => P d /\ F) m Q E.
Proof. intros H1 e s [Hs HF]. by apply H1. Qed.

Lemma hoare_close (P : disk -> Prop) : hoare P (close_file (J := J)) (fun _ d => P d) P.
Proof. apply hoare_sys_exec; [|done]. by intros t x u x' Hp [= _ <-]. Qed.

Lemma hoare_err {X} (P : disk -> Prop) (m : M disk X) Q (E E' : disk -> Prop) :
  (forall d, E d -> E' d) -> hoare P m Q E -> hoare P m Q E'.
Proof. intros HE Hm e s Hs. specialize (Hm e s Hs). destruct (m e s) as [[a|x] s']; auto. Qed.

(** The pieces of one file's treatment, once its record is open. *)
Lemma hoare_record A ctx l name n c y r m d' :
  m !! name = Some (Regular n c y) -> open_envelope c = Ok r ->
  hoare (good A) (drain_files ctx l) (fun _ => good A) (good A) ->
  hoare (fun x => good A x /\ visible x = m /\ durable x = d')
    (res ← try (journal_call (sr_Grant r) (sr_Donation r) (sr_AcceptedAt r));
     match res with
     | Err x => if terminal x then fail x else mret (Some x)
     | Ok _ => remove name ;; syncDir ;; drain_files ctx l
     end) (fun _ => good A) (good A).
Proof.
  intros Hm Hr Hl. pose proof (open_envelope_width _ _ Hr) as Hw.
  intros e s Hs. pose proof (hoare_journal A m d' (sr_Grant r) (sr_Donation r) (sr_AcceptedAt r) Hw e s Hs) as Hj.
  unfold mbind at 1, M_bind at 1, try.
  destruct (journal_call _ _ _ e s) as [[d2|x] s1].
  - assert (hoare (fun x => (good A x /\ visible x = m /\ durable x = d') /\
        stored (jr x) (Donation.EventID (sr_Donation r)))
      (remove name ;; syncDir ;; drain_files ctx l) (fun _ => good A) (good A)) as Hq.
    { eapply hoare_bind; [eapply hoare_remove; [exact Hm|eauto]|]. intros ?.
      eapply hoare_bind; [apply hoare_syncDir|]. intros ?. exact Hl. }
    exact (Hq e s1 Hj).
  - destruct (terminal x); simpl; apply Hj.
Qed.

Lemma hoare_drain_files A ctx l :
  hoare (good A) (drain_files (J := J) ctx l) (fun _ => good A) (good A).
Proof.
  induction l as [|name l IH]; [by apply hoare_ret|]. simpl.
  eapply hoare_bind; [apply hoare_ctx_err|]. intros ?.
  eapply hoare_bind; [apply hoare_same, quiet_pool_query|]. intros size.
  eapply hoare_bind; [apply hoare_guard|]. intros ?.
  eapply hoare_bind; [apply hoare_read|]. intros c.
  intros e s (Hg & n & y & Hv).
  assert (hoare (fun x => good A x /\ visible x = visible (db s) /\ durable x = durable (db s))
    (r ← lift (open_envelope c);
     now ← time_now;
     guard_ok (negb (30 * day <? time_sub now (sr_AcceptedAt r)))
        (ErrMsg "old spool record: recovery required") ;;
     res ← try (journal_call (sr_Grant r) (sr_Donation r) (sr_AcceptedAt r));
     match res with
     | Err x => if terminal x then fail x else mret (Some x)
     | Ok _ => remove name ;; syncDir ;; drain_files ctx l
     end) (fun _ => good A) (good A)) as Hq; [|by apply Hq].
  eapply hoare_bind; [eapply hoare_err; [|apply hoare_lift]; by intros d [Hd _]|].
  intros r. eapply hoare_bind; [eapply hoare_err; [|apply hoare_now]; by intros d [[Hd _] _]|].
  intros now. eapply hoare_bind; [eapply hoare_err; [|apply hoare_guard]; by intros d [[Hd _] _]|].
  intros ? e2 s2 [H2 Er].
  by apply (hoare_record A ctx l name n c y r (visible (db s)) (durable (db s)) Hv Er IH).
Qed.

Lemma hoare_drain A ctx : hoare (good A) (drain (J := J) ctx) (fun _ => good A) (good A).
Proof.
  eapply hoare_bind; [apply hoare_same, quiet_pool_query|]. intros fz. apply hoare_drain_files.
Qed.

(** ** Saving secures the record *)

Section Save.
Context (A : list string) (accepted : Z) (d : t) (raw : json) (g : OwnerGrant).
Context (Hw : Donation.in_width d = true)
        (Hraw : marshal_record (SpoolRecord g d accepted) = Ok raw).
Let name := record_name accepted (Donation.EventID d).
Let pend := name +:+ ".pending".
Let final := name +:+ ".json".
Let id := coerce (Donation.EventID d).

(** The new file is there, with these contents; nothing of that name was durable. *)
Definition saving (c : option spoolEnvelope) (y : bool) (x : disk) : Prop :=
  good A x /\ (exists n, visible x !! pend = Some (Regular n c y)) /\
  forall i, holds (durable x) pend i -> stored (jr x) i.

Lemma named_pend : named pend id.
Proof. exists accepted, (Donation.EventID d), ".pending"%string. auto. Qed.
Lemma named_final : named final id.
Proof. exists accepted, (Donation.EventID d), ".json"%string. auto. Qed.

Lemma record_id_written n : record_id (Regular n (Some (make_envelope raw)) true) = Some id.
Proof. unfold record_id. by rewrite (open_make_envelope (SpoolRecord g d accepted) raw Hw Hraw). Qed.

Lemma not_synced_record n c i : record_id (Regular n c false) = Some i -> False.
Proof. done. Qed.

Lemma hoare_create : hoare (good A) (create pend) (fun _ => saving None false) (good A).
Proof.
  apply hoare_sys_exec; [|done]. intros t x u x' Hg Hx.
  destruct (visible x !! pend) eqn:E; [done|]. injection Hx as _ <-. unfold set_visible.
  assert (forall i, ~ holds (visible x) pend i) as Hno by (intros i (f & Hf & _); congruence).
  split; [|split].
  - apply good_visible; [| |done].
    + intros nm i [[_ Hq]|[_ Hq]]%holds_insert; [done|]. destruct Hg as [I _]. by apply (si_visible _ I).
    + intros nm i _ Hv. right. apply holds_insert. right. split; [|done].
      intros <-. by apply (Hno i).
  - exists 0. apply lookup_insert_eq.
  - intros i Hi. destruct Hg as [I _]. destruct (si_kept _ I _ _ Hi) as [?|Hv]; [done|].
    by apply Hno in Hv.
Qed.

Lemma hoare_write : hoare (saving None false) (write_file pend raw)
  (fun _ => saving (Some (make_envelope raw)) false) (good A).
Proof.
  apply hoare_sys_exec; [|by intros x [? _]]. intros t x u x' (Hg & [n Hn] & Hd) [= _ <-].
  unfold set_visible. split; [|split; [eexists; apply lookup_insert_eq|exact Hd]].
  apply good_visible; [| |done].
  - intros nm i [[_ Hq]|[_ Hq]]%holds_insert; [done|]. destruct Hg as [I _]. by apply (si_visible _ I).
  - intros nm i _ Hv. right. apply holds_insert. right. split; [|done].
    intros <-. destruct Hv as (f & Hf & Hi). rewrite Hn in Hf. by injection Hf as <-.
Qed.

Lemma hoare_sync : hoare (saving (Some (make_envelope raw)) false) (sync_file pend)
  (fun _ => saving (Some (make_envelope raw)) true) (good A).
Proof.
  apply hoare_sys_exec; [|by intros x [? _]]. intros t x u x' (Hg & [n Hn] & Hd) [= _ <-].
  unfold set_visible.
  assert (forall nm, alter (fun f => match f with Regular n c _ => Regular n c true | Irregular => Irregular end)
    pend (visible x) !! nm = <[pend := Regular n (Some (make_envelope raw)) true]> (visible x) !! nm) as Ha.
  { intros nm. rewrite lookup_alter, lookup_insert. case_decide as E; [|done]. subst nm. by rewrite Hn. }
  apply map_eq in Ha. rewrite Ha.
  split; [|split; [eexists; apply lookup_insert_eq|exact Hd]].
  apply good_visible; [| |done].
  - intros nm i [[<- Hq]|[_ Hq]]%holds_insert.
    + rewrite record_id_written in Hq. injection Hq as <-. apply named_pend.
    + destruct Hg as [I _]. by apply (si_visible _ I).
  - intros nm i _ Hv. right. apply holds_insert. right. split; [|done].
    intros <-. destruct Hv as (f & Hf & Hi). rewrite Hn in Hf. by injection Hf as <-.
Qed.

Lemma hoare_rename : hoare (saving (Some (make_envelope raw)) true) (rename pend final)
  (fun _ x => good A x /\ holds (visible x) final id) (good A).
Proof.
  apply hoare_sys_exec; [|by intros x [? _]]. intros t x u x' (Hg & [n Hn] & Hd) Hx.
  rewrite Hn in Hx. injection Hx as _ <-. unfold set_visible.
  assert (holds (<[final := Regular n (Some (make_envelope raw)) true]> (delete pend (visible x)))
    final id) as Hh.
  { apply holds_insert. left. split; [done|apply record_id_written]. }
  split; [|exact Hh]. apply good_visible; [| |done].
  - intros nm i [[<- Hq]|[_ Hq]]%holds_insert.
    + rewrite record_id_written in Hq. injection Hq as <-. apply named_final.
    + apply holds_delete in Hq as [_ Hq]. destruct Hg as [I _]. by apply (si_visible _ I).
  - intros nm i Hdur Hv. destruct (decide (final = nm)) as [<-|Hf].
    + right. destruct Hg as [I _].
      by rewrite (named_unique _ _ _ (si_visible _ I _ _ Hv) named_final).
    + destruct (decide (pend = nm)) as [<-|Hp]; [left; auto|].
      right. apply holds_insert. right. split; [done|]. by apply holds_delete.
Qed.

Lemma hoare_commit_dir : hoare (fun x => good A x /\ holds (visible x) final id) syncDir
  (fun _ => good (id :: A)) (good A).
Proof.
  apply hoare_sys_exec; [|by intros x [? _]]. intros t x u x' [Hg Hh] [= _ <-].
  apply good_cons; [by apply good_syncDir|]. right. by exists final.
Qed.
End Save.

Lemma hoare_Save A mb mf ctx g d deadline : Donation.in_width d = true ->
  hoare (good A) (Save (J := J) mb mf ctx g d deadline)
    (fun _ => good (coerce (Donation.EventID d) :: A)) (good A).
Proof.
  intros Hw. unfold Save.
  eapply hoare_bind; [eapply hoare_same, quiet_lift|]. intros _u.
  eapply hoare_bind; [apply hoare_now|]. intros now.
  eapply hoare_bind; [apply hoare_guard|]. intros _u1.
  eapply hoare_bind; [apply hoare_same, quiet_pool_query|]. intros fz.
  eapply hoare_bind; [apply hoare_guard|]. intros _u2.
  eapply hoare_bind; [apply hoare_now|]. intros accepted.
  eapply hoare_bind; [apply hoare_lift|]. intros raw.
  apply hoare_fact. intros Hraw.
  assert (forall A' x, good (coerce (Donation.EventID d) :: A') x -> good A' x) as Hcons.
  { intros A' x [I S]. split; [done|]. intros i Hi. apply S. by right. }
  eapply hoare_bind; [apply hoare_guard|]. intros _u3. cbv zeta.
  eapply hoare_bind; [apply hoare_guard|]. intros _u4.
  eapply hoare_bind; [eapply (hoare_create A accepted d)|]. intros _u5.
  eapply hoare_bind; [eapply (hoare_write A accepted d raw)|]. intros _u6.
  eapply hoare_bind; [eapply (hoare_sync A accepted d raw g Hw Hraw)|]. intros _u7.
  eapply hoare_bind; [eapply hoare_err; [|apply hoare_close]; by intros x [? _]|]. intros _u8.
  eapply hoare_bind; [eapply hoare_err; [|apply hoare_now]; by intros x [? _]|]. intros _u9.
  eapply hoare_bind; [eapply hoare_err; [|apply hoare_guard]; by intros x [? _]|]. intros _u10.
  eapply hoare_bind; [eapply (hoare_rename A accepted d raw g Hw Hraw)|]. intros _u11.
  eapply hoare_bind; [eapply (hoare_commit_dir A accepted d)|]. intros _u12.
  eapply hoare_bind; [eapply hoare_err; [apply Hcons|apply hoare_drain]|]. intros _u13.
  by apply hoare_ret.
Qed.

(** ** Crashes *)

Lemma record_id_crash f i : record_id (after_crash f) = Some i -> record_id f = Some i.
Proof. by destruct f as [n c []|]. Qed.

Lemma good_crash A x y : crash_to x y -> good A x -> good A y.
Proof.
  intros (Hj & Hd & Hv) [[I1 I2 I3 I4] S].
  assert (forall nm i, holds (visible y) nm i ->
    holds (durable x) nm i \/ holds (visible x) nm i) as Hfrom.
  { intros nm i (f & Hf & Hi). destruct (Hv nm) as [E|E]; rewrite E in Hf.
    - left. destruct (durable x !! nm) as [f0|] eqn:E0; [|done]. injection Hf as <-.
      exists f0. split; [done|]. by apply record_id_crash.
    - right. destruct (visible x !! nm) as [f0|] eqn:E0; [|done]. injection Hf as <-.
      exists f0. split; [done|]. by apply record_id_crash. }
  assert (forall f i, record_id f = Some i -> after_crash f = f) as Hkeep.
  { by intros [n c []|] i Hi. }
  split; [split|].
  - by rewrite Hj.
  - intros nm i [?|?]%Hfrom; auto.
  - rewrite Hd. intros nm i [?|?]%Hfrom; auto.
  - rewrite Hd. auto.
  - intros i Hi. destruct (S i Hi) as [?|[nm Hn]]; [left; by rewrite Hj|].
    destruct (I4 _ _ Hn) as [?|Hvis]; [left; by rewrite Hj|]. right. exists nm. rewrite Hd.
    destruct Hn as (f & Hf & Hfi), Hvis as (f' & Hf' & Hfi').
    destruct (Hv nm) as [E|E].
    + exists f. rewrite E, Hf. split; [|done]. simpl. f_equal. by eapply Hkeep.
    + exists f'. rewrite E, Hf'. split; [|done]. simpl. f_equal. by eapply Hkeep.
Qed.
End Inv.

(** ** The store's journal *)

#[export] Instance store_journal (cc : option string) (sz : json -> Z) : DonationJournal database :=
  AppendDonation cc sz.

#[export] Program Instance store_laws (cc : option string) (sz : json -> Z) :
  @JournalLaws database (store_journal cc sz) := {|
  jinv := journal_inv;
  stored := fun x id => donations x !! id <> None
|}.
Next Obligation.
  intros cc sz g d a e s r s' Hw I H. cbv beta in *.
  apply atomic_after in H as [->|(e' & d' & s1 & _ & _ & _ & H & -> & _)];
    [done| |apply atomic_Append].
  split; [by eapply (append_inv cc sz); eauto|].
  apply AppendDonation_ok in H; [|done].
  destruct H as (_ & _ & n & x & _ & [(r0 & j & _ & _ & _ & _ & ->)|Hf]); [done|].
  destruct Hf as (_ & _ & _ & _ & _ & _ & _ & j & t1 & t2 & _ & ->).
  intros id Hid. unfold appended; simpl. rewrite lookup_insert. by case_decide.
Qed.
Next Obligation.
  intros cc sz g d a e s d' s' Hw I H. apply AppendDonation_ok in H; [|done].
  destruct H as (_ & _ & n & x & _ & [(r & j & Hr & _ & _ & _ & ->)|Hf]); [congruence|].
  destruct Hf as (_ & _ & _ & _ & _ & _ & _ & j & t1 & t2 & _ & ->).
  unfold appended; simpl. by rewrite lookup_insert_eq.
Qed.
