(* ===== verification/SpoolProps.v ===== *)
(** The properties of the donation spool: an accepted observation survives
    crashes until it is journalled, files leave the spool in order and only
    once journalled, and evidence of an interrupted write stops the spool. *)
From S2P Require Import Prelude GoLib Sha256 Json Tx Model Db.
From S2P Require Import Ownership Journal JournalInv JournalRun Store Spool SpoolInv.
From S2P Require Import OwnerInv JournalProps.

Section Props.
Context {J : Type} `{JournalLaws J}.

(** Runs of a worker process and its crashes; the journal may move on by
    itself as long as it keeps what it stored. The list holds the events
    [Save] accepted. *)
Inductive spool_reach (e : env) : world (disk J) -> list string -> Prop :=
| reach_start j n : jinv j -> spool_reach e (World (Disk ∅ ∅ j) (Disk ∅ ∅ j) n) []
| reach_save s A mb mf ctx g d deadline r s' : spool_reach e s A ->
    Donation.in_width d = true -> Save mb mf ctx g d deadline e s = (r, s') ->
    spool_reach e s' (if is_ok r then coerce (Donation.EventID d) :: A else A)
| reach_drain s A ctx r s' : spool_reach e s A -> Drain ctx e s = (r, s') -> spool_reach e s' A
| reach_crash s A y : spool_reach e s A -> crash_to (db s) y ->
    spool_reach e (World y (wk s) (tick s)) A
| reach_journal s A j : spool_reach e s A -> jinv j ->
    (forall id, stored (jr (db s)) id -> stored j id) ->
    spool_reach e (World (Disk (visible (db s)) (durable (db s)) j) (wk s) (tick s)) A.

Lemma reach_good e s A : spool_reach e s A -> good A (db s).
Proof.
  induction 1 as [j n Hj|s A mb mf ctx g d dl r s' _ IH Hw E|s A ctx r s' _ IH E
    |s A y _ IH Hc|s A j _ IH Hj Hk].
  - split; [split; simpl; try done; by intros nm i (f & Hf & _)|by intros i Hi%elem_of_nil].
  - pose proof (hoare_Save A mb mf ctx g d dl Hw e s IH) as Hs. rewrite E in Hs. by destruct r.
  - assert (hoare (good A) (Drain ctx) (fun _ => good A) (good A)) as Hd.
    { eapply hoare_bind; [apply hoare_drain|]. intros [x|]; [by apply hoare_fail|by apply hoare_ret]. }
    specialize (Hd e s IH). rewrite E in Hd. by destruct r.
  - by eapply good_crash.
  - destruct IH as [[I1 I2 I3 I4] S]. split; [split; simpl; auto|].
    + intros nm i Hd. destruct (I4 _ _ Hd); auto.
    + intros i Hi. destruct (S i Hi) as [?|?]; [left; simpl; auto|by right].
Qed.

(** C13: whenever [Save] reported success for an observation, then whatever
    fails or crashes afterwards, the observation is in the journal or a
    durable spool file holds its record, with a valid checksum, for the next
    drain. *)
Theorem accepted_never_lost e s A id : spool_reach e s A -> id ∈ A ->
  stored (jr (db s)) id \/
  exists name n c, durable (db s) !! name = Some (Regular n c true) /\
    exists r, open_envelope c = Ok r /\ Donation.EventID (sr_Donation r) = id.
Proof.
  intros Hr Hi. destruct (reach_good _ _ _ Hr) as [_ S].
  destruct (S id Hi) as [?|(name & f & Hf & Hid)]; [by left|]. right.
  destruct f as [n c []|]; try done. exists name, n, c. split; [done|].
  unfold record_id in Hid. destruct (open_envelope c) as [r|]; [|done]. exists r.
  split; congruence.
Qed.

(** ** Draining *)

Lemma scan_entries_ok l names size names' size' :
  scan_entries l names size = Ok (names', size') ->
  (forall nm f, (nm, f) ∈ l -> nm <> ".writer.lock"%string -> exists n c y,
     f = Regular n c y /\ has_suffix nm ".pending" = false /\ has_suffix nm ".json" = true) /\
  forall nm, nm ∈ names' <-> nm ∈ names \/ (nm <> ".writer.lock"%string /\ exists f, (nm, f) ∈ l).
Proof.
  revert names size; induction l as [|[nm f] l IH]; intros names size Hs; simpl in Hs.
  { injection Hs as <- <-. split; [by intros ? ? ?%elem_of_nil|].
    intros nm. split; [auto|]. intros [?|(_ & f & Hf)]; [done|]. by apply elem_of_nil in Hf. }
  destruct (String.eqb nm ".writer.lock") eqn:El.
  - apply String.eqb_eq in El as ->. destruct (IH _ _ Hs) as [I1 I2]. split.
    + intros nm f0 [[= -> ->]|Hin]%elem_of_cons Hne; [done|by eapply I1].
    + intros nm. rewrite I2. split; (intros [?|(Hne & f0 & Hf)]; [by left|right; split; [done|]]).
      * exists f0. by right.
      * apply elem_of_cons in Hf as [[= -> ->]|Hf]; [done|eauto].
  - apply String.eqb_neq in El. destruct f as [n c y|]; [|done].
    destruct (has_suffix nm ".pending") eqn:Ep; [done|].
    destruct (has_suffix nm ".json") eqn:Ej; [|done]. simpl in Hs.
    destruct (IH _ _ Hs) as [I1 I2]. split.
    + intros nm0 f0 [[= -> ->]|Hin]%elem_of_cons Hne; [eauto 10|by eapply I1].
    + intros nm0. rewrite I2, elem_of_app, list_elem_of_singleton. split.
      * intros [[?| ->]|(Hne & f0 & Hf)]; [by left| |].
        -- right. split; [done|]. eexists. by left.
        -- right. split; [done|]. exists f0. by right.
      * intros [?|(Hne & f0 & Hf)]; [by left; left|].
        apply elem_of_cons in Hf as [[= -> ->]|Hf]; [by left; right|]. right. eauto.
Qed.

Lemma files_of_ok (x : disk J) names size : files_of x = Ok (names, size) ->
  (forall nm f, visible x !! nm = Some f -> nm <> ".writer.lock"%string -> exists n c y,
     f = Regular n c y /\ has_suffix nm ".pending" = false) /\
  forall nm, nm ∈ names <-> nm <> ".writer.lock"%string /\ is_Some (visible x !! nm).
Proof.
  unfold files_of. intros Hf. apply result_bind_ok in Hf as ([ns sz] & Hs & [= <- <-]).
  apply scan_entries_ok in Hs as [I1 I2]. split.
  - intros nm f Hv Hne. destruct (I1 nm f) as (n & c & y & ? & ? & _); [|done|eauto 10].
    rewrite merge_sort_Permutation. by apply elem_of_map_to_list.
  - intros nm. rewrite merge_sort_Permutation. simpl. rewrite I2. split.
    + intros [Hn|(Hne & f & Hf)]; [by apply elem_of_nil in Hn|]. split; [done|].
      rewrite merge_sort_Permutation in Hf. apply elem_of_map_to_list in Hf. eauto.
    + intros [Hne [f Hf]]. right. split; [done|]. exists f. rewrite merge_sort_Permutation.
      by apply elem_of_map_to_list.
Qed.

(** A file left behind by an interrupted write stops the spool: nothing
    is accepted, drained or counted until it has been inspected, and no file
    is touched. *)
Theorem pending_stops_spool nm n c y e (s : world (disk J)) :
  visible (db s) !! nm = Some (Regular n c y) -> has_suffix nm ".pending" = true ->
  nm <> ".writer.lock"%string ->
  (forall mb mf ctx g d deadline u s', Save mb mf ctx g d deadline e s <> (Ok u, s')) /\
  (forall ctx u s', Drain (J := J) ctx e s <> (Ok u, s')) /\
  (forall p s', Backlog (J := J) e s <> (Ok p, s')) /\
  forall ctx r s', Drain ctx e s = (r, s') -> db s' = db s.
Proof.
  intros Hv Hp Hne.
  assert (forall p, files_of (db s) <> Ok p) as Hno.
  { intros [ns sz] Hf. apply files_of_ok in Hf as [I1 _].
    destruct (I1 _ _ Hv Hne) as (? & ? & ? & _ & E). congruence. }
  assert (forall e2 (s2 : world (disk J)) p s', db s2 = db s ->
    files (J := J) e2 s2 <> (Ok p, s')) as Hfiles.
  { intros e2 s2 p s' Ed Hf. unfold files in Hf. inv_run Hf. rewrite Ed in *. by eapply Hno. }
  split; [|split; [|split]].
  - intros mb mf ctx g d deadline u s' Hs. unfold Save in Hs.
    apply bind_ok in Hs as (a1 & s1 & H1 & Hs). apply lift_ok in H1 as [_ <-].
    apply bind_ok in Hs as (a2 & s2 & H2 & Hs). apply time_now_ok in H2 as [_ <-].
    apply bind_ok in Hs as (a3 & s3 & H3 & Hs). apply guard_ok_ok in H3 as [_ <-].
    apply bind_ok in Hs as (a4 & s4 & H4 & Hs). by eapply Hfiles in H4.
  - intros ctx u s' Hd. unfold Drain, drain in Hd.
    apply bind_ok in Hd as (a1 & s1 & H1 & Hd).
    apply bind_ok in H1 as (a2 & s2 & H2 & _). by eapply Hfiles in H2.
  - intros p s' Hb. unfold Backlog in Hb.
    apply bind_ok in Hb as (a2 & s2 & H2 & _). by eapply Hfiles in H2.
  - intros ctx r s' Hd. unfold Drain, drain, files, pool_query, mbind, M_bind in Hd.
    destruct (driver_fails e (tick s)); simpl in Hd; [by injection Hd as <- <-|].
    destruct (files_of (db s)) as [p|]; [by destruct (Hno p)|]. by injection Hd as <- <-.
Qed.

Definition remove_all (l : list string) (m : gmap string file) : gmap string file :=
  foldr delete m l.

Lemma remove_all_lookup l m nm f : remove_all l m !! nm = Some f -> m !! nm = Some f.
Proof.
  induction l as [|n l IH]; simpl; [done|]. rewrite lookup_delete_Some. intros [_ ?]. auto.
Qed.

Lemma remove_all_delete l n m : remove_all l (delete n m) = delete n (remove_all l m).
Proof. induction l as [|k l IH]; simpl; [done|]. rewrite IH. apply delete_delete. Qed.

(** What a drain of the files [l] does, whatever its outcome. *)
Definition drained (l : list string) (s s' : world (disk J)) (done_ : bool) : Prop :=
  exists pre post, l = pre ++ post /\ visible (db s') = remove_all pre (visible (db s)) /\
    (done_ = true -> post = []) /\ jinv (jr (db s')) /\
    (forall id, stored (jr (db s)) id -> stored (jr (db s')) id) /\
    forall nm, nm ∈ pre -> exists n c y r, visible (db s) !! nm = Some (Regular n c y) /\
      open_envelope c = Ok r /\ stored (jr (db s')) (Donation.EventID (sr_Donation r)).

Lemma drained_nothing l s s' : jinv (jr (db s)) -> db s' = db s -> drained l s s' false.
Proof.
  intros Hj Heq. exists [], l. rewrite Heq. repeat split; try done. by intros ? ?%elem_of_nil.
Qed.

Lemma quiet_ctx_err ctx : quiet (ctx_err (J := J) ctx).
Proof. intros e s. unfold ctx_err. by destruct (ctx _). Qed.

(** A step that changes nothing: it fails, and so nothing is done, or the
    run goes on from an equal directory. *)
#[local] Ltac quiet_step Hd :=
  let Hq := fresh "Hq" in let Eq := fresh "Eq" in
  apply bind_inv in Hd as [(? & ? & Hq & Hd)|(? & Hq & ->)];
  (eapply quiet_run in Hq;
    [|first [apply quiet_pool_query | apply quiet_guard | apply quiet_now | apply quiet_ctx_err]]);
  [|apply drained_nothing; congruence].

Lemma drain_files_prefix ctx l e : forall s r s', jinv (jr (db s)) ->
  drain_files ctx l e s = (r, s') ->
  drained l s s' (match r with Ok None => true | _ => false end).
Proof.
  induction l as [|nm l IH]; intros s r s' Hj Hd.
  { injection Hd as <- <-. exists [], []. repeat split; try done. by intros ? ?%elem_of_nil. }
  simpl in Hd.
  quiet_step Hd. quiet_step Hd. quiet_step Hd.
  apply bind_inv in Hd as [(c & s4 & H4 & Hd)|(xe & H4 & ->)];
    [|apply (quiet_run _ _ _ _ _ (quiet_pool_query _)) in H4; apply drained_nothing; congruence].
  apply pool_query_ok in H4 as (_ & Hv & ->).
  match type of Hv with match visible (db ?q) !! _ with _ => _ end = _ =>
    assert (db q = db s) as Eq by congruence; rewrite Eq in Hv;
    assert (db (bump q) = db s) as E4 by exact Eq; clear Eq; revert Hd E4;
    generalize (bump q); intros s5 Hd E5 end.
  destruct (visible (db s) !! nm) as [[n c' y|]|] eqn:Ev; try done. injection Hv as ->.
  apply bind_inv in Hd as [(rc & s6 & H6 & Hd)|(xe & H6 & ->)];
    [|apply (quiet_run _ _ _ _ _ (quiet_lift _)) in H6; apply drained_nothing; congruence].
  apply lift_ok in H6 as [Eo <-].
  quiet_step Hd. quiet_step Hd.
  match type of Hd with (_ ≫= _) e ?q = _ => assert (db q = db s) as E6 by congruence;
    revert Hd E6; generalize q; intros s6 Hd E6 end.
  unfold mbind at 1, M_bind at 1, try in Hd. unfold journal_call in Hd. rewrite E6 in Hd.
  destruct (journal_append _ _ _ e _) as [rj w] eqn:Ej.
  pose proof (open_envelope_width _ _ Eo) as Hw.
  destruct (journal_append_keeps _ _ _ e (World _ _ _) _ _ Hw Hj Ej) as [K1 K2].
  destruct rj as [d2|xe].
  2:{ assert (r <> Ok None /\ db s' = Disk (visible (db s)) (durable (db s)) (db w)) as [Hr Es].
      { destruct (terminal xe); by injection Hd as <- <-. }
      exists [], (nm :: l). rewrite Es. repeat split; try done; [by destruct r as [[]|]|].
      by intros ? ?%elem_of_nil. }
  pose proof (journal_append_stores _ _ _ e (World _ _ _) _ _ Hw Hj Ej) as Hst.
  assert (forall s2 b, visible (db s2) = delete nm (visible (db s)) -> jr (db s2) = db w ->
    drained l s2 s' b -> drained (nm :: l) s s' b) as Hcons.
  { intros s2 b V2 J2 (pre & post & -> & V & Hp & Hj' & Hk & Hin).
    exists (nm :: pre), post. rewrite V2, J2 in *. split; [done|]. split.
    { rewrite V. simpl. apply remove_all_delete. }
    split; [done|]. split; [done|]. split; [auto|].
    intros nm' [->|Hn]%elem_of_cons; [eauto 10|].
    destruct (Hin _ Hn) as (n' & c' & y' & r' & Hv & Ho & Hs).
    apply lookup_delete_Some in Hv as [_ Hv]. eauto 10. }
  apply bind_inv in Hd as [(u & s7 & H7 & Hd)|(xe & H7 & ->)].
  2:{ apply sys_exec_err in H7. exists [], (nm :: l). rewrite H7. repeat split; try done. by intros ? ?%elem_of_nil. }
  unfold remove, io in H7. inv_run H7. cbn [db visible] in *. rewrite Ev in *.
  match goal with E : (_ ≫= _) = Ok _ |- _ => cbn in E; injection E as _ <- end.
  apply bind_inv in Hd as [(u2 & s8 & H8 & Hd)|(xe & H8 & ->)].
  - unfold syncDir, io in H8. inv_run H8.
    match goal with E : (_ ≫= _) = Ok _ |- _ => cbn in E; injection E as _ <- end.
    eapply Hcons; [| |eapply IH; [|exact Hd]]; done.
  - apply sys_exec_err in H8. eapply (Hcons _ false); [| |apply drained_nothing; [|exact H8]]; done.
Qed.

(** Whatever happens, a drain removes a prefix of the files in
    acceptance order, each of them only after the journal stored its record;
    when it reports success no record is left. *)
Theorem drain_in_order ctx e (s : world (disk J)) r s' names size :
  jinv (jr (db s)) -> files_of (db s) = Ok (names, size) -> Drain ctx e s = (r, s') ->
  exists pre post, names = pre ++ post /\
    visible (db s') = remove_all pre (visible (db s)) /\
    (forall nm, nm ∈ pre -> exists n c y rc, visible (db s) !! nm = Some (Regular n c y) /\
      open_envelope c = Ok rc /\ stored (jr (db s')) (Donation.EventID (sr_Donation rc))) /\
    (r = Ok tt -> post = [] /\
       forall nm, nm <> ".writer.lock"%string -> visible (db s') !! nm = None).
Proof.
  intros Hj Hf Hd.
  assert (exists b, (r = Ok tt -> b = true) /\ drained names s s' b) as (b & Hb & Hdr).
  { unfold Drain, drain, files, pool_query in Hd. unfold mbind, M_bind in Hd.
    destruct (driver_fails e (tick s)).
    { injection Hd as <- <-. exists false. split; [done|]. by apply drained_nothing. }
    rewrite Hf in Hd. cbn [fst] in Hd.
    destruct (drain_files ctx names e (bump s)) as [r1 s1] eqn:E.
    apply drain_files_prefix in E; [|exact Hj].
    exists (match r1 with Ok None => true | _ => false end).
    destruct r1 as [[x|]|x]; injection Hd as <- <-; (split; [done|exact E]). }
  destruct Hdr as (pre & post & -> & V & Hp & _ & _ & Hin).
  exists pre, post. split; [done|]. split; [done|]. split; [done|].
  intros Hr. specialize (Hp (Hb Hr)). split; [done|]. subst post. rewrite app_nil_r in Hf.
  intros nm Hne. rewrite V. apply files_of_ok in Hf as [_ Hall].
  destruct (visible (db s) !! nm) as [f|] eqn:Ev.
  - assert (nm ∈ pre) as Hnm by (apply Hall; eauto).
    clear -Hnm. induction pre as [|k pre IH]; [by apply elem_of_nil in Hnm|]. simpl.
    destruct (decide (k = nm)) as [->|Hk]; [apply lookup_delete_eq|].
    rewrite lookup_delete_ne by done. apply IH. by apply elem_of_cons in Hnm as [?|?].
  - destruct (remove_all pre _ !! nm) eqn:E; [|done]. apply remove_all_lookup in E. congruence.
Qed.
End Props.

(** ** The properties at a concrete run *)

Module SpoolDemo.
Definition n0 : nat := tick (Demo.go Demo.setup).
(** The database is away when the spool first reaches for it. *)
Definition e : env :=
  Env (fun n => (n =? n0 + 15)%nat) (fun _ => false) (clock Demo.e) (wall Demo.e) (fresh Demo.e).
#[export] Instance journal : DonationJournal database := store_journal None Demo.size.
#[export] Instance laws : JournalLaws database := store_laws None Demo.size.
Definition start : world (disk database) :=
  let x := Disk ∅ ∅ (db (Demo.go Demo.setup)) in World x x n0.
Definition d : Donation.t := Demo.donation "ev-1" 100 1.
Definition save : result unit * world (disk database) :=
  Save 1048576 10000 (fun _ => false) Demo.grant d (Demo.now + 30 * second) e start.
(** A write was interrupted before the rename. *)
Definition interrupted : world (disk database) :=
  let x := Disk {["0-ev.pending"%string := Regular 3 None false]} ∅ empty_db in World x x 0.
End SpoolDemo.
#[local] Existing Instances SpoolDemo.journal SpoolDemo.laws.

(** The record waits in the spool: accepted while the database was away. *)
Example demo_spooled : is_ok SpoolDemo.save.1 = true /\
  donations (jr (db SpoolDemo.save.2)) !! "ev-1"%string = None /\
  size (durable (db SpoolDemo.save.2)) = 1%nat.
Proof. vm_compute. auto. Qed.

Lemma demo_spool_reach : spool_reach SpoolDemo.e SpoolDemo.save.2 ["ev-1"%string].
Proof.
  destruct demo_spooled as [Hr _]. destruct SpoolDemo.save as [[[]|x] s'] eqn:E; [|discriminate Hr].
  unfold SpoolDemo.save in E.
  apply (reach_save SpoolDemo.e SpoolDemo.start [] 1048576 10000 (fun _ => false) Demo.grant
    SpoolDemo.d (Demo.now + 30 * second) (Ok tt) s'); [|reflexivity|exact E].
  apply reach_start.
  apply (reachable_journal None Demo.size render Demo.notify Demo.notify_quiet
    Demo.notify_forward Demo.e). apply demo_reachable. vm_compute. reflexivity.
Qed.

Lemma accepted_never_lost_witness :
  stored (jr (db SpoolDemo.save.2)) "ev-1" \/
  exists name n c, durable (db SpoolDemo.save.2) !! name = Some (Regular n c true) /\
    exists r, open_envelope c = Ok r /\ Donation.EventID (sr_Donation r) = "ev-1"%string.
Proof.
  apply (accepted_never_lost SpoolDemo.e _ ["ev-1"%string]); [exact demo_spool_reach|].
  apply list_elem_of_singleton. reflexivity.
Defined.

Lemma pending_stops_spool_witness :
  is_ok (Backlog (J := database) SpoolDemo.e SpoolDemo.interrupted).1 = false.
Proof.
  destruct (pending_stops_spool (J := database) "0-ev.pending" 3 None false SpoolDemo.e
    SpoolDemo.interrupted) as (_ & _ & H & _).
  - apply lookup_singleton_eq.
  - vm_compute. reflexivity.
  - discriminate.
  - destruct (Backlog (J := database) SpoolDemo.e SpoolDemo.interrupted) as [[p|x] s'] eqn:E; [|reflexivity].
    exfalso. exact (H p s' eq_refl).
Defined.
