(* ===== verification/Collection.v ===== *)
(** A worker's collection session (src/worker/internal/collection.go): the
    grant it holds, the local deadline it keeps for it, the sink that saves
    the connector's donations under both, the renewals and the release. Under
    clocks that agree the deadline never outlives the grant in the database,
    and draining the spool never touches the grants. *)
From S2P Require Import Prelude GoLib Json Tx Model Db.
From S2P Require Import Ownership Journal OwnerRun Store Spool SpoolInv.

Definition local_ttl : Z := 30 * second.
Definition renew_interval : Z := 8 * second.

(** The variables the closures share: [running] until [cancel()],
    [released] once the returned function ran, [stopped] when a failed
    renewal tore the connection down. *)
Record session := Session {
  se_grant : OwnerGrant; se_deadline : Z; running : bool; released : bool; stopped : bool
}.

(** The spool's directory with the database behind it, and the session. *)
Record site := Site { st_disk : disk database; st_session : option session }.

Section Collection.
(** The worker's channel, the stored size of a donation, the spool's bounds,
    and whether the context of a [Save] is done. *)
Context (collectionChannel : option string) (stored_size : json -> Z) (maxBytes maxFiles : Z)
  (ctx_done : nat -> bool).

#[local] Instance the_journal : DonationJournal database := store_journal collectionChannel stored_size.

Notation Msite := (M site).

Definition on_disk {A} (m : M (disk database) A) : Msite A := fun e s =>
  let '(r, w) := m e (World (st_disk (db s)) (st_disk (db s)) (tick s)) in
  (r, World (Site (db w) (st_session (db s))) (wk s) (tick w)).

Definition on_pg {A} (m : M database A) : Msite A := fun e s =>
  let x := st_disk (db s) in
  let '(r, w) := m e (World (jr x) (jr x) (tick s)) in
  (r, World (Site (Disk (visible x) (durable x) (db w)) (st_session (db s))) (wk s) (tick w)).

Definition get_session : Msite session := fun _ s =>
  (of_option (ErrMsg "no session") (st_session (db s)), s).
Definition set_session (f : session -> session) : Msite unit := fun _ s =>
  (Ok tt, World (Site (st_disk (db s)) (f <$> st_session (db s))) (wk s) (tick s)).

Definition start_session (ss : session) : Msite unit := fun _ s =>
  (Ok tt, World (Site (st_disk (db s)) (Some ss)) (wk s) (tick s)).

(** [SetDonationSink]'s closure. *)
Definition donation_sink (channel : string) (d : Donation.t) : Msite unit :=
  ss ← get_session;
  now ← time_now;
  guard_ok (now <? se_deadline ss) ErrOwner ;;
  r ← try (on_disk (Save maxBytes maxFiles ctx_done (se_grant ss) d (se_deadline ss)));
  match r with
  | Ok _ => mret tt
  | Err x => try (on_pg (SetCollectionState channel "storage_stopped")) ;; fail x
  end.

(** [prepareCollection] for a SOOP connector. *)
Definition prepareCollection (channel worker : string) : Msite unit :=
  acquireStarted ← time_now;
  grant ← on_pg (AcquireCollection collectionChannel channel worker);
  start_session (Session grant (acquireStarted + local_ttl) true false false).

Definition with_valid_until (u : Z) (g : OwnerGrant) : OwnerGrant :=
  MkGrant (g_Token g) (g_Channel g) (g_Generation g) (g_GrantedAt g) u.

(** One tick of the renewal loop; [connected]: the manager has the connection
    and its connector is alive; [last]: when it last received something. *)
Definition renew_tick (connected : bool) (last : Z) : Msite unit :=
  ss ← get_session;
  if negb (running ss) then mret tt
  else
    renewStarted ← time_now;
    r ← try (on_pg (RenewCollection (se_grant ss)));
    match r with
    | Err _ => set_session (fun ss => Session (se_grant ss) (se_deadline ss) false (released ss) true)
    | Ok until =>
        set_session (fun ss => Session (with_valid_until until (se_grant ss)) (renewStarted + local_ttl)
                                 (running ss) (released ss) (stopped ss)) ;;
        backlog ← try (on_disk (Backlog (J := database)));
        let state : string := match backlog with
                     | Err _ => "storage_stopped"
                     | Ok (count, _) =>
                         if 0 <? count then "storage_delayed"
                         else if connected then "connected" else "connecting"
                     end in
        try (on_pg (CollectionHeartbeat (se_grant ss) state last)) ;; mret tt
    end.

(** The function [prepareCollection] returns, [once.Do]. *)
Definition release : Msite unit :=
  ss ← get_session;
  if released ss then mret tt
  else
    set_session (fun ss => Session (se_grant ss) (se_deadline ss) false true (stopped ss)) ;;
    try (on_pg (ReleaseCollection (se_grant ss))) ;; mret tt.
End Collection.

(** ** Lemmas *)

(** Everything but the session is as the spool, or the store, left it. *)
Lemma on_disk_inv {A} (m : M (disk database) A) e s r s' : on_disk m e s = (r, s') ->
  exists w, m e (World (st_disk (db s)) (st_disk (db s)) (tick s)) = (r, w) /\
    db s' = Site (db w) (st_session (db s)) /\ tick s' = tick w.
Proof. unfold on_disk. destruct (m e _) as [r' w]. intros [= <- <-]. by exists w. Qed.

Lemma on_pg_inv {A} (m : M database A) e s r s' : on_pg m e s = (r, s') ->
  exists w, m e (World (jr (st_disk (db s))) (jr (st_disk (db s))) (tick s)) = (r, w) /\
    db s' = Site (Disk (visible (st_disk (db s))) (durable (st_disk (db s))) (db w)) (st_session (db s)) /\
    tick s' = tick w.
Proof. unfold on_pg. destruct (m e _) as [r' w]. intros [= <- <-]. by exists w. Qed.

(** ** Grants are left alone *)

Section Grants.
Context (cc : option string) (sz : json -> Z) (mb mf : Z) (ctx : nat -> bool) (G : gmap string grant_row).

Definition same_grants (_ : env) (s : world database) : Prop :=
  grants (db s) = G /\ grants (wk s) = G.
Notation kg := (keeps same_grants).

Lemma kg_now : kg time_now. Proof. by intros e s H. Qed.
Lemma kg_guard c x : kg (guard_ok c x). Proof. intros e s H. by destruct c. Qed.
Lemma kg_lift {A} (r : result A) : kg (lift r). Proof. intros e s H. by destruct r. Qed.
Lemma kg_ret {A} (a : A) : kg (mret a). Proof. by intros e s H. Qed.
Lemma kg_fail {A} x : kg (fail x : M database A). Proof. by intros e s H. Qed.
Lemma kg_begin : kg tx_begin.
Proof. intros e s [H1 H2]. unfold tx_begin. by destruct (driver_fails _ _). Qed.
Lemma kg_commit : kg tx_commit.
Proof. intros e s [H1 H2]. unfold tx_commit. by repeat case_match. Qed.
Lemma kg_query {A} (f : Z -> database -> result A) : kg (tx_query f).
Proof. intros e s H. unfold tx_query. by destruct (driver_fails _ _). Qed.
Lemma kg_exec {A} (f : Z -> database -> result (A * database)) :
  (forall t d a d', f t d = Ok (a, d') -> grants d' = grants d) -> kg (tx_exec f).
Proof.
  intros Hf e s [H1 H2]. unfold tx_exec. destruct (driver_fails _ _); [done|].
  destruct (f _ _) as [[a d]|] eqn:E; [|done]. split; [done|]. cbn. by rewrite (Hf _ _ _ _ E).
Qed.
#[local] Hint Resolve kg_now kg_guard kg_lift kg_ret kg_fail kg_begin kg_commit kg_query : grants.

#[local] Ltac kg_solve := repeat first
  [ solve [eauto with grants]
  | apply keeps_bind
  | match goal with |- kg (match ?x with _ => _ end) => destruct x end
  | progress intros ].

Lemma kg_append g d at_ : kg (AppendDonation cc sz g d at_).
Proof.
  unfold AppendDonation, replay, append_fresh, classify, enabledTX. kg_solve.
  - apply kg_exec. intros t y u y' H. unfold insert_donation in H.
    by repeat case_match; simplify_eq.
  - apply kg_exec. intros t y u y' H. unfold insert_outbox in H. by repeat case_match; simplify_eq.
  - apply kg_exec. by intros t y u y' [= _ <-].
Qed.

(** The spool over it. *)
#[local] Instance grants_journal : DonationJournal database := store_journal cc sz.
Definition disk_grants (_ : env) (s : world (disk database)) : Prop := grants (jr (db s)) = G.
Notation kd := (keeps disk_grants).

Lemma kd_quiet {A} (m : M (disk database) A) : quiet m -> kd m.
Proof. intros Hq e s H. unfold disk_grants. by rewrite (Hq e s). Qed.
Lemma kd_io f : (forall x y, f x = Ok y -> jr y = jr x) -> kd (io (J := database) f).
Proof.
  intros Hf e s H. unfold io, sys_exec. destruct (driver_fails _ _); [done|].
  destruct (f (db s)) as [y|] eqn:E; [|done]. cbn. unfold disk_grants. cbn. by rewrite (Hf _ _ E).
Qed.
Lemma kd_ctx : kd (ctx_err (J := database) ctx).
Proof. intros e s H. unfold ctx_err. by destruct (ctx _). Qed.
Lemma kd_try {A} (m : M (disk database) A) : kd m -> kd (try m).
Proof. intros Hm e s H. specialize (Hm e s H). unfold try. by destruct (m e s). Qed.
Lemma kd_journal g d at_ : kd (journal_call (J := database) g d at_).
Proof.
  intros e s H. unfold journal_call.
  pose proof (kg_append g d at_ e (World (jr (db s)) (jr (db s)) (tick s)) (conj H H)) as [Hd _].
  unfold journal_append, grants_journal, store_journal. by destruct (AppendDonation _ _ _ _ _ e _).
Qed.

#[local] Ltac kd_solve := repeat first
  [ apply keeps_bind
  | apply kd_try
  | apply kd_journal
  | apply kd_ctx
  | apply kd_quiet; solve [frame_solve]
  | apply kd_io; solve [intros x y H; repeat case_match; simplify_eq; done]
  | match goal with
    | |- kd (match ?x with _ => _ end) => destruct x
    | |- kd (stat _) => unfold stat
    | |- kd (read_file _) => unfold read_file
    | |- kd files => unfold files
    | |- kd syncDir => unfold syncDir
    | |- kd (remove _) => unfold remove
    | |- kd (create _) => unfold create
    | |- kd (write_file _ _) => unfold write_file
    | |- kd (sync_file _) => unfold sync_file
    | |- kd (rename _ _) => unfold rename
    | |- kd close_file => unfold close_file
    end
  | progress intros ].

Lemma kd_drain_files l : kd (drain_files (J := database) ctx l).
Proof.
  induction l as [|name l IH]; cbn [drain_files]; [apply kd_quiet; frame_solve|].
  kd_solve; exact IH.
Qed.

Lemma kd_drain : kd (drain (J := database) ctx).
Proof. unfold drain. kd_solve. apply kd_drain_files. Qed.

Lemma kd_Save g d deadline : kd (Save (J := database) mb mf ctx g d deadline).
Proof. unfold Save. kd_solve. apply kd_drain_files. Qed.

Lemma kd_Backlog : kd (Backlog (J := database)).
Proof. unfold Backlog. kd_solve. Qed.
End Grants.

(** ** Sessions *)

(** What a worker does with its session once it has one. *)
Inductive session_op : Type :=
| SRenew (connected : bool) (last : Z)
| SDonation (d : Donation.t)
| SRelease.

Section Session.
Context (cc : option string) (sz : json -> Z) (mb mf : Z) (ctx : nat -> bool) (channel : string).

Definition session_run (o : session_op) : M site unit :=
  match o with
  | SRenew connected last => renew_tick connected last
  | SDonation d => donation_sink cc sz mb mf ctx channel d
  | SRelease => release
  end.

(** The worlds a session goes through, from its [prepareCollection] on. *)
Inductive session_reach (e : env) (worker : string) : world site -> Prop :=
| session_start s s' : prepareCollection cc channel worker e s = (Ok tt, s') -> session_reach e worker s'
| session_step s o r s' : session_reach e worker s -> session_run o e s = (r, s') ->
    session_reach e worker s'
| session_idle s t : session_reach e worker s -> (tick s <= t)%nat ->
    session_reach e worker (World (db s) (wk s) t).

(** The worker's clock and the database's read the same time. *)
Definition clocks_agree (e : env) : Prop :=
  forall i j, (i <= j)%nat -> wall e i <= clock e j /\ clock e i <= wall e j.

Record session_inv (e : env) (s : world site) (ss : session) : Prop := {
  sv_bound : se_deadline ss <= g_ValidUntil (se_grant ss);
  sv_granted : forall i, (tick s <= i)%nat -> g_GrantedAt (se_grant ss) <= wall e i;
  sv_until : forall i, (tick s <= i)%nat -> g_ValidUntil (se_grant ss) <= clock e i + grant_ttl;
  sv_row : exists r, grants (jr (st_disk (db s))) !! g_Token (se_grant ss) = Some r /\
    gr_granted_at r = g_GrantedAt (se_grant ss) /\ g_ValidUntil (se_grant ss) <= gr_valid_until r /\
    gr_channel r = g_Channel (se_grant ss) /\ gr_generation r = g_Generation (se_grant ss) /\
    (released ss = false -> gr_closed_at r = None);
  sv_running : running ss = true -> released ss = false
}.

Lemma run_grants {A} (m : M site A) e s :
  (forall G, keeps (fun _ s => grants (jr (st_disk (db s))) = G) m) ->
  grants (jr (st_disk (db (m e s).2))) = grants (jr (st_disk (db s))).
Proof. intros H. by apply (H _ e s). Qed.

Lemma on_disk_grants {A} (m : M (disk database) A) G :
  keeps (disk_grants G) m -> keeps (fun _ s => grants (jr (st_disk (db s))) = G) (on_disk m).
Proof.
  intros Hm e s H. unfold on_disk.
  specialize (Hm e (World (st_disk (db s)) (st_disk (db s)) (tick s)) H).
  by destruct (m e _).
Qed.

(** The session is a value the spool and the store never touch. *)
Lemma on_disk_session {A} (m : M (disk database) A) e s :
  st_session (db (on_disk m e s).2) = st_session (db s).
Proof. unfold on_disk. by destruct (m e _). Qed.
Lemma on_pg_session {A} (m : M database A) e s :
  st_session (db (on_pg m e s).2) = st_session (db s).
Proof. unfold on_pg. by destruct (m e _). Qed.

Lemma inv_later e s t ss : (tick s <= t)%nat -> session_inv e s ss ->
  session_inv e (World (db s) (wk s) t) ss.
Proof. intros Ht []. constructor; auto. all: intros i Hi; cbn in Hi; auto with lia. Qed.

Lemma inv_same_grants e s s' ss : (tick s <= tick s')%nat ->
  grants (jr (st_disk (db s'))) = grants (jr (st_disk (db s))) -> session_inv e s ss -> session_inv e s' ss.
Proof.
  intros Ht Hg []. constructor; auto.
  - intros i Hi. apply sv_granted0. lia.
  - intros i Hi. apply sv_until0. lia.
  - by rewrite Hg.
Qed.

Lemma prepare_ok worker e s s' : clocks_agree e -> prepareCollection cc channel worker e s = (Ok tt, s') ->
  exists ss, st_session (db s') = Some ss /\ session_inv e s' ss.
Proof.
  intros Hc H. unfold prepareCollection in H. inv_run H. unfold start_session in H. injection H as <-.
  match goal with Hr : on_pg _ _ _ = _ |- _ => rename Hr into Ha end.
  apply on_pg_inv in Ha as (w & Ha & Hd & Ht).
  apply AcquireCollection_ok in Ha as (_ & row & t & m & _ & _ & _ & _ & _ & Hm & _ & Hg & Hdb).
  cbn [tick db bump] in *. eexists. split; [done|].
  pose proof (f_equal g_GrantedAt Hg) as G1. pose proof (f_equal g_ValidUntil Hg) as G2.
  pose proof (f_equal g_Channel Hg) as G3. pose proof (f_equal g_Generation Hg) as G4.
  cbn in G1, G2, G3, G4. clear Hg. unfold grant_ttl in *.
  constructor; cbn [se_grant se_deadline running released db tick st_disk st_session].
  - rewrite G2. unfold local_ttl. destruct (Hc (tick s) m); lia.
  - intros i Hi. rewrite G1. apply Hc. lia.
  - intros i Hi. rewrite G2. unfold grant_ttl. destruct (Hc m m), (Hc m i); lia.
  - rewrite Hd. cbn. rewrite Hdb. cbn. rewrite lookup_insert_eq.
    eexists. split; [done|]. cbn. repeat split; congruence || lia.
  - done.
Qed.

(** ** Steps *)

Definition with_session (e : env) (s : world site) : Prop :=
  exists ss, st_session (db s) = Some ss /\ session_inv e s ss.

#[local] Instance session_journal : DonationJournal database := store_journal cc sz.

Lemma forward_append g d at_ : forward (AppendDonation cc sz g d at_).
Proof. unfold AppendDonation, replay, append_fresh, classify. frame_solve. Qed.

Lemma forward_journal_call g d at_ : forward (journal_call (J := database) g d at_).
Proof.
  intros e s. unfold journal_call.
  pose proof (forward_append g d at_ e (World (jr (db s)) (jr (db s)) (tick s))) as H.
  unfold journal_append, session_journal, store_journal. by destruct (AppendDonation _ _ _ _ _ e _).
Qed.
#[local] Hint Resolve forward_journal_call : collector.

Lemma forward_drain_files l : forward (drain_files (J := database) ctx l).
Proof.
  induction l as [|name l IH]; cbn [drain_files]; [frame_solve|].
  assert (forward (ctx_err (J := database) ctx)) by (intros e s; unfold ctx_err; by destruct (ctx _)).
  unfold stat, read_file, remove, syncDir, io. frame_solve.
Qed.
#[local] Hint Resolve forward_drain_files : collector.

Lemma forward_Save g d deadline : forward (Save (J := database) mb mf ctx g d deadline).
Proof.
  unfold Save, files, drain, create, write_file, sync_file, rename, close_file, syncDir, io.
  unfold files. frame_solve.
Qed.

Lemma forward_on_disk {A} (m : M (disk database) A) : forward m -> forward (on_disk m).
Proof.
  intros H e s. unfold on_disk. specialize (H e (World (st_disk (db s)) (st_disk (db s)) (tick s))).
  by destruct (m e _).
Qed.
Lemma forward_on_pg {A} (m : M database A) : forward m -> forward (on_pg m).
Proof.
  intros H e s. unfold on_pg. specialize (H e (World (jr (st_disk (db s))) (jr (st_disk (db s))) (tick s))).
  by destruct (m e _).
Qed.

(** A part of a step that leaves the session and the grants alone. *)
Definition passive {A} (m : M site A) : Prop :=
  forward m /\ (forall e s, st_session (db (m e s).2) = st_session (db s)) /\
  (forall e s, grants (jr (st_disk (db (m e s).2))) = grants (jr (st_disk (db s)))).

Lemma passive_keeps {A} (m : M site A) e s : passive m -> with_session e s -> with_session e (m e s).2.
Proof.
  intros (Hf & Hs & Hg) (ss & E & I). exists ss. rewrite Hs. split; [done|].
  by eapply inv_same_grants; [apply Hf|apply Hg|].
Qed.

Lemma passive_disk {A} (m : M (disk database) A) :
  forward m -> (forall G, keeps (disk_grants G) m) -> passive (on_disk m).
Proof.
  intros Hf Hg. split; [by apply forward_on_disk|]. split; [apply on_disk_session|].
  intros e s. by apply (on_disk_grants m _ (Hg _) e s).
Qed.

Lemma passive_exec (f : Z -> database -> result (unit * database)) :
  (forall t d u d', f t d = Ok (u, d') -> grants d' = grants d) -> passive (on_pg (pool_exec f)).
Proof.
  intros Hf. split; [apply forward_on_pg; auto with collector|]. split; [apply on_pg_session|].
  intros e s. unfold on_pg. destruct (pool_exec f e _) as [r w] eqn:E.
  apply pool_exec_after in E as [_ [[E _]|(a & d & E & -> & _)]]; cbn; [by rewrite E|].
  by eapply Hf.
Qed.

Lemma passive_try {A} (m : M site A) : passive m -> passive (try m).
Proof.
  intros (Hf & Hs & Hg). split; [by apply forward_try|].
  split; intros e s; unfold try; [specialize (Hs e s)|specialize (Hg e s)]; by destruct (m e s).
Qed.

Lemma keep_ok {A} (m : M site A) e s a s' : passive m -> m e s = (Ok a, s') ->
  with_session e s -> with_session e s'.
Proof. intros Hp Hm H. pose proof (passive_keeps m e s Hp H) as K. by rewrite Hm in K. Qed.

Lemma donation_keeps d e s : with_session e s ->
  with_session e (donation_sink cc sz mb mf ctx channel d e s).2.
Proof.
  intros (ss & E & I). unfold donation_sink, get_session, mbind, M_bind.
  rewrite E. cbn [of_option time_now].
  assert (with_session e (bump s)) as H.
  { exists ss. split; [done|]. apply (inv_same_grants e s); [cbn; lia|done|done]. }
  destruct (wall e (tick s) <? se_deadline ss); cbn [guard_ok]; [|exact H]. unfold mret, M_ret.
  set (m := try (on_disk _)).
  assert (passive m) as Hp.
  { apply passive_try, passive_disk; [apply forward_Save|intros G; apply kd_Save]. }
  pose proof (passive_keeps m e _ Hp H) as H1.
  destruct (m e (bump s)) as [[[u|x]|y] s1]; [exact H1| |exact H1].
  unfold fail. set (m2 := try _).
  assert (passive m2) as Hp2.
  { apply passive_try, passive_exec. by intros t d0 u d' [= _ <-]. }
  pose proof (passive_keeps m2 e s1 Hp2 H1) as H2. by destruct (m2 e s1) as [[?|?] s2].
Qed.

Lemma bind_set {A} f (k : unit -> M site A) e s :
  (set_session f ≫= k) e s
  = k tt e (World (Site (st_disk (db s)) (f <$> st_session (db s))) (wk s) (tick s)).
Proof. done. Qed.

(** Whatever a renewal reports, the grant's row is there, no shorter. *)
Lemma renew_row (closed : bool) g e s r s' : RenewCollection g e s = (r, s') ->
  (forall i, (tick s <= i)%nat -> g_ValidUntil g <= clock e i + grant_ttl) ->
  (exists r0, grants (db s) !! g_Token g = Some r0 /\
    gr_granted_at r0 = g_GrantedAt g /\ g_ValidUntil g <= gr_valid_until r0 /\
    gr_channel r0 = g_Channel g /\ gr_generation r0 = g_Generation g /\
    (closed = false -> gr_closed_at r0 = None)) ->
  exists r0, grants (db s') !! g_Token g = Some r0 /\
    gr_granted_at r0 = g_GrantedAt g /\ g_ValidUntil g <= gr_valid_until r0 /\
    gr_channel r0 = g_Channel g /\ gr_generation r0 = g_Generation g /\
    (closed = false -> gr_closed_at r0 = None).
Proof.
  assert (atomic (RenewCollection g)) as Ha by (unfold RenewCollection; frame_solve).
  intros Hr Hb H. apply (atomic_after _ _ _ _ _ Ha) in Hr as [->|(e' & u & w & Hce & _ & _ & Hr & -> & _)];
    [done|].
  apply RenewCollection_ok in Hr as (row & r1 & m & _ & _ & _ & _ & _ & Hrow & Hm & _ & _ & Hu & ->).
  rewrite Hce in *. specialize (Hb m).
  destruct H as (r0 & R1 & R2 & R3 & R4 & R5 & R6). rewrite R1 in Hrow. injection Hrow as <-.
  cbn. rewrite lookup_insert_eq. eexists. split; [done|]. cbn. repeat split; auto. lia.
Qed.

Lemma renew_keeps connected last e s : clocks_agree e -> with_session e s ->
  with_session e (renew_tick connected last e s).2.
Proof.
  intros Hc (ss & E & I). unfold renew_tick, get_session. unfold mbind at 1, M_bind at 1.
  rewrite E. cbn [of_option]. destruct (running ss) eqn:Er; cbn [negb]; [|by exists ss].
  unfold mbind at 1, M_bind at 1. cbn [time_now]. set (s0 := bump s).
  assert (session_inv e s0 ss) as I0 by (apply (inv_same_grants e s); [cbn; lia|done|done]).
  unfold mbind at 1, M_bind at 1. unfold try at 1.
  destruct (on_pg (RenewCollection (se_grant ss)) e s0) as [[until|x] s1] eqn:Hr.
  - apply on_pg_inv in Hr as (w & Hr & Hd & Ht).
    apply RenewCollection_ok in Hr as (row & r & m & _ & _ & _ & _ & _ & Hrow & Hm & Hopen & _ & Hu & Hdb).
    cbn [tick db] in *. destruct I0 as [B0 G0 U0 (r0 & R1 & R2 & R3 & R4 & R5 & R6) Q0].
    rewrite R1 in Hrow. injection Hrow as <-.
    set (ss' := Session (with_valid_until until (se_grant ss)) (wall e (tick s) + local_ttl) (running ss)
                  (released ss) (stopped ss)).
    assert (with_session e (World (Site (st_disk (db s1)) (Some ss')) (wk s1) (tick s1))) as H1.
    { exists ss'. split; [done|]. constructor; cbn.
      - rewrite Hu. unfold local_ttl, grant_ttl. destruct (Hc (tick s) m); [cbn in Hm; lia|lia].
      - intros i Hi. apply G0. lia.
      - intros i Hi. rewrite Hu. destruct (Hc m m), (Hc m i); lia.
      - rewrite Hd. cbn. rewrite Hdb. cbn. rewrite lookup_insert_eq. eexists. split; [done|]. cbn.
        repeat split; auto. lia.
      - auto. }
    rewrite bind_set. replace (st_session (db s1)) with (Some ss) by (by rewrite Hd).
    cbn [fmap option_fmap option_map]. fold ss'. set (s2 := World (Site _ (Some ss')) _ _) in *.
    set (bl := try (on_disk Backlog)).
    assert (passive bl) as Hbl.
    { apply passive_try, passive_disk; [unfold Backlog, files; frame_solve|intros G; apply kd_Backlog]. }
    pose proof (passive_keeps bl e s2 Hbl H1) as H2. unfold mbind at 1, M_bind at 1.
    destruct (bl e s2) as [[backlog|x] s3]; [|exact H2].
    unfold mbind at 1, M_bind at 1. set (hb := try _).
    assert (passive hb) as Hhb.
    { apply passive_try, passive_exec. by intros t d0 u d' [= _ <-]. }
    pose proof (passive_keeps hb e s3 Hhb H2) as H3. by destruct (hb e s3) as [[?|?] s4].
  - apply on_pg_inv in Hr as (w & Hr & Hd & Ht).
    destruct I0 as [B0 G0 U0 R0 Q0]. pose proof (renew_row _ _ _ _ _ _ Hr U0 R0) as R1.
    assert (forward (RenewCollection (se_grant ss))) as Hf by (unfold RenewCollection; frame_solve).
    specialize (Hf e (World (jr (st_disk (db s0))) (jr (st_disk (db s0))) (tick s0))).
    rewrite Hr in Hf. cbn [snd tick] in Hf.
    exists (Session (se_grant ss) (se_deadline ss) false (released ss) true).
    unfold set_session. cbn [snd db st_session]. split; [by rewrite Hd; cbn [st_session s0 bump db]; rewrite E|].
    constructor; cbn [db st_disk se_grant se_deadline running released tick].
    + exact B0.
    + intros i Hi. apply G0. lia.
    + intros i Hi. apply U0. lia.
    + rewrite Hd. exact R1.
    + done.
Qed.

Lemma release_keeps e s : with_session e s -> with_session e (release e s).2.
Proof.
  intros (ss & E & I). unfold release, get_session. unfold mbind at 1, M_bind at 1.
  rewrite E. cbn [of_option]. destruct (released ss) eqn:Er; [by exists ss|].
  rewrite bind_set, E. cbn [fmap option_fmap option_map].
  set (ss' := Session _ _ _ _ _). set (s1 := World (Site _ (Some ss')) _ _).
  unfold mbind, M_bind, try. destruct (on_pg _ e s1) as [r s2] eqn:Hr. cbn [snd mret M_ret].
  apply on_pg_inv in Hr as (w & Hr & Hd & Ht). exists ss'. rewrite Hd. split; [done|].
  destruct I as [B0 G0 U0 (r0 & R1 & R2 & R3 & R4 & R5 & R6) Q0].
  unfold ReleaseCollection in Hr. apply pool_exec_after in Hr as [Htk Hw]. cbn [tick s1] in Htk.
  constructor; cbn [ss' se_grant se_deadline running released]; [exact B0| | | |done].
  - intros i Hi. apply G0. lia.
  - intros i Hi. apply U0. lia.
  - rewrite Hd. cbn [st_disk jr]. destruct Hw as [[-> _]|(u & d & Hf & -> & _)]; [exists r0; done|].
    injection Hf as _ <-. exists (close_grant (clock e (tick s)) r0). cbn. rewrite lookup_alter_eq.
    change (jr (st_disk (db s1))) with (jr (st_disk (db s))). rewrite R1. repeat split; done.
Qed.

Lemma reach_session worker e s : clocks_agree e -> session_reach e worker s -> with_session e s.
Proof.
  intros Hc. induction 1 as [s s' H|s o r s' _ IH H|s t _ IH Ht].
  - by eapply prepare_ok.
  - replace s' with (session_run o e s).2 by (by rewrite H).
    destruct o; [by apply renew_keeps|by apply donation_keeps|by apply release_keeps].
  - destruct IH as (ss & E & I). exists ss. split; [done|]. by apply inv_later.
Qed.
End Session.
