(* ===== verification/CollectionProps.v ===== *)
(** From a frame on the socket to a durable record: the connector of [Soop.v]
    over the collection session's sink, and the deadline the session keeps. *)
From S2P Require Import Prelude GoLib Json GoText Tx Model.
From S2P Require Import Db Ownership OwnerRun Journal JournalInv JournalRun.
From S2P Require Import Store Spool SpoolInv Collection Message.
From S2P Require Import SoopWire SoopParse Soop SoopInv JournalProps SpoolProps.

#[local] Arguments i64 : simpl never.
#[local] Arguments u64 : simpl never.

Section Accept.
Context (cc : option string) (sz : json -> Z) (maxBytes maxFiles : Z) (ctx_done : nat -> bool).
#[local] Instance the_journal : DonationJournal database := store_journal cc sz.
#[local] Instance the_laws : JournalLaws database := store_laws cc sz.

Notation sink := (donation_sink cc sz maxBytes maxFiles ctx_done).

(** Every event in [A] is in the journal or in a durable spool file. *)
Definition safe (A : list string) (x : site) : Prop := good A (st_disk x).

Lemma hoare_on_disk {B} (P E : disk database -> Prop) (m : M (disk database) B)
    (Q : B -> disk database -> Prop) :
  hoare P m Q E ->
  hoare (fun x => P (st_disk x)) (on_disk m) (fun b x => Q b (st_disk x)) (fun x => E (st_disk x)).
Proof.
  intros H e s Hs. unfold on_disk.
  specialize (H e (World (st_disk (db s)) (st_disk (db s)) (tick s)) Hs).
  destruct (m e _) as [[b|x] w]; exact H.
Qed.

(** A store operation that leaves the journal alone. *)
Lemma safe_same_journal A x d : same_journal (jr (st_disk x)) d -> safe A x ->
  safe A (Site (Disk (visible (st_disk x)) (durable (st_disk x)) d) (st_session x)).
Proof.
  intros Hd [[I1 I2 I3 I4] S]. destruct Hd as (H1 & H2 & H3 & H4).
  assert (forall id, stored (jr (st_disk x)) id -> stored d id) as Hs.
  { intros id. cbn. by rewrite H2. }
  split; [split; simpl; auto|].
  - eapply same_journal_inv; [exact (conj H1 (conj H2 (conj H3 H4)))|exact I1].
  - intros nm i Hi. destruct (I4 _ _ Hi) as [Hi'|?]; [left; by apply Hs|by right].
  - intros i Hi. destruct (S i Hi) as [?|?]; [left; apply Hs; done|by right].
Qed.

Lemma hoare_state A ch st : hoare (safe A) (on_pg (SetCollectionState ch st)) (fun _ => safe A) (safe A).
Proof.
  intros e s Hs. unfold on_pg, SetCollectionState. destruct (pool_exec _ e _) as [r w] eqn:E.
  apply pool_exec_after in E as [_ [[E _]|(a & d & E & Ed & _)]]; cbn [db] in *.
  - rewrite E. destruct r; cbn; by destruct (db s) as [[v w' j] ss].
  - injection E as _ <-. assert (safe A (Site (Disk (visible (st_disk (db s))) (durable (st_disk (db s))) (db w)) (st_session (db s)))).
    { rewrite Ed. apply safe_same_journal; [|exact Hs]. by apply same_journal_update_channel. }
    by destruct r.
Qed.

Lemma hoare_sink A ch d : Donation.in_width d = true ->
  hoare (safe A) (sink ch d) (fun _ => safe (coerce (Donation.EventID d) :: A)) (safe A).
Proof.
  intros Hw. unfold donation_sink.
  eapply hoare_bind with (R := fun _ => safe A).
  { intros e s Hs. unfold get_session. cbn. by destruct (st_session (db s)). }
  intros ss. eapply hoare_bind with (R := fun _ => safe A); [by intros e s Hs|]. intros now.
  eapply hoare_bind with (R := fun _ => safe A).
  { intros e s Hs. unfold guard_ok. by destruct (now <? se_deadline ss). }
  intros _. intros e s Hs. unfold mbind at 1, M_bind at 1, try at 1.
  pose proof (hoare_on_disk _ _ _ _ (hoare_Save A maxBytes maxFiles ctx_done (se_grant ss) d
                (se_deadline ss) Hw) e s Hs) as H.
  destruct (on_disk _ e s) as [[u|x] s1]; [exact H|].
  pose proof (hoare_state A ch "storage_stopped" e s1 H) as H2.
  unfold mbind, M_bind, try. destruct (on_pg _ e s1) as [[?|?] s2]; exact H2.
Qed.

(** ** The connector over it *)

Context (driver_text ep : string) (ch : string).
Notation the_sink := (Some (sink ch)).

(** The packets that take a sequence number. *)
Definition numbered (p : soopPacket) : bool :=
  if Cmd p =? soopCmdLogin then false
  else if Cmd p =? soopCmdJoin then false
  else if Cmd p =? soopCmdChatMessage then true
  else if Cmd p =? soopCmdOGQEmoticon then ogq_matches p
  else if is_cmd p [soopCmdSendBalloon; soopCmdChocolate; soopCmdSuperChat; soopCmdMissionGift]
  then Cmd p =? soopCmdSendBalloon
  else if is_cmd p [soopCmdFollowItem; soopCmdFollowItemChain; soopCmdSendSubscribe] then true
  else if is_cmd p [soopCmdNotice; soopCmdBJNotice] then negb (is_empty (fieldAt (Fields p) 0))
  else false.
Definition after (n : Z) (p : soopPacket) : Z := if numbered p then i64 (n + 1) else n.

Definition event_id (n : Z) : string := ep +:+ "-" +:+ format_uint (u64 n).

(** The events of a frame's balloons, by the packets before them. *)
Fixpoint balloon_ids (n : Z) (l : list soopPacket) : list string :=
  match l with
  | [] => []
  | p :: l => (if Cmd p =? soopCmdSendBalloon then [coerce (event_id (i64 (n + 1)))] else [])
              ++ balloon_ids (after n p) l
  end.

(** A joined connection at sequence number [n]; [up]: it was alive. *)
Record at_ (A : list string) (n : Z) (up : bool) (x : conn site) : Prop := {
  at_safe : safe A (sk x);
  at_joined : joined (cn x) = true;
  at_epoch : epoch (cn x) = ep;
  at_seq : seq (cn x) = n;
  at_alive : alive (cn x) = true -> up = true
}.

Definition nothing {T} : T -> Prop := fun _ => False.

Lemma at_upd A n up f (E : conn site -> Prop) :
  (forall c, joined c = true -> joined (f c) = true) -> (forall c, epoch (f c) = epoch c) ->
  (forall c, seq (f c) = seq c) -> (forall c, alive (f c) = true -> alive c = true) ->
  hoare (at_ A n up) (upd f) (fun _ => at_ A n up) E.
Proof.
  intros H1 H2 H3 H4. apply hoare_upd. intros x []. constructor; cbn; auto.
  - by rewrite H2.
  - by rewrite H3.
Qed.

Lemma at_push_err A n up t (E : conn site -> Prop) :
  hoare (at_ A n up) (push_err t) (fun _ => at_ A n up) E.
Proof. apply at_upd; intros c; by destruct (_ <? _). Qed.

Lemma at_emit A n up m (E : conn site -> Prop) :
  hoare (at_ A n up) (emitMessage m) (fun _ => at_ A n up) E.
Proof.
  unfold emitMessage. destruct (is_empty _); [by apply hoare_ret|].
  apply at_upd; intros c; by destruct (_ <? _).
Qed.

Lemma at_next_seq A n up (E : conn site -> Prop) :
  hoare (at_ A n up) next_seq
    (fun k x => at_ A (i64 (n + 1)) up x /\ k = i64 (n + 1)) E.
Proof.
  intros e s []. unfold next_seq, mbind, M_bind, get, upd. cbn. rewrite at_seq0.
  split; [|done]. constructor; cbn; auto.
Qed.

Lemma at_convert A n up conv (E : conn site -> Prop) :
  hoare (at_ A n up) (convert_and_emit conv) (fun _ => at_ A (i64 (n + 1)) up) E.
Proof.
  unfold convert_and_emit. eapply hoare_bind; [apply at_next_seq|]. intros k. cbv beta.
  apply hoare_pure. intros _. apply hoare_time. intros now. apply hoare_get_any. intros c. apply at_emit.
Qed.

Lemma at_write A n up f : hoare (at_ A n up) (write_frame f) (fun _ => at_ A n up) (at_ A n up).
Proof.
  unfold write_frame. apply hoare_get_any. intros c.
  eapply hoare_bind; [by apply hoare_guard_c|]. intros ?. cbv beta. apply hoare_pure. intros _.
  apply hoare_sys_exec; [|done]. intros t x u x' [] [= _ <-]. by constructor.
Qed.

(** The call of the sink: accepted, or the connection as it was. *)
Lemma at_accept A n up d count : Donation.in_width d = true ->
  hoare (at_ A n up) (accept (sink ch) d count)
    (fun _ => at_ (coerce (Donation.EventID d) :: A) n up) (at_ A n up).
Proof.
  intros Hw e s Hs. unfold accept. destruct count as [c|]; [|exact Hs].
  unfold mbind, M_bind. destruct (Donation.Validate d) as [[]|x]; [|exact Hs]. cbn.
  unfold sink_call. destruct Hs.
  pose proof (hoare_sink A ch d Hw e (World (sk (db s)) (sk (db s)) (tick s)) at_safe0) as H.
  destruct (sink ch d e _) as [[u|x] w]; cbn; by constructor.
Qed.

Lemma at_weaken A A' n up x : (forall i, i ∈ A -> i ∈ A') -> at_ A' n up x -> at_ A n up x.
Proof.
  intros Hi []. constructor; auto. destruct at_safe0 as [I S]. split; [done|].
  intros i H. by apply S, Hi.
Qed.

Lemma balloon_width c n now count p :
  -9223372036854775808 <= count <= 9223372036854775807 ->
  Donation.in_width (balloon c n now count p) = true.
Proof.
  intros Hc. unfold Donation.in_width, balloon. cbn.
  pose proof (u64_range n). rewrite !andb_true_iff, !Z.leb_le. unfold u64_max in *. lia.
Qed.

Lemma parse_int_range t n : parse_int t = Some n -> -9223372036854775808 <= n <= 9223372036854775807.
Proof.
  unfold parse_int. destruct (match t with String _ _ => _ | EmptyString => _ end) as [neg body].
  destruct (is_empty body); [done|]. destruct (parse_digits 0 body) as [m|] eqn:E; [|done].
  apply parse_digits_nonneg in E; [|lia].
  destruct neg; destruct (_ <=? _) eqn:L; try done; intros [= <-]; b2p; lia.
Qed.

(** What a balloon leaves: its event safe, or the connection closed. *)
Lemma at_balloon A n up p (E : conn site -> Prop) : Cmd p = soopCmdSendBalloon ->
  hoare (at_ A n up) (handleDonation the_sink p)
    (fun _ x => at_ A (i64 (n + 1)) up x /\
       (alive (cn x) = true -> safe (coerce (event_id (i64 (n + 1))) :: A) (sk x))) E.
Proof.
  intros Hp. unfold handleDonation. rewrite Hp. cbn [Z.eqb negb Pos.eqb soopCmdSendBalloon].
  eapply hoare_bind; [apply at_next_seq|]. intros k. cbv beta. apply hoare_pure. intros ->.
  apply hoare_time. intros now. apply hoare_get_bind. intros c.
  apply (hoare_facts (epoch c = ep)); [by intros x [[] <-]|]. intros Hep.
  set (count := parse_int _). set (d := balloon _ _ _ _ _).
  assert (Donation.EventID d = event_id (i64 (n + 1))) as Hid by (unfold d, event_id; cbn; by rewrite Hep).
  assert (Donation.in_width d = true) as Hw.
  { apply balloon_width. unfold count. destruct (parse_int _) eqn:Ep; [by eapply parse_int_range|cbn; lia]. }
  eapply hoare_bind.
  { eapply hoare_weaken; [intros x [H _]; exact H|]. eapply hoare_try, (at_accept A _ up d count Hw). }
  intros [u|x]; cbv beta.
  - apply hoare_ret. intros x H. split; [|rewrite <- Hid; intros _; apply H].
    eapply at_weaken; [|exact H]. intros i Hi. by right.
  - eapply hoare_bind; [apply at_push_err|]. intros u. apply hoare_upd. intros y [].
    cbn. split; [constructor; cbn; auto; discriminate|discriminate].
Qed.

Lemma at_login A n up p (E : conn site -> Prop) :
  hoare (at_ A n up) (handleLogin driver_text p) (fun _ => at_ A n up) E.
Proof.
  unfold handleLogin. destruct (negb _); [apply at_push_err|]. apply hoare_get_any. intros c.
  eapply hoare_bind; [eapply hoare_try, at_write|].
  intros [u|x]; cbv beta; [apply at_upd; intros c'; done|apply at_push_err].
Qed.

Lemma at_join A n up p (E : conn site -> Prop) :
  hoare (at_ A n up) (handleJoin p) (fun _ => at_ A n up) E.
Proof.
  unfold handleJoin. apply hoare_get_any. intros c. destruct (negb _); [by apply hoare_ret|].
  destruct (negb _); [apply at_push_err|]. apply at_upd; intros c'; done.
Qed.

#[local] Ltac branch_imp :=
  match goal with |- _ -> hoare _ (if ?c then _ else _) _ _ => destruct c end.

(** One packet of a joined connection. *)
Lemma at_packet A n up p (E : conn site -> Prop) :
  hoare (at_ A n up) (handlePacket the_sink driver_text p)
    (fun _ x => at_ A (after n p) up x /\
       (alive (cn x) = true -> safe ((if Cmd p =? soopCmdSendBalloon
                                      then [coerce (event_id (i64 (n + 1)))] else []) ++ A) (sk x))) E.
Proof.
  unfold handlePacket. apply hoare_get_bind. intros c. cbv zeta.
  apply (hoare_facts (joined c = true)); [by intros x [[] <-]|]. intros Hj. rewrite Hj.
  replace (match joinedCh c with Some _ => negb true | None => false end) with false by (by destruct (joinedCh c)).
  cbn [andb]. apply (hoare_weaken _ (at_ A n up)); [by intros x []|].
  eapply hoare_bind with (R := fun _ => at_ A n up).
  { branch; [|intros e s Hs; exact Hs]. apply hoare_time. intros now. apply at_upd; intros c'; done. }
  intros u.
  set (Q := fun _ : unit => _).
  assert (forall (m : M (conn site) unit), Cmd p <> soopCmdSendBalloon ->
    hoare (at_ A n up) m (fun _ => at_ A (after n p) up) E -> hoare (at_ A n up) m Q E) as Hplain.
  { intros m Hc Hm. unfold Q. apply Z.eqb_neq in Hc. rewrite Hc. eapply hoare_post; [|exact Hm].
    cbv beta. intros _ x Hx. split; [done|]. intros _. by destruct Hx. }
  unfold after, numbered in Hplain. revert Hplain.
  destruct (Cmd p =? soopCmdLogin) eqn:E1; [b2p; intros H; apply H; [by rewrite E1|apply at_login]|].
  destruct (Cmd p =? soopCmdJoin) eqn:E2; [b2p; intros H; apply H; [by rewrite E2|apply at_join]|].
  destruct (Cmd p =? soopCmdChatMessage) eqn:E3; [b2p; intros H; apply H; [by rewrite E3|apply at_convert]|].
  destruct (Cmd p =? soopCmdOGQEmoticon) eqn:E4.
  { b2p. intros H. destruct (ogq_matches p); (apply H; [by rewrite E4|]); [apply at_convert|apply at_emit]. }
  destruct (Cmd p =? soopCmdSendBalloon) eqn:E5.
  { intros _. b2p. unfold Q, after, numbered, is_cmd, existsb. rewrite E5. by apply at_balloon. }
  b2p. branch_imp.
  { intros H. apply H; [done|]. unfold handleDonation. apply Z.eqb_neq in E5. rewrite E5. cbn [negb].
    apply hoare_uuid. intros id. apply hoare_time. intros now. apply hoare_get_any. intros c'. apply at_emit. }
  branch_imp; [intros H; apply H; [done|apply at_convert]|].
  branch_imp; [|intros H; apply H; [done|by apply hoare_ret]].
  destruct (is_empty _); cbn [negb]; intros H; (apply H; [done|]); [apply at_emit|apply at_convert].
Qed.

Lemma at_packets l A n up (E : conn site -> Prop) :
  hoare (at_ A n up) (handle_packets the_sink driver_text l)
    (fun _ x => safe A (sk x) /\ (alive (cn x) = true -> up = true /\ safe (balloon_ids n l ++ A) (sk x))) E.
Proof.
  revert A n up. induction l as [|p l IH]; intros A n up; cbn [handle_packets balloon_ids].
  - apply hoare_ret. intros x []. auto.
  - eapply hoare_bind; [apply at_packet|]. intros u e s [H Ha]. cbv beta in *.
    destruct (alive (cn (db s))) eqn:El.
    + specialize (Ha eq_refl). set (B := if Cmd p =? soopCmdSendBalloon then [coerce (event_id (i64 (n + 1)))] else []) in *.
      assert (at_ (B ++ A) (after n p) true (db s)) as H' by (destruct H; by constructor).
      specialize (IH _ _ _ e s H'). destruct (handle_packets _ _ l e s) as [[v|x] s']; [|exact IH].
      destruct IH as [[I S] IH]. split.
      { split; [done|]. intros i Hi. apply S. apply elem_of_app. by right. }
      intros Hal. destruct (IH Hal) as [_ [_ S2]]. split; [by apply (at_alive _ _ _ _ H)|].
      split; [done|]. intros i Hi. apply S2. rewrite !elem_of_app in *. tauto.
    + assert (at_ A (after n p) false (db s)) as H'.
      { destruct H. constructor; auto. by rewrite El. }
      specialize (IH _ _ _ e s H'). destruct (handle_packets _ _ l e s) as [[v|x] s']; [|exact IH].
      destruct IH as [Hs IH]. split; [done|]. intros Hal. by destruct (IH Hal).
Qed.
End Accept.

(** Consistent, with every event of [A] in the journal or durably spooled. *)
Definition kept (cc : option string) (sz : json -> Z) : list string -> disk database -> Prop :=
  @good database (store_journal cc sz) (store_laws cc sz).

(** C36: a frame read by a joined connection whose sink is the collection
    session's: handling it never fails, what was durable stays so, and if the
    connection is still alive afterwards, every balloon of the frame is in
    the journal or in a durable spool file, under the event id its place in
    the connection gives it. A balloon is lost only with the connection. *)
Theorem balloons_survive cc sz maxBytes maxFiles ctx_done driver_text ch data ps e s A :
  parseSoopPackets data = Returns ps ->
  joined (cn (db s)) = true -> kept cc sz A (st_disk (sk (db s))) ->
  exists s', handleFrame (Some (donation_sink cc sz maxBytes maxFiles ctx_done ch)) driver_text data e s = (Ok tt, s') /\
    kept cc sz A (st_disk (sk (db s'))) /\
    (alive (cn (db s')) = true ->
       alive (cn (db s)) = true /\
       kept cc sz (balloon_ids (epoch (cn (db s))) (seq (cn (db s))) ps ++ A) (st_disk (sk (db s')))).
Proof.
  intros Hp Hj Hg. unfold handleFrame. rewrite Hp.
  pose proof (at_packets cc sz maxBytes maxFiles ctx_done driver_text (epoch (cn (db s))) ch ps A
    (seq (cn (db s))) (alive (cn (db s))) nothing e s) as H.
  destruct (handle_packets _ _ ps e s) as [[[]|x] s'].
  - exists s'. split; [done|]. apply H. by constructor.
  - exfalso. apply H. by constructor.
Qed.

(** C37: whatever a session does after its [prepareCollection] (renewals,
    donations with the drains they start, the release), if the worker's clock
    and the database's agree, its local deadline never passes the end of its
    grant in the database, and until it is released the journal admits every
    observation accepted from then on before that deadline. *)
Theorem deadline_within_grant cc sz maxBytes maxFiles ctx_done channel worker e s :
  clocks_agree e -> session_reach cc sz maxBytes maxFiles ctx_done channel e worker s ->
  exists ss r, st_session (db s) = Some ss /\
    grants (jr (st_disk (db s))) !! g_Token (se_grant ss) = Some r /\
    se_deadline ss <= gr_valid_until r /\
    (released ss = false -> forall i j, (tick s <= i <= j)%nat -> wall e i < se_deadline ss ->
       grant_admits (se_grant ss) (wall e i) (clock e j) r = true).
Proof.
  intros Hc Hr. destruct (reach_session _ _ _ _ _ _ _ _ _ Hc Hr) as (ss & E & [B G U (r & R1 & R2 & R3 & R4 & R5 & R6) Q]).
  exists ss, r. repeat split; try done; [lia|]. intros Hrel i j [Hi Hj] Hd.
  unfold grant_admits. rewrite R4, R5, !String.eqb_refl, (R6 Hrel), R2. cbn [andb].
  pose proof (G i Hi). destruct (Hc i j Hj). unfold second.
  rewrite !andb_true_iff, !Z.leb_le. lia.
Qed.

(** ** A collecting worker *)

Module CollectDemo.
Definition start : world site :=
  let w := Demo.go [OpEnsure "bj1"; OpLive Demo.live] in
  let x := Site (Disk ∅ ∅ (db w)) None in World x x (tick w).
Definition prepared : world site := (prepareCollection None "bj1" "w1" Demo.e start).2.
Definition sink : Donation.t -> M site unit :=
  donation_sink None Demo.size 1048576 10000 (fun _ => false) "bj1".
Definition donation (id : string) (n : Z) : Donation.t := Demo.donation id 100 n.
Definition released_world : world site := (release Demo.e prepared).2.
(** The donation that arrives between the release and the disconnection. *)
Definition late : result unit * world site := sink (donation "late" 1) Demo.e released_world.
(** The worker acquires the channel again. *)
Definition again : world site :=
  let s := late.2 in (prepareCollection None "bj1" "w1" Demo.e s).2.
Definition next : result unit * world site := sink (donation "next" 2) Demo.e again.

(** A session, and a joined connection over it. *)
Definition session0 : session :=
  Session Demo.grant (Demo.now + 30 * second) true false false.
Definition body : string := body_of ["bj1"; "donor(2)"; "Donor"; "100"; "0"]%string.
Definition connector : soop :=
  let c := NewSoopConnector "epoch-1" (Demo.now - 60 * second) in
  Soop (epoch c) (startedAt c) true true (Some 0%nat) 0 true true false false "bj1" "streamer" "77" "ftk"
    [] [] 0 [] 0.
Definition site0 : site := Site (Disk ∅ ∅ (db (Demo.go Demo.setup))) (Some session0).
Definition world0 : world (conn site) :=
  let x := Conn connector site0 in World x x (tick (Demo.go Demo.setup)).
Definition frame : string := buildSoopPacket soopCmdSendBalloon body +:+ buildSoopPacket soopCmdSendBalloon body.
Definition packets : list soopPacket :=
  match parseSoopPackets frame with Returns l => l | _ => [] end.
End CollectDemo.

(** A donation that arrives after [releaseCollection] and before the
    connector's [Disconnect] is spooled under a grant already closed: the
    journal refuses it for good, and with it at the head of the spool the
    next session's donations are refused too. *)
Example release_wedges_spool :
  is_ok (prepareCollection None "bj1" "w1" Demo.e CollectDemo.start).1 = true /\
  CollectDemo.late.1 = Err ErrOwner /\ size (durable (st_disk (db CollectDemo.late.2))) = 1%nat /\
  is_ok (prepareCollection None "bj1" "w1" Demo.e CollectDemo.late.2).1 = true /\
  CollectDemo.next.1 = Err ErrOwner /\ size (durable (st_disk (db CollectDemo.next.2))) = 2%nat.
Proof. vm_compute. auto 10. Qed.

Lemma demo_site_kept : kept None Demo.size [] (st_disk CollectDemo.site0).
Proof.
  assert (journal_inv (db (Demo.go Demo.setup))) as Hj.
  { apply (reachable_journal None Demo.size render Demo.notify Demo.notify_quiet
      Demo.notify_forward Demo.e). apply demo_reachable. vm_compute. reflexivity. }
  exact (@reach_good _ _ (store_laws None Demo.size) Demo.e _ []
           (@reach_start _ _ (store_laws None Demo.size) Demo.e _ 0 Hj)).
Qed.

(** Two balloons in a frame: both are journalled under their event ids. *)
Lemma balloons_survive_witness : exists s',
  handleFrame (Some CollectDemo.sink) "" CollectDemo.frame Demo.e CollectDemo.world0 = (Ok tt, s') /\
  alive (cn (db s')) = true /\
  kept None Demo.size ["epoch-1-1"; "epoch-1-2"]%string (st_disk (sk (db s'))).
Proof.
  destruct (balloons_survive None Demo.size 1048576 10000 (fun _ => false) "" "bj1" CollectDemo.frame
    CollectDemo.packets Demo.e CollectDemo.world0 []) as (s' & Hs & _ & H).
  - vm_compute. reflexivity.
  - reflexivity.
  - exact demo_site_kept.
  - exists s'. split; [exact Hs|].
    assert (alive (cn (db (handleFrame (Some CollectDemo.sink) "" CollectDemo.frame Demo.e
      CollectDemo.world0).2)) = true) as Ha by (vm_compute; reflexivity).
    unfold CollectDemo.sink in Ha. rewrite Hs in Ha. cbn [snd] in Ha. split; [exact Ha|].
    destruct (H Ha) as [_ Hk].
    assert (balloon_ids (epoch (cn (db CollectDemo.world0))) (seq (cn (db CollectDemo.world0)))
      CollectDemo.packets = ["epoch-1-1"; "epoch-1-2"]%string) as Hids by (vm_compute; reflexivity).
    rewrite Hids in Hk. exact Hk.
Defined.

Lemma deadline_within_grant_witness : exists ss r,
  st_session (db CollectDemo.prepared) = Some ss /\
  grants (jr (st_disk (db CollectDemo.prepared))) !! g_Token (se_grant ss) = Some r /\
  se_deadline ss <= gr_valid_until r.
Proof.
  destruct (deadline_within_grant None Demo.size 1048576 10000 (fun _ => false) "bj1" "w1" Demo.e
    CollectDemo.prepared) as (ss & r & H1 & H2 & H3 & _).
  - intros i j H. unfold Demo.e, wall, clock, second, millisecond. lia.
  - apply (session_start _ _ _ _ _ _ _ _ CollectDemo.start). 
    assert ((prepareCollection None "bj1" "w1" Demo.e CollectDemo.start).1 = Ok tt) as Hr by (vm_compute; reflexivity).
    unfold CollectDemo.prepared. destruct (prepareCollection _ _ _ _ _) as [r s]. cbn in *. rewrite Hr. reflexivity.
  - exists ss, r. auto.
Defined.
