(* ===== verification/Query.v ===== *)
(** The product service (src/query/internal/collector.go): scopes granted to
    client certificates, the gRPC status of every store error, and the calls
    over the journal's consumer interface, the donation stream included. *)
From S2P Require Import Prelude GoLib Json Tx Model Db.
From S2P Require Import Ownership Journal Consumer Store.

(** ** gRPC *)

Inductive Code := Canceled | DeadlineExceeded | InvalidArgument | AlreadyExists | PermissionDenied
  | FailedPrecondition | Unavailable | Unauthenticated | Internal | Unimplemented.

Inductive ContractErrorCode := CODE_UNSPECIFIED | CURSOR_EXPIRED | GENERATION_MISMATCH
  | RECOVERY_REVISION_MISMATCH | SCOPE_DENIED.

Record Cursor := MkCursor { JournalGeneration : string; ChannelOffset : Z }.
Definition cursor (g : string) (n : Z) : Cursor := MkCursor g n.

#[export] Instance Code_eq_dec : EqDecision Code.
Proof. solve_decision. Defined.
#[export] Instance Cursor_eq_dec : EqDecision Cursor.
Proof. solve_decision. Defined.

Record ContractErrorDetail := MkDetail {
  ed_Code : ContractErrorCode;
  ed_ConsumerId : string;
  ed_ChannelId : string;
  ed_RequestedCursor : option Cursor;
  ed_EarliestCursor : option Cursor;
  ed_CurrentCursor : option Cursor;
  ed_ExpectedRecoveryRevision : Z;
  ed_ActualRecoveryRevision : Z;
  ed_RequiredScope : string
}.

Record status := Status { st_code : Code; st_message : string; st_detail : option ContractErrorDetail }.
Definition plain (c : Code) (m : string) : status := Status c m None.

(** What a call answers: its response or a status. *)
Inductive answer (A : Type) : Type :=
| Answer (a : A)
| Refused (st : status).
Arguments Answer {A} a.
Arguments Refused {A} st.

Notation call A := (Mdb (answer A)).
Definition refuse {A} (st : status) : call A := mret (Refused st).
Definition respond {A} (a : A) : call A := mret (Answer a).
Definition call_bind {A B} (m : call A) (k : A -> call B) : call B :=
  r ← m; match r with Answer a => k a | Refused st => refuse st end.
Notation "x ⇐ m ;; k" := (call_bind m (fun x => k)) (at level 100, m at next level, right associativity).

(** ** Identity *)

(** The peer of a call: whether it came over TLS, how many verified chains it
    has, and per certificate the URIs in it. *)
Record peer := MkPeer {
  tls : bool;
  VerifiedChains : nat;
  PeerCertificates : list (list string)
}.

Record ProductAccess := MkAccess {
  Consumer_ : string; Channel_ : string; ReadURI : string; ManageURI : string; RecoveryURI : string
}.

Inductive ClientAuth := NoClientCert | RequestClientCert | RequireAnyClientCert
  | VerifyClientCertIfGiven | RequireAndVerifyClientCert.
Definition requires_verified (a : ClientAuth) : bool :=
  match a with RequireAndVerifyClientCert => true | _ => false end.
Definition VersionTLS13 : Z := 772.

(** The guard of [NewProductServer]; [None] is a nil [tls.Config]. *)
Definition NewProductServer (config : option (ClientAuth * Z)) (access : ProductAccess)
  : result ProductAccess :=
  let bad := match config with
    | None => true
    | Some (auth, minVersion) => negb (requires_verified auth) || (minVersion <? VersionTLS13)
    end in
  if bad || is_empty (Consumer_ access) || is_empty (ReadURI access)
  then Err (ErrMsg "collector mutual TLS and consumer identity required")
  else Ok access.

Definition scope_denied (consumer channel scope : string) : status :=
  Status PermissionDenied "collector scope denied"
    (Some (MkDetail SCOPE_DENIED consumer channel None None None 0 0 scope)).

Definition required_uri (access : ProductAccess) (scope : string) : string :=
  if String.eqb scope "recovery:manage" then RecoveryURI access
  else if String.eqb scope "subscription:manage" then ManageURI access
  else ReadURI access.

Definition authorize (access : ProductAccess) (p : option peer) (consumer channel scope : string)
  : option status :=
  match p with
  | None => Some (plain Unauthenticated "client certificate required")
  | Some p =>
      match PeerCertificates p with
      | uris :: _ =>
          if negb (tls p) || (VerifiedChains p =? 0)%nat
          then Some (plain Unauthenticated "verified client certificate required")
          else
            let required := required_uri access scope in
            let allowed := existsb (fun uri => negb (is_empty required) && String.eqb uri required) uris in
            if negb allowed || negb (String.eqb consumer (Consumer_ access)) || is_empty channel
               || negb (String.eqb channel (Channel_ access))
            then Some (scope_denied consumer channel scope) else None
      | [] => Some (plain Unauthenticated "verified client certificate required")
      end
  end.

(** ** Events *)

Inductive IdentityStatus := IDENTITY_UNSPECIFIED | IDENTITY_SOURCE_ID | OBSERVATION_ONLY
  | RECONNECT_AMBIGUOUS.

(** [pb.DonationEvent]. The members every event sets alike are left out: the
    schema version, the event type, the platform, the currency, and the
    platform's channel id, which repeats [ChannelId]. *)
Record DonationEvent := MkEvent {
  ev_EventId : string;
  ev_ChannelId : string;
  ev_NativeBalloonCount : Z;
  ev_DonationKind : string;
  ev_SourceEventId : option string;
  ev_BroadcastId : option string;
  ev_DonorId : string;
  ev_ConnectionEpoch : string;
  ev_ConnectionSequence : Z;
  ev_Cursor : Cursor;
  ev_IdentityStatus : IdentityStatus;
  ev_QualityReasons : list string;
  ev_RelatedObservationIds : list string;
  ev_ObservedAt : Z;
  ev_DonorDisplayName : string;
  ev_Message : string
}.

Definition donationEvent (d : Donation.t) : DonationEvent :=
  MkEvent (Donation.EventID d) (Donation.ChannelID d) (Donation.Count d) (Donation.Kind d)
    (Donation.SourceID d) (Donation.BroadcastID d) (Donation.DonorID d)
    (Donation.ConnectionEpoch d) (Donation.Sequence d)
    (cursor (Donation.Generation d) (Donation.Offset d))
    (if String.eqb (Donation.Identity d) "reconnect_ambiguous" then RECONNECT_AMBIGUOUS
     else OBSERVATION_ONLY)
    (Donation.Reasons d) (Donation.Related d) (Donation.ObservedAt d) (Donation.DisplayName d)
    (Donation.Message d).

(** ** Requests and responses *)

Record CollectionStatus := MkCollectionStatus {
  cs_ChannelId : string;
  cs_CollectionActive : bool;
  cs_ProcessHealth : string;
  cs_QualityReasons : list string;
  cs_EarliestCursor : Cursor;
  cs_CurrentCursor : Cursor;
  cs_RecoveryRevision : Z;
  cs_LastReceivedAt : option Z
}.

Record ListDonationsRequest := MkList {
  lr_ConsumerId : string; lr_ChannelId : string; lr_AfterCursor : option Cursor;
  lr_Limit : Z; lr_RecoveryRevision : Z
}.
Record ListDonationsResponse := MkListed {
  ls_Donations : list DonationEvent; ls_EarliestCursor : Cursor; ls_CurrentCursor : Cursor;
  ls_RecoveryRevision : Z
}.

Record RecoveryRange := MkRange { rr_Start : option Cursor; rr_End : option Cursor }.
Record ResolveRequest := MkResolve {
  rv_ConsumerId : string; rv_ChannelId : string;
  rv_PreviousGeneration : string; rv_NewGeneration : string;
  rv_ResumeFrom : option Cursor; rv_UnrecoveredRanges : list RecoveryRange;
  rv_Reason : string; rv_OperatorId : string; rv_IdempotencyKey : string;
  rv_ExpectedRevision : Z
}.
Record ResolveResponse := MkResolved {
  rs_PreviousGeneration : string; rs_NewGeneration : string;
  rs_PreviousCursor : Cursor; rs_ResumeFrom : Cursor; rs_RecoveryRevision : Z;
  rs_UnrecoveredRanges : list RecoveryRange; rs_IdempotencyKey : string
}.

(** ** The service *)

Section Service.
(** The service's configuration and the variable [COLLECTION_CHANNEL]. *)
Context (access : ProductAccess) (collectionChannel : option string).
(** [status.FromContextError]; [protojson.Marshal] of a recovery request, as
    the JSON tree it writes ([None]: it reports an error) and its text. *)
Context (FromContextError : error -> status).
Context (resolve_json : ResolveRequest -> option json) (protojson : json -> string).
(** The certificate the caller presented. *)
Context (p : option peer).

(** The details of a refusal the consumer can act on: both reads may fail. *)
Definition detailed (message : string) (code : ContractErrorCode) (consumer channel : string)
    (requested : option Cursor) (revision : Z) : Mdb status :=
  c ← try (CollectionState_ channel);
  q ← try (ConsumerProgress_ consumer channel);
  let '(earliest, current) := match c with
    | Ok c => (Some (cursor (Generation c) (ExpiredThrough c)), Some (cursor (Generation c) (Current c)))
    | Err _ => (None, None)
    end in
  mret (Status FailedPrecondition message
    (Some (MkDetail code consumer channel requested earliest current
       (match q with Ok q => p_Revision q | Err _ => 0 end) revision EmptyString))).

Definition failure (err : error) (consumer channel : string) (requested : option Cursor)
    (revision : Z) : Mdb status :=
  match err with
  | ErrContext => mret (FromContextError err)
  | ErrGeneration => detailed "journal generation changed" GENERATION_MISMATCH consumer channel requested revision
  | ErrCursorExpired => detailed "donation cursor expired" CURSOR_EXPIRED consumer channel requested revision
  | ErrRevision => detailed "recovery decision changed" RECOVERY_REVISION_MISMATCH consumer channel requested revision
  | ErrCursor => mret (plain InvalidArgument "explicit contiguous cursor required")
  | ErrConflict => mret (plain AlreadyExists "idempotency key conflicts with prior request")
  | ErrCollectionDisabled => mret (plain FailedPrecondition "collection is disabled")
  | _ => mret (plain Unavailable "collector storage unavailable")
  end.

(** A store method whose error becomes the call's status. *)
Definition store_call {A} (m : Mdb A) (consumer channel : string) (requested : option Cursor)
    (revision : Z) : call A :=
  r ← try m;
  match r with
  | Ok a => respond a
  | Err x => st ← failure x consumer channel requested revision; refuse st
  end.

Definition authorized (consumer channel scope : string) : call unit :=
  match authorize access p consumer channel scope with
  | Some st => refuse st
  | None => respond tt
  end.

Definition getStatus (consumer channel : string) : call CollectionStatus :=
  c ⇐ store_call (CollectionState_ channel) consumer channel None 0 ;;
  enabled ⇐ store_call (CollectionEnabled collectionChannel channel) consumer channel None 0 ;;
  runtime ⇐
    (if String.eqb (Runtime c) "connected" || String.eqb (Runtime c) "connecting" then
       now ← time_now;
       respond (if 35 * second <? time_sub now (StateAt c) then "reconnecting"%string else Runtime c)
     else respond (Runtime c)) ;;
  let runtime := if enabled then runtime else "disabled"%string in
  q ⇐ store_call (r ← try (ConsumerProgress_ consumer channel);
                  match r with
                  | Ok q => mret (p_Revision q)
                  | Err ErrNoRows => mret 0
                  | Err x => fail x
                  end) consumer channel None 0 ;;
  respond (MkCollectionStatus channel (enabled && String.eqb runtime "connected") runtime
    (if String.eqb runtime "connected" || String.eqb runtime "waiting" then [] else [runtime])
    (cursor (Generation c) (ExpiredThrough c)) (cursor (Generation c) (Current c)) q
    (LastReceived c)).

Definition GetCollectionStatus (consumer channel : string) : call CollectionStatus :=
  _ ⇐ authorized consumer channel "events:read" ;;
  getStatus consumer channel.

Definition SetChannelSubscription (consumer channel key : string) (subscribed : bool)
  : call CollectionStatus :=
  _ ⇐ authorized consumer channel "subscription:manage" ;;
  _ ⇐ store_call (SetSubscription consumer channel key subscribed) consumer channel None 0 ;;
  getStatus consumer channel.

Definition ListDonations (r : ListDonationsRequest) : call ListDonationsResponse :=
  let consumer := lr_ConsumerId r in
  let channel := lr_ChannelId r in
  _ ⇐ authorized consumer channel "events:read" ;;
  match lr_AfterCursor r with
  | None => refuse (plain InvalidArgument "explicit cursor and limit at most 500 required")
  | Some after =>
      if is_empty (JournalGeneration after) || (500 <? lr_Limit r)
      then refuse (plain InvalidArgument "explicit cursor and limit at most 500 required")
      else
        dc ⇐ store_call (ReadDonations consumer channel (JournalGeneration after)
                (ChannelOffset after) (lr_RecoveryRevision r) (lr_Limit r))
              consumer channel (Some after) (lr_RecoveryRevision r) ;;
        respond (MkListed (map donationEvent dc.1)
          (cursor (Generation dc.2) (ExpiredThrough dc.2)) (cursor (Generation dc.2) (Current dc.2))
          (lr_RecoveryRevision r))
  end.

(** The response repeats the request's cursor and revision. *)
Definition AckDonations_ (consumer channel : string) (c : option Cursor) (revision : Z)
  : call (Cursor * Z) :=
  _ ⇐ authorized consumer channel "events:read" ;;
  match c with
  | None => refuse (plain InvalidArgument "explicit cursor required")
  | Some c =>
      if is_empty (JournalGeneration c) then refuse (plain InvalidArgument "explicit cursor required")
      else
        _ ⇐ store_call (AckDonations consumer channel (JournalGeneration c) (ChannelOffset c) revision)
              consumer channel (Some c) revision ;;
        respond (c, revision)
  end.

(** ** The donation stream *)

(** What an iteration of the loop leaves: the request with the cursor of the
    last event sent, the events sent so far, whether it waits for the timer,
    and how the call ended. *)
Record watch := Watch {
  w_req : ListDonationsRequest;
  w_sent : list DonationEvent;
  w_waiting : bool;
  w_end : option status
}.

Definition after_cursor (c : Cursor) (r : ListDonationsRequest) : ListDonationsRequest :=
  MkList (lr_ConsumerId r) (lr_ChannelId r) (Some c) (lr_Limit r) (lr_RecoveryRevision r).

Section Watch.
(** [stream.Send], per event sent before: a status when the stream is broken. *)
Context (Send : nat -> option status).

Fixpoint send_all (req : ListDonationsRequest) (sent : list DonationEvent) (l : list DonationEvent)
  : ListDonationsRequest * list DonationEvent * option status :=
  match l with
  | [] => (req, sent, None)
  | d :: l =>
      match Send (length sent) with
      | Some st => (req, sent, Some st)
      | None => send_all (after_cursor (ev_Cursor d) req) (sent ++ [d]) l
      end
  end.

Definition watch_start (consumer channel : string) (after : option Cursor) (revision : Z) : watch :=
  Watch (MkList consumer channel after 100 revision) [] false None.

(** One iteration, up to the [select]. *)
Definition watch_round (w : watch) : Mdb watch :=
  r ← ListDonations (w_req w);
  match r with
  | Refused st => mret (Watch (w_req w) (w_sent w) false (Some st))
  | Answer page =>
      let '(req, sent, err) := send_all (w_req w) (w_sent w) (ls_Donations page) in
      mret (Watch req sent (negb (length (ls_Donations page) =? 100)%nat) err)
  end.

(** What happens while the call runs: an iteration, the end of its context
    while it waits, an operation of any other client or worker. *)
Inductive watch_event :=
| WRound
| WDone
| WOther (o : op).

Context (pg_column_size : json -> Z) (notify : string -> Mdb unit).

Definition watch_step (x : watch_event) (e : env) (s : world database) (w : watch)
  : world database * watch :=
  match x with
  | WOther o => ((run collectionChannel pg_column_size protojson notify o e s).2, w)
  | WRound =>
      match w_end w with
      | Some _ => (s, w)
      | None => match watch_round w e s with
                | (Ok w', s') => (s', w')
                | (Err _, s') => (s', w)
                end
      end
  | WDone =>
      match w_end w with
      | None => if w_waiting w
                then (s, Watch (w_req w) (w_sent w) false (Some (FromContextError ErrContext)))
                else (s, w)
      | Some _ => (s, w)
      end
  end.

Fixpoint watch_run (l : list watch_event) (e : env) (s : world database) (w : watch)
  : world database * watch :=
  match l with
  | [] => (s, w)
  | x :: l => let '(s, w) := watch_step x e s w in watch_run l e s w
  end.
End Watch.

(** ** Recovery *)

Definition bad_range (previous : string) (r : RecoveryRange) : bool :=
  match rr_Start r, rr_End r with
  | Some a, Some b =>
      negb (String.eqb (JournalGeneration a) previous) || negb (String.eqb (JournalGeneration b) previous)
      || (ChannelOffset b <? ChannelOffset a)
  | _, _ => true
  end.

Definition incomplete (r : ResolveRequest) (resume : Cursor) : bool :=
  is_empty (rv_PreviousGeneration r) || is_empty (rv_NewGeneration r)
  || negb (String.eqb (JournalGeneration resume) (rv_NewGeneration r))
  || is_empty (trim_space (rv_Reason r)) || is_empty (trim_space (rv_OperatorId r))
  || is_empty (rv_IdempotencyKey r) || (200 <? lenZ (rv_IdempotencyKey r))
  || (2000 <? lenZ (rv_Reason r)) || (200 <? lenZ (rv_OperatorId r))
  || (100 <? Z.of_nat (length (rv_UnrecoveredRanges r))).

Definition ResolveConsumerRecovery (r : ResolveRequest) : call ResolveResponse :=
  let consumer := rv_ConsumerId r in
  let channel := rv_ChannelId r in
  _ ⇐ authorized consumer channel "recovery:manage" ;;
  match rv_ResumeFrom r with
  | None => refuse (plain InvalidArgument "complete recovery decision required")
  | Some resume =>
      if incomplete r resume then refuse (plain InvalidArgument "complete recovery decision required")
      else if existsb (bad_range (rv_PreviousGeneration r)) (rv_UnrecoveredRanges r)
      then refuse (plain InvalidArgument "invalid unrecovered range")
      else match resolve_json r with
      | None => refuse (plain InvalidArgument "invalid recovery request")
      | Some body =>
          d ⇐ store_call (ResolveRecovery protojson consumer channel (rv_IdempotencyKey r)
                (rv_PreviousGeneration r) (rv_NewGeneration r) (ChannelOffset resume)
                (rv_ExpectedRevision r) body)
              consumer channel (Some resume) (rv_ExpectedRevision r) ;;
          respond (MkResolved (PreviousGeneration d) (NewGeneration d)
            (cursor (PreviousGeneration d) (PreviousOffset d)) (cursor (NewGeneration d) (ResumeFrom d))
            (Revision d) (rv_UnrecoveredRanges r) (rv_IdempotencyKey r))
      end
  end.
End Service.
