(* ===== verification/QueryProps.v ===== *)
(** The donation stream of the product service: what it has sent after any
    interleaving of its iterations with every other client and worker. *)
From S2P Require Import Prelude GoLib Json Tx Model Db.
From S2P Require Import Ownership Journal Consumer JournalInv JournalRun.
From S2P Require Import Store JournalTotal JournalProps Query.

(** ** The calls and the database *)

Section Calls.
Context (access : ProductAccess) (cc : option string).
Context (from_context : error -> status).
Context (resolve_json : ResolveRequest -> option json) (proto : json -> string).
Context (p : option peer).

Lemma quiet_CollectionState c : quiet (CollectionState_ c).
Proof. unfold CollectionState_. frame_solve. Qed.
Lemma quiet_ConsumerProgress k c : quiet (ConsumerProgress_ k c).
Proof. unfold ConsumerProgress_, progressTX. frame_solve. Qed.
#[local] Hint Resolve quiet_CollectionState quiet_ConsumerProgress : collector.

Lemma quiet_failure x k c q rev : quiet (failure from_context x k c q rev).
Proof. unfold failure, detailed. destruct x; frame_solve. Qed.

(** A call always answers, a status at worst. *)
Definition answers {A} (m : Mdb A) : Prop := forall e s y s', m e s <> (Err y, s').

Lemma answers_ret {A} (a : A) : answers (mret a).
Proof. by intros e s y s' [=]. Qed.
Lemma answers_try {A} (m : Mdb A) : answers (try m).
Proof. intros e s y s'. unfold try. by destruct (m e s). Qed.
Lemma answers_bind {A B} (m : Mdb A) (f : A -> Mdb B) :
  answers m -> (forall a, answers (f a)) -> answers (m ≫= f).
Proof.
  intros Hm Hf e s y s'. unfold mbind, M_bind.
  destruct (m e s) as [[a|x] s1] eqn:E; [apply Hf|by destruct (Hm _ _ _ _ E)].
Qed.
Lemma answers_call_bind {A B} (m : call A) (f : A -> call B) :
  answers m -> (forall a, answers (f a)) -> answers (x ⇐ m ;; f x).
Proof. intros Hm Hf. apply answers_bind; [done|]. intros [a|st]; [apply Hf|apply answers_ret]. Qed.
Hint Resolve answers_ret answers_try : collector.

Lemma answers_failure x k c q rev : answers (failure from_context x k c q rev).
Proof.
  unfold failure, detailed. destruct x; eauto with collector;
    repeat (apply answers_bind; [apply answers_try|intros ?]);
    (case_match; apply answers_ret).
Qed.
Lemma answers_store {A} (m : Mdb A) k c q rev : answers (store_call from_context m k c q rev).
Proof.
  apply answers_bind; [apply answers_try|]. intros [a|x]; [apply answers_ret|].
  apply answers_bind; [apply answers_failure|intros; apply answers_ret].
Qed.
Lemma answers_List r : answers (ListDonations access from_context p r).
Proof.
  apply answers_call_bind; [unfold authorized; case_match; apply answers_ret|]. intros _.
  case_match; [|apply answers_ret]. case_match; [apply answers_ret|].
  apply answers_call_bind; [apply answers_store|intros; apply answers_ret].
Qed.

(** A refused call leaves the database as the store method, failing, left it. *)
Lemma store_call_run {A} (m : Mdb A) k c q rev e s :
  match store_call from_context m k c q rev e s with
  | (Ok (Answer a), s') => m e s = (Ok a, s')
  | (_, s') => exists x s1, m e s = (Err x, s1) /\ db s' = db s1
  end.
Proof.
  unfold store_call, mbind, M_bind, try. destruct (m e s) as [[a|x] s1] eqn:E; simpl; [done|].
  pose proof (quiet_failure x k c q rev e s1) as Hq.
  destruct (failure _ _ _ _ _ _ e s1) as [[st|y] s2]; simpl in *;
    by exists x, s1.
Qed.

Lemma call_bind_run {A B} (m : call A) (k : A -> call B) e s :
  (x ⇐ m ;; k x) e s =
  match m e s with
  | (Ok (Answer a), s') => k a e s'
  | (Ok (Refused st), s') => (Ok (Refused st), s')
  | (Err y, s') => (Err y, s')
  end.
Proof. unfold call_bind, mbind, M_bind. by destruct (m e s) as [[[a|st]|y] s']. Qed.

Lemma authorized_run k c scope e s :
  (authorized access p k c scope e s = (Ok (Answer tt), s) /\ authorize access p k c scope = None)
  \/ exists st, authorized access p k c scope e s = (Ok (Refused st), s).
Proof. unfold authorized. destruct (authorize _ _ _ _ _) as [st|] eqn:E; [right; by exists st|by left]. Qed.

Lemma atomic_Read k c g a r l : atomic (ReadDonations k c g a r l).
Proof. unfold ReadDonations. frame_solve. Qed.

Lemma ListDonations_run r e s :
  match ListDonations access from_context p r e s with
  | (Ok (Answer page), s') => exists after ds col, lr_AfterCursor r = Some after /\
      ReadDonations (lr_ConsumerId r) (lr_ChannelId r) (JournalGeneration after)
        (ChannelOffset after) (lr_RecoveryRevision r) (lr_Limit r) e s = (Ok (ds, col), s') /\
      ls_Donations page = map donationEvent ds /\
      authorize access p (lr_ConsumerId r) (lr_ChannelId r) "events:read" = None
  | (_, s') => db s' = db s \/
      (* the reply to a read that was carried out is lost *)
      exists after e' page s1, ReadDonations (lr_ConsumerId r) (lr_ChannelId r)
        (JournalGeneration after) (ChannelOffset after) (lr_RecoveryRevision r) (lr_Limit r) e' s
          = (Ok page, s1) /\ db s' = db s1
  end.
Proof.
  unfold ListDonations. rewrite call_bind_run.
  destruct (authorized_run (lr_ConsumerId r) (lr_ChannelId r) "events:read" e s)
    as [[-> Ha]|[st ->]]; [|by left].
  destruct (lr_AfterCursor r) as [after|]; [|by left].
  destruct (_ || _); [by left|]. rewrite call_bind_run.
  pose proof (store_call_run (ReadDonations (lr_ConsumerId r) (lr_ChannelId r)
    (JournalGeneration after) (ChannelOffset after) (lr_RecoveryRevision r) (lr_Limit r))
    (lr_ConsumerId r) (lr_ChannelId r) (Some after) (lr_RecoveryRevision r) e s) as H.
  destruct (store_call _ _ _ _ _ _ e s) as [[[[ds col]|st]|y] s'];
    [exists after, ds, col; by rewrite H| |];
    destruct H as (x & s1 & H & ->);
    apply atomic_after in H as [?|(e' & pg & s2 & _ & _ & _ & H & -> & _)];
    eauto using atomic_Read; right; by exists after, e', pg, s2.
Qed.
End Calls.

(** ** The loop *)

Section Watch.
Context (access : ProductAccess) (cc : option string).
Context (from_context : error -> status).
Context (proto : json -> string) (p : option peer).
Context (Send : nat -> option status) (sz : json -> Z) (notify : string -> Mdb unit).
Context (Hquiet : forall c, quiet (notify c)) (Hforward : forall c, forward (notify c)).

Notation step := (watch_step access cc from_context proto p Send sz notify).
Notation runs := (watch_run access cc from_context proto p Send sz notify).
Notation reach := (reachable cc sz proto notify).

Lemma watch_run_snoc l x e s w :
  runs (l ++ [x]) e s w = step x e (runs l e s w).1 (runs l e s w).2.
Proof.
  revert s w; induction l as [|y l IH]; intros s w; simpl.
  - by destruct (step x e s w).
  - destruct (step y e s w) as [s1 w1]. apply IH.
Qed.

(** Sending stops at the first failure, and the request follows what was sent. *)
Lemma send_all_run ds req sent :
  exists m, (m <= length ds)%nat /\
  let '(req', sent', err) := send_all Send req sent ds in
  sent' = sent ++ take m ds /\ (err = None -> m = length ds) /\
  req' = match last (take m ds) with Some d => after_cursor (ev_Cursor d) req | None => req end.
Proof.
  revert req sent; induction ds as [|d ds IH]; intros req sent; simpl.
  { exists 0%nat. split; [done|]. by rewrite app_nil_r. }
  destruct (Send (length sent)) as [st|].
  { exists 0%nat. split; [lia|]. by rewrite app_nil_r. }
  destruct (IH (after_cursor (ev_Cursor d) req) (sent ++ [d])) as (m & Hm & H).
  exists (S m). split; [simpl; lia|]. destruct (send_all _ _ _ ds) as [[req' sent'] err].
  destruct H as (-> & H2 & ->). split; [by rewrite <- app_assoc|].
  split; [intros Hn; simpl; rewrite (H2 Hn); done|].
  rewrite firstn_cons, last_cons. by destruct (last (take m ds)).
Qed.

Context (k c g : string) (n0 rev : Z).
Context (Hg : valid_utf8 g = true) (Hc : valid_utf8 c = true).

(** The row an event was made of, in the database of that moment. *)
Definition journalled (d : database) (v : DonationEvent) : Prop :=
  exists id r j dd, donations d !! id = Some r /\ do_channel r = c /\ do_generation r = g /\
    do_offset r = ChannelOffset (ev_Cursor v) /\ do_payload r = Some j /\
    Donation.unmarshal j Donation.zero = Some dd /\ v = donationEvent dd.

Definition request_after (n : nat) : ListDonationsRequest :=
  MkList k c (Some (MkCursor g (n0 + Z.of_nat n))) 100 rev.

(** What the loop keeps: the cursor is the last event's, the events sent are
    the next offsets of the generation. *)
Record watch_inv (w : watch) : Prop := {
  wi_req : w_req w = request_after (length (w_sent w));
  wi_cursors : map ev_Cursor (w_sent w) = map (MkCursor g) (zseq (n0 + 1) (length (w_sent w)));
  wi_channel : Forall (fun v => ev_ChannelId v = c) (w_sent w);
  wi_allowed : w_sent w <> [] -> authorize access p k c "events:read" = None
}.

Lemma page_events d n x a m ds :
  journal_inv d -> position d c = Some (g, n, x) -> x <= a <= n ->
  map Donation.Offset ds = zseq (a + 1) m ->
  Forall (labelled g c) ds ->
  Forall2 read_from (take m (after_rows d c g a)) ds ->
  map ev_Cursor (map donationEvent ds) = map (MkCursor g) (zseq (a + 1) m) /\
  Forall (fun v => ev_ChannelId v = c) (map donationEvent ds) /\
  Forall (journalled d) (map donationEvent ds).
Proof.
  intros I Hp Ha Ho Hl Hr. rewrite map_map. split; [|split].
  - rewrite <- Ho, map_map. apply map_ext_in. intros dd Hdd. cbn. unfold cursor.
    rewrite Forall_forall in Hl. destruct (Hl dd) as [Hgen _]; [by apply list_elem_of_In|].
    rewrite (coerce_valid _ Hg) in Hgen. by destruct Hgen as [-> | ->].
  - apply Forall_map, (Forall_impl _ _ _ Hl). intros dd [_ Hch]. cbn. by rewrite Hch, coerce_valid.
  - apply Forall_forall. intros v (dd & -> & Hdd)%list_elem_of_fmap.
    apply list_elem_of_lookup_1 in Hdd as [i Hi].
    destruct (Forall2_lookup_r _ _ _ _ _ Hr Hi) as ([id r] & Hrow & j & Hj & Hu).
    apply lookup_take_Some in Hrow as [Hrow _].
    pose proof (after_rows_offsets d I c g n x Hp a Ha) as Hoffs.
    assert (map (fun q => do_offset q.2) (after_rows d c g a) !! i = Some (do_offset r)) as H1
      by (by rewrite list_lookup_fmap, Hrow).
    assert (map Donation.Offset ds !! i = Some (Donation.Offset dd)) as H2
      by (by rewrite list_lookup_fmap, Hi).
    rewrite Hoffs in H1. rewrite Ho in H2.
    apply lookup_zseq in H1 as [H1 _]. apply lookup_zseq in H2 as [H2 _].
    assert ((id, r) ∈ after_rows d c g a) as Hin by (by eapply list_elem_of_lookup_2).
    apply list_elem_of_In, filter_In in Hin as [Hin _]. apply list_elem_of_In in Hin.
    apply (elem_select_retained _ I _ _ _ _ Hp) in Hin as (Hd & Hch & _).
    destruct (ji_rows _ I _ _ Hd) as (n' & x' & Hq & _). rewrite Hch, Hp in Hq.
    exists id, r, j, dd. cbn in *. repeat split; congruence.
Qed.

(** The events of the page are sent from its first on. *)
Lemma take_page ds a m (k' : nat) : (k' <= m)%nat ->
  map ev_Cursor ds = map (MkCursor g) (zseq (a + 1) m) ->
  map ev_Cursor (take k' ds) = map (MkCursor g) (zseq (a + 1) k') /\
  length (take k' ds) = k' /\
  (forall v, last (take k' ds) = Some v -> ev_Cursor v = MkCursor g (a + Z.of_nat k')) /\
  (last (take k' ds) = None -> k' = 0%nat).
Proof.
  intros Hk H.
  assert (length ds = m) as Hlen
    by (apply (f_equal length) in H; by rewrite !length_map, zseq_length in H).
  assert (map ev_Cursor (take k' ds) = map (MkCursor g) (zseq (a + 1) k')) as H1.
  { rewrite <- firstn_map, H, firstn_map, take_zseq. by rewrite Nat.min_l. }
  assert (length (take k' ds) = k') as H2 by (rewrite length_take; lia).
  split; [done|]. split; [done|]. split.
  - intros v Hv. rewrite last_lookup, H2 in Hv.
    assert (map ev_Cursor (take k' ds) !! pred k' = Some (ev_Cursor v)) as H3
      by (by rewrite list_lookup_fmap, Hv).
    rewrite H1, list_lookup_fmap in H3.
    destruct (zseq (a + 1) k' !! pred k') as [o|] eqn:E; [|done]. injection H3 as <-.
    apply lookup_zseq in E as [-> ?]. f_equal. lia.
  - intros Hn. apply last_None in Hn. by rewrite Hn in H2.
Qed.

(** A round of a stream that is up: refused, and nothing has changed, or a
    page of the next rows of which a first part is sent. *)
Lemma round_run e s w : journal_inv (db s) -> watch_inv w ->
  let '(r, s') := watch_round access from_context p Send w e s in
  journal_inv (db s') /\
  match r with
  | Err _ => False
  | Ok w' => watch_inv w' /\
      (exists m, w_sent w' = w_sent w ++ m /\ Forall (journalled (db s)) m) /\
      (w_end w' = None -> exists n x, position (db s) c = Some (g, n, x) /\
         Z.of_nat (length (w_sent w')) =
           Z.of_nat (length (w_sent w)) +
             Z.min 100 (n - (n0 + Z.of_nat (length (w_sent w)))) /\
         w_waiting w' = negb (100 <=? n - (n0 + Z.of_nat (length (w_sent w)))))
  end.
Proof.
  intros I [W1 W2 W3 W4]. unfold watch_round, mbind, M_bind.
  pose proof (ListDonations_run access from_context p (w_req w) e s) as H.
  pose proof (answers_List access from_context p (w_req w) e s) as Hans.
  destruct (ListDonations access from_context p (w_req w) e s) as [[[page|st]|y] s'].
  - destruct H as (after & ds & col & Haft & Hread & Hpage & Hallow).
    rewrite W1 in Haft, Hread, Hallow. injection Haft as <-. cbn in Hread.
    set (len := length (w_sent w)) in *.
    pose proof (read_inv _ _ _ _ _ _ _ _ _ _ I Hread) as I'.
    apply ReadDonations_ok in Hread; [|done].
    destruct Hread as (n & x & row & Hp & _ & _ & _ & Ha & _ & _ & _ & _ & Ho & _ & Hl & Hrd & _).
    cbv zeta in Ho. change (clamp_limit 100) with 100 in *.
    set (a := n0 + Z.of_nat len) in *.
    assert (Forall2 read_from
      (take (Z.to_nat (Z.min 100 (n - a))) (after_rows (db s) c g a)) ds) as Hrd'.
    { pose proof (Forall2_length _ _ _ Hrd) as E.
      apply (f_equal length) in Ho. rewrite length_map, zseq_length in Ho.
      rewrite length_take in E.
      destruct (Z.le_gt_cases 100 (n - a)); [by rewrite Z.min_l by lia|].
      rewrite take_ge in Hrd by lia. rewrite take_ge by lia. exact Hrd. }
    destruct (page_events _ n x a _ ds I Hp Ha Ho Hl Hrd') as (P1 & P2 & P3).
    set (M := Z.to_nat (Z.min 100 (n - a))) in *.
    assert (length ds = M) as Hlen
      by (apply (f_equal length) in Ho; by rewrite length_map, zseq_length in Ho).
    rewrite Hpage.
    destruct (send_all_run (map donationEvent ds) (w_req w) (w_sent w)) as (m & Hm & HS).
    destruct (send_all Send (w_req w) (w_sent w) (map donationEvent ds)) as [[req' sent'] err].
    destruct HS as (-> & Herr & ->). rewrite length_map in *.
    destruct (take_page (map donationEvent ds) a M m) as (T1 & T2 & T3 & T4); [lia|done|].
    simpl. split; [done|]. split; [|split].
    + split; cbn [w_req w_sent].
      * rewrite length_app, T2. fold len.
        destruct (last (take m (map donationEvent ds))) as [v|] eqn:El.
        -- rewrite W1, (T3 v) by done. unfold request_after, after_cursor. cbn.
           replace (n0 + Z.of_nat (len + m)) with (a + Z.of_nat m) by lia. done.
        -- rewrite W1, (T4 eq_refl). fold len. by rewrite Nat.add_0_r.
      * rewrite map_app, length_app, T2, W2, T1, zseq_app, map_app. fold len.
        replace (n0 + 1 + Z.of_nat len) with (a + 1) by lia. done.
      * apply Forall_app; split; [done|]. by apply Forall_take.
      * done.
    + exists (take m (map donationEvent ds)). split; [done|]. by apply Forall_take.
    + intros He. exists n, x. split; [done|]. rewrite length_app, T2, (Herr He), Hlen.
      split; [lia|]. f_equal. apply eq_true_iff_eq. rewrite Nat.eqb_eq, Z.leb_le. lia.
  - simpl. split.
    { destruct H as [->|(after & e' & [ds col] & s1 & Hread & ->)]; [done|].
      by eapply read_inv. }
    split; [split; cbn; done|]. split; [|done]. exists []. by rewrite app_nil_r.
  - by destruct (Hans y s').
Qed.

Definition event_typed (x : watch_event) : bool :=
  match x with WOther o => op_typed o | _ => true end.

Lemma step_run x e s w : event_typed x = true -> journal_inv (db s) -> watch_inv w ->
  let '(s', w') := step x e s w in
  journal_inv (db s') /\ watch_inv w' /\
  exists m, w_sent w' = w_sent w ++ m /\ Forall (journalled (db s)) m.
Proof.
  intros Ht I W.
  assert (exists m, w_sent w = w_sent w ++ m /\ Forall (journalled (db s)) m) as Hsame
    by (exists []; by rewrite app_nil_r).
  destruct x as [| |o]; simpl.
  - destruct (w_end w); [done|]. pose proof (round_run e s w I W) as H.
    destruct (watch_round _ _ _ _ w e s) as [[w'|y] s']; [tauto|by destruct H].
  - destruct (w_end w); [done|]. destruct (w_waiting w); [|done].
    split; [done|]. split; [|done]. destruct W. by split.
  - split; [|done]. apply (run_all_journal cc sz proto notify [o]); try done.
    simpl in *. by rewrite Ht.
Qed.

Notation start := (watch_start k c (Some (MkCursor g n0)) rev).

Lemma watch_run_inv l e s : reach e s -> forallb event_typed l = true ->
  let '(s', w) := runs l e s start in
  journal_inv (db s') /\ watch_inv w /\
  forall v, v ∈ w_sent w -> exists l1 l2, l = l1 ++ l2 /\ journalled (db (runs l1 e s start).1) v.
Proof.
  intros Hr. induction l as [|x l IH] using rev_ind; intros Ht.
  { simpl. split; [by eapply reachable_journal|]. split; [|by intros v ?%elem_of_nil].
    split; cbn; [|done|constructor|done]. unfold request_after. by rewrite Z.add_0_r. }
  rewrite forallb_app in Ht. simpl in Ht. b2p. rewrite watch_run_snoc.
  destruct (runs l e s start) as [s1 w1] eqn:E1. destruct IH as (I & W & Hv); [done|].
  simpl. pose proof (step_run x e s1 w1) as H2.
  destruct (step x e s1 w1) as [s2 w2].
  destruct H2 as (I2 & W2 & m & Hm & Hj); [done..|].
  split; [done|]. split; [done|]. intros v. rewrite Hm, elem_of_app. intros [Hin|Hin].
  - destruct (Hv v Hin) as (l1 & l2 & -> & Hl1). exists l1, (l2 ++ [x]). by rewrite app_assoc.
  - exists l, [x]. split; [done|]. rewrite E1. rewrite Forall_forall in Hj. by apply Hj.
Qed.

(** C38: the events a donation stream has sent are, after any interleaving of
    its iterations with other clients, workers, retention and restores, with
    refused calls and broken streams, exactly the offsets that follow the
    cursor it was given, in order, without a hole or a repetition, each of
    them made of a row the journal of that generation and channel held at the
    time, and none without a certificate for this consumer and channel; the
    next iteration asks for what follows the last event sent, and
    unless it ends the call it sends all there is, up to a hundred events. *)
Theorem watch_delivers l e s :
  reach e s -> forallb event_typed l = true ->
  let s' := (runs l e s start).1 in
  let w := (runs l e s start).2 in
  let sent := Z.of_nat (length (w_sent w)) in
  map ev_Cursor (w_sent w) = map (MkCursor g) (zseq (n0 + 1) (length (w_sent w))) /\
  lr_AfterCursor (w_req w) = Some (MkCursor g (n0 + sent)) /\
  (w_sent w <> [] -> authorize access p k c "events:read" = None) /\
  (forall v, v ∈ w_sent w -> ev_ChannelId v = c /\
     exists l1 l2, l = l1 ++ l2 /\ journalled (db (runs l1 e s start).1) v) /\
  (w_end (runs (l ++ [WRound]) e s start).2 = None ->
     exists n x, position (db s') c = Some (g, n, x) /\
       Z.of_nat (length (w_sent (runs (l ++ [WRound]) e s start).2)) =
         sent + Z.min 100 (n - (n0 + sent))).
Proof.
  intros Hr Ht. rewrite watch_run_snoc. pose proof (watch_run_inv l e s Hr Ht) as H.
  destruct (runs l e s start) as [s' w]. destruct H as (I & W & Hv). destruct W as [W1 W2 W3 W4].
  cbv zeta. cbn [fst snd].
  split; [done|]. split; [by rewrite W1|]. split; [done|]. split.
  - intros v Hin. split; [|by apply Hv]. rewrite Forall_forall in W3. by apply W3.
  - simpl. destruct (w_end w) eqn:Ee; [simpl; congruence|].
    pose proof (round_run e s' w I (Build_watch_inv _ W1 W2 W3 W4)) as H2.
    destruct (watch_round _ _ _ _ w e s') as [[w'|y] s2]; [|by destruct H2].
    intros He. destruct H2 as (_ & _ & _ & H2). destruct (H2 He) as (n & x & Hp & Hn & _).
    by exists n, x.
Qed.
End Watch.

(** ** A stream that meets appends *)

Module WatchDemo.
Definition access : ProductAccess := MkAccess "game" "bj1" "spiffe://p/read" "spiffe://p/manage" EmptyString.
Definition reader : option peer := Some (MkPeer true 1 [["spiffe://p/read"]])%string.
Definition context_status (_ : error) : status := plain Canceled "context canceled".
Definition append (id : string) (n : Z) : watch_event :=
  WOther (OpAppend Demo.grant (Demo.donation id 10 n) Demo.now).
Definition schedule : list watch_event :=
  [append "ev-1" 1; append "ev-2" 2; WRound; append "ev-3" 3; WRound; WDone].
Definition result : world database * watch :=
  watch_run access None context_status render reader (fun _ => None) Demo.size Demo.notify schedule
    Demo.e (Demo.go Demo.setup) (watch_start "game" "bj1" (Some (MkCursor Demo.generation 0)) 0).
End WatchDemo.

Example watch_demo_ends : w_end WatchDemo.result.2 = Some (plain Canceled "context canceled").
Proof. vm_compute. reflexivity. Qed.

Lemma watch_delivers_witness :
  length (w_sent WatchDemo.result.2) = 3%nat /\
  map ev_Cursor (w_sent WatchDemo.result.2) = map (MkCursor Demo.generation) (zseq 1 3) /\
  lr_AfterCursor (w_req WatchDemo.result.2) = Some (MkCursor Demo.generation 3).
Proof.
  assert (length (w_sent WatchDemo.result.2) = 3%nat) as Hlen by (vm_compute; reflexivity).
  pose proof (watch_delivers WatchDemo.access None WatchDemo.context_status render WatchDemo.reader
    (fun _ => None) Demo.size Demo.notify Demo.notify_quiet Demo.notify_forward "game" "bj1"
    Demo.generation 0 0 ltac:(vm_compute; reflexivity) ltac:(reflexivity)
    WatchDemo.schedule Demo.e (Demo.go Demo.setup)
    ltac:(apply demo_reachable; vm_compute; reflexivity) ltac:(vm_compute; reflexivity)) as H.
  destruct H as (H1 & H2 & _).
  split; [exact Hlen|]. split.
  - exact (eq_trans H1 (f_equal (fun n => map (MkCursor Demo.generation) (zseq 1 n)) Hlen)).
  - exact (eq_trans H2 (f_equal (fun n => Some (MkCursor Demo.generation (0 + Z.of_nat n))) Hlen)).
Defined.
