(* ===== verification/Channels.v ===== *)
(** Live channels and workers (src/shared/store/postgres.go): discovery's
    upserts, assignment, the handoff columns of a graceful drain, and the
    queries the coordinator works from. *)
From S2P Require Import Prelude GoLib Json Tx Model Db Ownership.

(** A row with its id: [model.LiveChannel]. *)
Notation channel := (Z * live_row)%type.

Record discovered := Discovered {
  dc_Platform : string; dc_ChannelID : string; dc_StreamerName : string; dc_ViewerCount : Z
}.

Record worker := Worker {
  w_ID : string; w_Status : string; w_MaxCapacity : Z; w_RegisteredAt : Z; w_LastHeartbeat : Z
}.

(** [ChatStreamKey] (src/shared/store/redis.go) *)
Definition ChatStreamKey (platform channel : string) : string :=
  "chat:" +:+ platform +:+ ":" +:+ channel.

Definition is_ended (r : live_row) : bool := String.eqb (lc_status r) ChannelStatusEnded.
Definition is_live (r : live_row) : bool := String.eqb (lc_status r) ChannelStatusLive.
Definition is_pending (r : live_row) : bool := String.eqb (lc_status r) ChannelStatusPending.
Definition unassigned (r : live_row) : bool :=
  match lc_worker r with None => true | Some _ => false end.
Definition on_platform (p : string) (r : live_row) : bool := String.eqb (lc_platform r) p.
Definition same_channel (p c : string) (r : live_row) : bool :=
  String.eqb (lc_platform r) p && String.eqb (lc_channel r) c.

(** ** Row updates *)

Definition with_assignment (status : string) (w : option string) (r : live_row) : live_row :=
  LiveRow (lc_platform r) (lc_channel r) (lc_streamer r) (lc_viewers r) status w
    (lc_discovered_at r) (lc_last_seen_at r) (lc_ended_at r) None None None.

Definition with_ended (now : Z) (r : live_row) : live_row :=
  LiveRow (lc_platform r) (lc_channel r) (lc_streamer r) (lc_viewers r) ChannelStatusEnded None
    (lc_discovered_at r) (lc_last_seen_at r) (Some now)
    (lc_handoff_from r) (lc_handoff_status r) (lc_handoff_started_at r).

Definition with_handoff (w : option string) (from status : option string) (at_ : option Z)
    (r : live_row) : live_row :=
  LiveRow (lc_platform r) (lc_channel r) (lc_streamer r) (lc_viewers r) (lc_status r) w
    (lc_discovered_at r) (lc_last_seen_at r) (lc_ended_at r) from status at_.

Definition with_worker (w : option string) (r : live_row) : live_row :=
  with_handoff w (lc_handoff_from r) (lc_handoff_status r) (lc_handoff_started_at r) r.

(** The [ON CONFLICT] update of an upsert. *)
Definition with_discovered (c : discovered) (now : Z) (r : live_row) : live_row :=
  LiveRow (lc_platform r) (lc_channel r) (dc_StreamerName c) (dc_ViewerCount c)
    (if is_ended r then ChannelStatusPending else lc_status r) (lc_worker r)
    (lc_discovered_at r) now (if is_ended r then None else lc_ended_at r)
    (lc_handoff_from r) (lc_handoff_status r) (lc_handoff_started_at r).

(** Rows affected. *)
Definition countZ {K A} `{Countable K} (p : K -> A -> bool) (m : gmap K A) : Z :=
  Z.of_nat (count_where p m).

(** ** Discovery *)

Definition discovered_key (c : discovered) : string := dc_Platform c +:+ ":" +:+ dc_ChannelID c.

(** Keeps the last occurrence of each key, at the place of the first. *)
Fixpoint replace_key (c : discovered) (l : list discovered) : option (list discovered) :=
  match l with
  | [] => None
  | x :: l =>
      if String.eqb (discovered_key c) (discovered_key x) then Some (c :: l)
      else match replace_key c l with Some l => Some (x :: l) | None => None end
  end.

Definition dedup_step (acc : list discovered) (c : discovered) : list discovered :=
  match replace_key c acc with Some l => l | None => acc ++ [c] end.
Definition dedup (l : list discovered) : list discovered := fold_left dedup_step l [].

Definition find_channel (p c : string) (d : database) : option channel :=
  find (fun '(_, r) => same_channel p c r) (rows (live d)).

(** One proposed row; the [BIGSERIAL] sequence advances either way. *)
Definition upsert_row (now : Z) (d : database) (c : discovered) : database :=
  set_live_seq (live_seq d + 1)
    (match find_channel (dc_Platform c) (dc_ChannelID c) d with
     | Some (id, r) => set_live (insert id (with_discovered c now r)) d
     | None => set_live (insert (live_seq d)
         (LiveRow (dc_Platform c) (dc_ChannelID c) (dc_StreamerName c) (dc_ViewerCount c)
            ChannelStatusPending None now now None None None None)) d
     end).

Definition UpsertLiveChannels (cs : list discovered) : Mdb unit :=
  match cs with
  | [] => mret tt
  | _ => pool_exec (fun now d => Ok (tt, fold_left (upsert_row now) (dedup cs) d))
  end.

Definition ends (platform : string) (active : list string) (r : live_row) : bool :=
  on_platform platform r && negb (is_ended r)
  && negb (existsb (String.eqb (lc_channel r)) active).

Definition MarkEndedChannels (platform : string) (active : list string) : Mdb (list string) :=
  pool_exec (fun now d => Ok
    (map (fun '(_, r) => lc_channel r) (List.filter (fun '(_, r) => ends platform active r) (rows (live d))),
     set_live (update_where (fun _ r => ends platform active r) (with_ended now)) d)).

Definition MarkChannelEnded (id : Z) : Mdb unit :=
  pool_exec (fun now d => Ok (tt, set_live (alter (with_ended now) id) d)).

Definition GetChannel (platform c : string) : Mdb channel :=
  pool_query (fun _ d => of_option ErrNoRows (find_channel platform c d)).

(** ** Queries *)

(** [ORDER BY viewer_count DESC, id ASC]; the queries without the second key
    leave the order of ties to PostgreSQL. *)
Definition by_viewers (a b : channel) : Prop :=
  lc_viewers b.2 < lc_viewers a.2 \/ (lc_viewers a.2 = lc_viewers b.2 /\ a.1 <= b.1).
#[export] Instance by_viewers_dec a b : Decision (by_viewers a b).
Proof. unfold by_viewers. apply _. Defined.

Definition select_live (p : channel -> bool) (d : database) : list channel :=
  merge_sort by_viewers (List.filter p (rows (live d))).

(** [LIMIT] of a bigint: negative limits are an error of the server. *)
Definition sql_limit {A} (limit : Z) (l : list A) : result (list A) :=
  if limit <? 0 then Err ErrDriver else Ok (take (Z.to_nat limit) l).

Section Store.
Context (collectionChannel : option string).

Definition collectable (d : database) (r : live_row) : bool :=
  match collectionChannel with
  | Some c =>
      on_platform PlatformSoop r && String.eqb (lc_channel r) c
      && match channels d !! lc_channel r with Some x => cr_subscribed x | None => false end
      && negb (opted_out d PlatformSoop (lc_channel r))
  | None => negb (opted_out d (lc_platform r) (lc_channel r))
  end.

Definition ListPendingChannels (limit : Z) : Mdb (list channel) :=
  pool_query (fun _ d => sql_limit limit
    (select_live (fun '(_, r) => is_pending r && unassigned r && collectable d r) d)).

Definition ListWorkerChannels (w : string) : Mdb (list channel) :=
  pool_query (fun _ d => Ok (select_live (fun '(_, r) =>
    opt_eqb (lc_worker r) w && is_live r && negb (opted_out d (lc_platform r) (lc_channel r))) d)).

Definition ListWorkerChannelsByPlatform (w platform : string) : Mdb (list channel) :=
  pool_query (fun _ d => Ok (select_live (fun '(_, r) =>
    opt_eqb (lc_worker r) w && on_platform platform r && is_live r) d)).

(** ** Assignment *)

(** The foreign key [worker_id REFERENCES workers(id)]. *)
Definition known_worker (w : string) (d : database) : bool :=
  match workers d !! w with Some _ => true | None => false end.

(** An update that sets [worker_id] to [w] on the rows [p] selects: it fails
    when there is such a row and no such worker. *)
Definition update_to_worker (w : string) (p : Z -> live_row -> bool) (f : live_row -> live_row)
    (d : database) : result (Z * database) :=
  let n := countZ p (live d) in
  if (0 <? n) && negb (known_worker w d) then Err ErrDriver
  else Ok (n, set_live (update_where p f) d).

Definition AssignChannel (id : Z) (w : string) : Mdb unit :=
  match collectionChannel with
  | Some c =>
      n ← pool_exec (fun _ d => update_to_worker w (fun i r =>
            (i =? id) && on_platform PlatformSoop r && String.eqb (lc_channel r) c
            && negb (is_empty c)) (with_assignment ChannelStatusLive (Some w)) d);
      guard_ok (n =? 1) (ErrMsg "collection scope denied")
  | None =>
      pool_exec (fun _ d =>
        nd ← update_to_worker w (fun i _ => i =? id) (with_assignment ChannelStatusLive (Some w)) d;
        Ok (tt, nd.2))
  end.

Definition unassign : live_row -> live_row := with_assignment ChannelStatusPending None.

Definition UnassignWorkerChannels (w : string) : Mdb unit :=
  pool_exec (fun _ d => Ok (tt, set_live (update_where (fun _ r =>
    opt_eqb (lc_worker r) w && negb (is_ended r)) unassign) d)).

Definition UnassignChannel (platform c w : string) : Mdb unit :=
  pool_exec (fun _ d => Ok (tt, set_live (update_where (fun _ r =>
    same_channel platform c r && opt_eqb (lc_worker r) w && negb (is_ended r)) unassign) d)).

Definition dead_worker (d : database) (w : string) : bool :=
  match workers d !! w with Some x => String.eqb (wo_status x) WorkerStatusDead | None => false end.

Definition stranded (d : database) (r : live_row) : bool :=
  match lc_worker r with Some w => dead_worker d w | None => false end && is_live r.

Definition UnassignDeadWorkerChannels : Mdb Z :=
  pool_exec (fun _ d => Ok (countZ (fun _ r => stranded d r) (live d),
    set_live (update_where (fun _ r => stranded d r) unassign) d)).

Definition CountAssignedByWorker : Mdb (gmap string Z) :=
  pool_query (fun _ d => Ok (fold_left (fun m '(_, r) =>
    match lc_worker r with
    | Some w =>
        if is_live r && match collectionChannel with
                        | None => true
                        | Some c => same_channel PlatformSoop c r
                        end
        then <[w := default 0 (m !! w) + 1]> m else m
    | None => m
    end) (rows (live d)) ∅)).

(** ** Handoff *)

Definition handoff_is (status : string) (r : live_row) : bool := opt_eqb (lc_handoff_status r) status.

Definition ReassignChannel (id : Z) (new old : string) : Mdb bool :=
  match collectionChannel with
  | Some _ => mret false
  | None =>
      n ← pool_exec (fun now d => update_to_worker new (fun i r => (i =? id) && is_live r)
            (with_handoff (Some new) (Some old) (Some "pending"%string) (Some now)) d);
      mret (0 <? n)
  end.

Definition AckHandoff (platform c : string) : Mdb unit :=
  pool_exec (fun _ d => Ok (tt, set_live (update_where (fun _ r =>
    same_channel platform c r && handoff_is "pending" r)
    (fun r => with_handoff (lc_worker r) (lc_handoff_from r) (Some "acked"%string)
                (lc_handoff_started_at r) r)) d)).

Definition ClearHandoff (id : Z) : Mdb unit :=
  pool_exec (fun _ d => Ok (tt, set_live (update_where (fun i r => (i =? id) && handoff_is "acked" r)
    (fun r => with_handoff (lc_worker r) None None None r)) d)).

Definition ListAckedHandoffs (old : string) : Mdb (list channel) :=
  pool_query (fun _ d => Ok (List.filter (fun '(_, r) =>
    opt_eqb (lc_handoff_from r) old && handoff_is "acked" r) (rows (live d)))).

Definition ListPendingHandoffs (old : string) : Mdb (list channel) :=
  pool_query (fun _ d => Ok (List.filter (fun '(_, r) =>
    opt_eqb (lc_handoff_from r) old && handoff_is "pending" r && is_live r) (rows (live d)))).

(** [int(threshold.Seconds())] seconds before now. *)
Definition ListStuckHandoffs (threshold : Z) : Mdb (list channel) :=
  pool_query (fun now d => Ok (List.filter (fun '(_, r) =>
    handoff_is "pending" r && is_live r
    && match lc_handoff_started_at r with
       | Some t => t <? now - Z.quot threshold second * second
       | None => false
       end) (rows (live d)))).

Definition ListDrainingWorkerChannels : Mdb (list channel) :=
  pool_query (fun _ d => Ok (List.filter (fun '(_, r) =>
    match lc_worker r with
    | Some w => match workers d !! w with
                | Some x => String.eqb (wo_status x) WorkerStatusDraining
                | None => false
                end
    | None => false
    end && is_live r
    && match lc_handoff_status r with None => true | Some _ => false end) (rows (live d)))).

(** ** Cleanup queries *)

Definition by_ended (a b : channel) : Prop :=
  default 0 (lc_ended_at a.2) <= default 0 (lc_ended_at b.2).
#[export] Instance by_ended_dec a b : Decision (by_ended a b).
Proof. unfold by_ended. apply _. Defined.

Definition ListEndedChannelsBefore (before limit : Z) : Mdb (list channel) :=
  pool_query (fun _ d => sql_limit limit (merge_sort by_ended (List.filter (fun '(_, r) =>
    is_ended r && match lc_ended_at r with Some t => t <? before | None => false end)
    (rows (live d))))).

Definition ListAllKnownChannelKeys : Mdb (list string) :=
  pool_query (fun _ d => Ok (map (fun '(_, r) => ChatStreamKey (lc_platform r) (lc_channel r))
    (rows (live d)))).

Definition ListActiveChannelKeys : Mdb (list string) :=
  pool_query (fun _ d => Ok (map (fun '(_, r) => ChatStreamKey (lc_platform r) (lc_channel r))
    (List.filter (fun '(_, r) => is_pending r || is_live r) (rows (live d))))).

(** ** Workers *)

Definition RegisterWorker (w : worker) : Mdb unit :=
  pool_exec (fun _ d => Ok (tt, set_workers (fun m =>
    <[w_ID w := WorkerRow (w_Status w) (w_MaxCapacity w)
       (match m !! w_ID w with Some x => wo_registered_at x | None => w_RegisteredAt w end)
       (w_LastHeartbeat w)]> m) d)).

Definition UpdateWorkerStatus (id status : string) : Mdb unit :=
  pool_exec (fun now d => Ok (tt, set_workers
    (alter (fun x => WorkerRow status (wo_max_capacity x) (wo_registered_at x) now) id) d)).

Definition worker_of (k : string) (x : worker_row) : worker :=
  Worker k (wo_status x) (wo_max_capacity x) (wo_registered_at x) (wo_last_heartbeat x).

Definition ListWorkersByStatus (status : string) : Mdb (list worker) :=
  pool_query (fun _ d => Ok (map (fun '(k, x) => worker_of k x)
    (List.filter (fun '(_, x) => String.eqb (wo_status x) status) (rows (workers d))))).

Definition ListAliveWorkers : Mdb (list worker) := ListWorkersByStatus WorkerStatusAlive.

Definition by_registered (a b : worker) : Prop := w_RegisteredAt b <= w_RegisteredAt a.
#[export] Instance by_registered_dec a b : Decision (by_registered a b).
Proof. unfold by_registered. apply _. Defined.

Definition ListAllWorkers : Mdb (list worker) :=
  pool_query (fun _ d => Ok (merge_sort by_registered
    (map (fun '(k, x) => worker_of k x) (rows (workers d))))).

(** [ON DELETE SET NULL] on the channels' worker. *)
Definition DeleteWorker (id : string) : Mdb unit :=
  pool_exec (fun _ d => Ok (tt,
    set_live (update_where (fun _ r => opt_eqb (lc_worker r) id) (with_worker None))
      (set_workers (delete id) d))).

(** ** Administration *)

Definition filtered (platform status : string) (r : live_row) : bool :=
  (is_empty platform || on_platform platform r) && (is_empty status || String.eqb (lc_status r) status).

Definition by_discovered (a b : channel) : Prop :=
  lc_discovered_at b.2 < lc_discovered_at a.2 \/
  (lc_discovered_at a.2 = lc_discovered_at b.2 /\ a.1 <= b.1).
#[export] Instance by_discovered_dec a b : Decision (by_discovered a b).
Proof. unfold by_discovered. apply _. Defined.

Definition ListChannelsFiltered (platform status sort : string) (page size : Z)
  : Mdb (list channel * Z) :=
  let page := if page <? 1 then 1 else page in
  let size := if (size <? 1) || (100 <? size) then 20 else size in
  total ← pool_query (fun _ d => Ok (countZ (fun _ r => filtered platform status r) (live d)));
  l ← pool_query (fun _ d =>
    let l := List.filter (fun '(_, r) => filtered platform status r) (rows (live d)) in
    let l := if String.eqb sort "discoveredAt" then merge_sort by_discovered l
             else merge_sort by_viewers l in
    Ok (take (Z.to_nat size) (drop (Z.to_nat ((page - 1) * size)) l)));
  mret (l, total).

Record PlatformStats := MkPlatformStats {
  ps_Platform : string; ps_LiveCount : Z; ps_PendingCount : Z; ps_EndedCount : Z;
  ps_TotalViewerCount : Z
}.

Definition platforms_of (d : database) : list string :=
  merge_sort String.le (elements (dom (list_to_map (M := gmap string unit)
    (map (fun '(_, r) => (lc_platform r, tt)) (rows (live d)))))).

Definition stats_of (d : database) (p : string) : PlatformStats :=
  MkPlatformStats p
    (countZ (fun _ r => on_platform p r && is_live r) (live d))
    (countZ (fun _ r => on_platform p r && is_pending r) (live d))
    (countZ (fun _ r => on_platform p r && is_ended r) (live d))
    (sumZ (fun '(_, r) => if on_platform p r && is_live r then lc_viewers r else 0) (rows (live d))).

Definition GetPlatformStats : Mdb (list PlatformStats) :=
  pool_query (fun _ d => Ok (map (stats_of d) (platforms_of d))).
End Store.
