(* ===== verification/ChannelsInv.v ===== *)
(** The invariant of the channel and worker tables, and what the upsert of a
    discovery cycle does to them. *)
From S2P Require Import Prelude GoLib Json Tx Model Db.
From S2P Require Import Ownership Channels.

Record row_ok (d : database) (r : live_row) : Prop := {
  ro_status : IsValidChannelStatus (lc_status r) = true;
  ro_worker : forall w, lc_worker r = Some w -> is_live r = true /\ workers d !! w <> None;
  ro_ended : is_ended r = true -> lc_ended_at r <> None
}.

Record live_inv (d : database) : Prop := {
  li_unique : forall i j r1 r2, live d !! i = Some r1 -> live d !! j = Some r2 ->
    lc_platform r1 = lc_platform r2 -> lc_channel r1 = lc_channel r2 -> i = j;
  li_seq : forall i r, live d !! i = Some r -> i < live_seq d;
  li_rows : forall i r, live d !! i = Some r -> row_ok d r
}.

Lemma live_inv_empty : live_inv empty_db.
Proof. split; intros *; simpl; rewrite ?lookup_empty; done. Qed.

Definition same_key (r r' : live_row) : Prop :=
  lc_platform r' = lc_platform r /\ lc_channel r' = lc_channel r.

(** Rows updated in place. *)
Lemma live_inv_update p f d :
  (forall i r, live d !! i = Some r -> p i r = true ->
     same_key r (f r) /\ (row_ok d r -> row_ok d (f r))) ->
  live_inv d -> live_inv (set_live (update_where p f) d).
Proof.
  intros Hf [I1 I2 I3].
  assert (forall i r', update_where p f (live d) !! i = Some r' -> exists r,
    live d !! i = Some r /\ same_key r r' /\ row_ok d r') as Hrow.
  { intros i r'. rewrite lookup_update_where_Some. intros (r & Hr & ->). exists r.
    split; [done|]. destruct (p i r) eqn:Ep.
    - destruct (Hf _ _ Hr Ep) as [K1 K2]. split; [done|]. by eapply K2, I3.
    - split; [done|]. by eapply I3. }
  split; simpl.
  - intros i j r1 r2 (s1 & H1 & [E1 E2] & _)%Hrow (s2 & H2 & [E3 E4] & _)%Hrow Ea Eb.
    eapply I1; [exact H1|exact H2|congruence|congruence].
  - intros i r (s & Hs & _)%Hrow. by eapply I2.
  - intros i r (s & _ & _ & Hok)%Hrow. destruct Hok. by split.
Qed.

Lemma alter_update_where {K A} `{Countable K} (f : A -> A) (k : K) (m : gmap K A) :
  alter f k m = update_where (fun i _ => bool_decide (i = k)) f m.
Proof.
  apply map_eq. intros i. rewrite lookup_alter, lookup_update_where.
  case_decide as E.
  - subst. rewrite bool_decide_true by done. by destruct (m !! i).
  - rewrite bool_decide_false by congruence. by destruct (m !! i).
Qed.

Lemma row_ok_ended d now r : row_ok d r -> row_ok d (with_ended now r).
Proof. intros _. by split. Qed.
Lemma row_ok_unassign d r : row_ok d r -> row_ok d (unassign r).
Proof. intros _. by split. Qed.
Lemma row_ok_assign d w r : known_worker w d = true -> row_ok d r ->
  row_ok d (with_assignment ChannelStatusLive (Some w) r).
Proof.
  intros Hw _. split; simpl; [done| |done]. intros w' [= <-]. split; [done|].
  unfold known_worker in Hw. by destruct (workers d !! w).
Qed.
Lemma row_ok_handoff d w from st at_ r :
  (forall x, w = Some x -> known_worker x d = true \/ lc_worker r = w) ->
  (w <> None -> is_live r = true) -> row_ok d r -> row_ok d (with_handoff w from st at_ r).
Proof.
  intros Hw Hl [R1 R2 R3]. split; simpl; [done| |done]. intros x Hx. subst w.
  split; [by apply Hl|]. destruct (Hw x eq_refl) as [Hk|Hk].
  - unfold known_worker in Hk. by destruct (workers d !! x).
  - by apply (R2 x).
Qed.

(** ** Discovery's upsert *)

Definition touched (c : discovered) (r : live_row) : bool :=
  same_channel (dc_Platform c) (dc_ChannelID c) r.

(** The row a discovered channel ends up as. *)
Definition shows (c : discovered) (now : Z) (r : live_row) : Prop :=
  touched c r = true /\ lc_streamer r = dc_StreamerName c /\ lc_viewers r = dc_ViewerCount c /\
  lc_last_seen_at r = now /\ is_ended r = false.

(** What an upsert never changes of a row. *)
Definition kept (r r' : live_row) : Prop :=
  same_key r r' /\ lc_worker r' = lc_worker r /\ lc_discovered_at r' = lc_discovered_at r /\
  (is_ended r = false -> lc_status r' = lc_status r) /\
  lc_handoff_from r' = lc_handoff_from r /\ lc_handoff_status r' = lc_handoff_status r.

Lemma kept_refl r : kept r r.
Proof. by repeat split. Qed.
Lemma kept_discovered c now r : kept r (with_discovered c now r).
Proof.
  repeat split; try done. unfold with_discovered; simpl. by intros ->.
Qed.
Lemma kept_trans r1 r2 r3 : kept r1 r2 -> kept r2 r3 -> kept r1 r3.
Proof.
  intros ([A1 A2] & A3 & A4 & A5 & A6 & A7) ([B1 B2] & B3 & B4 & B5 & B6 & B7).
  repeat split; try congruence. intros He. specialize (A5 He). rewrite <- A5. apply B5.
  unfold is_ended in *. by rewrite A5.
Qed.

Lemma same_channel_spec p c r : same_channel p c r = true <-> lc_platform r = p /\ lc_channel r = c.
Proof. unfold same_channel. by rewrite andb_true_iff, !String.eqb_eq. Qed.

Lemma find_channel_Some p c d id r : find_channel p c d = Some (id, r) ->
  live d !! id = Some r /\ same_channel p c r = true.
Proof.
  intros H. apply find_some in H as [H1 H2]. split; [|done].
  apply elem_of_map_to_list. by apply list_elem_of_In.
Qed.

Lemma find_channel_None p c d id r : find_channel p c d = None ->
  live d !! id = Some r -> same_channel p c r = false.
Proof.
  intros H Hr. pose proof (find_none _ _ H (id, r)) as Hn. apply Hn.
  apply list_elem_of_In. by apply elem_of_map_to_list.
Qed.

Lemma live_inv_seq d n : live_inv d -> live_seq d <= n -> live_inv (set_live_seq n d).
Proof.
  intros [I1 I2 I3] Hn. split; simpl; [done| |].
  - intros i r Hr. specialize (I2 _ _ Hr). lia.
  - intros i r Hr. destruct (I3 _ _ Hr). by split.
Qed.

Lemma live_inv_new_row now c d : live_inv d ->
  (forall id r, live d !! id = Some r -> touched c r = false) ->
  live_inv (set_live_seq (live_seq d + 1) (set_live (insert (live_seq d)
    (LiveRow (dc_Platform c) (dc_ChannelID c) (dc_StreamerName c) (dc_ViewerCount c)
       ChannelStatusPending None now now None None None None)) d)).
Proof.
  intros [I1 I2 I3] Hn. split; simpl.
  - intros i j r1 r2. rewrite !lookup_insert_Some.
    intros [[<- <-]|[Hi H1]] [[<- <-]|[Hj H2]]; simpl; intros E1 E2; [done| | |eauto].
    + specialize (Hn _ _ H2). exfalso.
      assert (touched c r2 = true) by (apply same_channel_spec; auto). congruence.
    + specialize (Hn _ _ H1). exfalso.
      assert (touched c r1 = true) by (apply same_channel_spec; auto). congruence.
  - intros i r. rewrite lookup_insert_Some. intros [[<- _]|[_ H]]; [lia|].
    specialize (I2 _ _ H). lia.
  - intros i r. rewrite lookup_insert_Some. intros [[_ <-]|[_ H]]; [by split|].
    destruct (I3 _ _ H). by split.
Qed.

Lemma row_ok_discovered d c now r : row_ok d r -> row_ok d (with_discovered c now r).
Proof.
  intros [R1 R2 R3]. unfold with_discovered.
  destruct (is_ended r) eqn:E; (split; [| |]); simpl; try done; unfold is_ended, is_live in *; simpl in *.
  - intros w Hw. destruct (R2 w Hw) as [Hl _]. apply String.eqb_eq in E, Hl.
    rewrite E in Hl. discriminate Hl.
  - congruence.
Qed.

Lemma insert_update_where {A} (m : gmap Z A) k a f : m !! k = Some a ->
  <[k := f a]> m = update_where (fun i _ => bool_decide (i = k)) f m.
Proof.
  intros Hm. apply map_eq. intros i. rewrite lookup_insert, lookup_update_where.
  case_decide as E.
  - subst. rewrite Hm. simpl. by rewrite bool_decide_true.
  - rewrite bool_decide_false by congruence. by destruct (m !! i).
Qed.

(** One row of the upsert. *)
Lemma upsert_row_spec now c d : live_inv d ->
  let d' := upsert_row now d c in
  live_inv d' /\ workers d' = workers d /\
  (forall id r, live d !! id = Some r ->
     live d' !! id = Some (if touched c r then with_discovered c now r else r)) /\
  (exists id r, live d' !! id = Some r /\ shows c now r) /\
  (forall id r, live d' !! id = Some r -> live d !! id = None ->
     shows c now r /\ is_pending r = true /\ lc_worker r = None).
Proof.
  intros I. unfold upsert_row.
  destruct (find_channel (dc_Platform c) (dc_ChannelID c) d) as [[id0 r0]|] eqn:Ef; simpl.
  - apply find_channel_Some in Ef as [H0 Hs]. split; [|split; [done|split; [|split]]].
    + apply (live_inv_seq (set_live (insert id0 (with_discovered c now r0)) d)); [|simpl; lia].
      unfold set_live. rewrite (insert_update_where _ _ _ _ H0).
      apply (live_inv_update (fun i _ => bool_decide (i = id0)) (with_discovered c now)); [|done].
      intros i r _ _. split; [by repeat split|apply row_ok_discovered].
    + intros id r Hr. rewrite lookup_insert. case_decide as E.
      * subst id. rewrite Hr in H0. injection H0 as <-. unfold touched. by rewrite Hs.
      * destruct (touched c r) eqn:Et; [|done]. exfalso. apply E.
        apply same_channel_spec in Hs as [Hs1 Hs2]. apply same_channel_spec in Et as [Et1 Et2].
        eapply (li_unique _ I); [exact H0|exact Hr|congruence|congruence].
    + exists id0. eexists. rewrite lookup_insert_eq. split; [done|].
      unfold shows, with_discovered, touched, is_ended in *; simpl.
      repeat split; try done. destruct (String.eqb (lc_status r0) ChannelStatusEnded) eqn:E; done.
    + intros id r Hr Hn. rewrite lookup_insert_ne in Hr by congruence. congruence.
  - split; [|split; [done|split; [|split]]].
    + apply live_inv_new_row; [done|]. intros id r Hr. by eapply find_channel_None.
    + intros id r Hr. rewrite lookup_insert_ne.
      * pose proof (find_channel_None _ _ _ _ _ Ef Hr) as Hn. unfold touched. by rewrite Hn.
      * pose proof (li_seq _ I _ _ Hr). lia.
    + eexists _, _. rewrite lookup_insert_eq. split; [done|].
      unfold shows, touched, same_channel; simpl. by rewrite !String.eqb_refl.
    + intros id r Hr Hn. apply lookup_insert_Some in Hr as [[_ <-]|[_ Hr]]; [|congruence].
      unfold shows, touched, same_channel; simpl. by rewrite !String.eqb_refl.
Qed.

Definition keys_distinct (l : list discovered) : Prop := NoDup (map discovered_key l).

Lemma touched_key c1 c2 r : touched c1 r = true -> touched c2 r = true ->
  discovered_key c1 = discovered_key c2.
Proof.
  intros [A1 A2]%same_channel_spec [B1 B2]%same_channel_spec. unfold discovered_key. congruence.
Qed.

Lemma touched_kept c r r' : kept r r' -> touched c r' = touched c r.
Proof. intros ([E1 E2] & _). unfold touched, same_channel. by rewrite E1, E2. Qed.

Lemma fold_upsert now l d : live_inv d -> keys_distinct l ->
  let d' := fold_left (upsert_row now) l d in
  live_inv d' /\
  (forall id r, live d !! id = Some r -> exists r', live d' !! id = Some r' /\ kept r r' /\
     ((forall c, c ∈ l -> touched c r = false) -> r' = r)) /\
  (forall c, c ∈ l -> exists id r, live d' !! id = Some r /\ shows c now r) /\
  (forall id r, live d' !! id = Some r -> live d !! id = None ->
     is_pending r = true /\ lc_worker r = None).
Proof.
  revert d; induction l as [|c l IH]; intros d I Hk; simpl.
  { split; [done|]. split; [eauto using kept_refl|]. split; [by intros c Hc%elem_of_nil|].
    intros id r H1 H2. congruence. }
  apply NoDup_cons in Hk as [Hc Hk].
  destruct (upsert_row_spec now c d I) as (I1 & _ & Hold & (id0 & r0 & H0 & Hs0) & Hnew).
  destruct (IH _ I1 Hk) as (I2 & Hold2 & Hall2 & Hnew2). split; [done|]. split; [|split].
  - intros id r Hr. destruct (Hold2 _ _ (Hold _ _ Hr)) as (r' & Hr' & Hkept & Heq).
    exists r'. split; [done|]. split.
    + destruct (touched c r) eqn:Et; [|done]. eapply kept_trans; [apply kept_discovered|done].
    + intros Hn. rewrite (Hn c) in Heq by (by left). apply Heq. intros c' Hc'. apply Hn. by right.
  - intros c' [->|Hc']%elem_of_cons; [|by apply Hall2].
    destruct (Hold2 _ _ H0) as (r' & Hr' & _ & Heq). exists id0, r'. split; [done|].
    rewrite Heq; [done|]. intros c' Hc'. apply not_true_is_false. intros Ht.
    apply Hc. destruct Hs0 as [Ht0 _].
    rewrite (touched_key _ _ _ Ht0 Ht). apply list_elem_of_fmap. eauto.
  - intros id r Hr Hn. destruct (live (upsert_row now d c) !! id) as [r1|] eqn:E1.
    + destruct (Hnew _ _ E1 Hn) as (_ & Hp & Hw).
      destruct (Hold2 _ _ E1) as (r' & Hr' & (_ & Kw & _ & Ks & _) & _).
      rewrite Hr in Hr'. injection Hr' as <-. rewrite Kw. split; [|done].
      unfold is_pending, is_ended in *. apply String.eqb_eq in Hp. rewrite Hp in Ks.
      by rewrite (Ks eq_refl).
    + by apply (Hnew2 id r).
Qed.

(** ** The deduplication of the batch *)

Lemma replace_key_spec c l l' : replace_key c l = Some l' ->
  map discovered_key l' = map discovered_key l /\
  (forall x, x ∈ l' <-> x = c \/ (x ∈ l /\ discovered_key x <> discovered_key c)) \/
  ~ NoDup (map discovered_key l).
Proof.
  revert l'; induction l as [|x l IH]; intros l'; simpl; [done|].
  destruct (String.eqb (discovered_key c) (discovered_key x)) eqn:E.
  - intros [= <-]. apply String.eqb_eq in E.
    destruct (decide (NoDup (discovered_key x :: map discovered_key l))) as [Hn|]; [left|by right].
    simpl. split; [by rewrite E|]. intros y. rewrite !elem_of_cons. split.
    + intros [->|Hy]; [by left|]. right. split; [by right|]. intros Ey.
      apply NoDup_cons in Hn as [Hn _]. apply Hn. rewrite <- E, <- Ey. apply list_elem_of_fmap. eauto.
    + intros [->|[[->|Hy] Hne]]; [by left|congruence|by right].
  - destruct (replace_key c l) as [l2|] eqn:E2; [|done]. intros [= <-].
    apply String.eqb_neq in E.
    destruct (IH _ eq_refl) as [[H1 H2]|Hn].
    + left. simpl. rewrite H1. split; [done|]. intros y. rewrite !elem_of_cons, H2.
      split; [intros [->|[->|[? ?]]]; auto|]. intros [->|[[->|?] ?]]; auto.
    + right. intros Hd. apply Hn. by apply NoDup_cons in Hd as [_ ?].
Qed.

Lemma replace_key_None c l : replace_key c l = None -> discovered_key c ∉ map discovered_key l.
Proof.
  induction l as [|x l IH]; simpl; [intros _ H; by apply elem_of_nil in H|].
  destruct (String.eqb (discovered_key c) (discovered_key x)) eqn:E; [done|].
  apply String.eqb_neq in E. destruct (replace_key c l); [done|].
  intros _ [H|H]%elem_of_cons; [done|]. by apply IH.
Qed.

(** The batch holds, per key, the last channel of that key. *)
Lemma dedup_spec l : keys_distinct (dedup l) /\
  forall c, c ∈ dedup l <-> exists pre post, l = pre ++ c :: post /\
    forall x, x ∈ post -> discovered_key x <> discovered_key c.
Proof.
  unfold dedup. induction l as [|x l [IH1 IH2]] using rev_ind; simpl.
  { split; [constructor|]. intros c. split; [by intros ?%elem_of_nil|].
    intros ([|? ?] & post & E & _); discriminate E. }
  rewrite fold_left_app; simpl. set (acc := fold_left dedup_step l []) in *. unfold dedup_step.
  assert (forall c, (exists pre post, l ++ [x] = pre ++ c :: post /\
      forall y, y ∈ post -> discovered_key y <> discovered_key c) <->
    c = x \/ ((exists pre post, l = pre ++ c :: post /\
      forall y, y ∈ post -> discovered_key y <> discovered_key c) /\
      discovered_key x <> discovered_key c)) as Hchar.
  { intros c. split.
    - intros (pre & post & E & Hp). destruct post as [|y post] using rev_ind.
      + apply app_inj_tail in E as [_ ->]. by left.
      + right. rewrite app_comm_cons, app_assoc in E. apply app_inj_tail in E as [-> ->].
        split; [|apply Hp; set_solver]. exists pre, post. split; [done|]. intros z Hz. apply Hp. set_solver.
    - intros [->|[(pre & post & -> & Hp) Hx]].
      + exists l, []. split; [done|]. by intros y ?%elem_of_nil.
      + exists pre, (post ++ [x]). split; [by rewrite <- app_assoc|].
        intros y [Hy| ->%list_elem_of_singleton]%elem_of_app; auto. }
  destruct (replace_key x acc) as [l'|] eqn:E.
  - destruct (replace_key_spec _ _ _ E) as [[H1 H2]|Hn]; [|done].
    split; [unfold keys_distinct; by rewrite H1|]. intros c. rewrite Hchar, H2, IH2.
    split; intros [?|[? ?]]; auto.
  - apply replace_key_None in E. split.
    + unfold keys_distinct. rewrite map_app. apply NoDup_app. split; [done|]. split.
      * intros y Hy ->%list_elem_of_singleton. done.
      * apply NoDup_singleton.
    + intros c. rewrite Hchar, elem_of_app, list_elem_of_singleton, IH2. split.
      * intros [Hc| ->]; [|by left]. right. split; [done|]. intros Ek. apply E. rewrite Ek.
        apply list_elem_of_fmap. exists c. split; [done|]. by apply IH2.
      * intros [->|[Hc _]]; [by right|by left].
Qed.
