(* ===== verification/ChannelsProps.v ===== *)
(** The properties of the channel and worker tables. *)
From S2P Require Import Prelude GoLib Json Tx Model Db.
From S2P Require Import Ownership Channels ChannelsInv.

Inductive chan_op : Type :=
| ChUpsert (cs : list discovered)
| ChMarkEnded (platform : string) (active : list string)
| ChEnd (id : Z)
| ChAssign (scope : option string) (id : Z) (w : string)
| ChUnassignWorker (w : string)
| ChUnassign (platform c w : string)
| ChUnassignDead
| ChReassign (scope : option string) (id : Z) (new old : string)
| ChAck (platform c : string)
| ChClear (id : Z)
| ChRegister (w : worker)
| ChStatus (id status : string)
| ChDelete (id : string).

Definition drop_result {A} (m : Mdb A) : Mdb unit := m ≫= fun _ => mret tt.

Definition chan_run (o : chan_op) : Mdb unit :=
  match o with
  | ChUpsert cs => UpsertLiveChannels cs
  | ChMarkEnded p l => drop_result (MarkEndedChannels p l)
  | ChEnd id => MarkChannelEnded id
  | ChAssign sc id w => AssignChannel sc id w
  | ChUnassignWorker w => UnassignWorkerChannels w
  | ChUnassign p c w => UnassignChannel p c w
  | ChUnassignDead => drop_result UnassignDeadWorkerChannels
  | ChReassign sc id n o => drop_result (ReassignChannel sc id n o)
  | ChAck p c => AckHandoff p c
  | ChClear id => ClearHandoff id
  | ChRegister w => RegisterWorker w
  | ChStatus id st => UpdateWorkerStatus id st
  | ChDelete id => DeleteWorker id
  end.

Fixpoint chan_runs (l : list chan_op) (e : env) (s : world database) : world database :=
  match l with [] => s | o :: l => chan_runs l e (chan_run o e s).2 end.

(** ** The invariant *)

Definition keeps_inv {A} (m : Mdb A) : Prop := keeps (fun _ s => live_inv (db s)) m.

Lemma keeps_exec {A} (f : Z -> database -> result (A * database)) :
  (forall t d a d', live_inv d -> f t d = Ok (a, d') -> live_inv d') -> keeps_inv (pool_exec f).
Proof.
  intros Hf e s I. destruct (pool_exec f e s) as [r s'] eqn:H.
  apply pool_exec_after in H as [_ [[E _]|(a & d & E & Ed & _)]]; cbn; [by rewrite E|rewrite Ed; by eapply Hf].
Qed.

Lemma keeps_drop {A} (m : Mdb A) : keeps_inv m -> keeps_inv (drop_result m).
Proof. intros H. apply keeps_bind; [done|]. intros a. by intros e s I. Qed.

Lemma keeps_update (p : database -> Z -> live_row -> bool) (f : Z -> live_row -> live_row) :
  (forall d t i r, live d !! i = Some r -> p d i r = true ->
     same_key r (f t r) /\ (row_ok d r -> row_ok d (f t r))) ->
  keeps_inv (pool_exec (fun t d => Ok (tt, set_live (update_where (p d) (f t)) d))).
Proof.
  intros Hf. apply keeps_exec. intros t d u d' I [= _ <-]. apply live_inv_update; [|done].
  intros i r. apply Hf.
Qed.

Lemma live_inv_to_worker w p f d n d' :
  (forall r, same_key r (f r)) ->
  (forall i r, known_worker w d = true -> live d !! i = Some r -> p i r = true ->
     row_ok d r -> row_ok d (f r)) ->
  update_to_worker w p f d = Ok (n, d') -> live_inv d -> live_inv d'.
Proof.
  intros Hk Hf H I. unfold update_to_worker in H.
  destruct ((0 <? countZ p (live d)) && negb (known_worker w d)) eqn:E; [done|].
  injection H as _ <-. apply live_inv_update; [|done]. intros i r Hr Hp. split; [apply Hk|].
  intros Hok. apply (Hf i); try done. apply andb_false_iff in E as [E|E].
  - exfalso. apply Z.ltb_ge in E. unfold countZ, count_where in E.
    assert ((i, r) ∈ filter (fun '(k, a) => Is_true (p k a)) (rows (live d))) as Hin.
    { apply list_elem_of_filter. rewrite Hp. split; [done|]. by apply elem_of_map_to_list. }
    destruct (filter _ _); [by apply elem_of_nil in Hin|]. simpl in E. lia.
  - by apply negb_false_iff in E.
Qed.

Lemma row_ok_workers d m r :
  (forall w, lc_worker r = Some w -> workers d !! w <> None -> m !! w <> None) ->
  row_ok d r -> row_ok (set_workers (fun _ => m) d) r.
Proof.
  intros Hm [R1 R2 R3]. split; [done| |done]. intros w Hw. destruct (R2 w Hw) as [? ?].
  split; [done|]. simpl. auto.
Qed.

Lemma live_inv_workers d m :
  (forall w, workers d !! w <> None -> m !! w <> None) ->
  live_inv d -> live_inv (set_workers (fun _ => m) d).
Proof.
  intros Hm [I1 I2 I3]. split; simpl; [done|done|]. intros i r Hr.
  apply row_ok_workers; [auto|]. by eapply I3.
Qed.

Lemma live_inv_delete d id : live_inv d ->
  live_inv (set_live (update_where (fun _ r => opt_eqb (lc_worker r) id) (with_worker None))
              (set_workers (delete id) d)).
Proof.
  intros I.
  assert (live_inv (set_live (update_where (fun _ r => opt_eqb (lc_worker r) id) (with_worker None)) d))
    as [J1 J2 J3].
  { apply live_inv_update; [|done]. intros i r Hr _. split; [by repeat split|].
    intros [R1 R2 R3]. by split. }
  split; simpl; [done|done|]. intros i r Hr.
  apply (row_ok_workers (set_live _ d) (delete id (workers d))); [|by eapply J3].
  intros w Hw Hk. simpl in *. apply lookup_update_where_Some in Hr as (r0 & Hr0 & ->).
  rewrite lookup_delete_ne; [done|]. intros <-. simpl in Hw.
  destruct (opt_eqb (lc_worker r0) id) eqn:E; [done|]. rewrite Hw in E. simpl in E.
  by rewrite String.eqb_refl in E.
Qed.

Lemma keeps_Upsert cs : keeps_inv (UpsertLiveChannels cs).
Proof.
  unfold UpsertLiveChannels. destruct cs as [|c cs]; [by intros e s I|].
  apply keeps_exec. intros t d u d' I [= _ <-].
  apply fold_upsert; [done|]. apply dedup_spec.
Qed.

Lemma keeps_chan_run o : keeps_inv (chan_run o).
Proof.
  destruct o; simpl.
  - apply keeps_Upsert.
  - apply keeps_drop, keeps_exec. intros t d u d' I [= _ <-].
    apply live_inv_update; [|done]. intros i r _ _. split; [by repeat split|apply row_ok_ended].
  - apply keeps_exec. intros t d u d' I [= _ <-]. unfold set_live. rewrite alter_update_where.
    apply (live_inv_update (fun i _ => bool_decide (i = id))); [|done].
    intros i r _ _. split; [by repeat split|apply row_ok_ended].
  - unfold AssignChannel. destruct scope.
    + apply keeps_bind; [|intros n e s0 I; unfold guard_ok; destruct (n =? 1); exact I].
      apply keeps_exec. intros t d n d' I H. eapply live_inv_to_worker; [| |exact H|done].
      * by repeat split.
      * intros. by apply row_ok_assign.
    + apply keeps_exec. intros t d n d' I H. apply result_bind_ok in H as ([n' d2] & H & [= _ <-]).
      eapply live_inv_to_worker; [| |exact H|done].
      * by repeat split.
      * intros. by apply row_ok_assign.
  - apply (keeps_update (fun _ _ r => _) (fun _ => unassign)).
    intros. split; [by repeat split|apply row_ok_unassign].
  - apply (keeps_update (fun _ _ r => _) (fun _ => unassign)).
    intros. split; [by repeat split|apply row_ok_unassign].
  - apply keeps_drop, keeps_exec. intros t d u d' I [= _ <-].
    apply live_inv_update; [|done]. intros i r _ _. split; [by repeat split|apply row_ok_unassign].
  - apply keeps_drop. unfold ReassignChannel. destruct scope; [intros e s0 I; exact I|].
    apply keeps_bind; [|intros n e s0 I; exact I].
    apply keeps_exec. intros t d n d' I H. eapply live_inv_to_worker; [| |exact H|done].
    + by repeat split.
    + intros i r Hk Hr Hp. simpl in Hp. b2p. apply row_ok_handoff; [|done].
      intros x [= <-]. by left.
  - apply (keeps_update (fun _ _ r => _) (fun _ r => with_handoff (lc_worker r) _ _ _ r)).
    intros d t i r Hr _. split; [by repeat split|]. intros Hok.
    apply row_ok_handoff; [auto| |done]. destruct (lc_worker r) eqn:E; [|done].
    intros _. by eapply (ro_worker _ _ Hok).
  - apply (keeps_update (fun _ i r => _) (fun _ r => with_handoff (lc_worker r) _ _ _ r)).
    intros d t i r Hr _. split; [by repeat split|]. intros Hok.
    apply row_ok_handoff; [auto| |done]. destruct (lc_worker r) eqn:E; [|done].
    intros _. by eapply (ro_worker _ _ Hok).
  - apply keeps_exec. intros t d u d' I [= _ <-].
    apply (live_inv_workers d (<[_:=_]> (workers d))); [|done].
    intros x Hx. rewrite lookup_insert. by case_decide.
  - apply keeps_exec. intros t d u d' I [= _ <-].
    apply (live_inv_workers d (alter _ _ (workers d))); [|done].
    intros x Hx. rewrite lookup_alter. case_decide; [|done]. subst. by destruct (workers d !! x).
  - apply keeps_exec. intros t d u d' I [= _ <-]. by apply live_inv_delete.
Qed.

(** C16: in every database the discovery, assignment, drain and worker
    operations can reach, whatever fails: a channel has one row, every status
    is one of the three, only live channels have a worker, every assigned
    worker exists, and ended channels know when they ended. *)
Theorem channels_always_consistent l e s : live_inv (db s) -> live_inv (db (chan_runs l e s)).
Proof.
  revert s; induction l as [|o l IH]; intros s I; [done|]. simpl. apply IH.
  by apply (keeps_chan_run o e s).
Qed.

(** An upsert of a discovery batch leaves every channel of the batch
    with one row that is not ended and shows the last entry of the batch for
    it; it never changes a row's worker, its first discovery or its handoff,
    nor the status of a row that was not ended, nor any row outside the
    batch; new rows are pending and unassigned. *)
Theorem upsert_effect cs e s u s' : live_inv (db s) ->
  UpsertLiveChannels cs e s = (Ok u, s') ->
  (forall pre c post, cs = pre ++ c :: post ->
     (forall x, x ∈ post -> discovered_key x <> discovered_key c) ->
     exists id r now, live (db s') !! id = Some r /\ shows c now r) /\
  (forall id r, live (db s) !! id = Some r -> exists r', live (db s') !! id = Some r' /\
     kept r r' /\ ((forall c, c ∈ cs -> touched c r = false) -> r' = r)) /\
  (forall id r, live (db s') !! id = Some r -> live (db s) !! id = None ->
     is_pending r = true /\ lc_worker r = None).
Proof.
  intros I H. unfold UpsertLiveChannels in H. destruct cs as [|c0 cs].
  { injection H as <- <-. split; [intros [|? ?] c post E; discriminate E|].
    split; [eauto using kept_refl|]. intros id r H1 H2. congruence. }
  inv_run H. match goal with E : Ok _ = Ok _ |- _ => injection E as _ <- | _ => idtac end. simplify_eq.
  cbn [db]. destruct (dedup_spec (c0 :: cs)) as [Hk Hd].
  destruct (fold_upsert (clock e (tick s)) (dedup (c0 :: cs)) (db s) I Hk) as (_ & H1 & H2 & H3).
  split; [|split].
  - intros pre c post E Hp. destruct (H2 c) as (id & r & Hr & Hs); [apply Hd; eauto|]. eauto.
  - intros id r Hr. destruct (H1 _ _ Hr) as (r' & Hr' & Hkp & Heq).
    exists r'. split; [done|]. split; [done|]. intros Hn. apply Heq. intros c Hc. apply Hn.
    apply Hd in Hc as (pre & post & -> & _). set_solver.
  - exact H3.
Qed.

#[export] Instance by_viewers_trans : Transitive by_viewers.
Proof. intros a b c. unfold by_viewers. lia. Qed.
#[export] Instance by_viewers_total : Total by_viewers.
Proof. intros a b. unfold by_viewers. lia. Qed.

(** The channels offered for assignment are pending, unassigned rows
    that may be collected (in scope and subscribed, with no active opt-out),
    at most [limit] of them, and none of them has fewer viewers than an
    eligible channel that was left out. *)
Theorem pending_channels_eligible scope limit e s l s' :
  ListPendingChannels scope limit e s = (Ok l, s') ->
  Z.of_nat (length l) <= limit /\
  (forall id r, (id, r) ∈ l -> live (db s) !! id = Some r /\ is_pending r = true /\
     lc_worker r = None /\ collectable scope (db s) r = true /\
     opted_out (db s) (lc_platform r) (lc_channel r) = false) /\
  (forall id r, live (db s) !! id = Some r -> is_pending r = true -> lc_worker r = None ->
     collectable scope (db s) r = true -> (id, r) ∈ l \/
     (Z.of_nat (length l) = limit /\ forall p, p ∈ l -> lc_viewers r <= lc_viewers p.2)).
Proof.
  unfold ListPendingChannels. intros H. inv_run H. unfold sql_limit in *.
  destruct (limit <? 0) eqn:El; [done|]. b2p. simplify_eq.
  set (p := fun _ => _) in *. set (all := select_live p (db s)).
  assert (forall id r, (id, r) ∈ all <-> live (db s) !! id = Some r /\ is_pending r = true /\
    lc_worker r = None /\ collectable scope (db s) r = true) as Hall.
  { intros id r. unfold all, select_live. rewrite merge_sort_Permutation, list_elem_of_In, filter_In.
    rewrite <- list_elem_of_In. unfold rows. rewrite elem_of_map_to_list. unfold p.
    rewrite !andb_true_iff. unfold unassigned. destruct (lc_worker r); intuition congruence. }
  split; [rewrite length_take; lia|]. split.
  - intros id r Hin. apply elem_of_take in Hin as (i & Hi & _).
    apply list_elem_of_lookup_2 in Hi. apply Hall in Hi as (H1 & H2 & H3 & H4).
    repeat split; try done. unfold collectable in H4. destruct scope; b2p; [|done].
    unfold on_platform in *. b2p. congruence.
  - intros id r H1 H2 H3 H4. assert ((id, r) ∈ all) as Hin by (by apply Hall).
    rewrite <- (firstn_skipn (Z.to_nat limit) all) in Hin.
    apply elem_of_app in Hin as [?|Hin]; [by left|]. right.
    assert (Z.to_nat limit < length all)%nat as Hlen.
    { destruct (decide (length all <= Z.to_nat limit)%nat) as [Hle|]; [|lia].
      rewrite skipn_all2 in Hin by done. by apply elem_of_nil in Hin. }
    split; [rewrite length_take; lia|]. intros q Hq.
    assert (StronglySorted by_viewers all) as Hs.
    { apply Sorted_StronglySorted; [apply _|]. unfold all, select_live. apply Sorted_merge_sort, _. }
    rewrite <- (firstn_skipn (Z.to_nat limit) all) in Hs.
    pose proof (StronglySorted_app_1_elem_of _ _ _ _ _ Hs Hq Hin) as Hb.
    unfold by_viewers in Hb. simpl in Hb. lia.
Qed.

(** An unassignment names the worker it is for and returns the channel
    to the pending state only while that worker still has it; every other row
    stays as it is, in particular one that was given to another worker. *)
Theorem unassign_guarded p c w e s u s' : live_inv (db s) ->
  UnassignChannel p c w e s = (Ok u, s') ->
  forall id r, live (db s) !! id = Some r ->
    live (db s') !! id =
      Some (if same_channel p c r && opt_eqb (lc_worker r) w then unassign r else r) /\
    workers (db s') = workers (db s).
Proof.
  intros I H id r Hr. unfold UnassignChannel in H. inv_run H. simplify_eq. simpl. split; [|done].
  rewrite lookup_update_where, Hr. simpl. f_equal.
  destruct (same_channel p c r && opt_eqb (lc_worker r) w) eqn:E; [|done]. simpl.
  apply andb_true_iff in E as [_ E]. unfold opt_eqb in E.
  destruct (lc_worker r) as [w'|] eqn:Ew; [|done].
  destruct (li_rows _ I _ _ Hr) as [_ R2 _]. destruct (R2 _ Ew) as [Hl _].
  unfold is_live, is_ended in *. apply String.eqb_eq in Hl. by rewrite Hl.
Qed.

(** ** The properties at a concrete run *)

Module ChanDemo.
Definition e : env :=
  Env (fun _ => false) (fun _ => false) (fun n => 1700000000 * second + Z.of_nat n * millisecond)
      (fun n => 1700000000 * second + Z.of_nat n * millisecond) (fun n => "uuid"%string).
Definition start : world database := World empty_db empty_db 0.
Definition batch : list discovered :=
  [Discovered "soop" "bj1" "old name" 5; Discovered "chzzk" "c1" "other" 7;
   Discovered "soop" "bj1" "name" 12].
Definition setup : list chan_op :=
  [ChRegister (Worker "w1" WorkerStatusAlive 100 0 0); ChUpsert batch; ChAssign None 1 "w1"].
Definition s : world database := chan_runs setup e start.
End ChanDemo.

Lemma demo_live_inv l : live_inv (db (chan_runs l ChanDemo.e ChanDemo.start)).
Proof.
  assert (forall s, live_inv (db s) -> live_inv (db (chan_runs l ChanDemo.e s))) as H.
  { induction l as [|o l IH]; intros s I; [done|]. apply IH. by apply (keeps_chan_run o). }
  apply H, live_inv_empty.
Qed.

Lemma channels_always_consistent_witness : live_inv (db ChanDemo.s).
Proof. apply channels_always_consistent. apply live_inv_empty. Defined.

Lemma upsert_effect_witness : exists s',
  UpsertLiveChannels ChanDemo.batch ChanDemo.e ChanDemo.s = (Ok tt, s') /\
  exists id r now, live (db s') !! id = Some r /\ shows (Discovered "soop" "bj1" "name" 12) now r.
Proof.
  assert (is_ok (UpsertLiveChannels ChanDemo.batch ChanDemo.e ChanDemo.s).1 = true) as Hok
    by (vm_compute; reflexivity).
  destruct (UpsertLiveChannels ChanDemo.batch ChanDemo.e ChanDemo.s) as [[u|] s'] eqn:E;
    [|discriminate Hok].
  destruct u. exists s'. split; [reflexivity|].
  destruct (upsert_effect ChanDemo.batch ChanDemo.e ChanDemo.s tt s') as (H & _);
    [apply demo_live_inv|exact E|].
  apply (H [Discovered "soop" "bj1" "old name" 5; Discovered "chzzk" "c1" "other" 7]%string _ []).
  - reflexivity.
  - intros x Hx. apply elem_of_nil in Hx. destruct Hx.
Defined.

Lemma pending_channels_eligible_witness : exists l s',
  ListPendingChannels None 10 ChanDemo.e ChanDemo.s = (Ok l, s') /\ Z.of_nat (length l) <= 10.
Proof.
  assert (is_ok (ListPendingChannels None 10 ChanDemo.e ChanDemo.s).1 = true) as Hok
    by (vm_compute; reflexivity).
  destruct (ListPendingChannels None 10 ChanDemo.e ChanDemo.s) as [[l|] s'] eqn:E;
    [|discriminate Hok].
  exists l, s'. split; [reflexivity|].
  destruct (pending_channels_eligible None 10 ChanDemo.e ChanDemo.s l s' E) as (H & _). exact H.
Defined.

Lemma unassign_guarded_witness : exists r s',
  live (db ChanDemo.s) !! 1 = Some r /\
  UnassignChannel "soop" "bj1" "w2" ChanDemo.e ChanDemo.s = (Ok tt, s') /\
  live (db s') !! 1 = Some r.
Proof.
  assert (is_ok (UnassignChannel "soop" "bj1" "w2" ChanDemo.e ChanDemo.s).1 = true) as Hok
    by (vm_compute; reflexivity).
  destruct (UnassignChannel "soop" "bj1" "w2" ChanDemo.e ChanDemo.s) as [[u|] s'] eqn:E;
    [|discriminate Hok].
  destruct u.
  assert (match live (db ChanDemo.s) !! 1 with
          | Some r => same_channel "soop" "bj1" r && opt_eqb (lc_worker r) "w2" = false
          | None => False end) as Hr by (vm_compute; reflexivity).
  destruct (live (db ChanDemo.s) !! 1) as [r|] eqn:El; [|destruct Hr].
  exists r, s'. split; [reflexivity|]. split; [reflexivity|].
  destruct (unassign_guarded "soop" "bj1" "w2" ChanDemo.e ChanDemo.s tt s'
    (demo_live_inv _) E 1 r El) as [H _].
  rewrite Hr in H. exact H.
Defined.
