(* ===== verification/History.v ===== *)
(** Broadcast history in PostgreSQL (src/shared/store/history_store.go,
    postgres_history.go): the sessions of a channel, the metadata intervals
    of a session, and the upsert that numbers sessions. Statements run outside
    a transaction, as the emitter calls them. *)
From S2P Require Import Prelude GoLib Json Tx Model Db Journal.
From S2P Require Import Channels Archive.

(** broadcast_sessions, keyed as in Archive.v by (started_at, platform,
    channel_id, session_seq); the archive reads some of its columns. *)
Record session_columns := SessionColumns {
  hs_streamer : string;
  hs_title : string;
  hs_category : string;
  hs_started_observed_at : Z;
  hs_ended_at : option Z;
  hs_ended_observed_at : option Z;
  hs_first_seen_at : Z;
  hs_last_seen_at : Z;
  hs_peak : Z;
  hs_instance : string;
  hs_close_reason : option string;
  hs_gap : bool
}.

(** broadcast_metadata_history, keyed by (valid_from, platform, channel_id, session_seq) *)
Record metadata_columns := MetadataColumns {
  hm_title : string;
  hm_category : string;
  hm_category_code : string;
  hm_tags : list string;
  hm_thumbnail : string;
  hm_hash : string;
  hm_valid_to : option Z;
  hm_observed_at : Z;
  hm_instance : string
}.

(** The tables of the store, current_session_seq by the id of a live channel,
    and the history. *)
Record history := History {
  main : database;
  seqs : gmap Z Z;
  b_sessions : gmap broadcast_key session_columns;
  b_metadata : gmap broadcast_key metadata_columns
}.
Definition set_main (d : database) (h : history) : history := History d (seqs h) (b_sessions h) (b_metadata h).
Definition set_b_sessions (f : gmap broadcast_key session_columns -> gmap broadcast_key session_columns)
    (h : history) : history := History (main h) (seqs h) (f (b_sessions h)) (b_metadata h).
Definition set_b_metadata (f : gmap broadcast_key metadata_columns -> gmap broadcast_key metadata_columns)
    (h : history) : history := History (main h) (seqs h) (b_sessions h) (f (b_metadata h)).
Notation Mhist := (M history).

(** The columns the archive's append and its session list read. *)
Definition archive_columns (s : session_columns) : broadcast_row :=
  BroadcastRow (hs_started_observed_at s) (hs_last_seen_at s) (hs_ended_at s) (hs_ended_observed_at s)
    (Some (hs_title s)) (hs_gap s).
Definition archive_broadcasts (h : history) : gmap broadcast_key broadcast_row :=
  archive_columns <$> b_sessions h.

Record BroadcastSession := MkBroadcast {
  br_StartedAt : Z; br_Platform : string; br_ChannelID : string; br_SessionSeq : Z;
  br_StreamerName : string; br_Title : string; br_Category : string;
  br_StartedObservedAt : Z; br_EndedAt : option Z; br_EndedObservedAt : option Z;
  br_FirstSeenAt : Z; br_LastSeenAt : Z; br_PeakViewerCount : Z; br_InstanceID : string;
  br_CloseReason : option string; br_GapDetected : bool
}.

Record MetadataHistoryRow := MkMetadata {
  mh_ValidFrom : Z; mh_Platform : string; mh_ChannelID : string; mh_SessionSeq : Z;
  mh_Title : string; mh_Category : string; mh_CategoryCode : string; mh_Tags : list string;
  mh_ThumbnailURL : string; mh_MetadataHash : string; mh_ObservedAt : Z; mh_InstanceID : string
}.

(** [varchar(n)], [text] and [int] columns. *)
Definition fits (n : Z) (s : string) : bool := pg_text s && (char_count s <=? n).
Definition int4 (n : Z) : bool := (-2147483648 <=? n) && (n <=? 2147483647).

(** ** Sessions *)

Definition InsertSession (s : BroadcastSession) : Mhist unit :=
  pool_exec (fun _ h =>
    let k := (br_StartedAt s, br_Platform s, br_ChannelID s, br_SessionSeq s) in
    if negb (fits 10 (br_Platform s) && fits 100 (br_ChannelID s) && fits 200 (br_StreamerName s)
             && pg_text (br_Title s) && pg_text (br_Category s) && fits 50 (br_InstanceID s)
             && int4 (br_PeakViewerCount s))
       || bool_decide (is_Some (b_sessions h !! k))
    then Err ErrDriver
    else Ok (tt, set_b_sessions (insert k (SessionColumns (br_StreamerName s) (br_Title s) (br_Category s)
      (br_StartedObservedAt s) None None (br_FirstSeenAt s) (br_LastSeenAt s) (br_PeakViewerCount s)
      (br_InstanceID s) None false)) h)).

(** An open session of the number. *)
Definition open_session (platform chan : string) (seq : Z) (k : broadcast_key) (s : session_columns) : bool :=
  let '(_, p, c, n) := k in
  String.eqb p platform && String.eqb c chan && (n =? seq)
  && match hs_ended_at s with None => true | Some _ => false end.

(** [CHECK (ended_at IS NULL OR ended_at >= started_at)] *)
Definition ends_after (ended : Z) (k : broadcast_key) : bool := let '(started, _, _, _) := k in started <=? ended.

Definition close_columns (ended observed : Z) (reason : string) (s : session_columns) : session_columns :=
  SessionColumns (hs_streamer s) (hs_title s) (hs_category s) (hs_started_observed_at s) (Some ended)
    (Some observed) (hs_first_seen_at s) (hs_last_seen_at s) (hs_peak s) (hs_instance s) (Some reason) (hs_gap s).
Definition CloseSession (platform chan : string) (seq ended observed : Z) (reason : string) : Mhist unit :=
  pool_exec (fun _ h =>
    if exists_row (fun k s => open_session platform chan seq k s && negb (ends_after ended k)) (b_sessions h)
    then Err ErrDriver
    else Ok (tt, set_b_sessions (update_where (open_session platform chan seq) (close_columns ended observed reason)) h)).

Definition seen_columns (at_ peak : Z) (s : session_columns) : session_columns :=
  SessionColumns (hs_streamer s) (hs_title s) (hs_category s) (hs_started_observed_at s) (hs_ended_at s)
    (hs_ended_observed_at s) (hs_first_seen_at s) at_ (Z.max (hs_peak s) peak) (hs_instance s)
    (hs_close_reason s) (hs_gap s).
Definition UpdateSessionLastSeen (platform chan : string) (seq at_ peak : Z) : Mhist unit :=
  pool_exec (fun _ h =>
    if int4 peak then Ok (tt, set_b_sessions (update_where (open_session platform chan seq) (seen_columns at_ peak)) h)
    else Err ErrDriver).

Definition gap_columns (s : session_columns) : session_columns :=
  SessionColumns (hs_streamer s) (hs_title s) (hs_category s) (hs_started_observed_at s) (hs_ended_at s)
    (hs_ended_observed_at s) (hs_first_seen_at s) (hs_last_seen_at s) (hs_peak s) (hs_instance s)
    (hs_close_reason s) true.
Definition MarkSessionGap (platform chan : string) (seq : Z) : Mhist unit :=
  pool_exec (fun _ h => Ok (tt, set_b_sessions (update_where (open_session platform chan seq) gap_columns) h)).

Definition session_value (k : broadcast_key) (s : session_columns) : BroadcastSession :=
  let '(started, p, c, seq) := k in
  MkBroadcast started p c seq (hs_streamer s) (hs_title s) (hs_category s) (hs_started_observed_at s)
    (hs_ended_at s) (hs_ended_observed_at s) (hs_first_seen_at s) (hs_last_seen_at s) (hs_peak s)
    (hs_instance s) (hs_close_reason s) (hs_gap s).

(** [ORDER BY platform, channel_id, session_seq DESC] *)
Definition newest_first (a b : BroadcastSession) : Prop :=
  String.compare (br_Platform a) (br_Platform b) = Lt \/
  (br_Platform a = br_Platform b /\
    (String.compare (br_ChannelID a) (br_ChannelID b) = Lt \/
     (br_ChannelID a = br_ChannelID b /\ br_SessionSeq b <= br_SessionSeq a))).
#[export] Instance newest_first_dec a b : Decision (newest_first a b).
Proof. unfold newest_first. apply _. Defined.

Definition still_open (s : session_columns) : bool := match hs_ended_at s with None => true | Some _ => false end.
Definition open_list (h : history) : list BroadcastSession :=
  merge_sort newest_first (map (fun '(k, s) => session_value k s)
    (List.filter (fun '(_, s) => still_open s) (rows (b_sessions h)))).
Definition ListOpenSessions : Mhist (list BroadcastSession) := pool_query (fun _ h => Ok (open_list h)).

(** No live or pending row of the channel. *)
Definition orphaned (h : history) (k : broadcast_key) (s : session_columns) : bool :=
  let '(_, p, c, _) := k in
  still_open s && negb (exists_row (fun _ r => same_channel p c r && (is_live r || is_pending r)) (live (main h))).
Definition CloseOrphanedSessions : Mhist Z :=
  pool_exec (fun now h =>
    if exists_row (fun k s => orphaned h k s && negb (ends_after (hs_last_seen_at s) k)) (b_sessions h)
    then Err ErrDriver
    else Ok (Z.of_nat (count_where (orphaned h) (b_sessions h)),
             set_b_sessions (update_where (orphaned h)
               (fun s => close_columns (hs_last_seen_at s) now "orphan_cleanup" s)) h)).

Definition by_start (a b : BroadcastSession) : Prop := br_StartedAt b <= br_StartedAt a.
#[export] Instance by_start_dec a b : Decision (by_start a b).
Proof. unfold by_start. apply _. Defined.

Definition clamp_history (limit : Z) : Z := if (limit <=? 0) || (50 <? limit) then 20 else limit.
(** The sessions of a channel that start in a range: how many, and the latest. *)
Definition channel_sessions (platform chan : string) (p : Z -> bool) (h : history) : list BroadcastSession :=
  merge_sort by_start (map (fun '(k, s) => session_value k s)
    (List.filter (fun '((started, q, c, _), _) => String.eqb q platform && String.eqb c chan && p started)
      (rows (b_sessions h)))).
Definition list_history (platform chan : string) (p : Z -> bool) (limit : Z) : Mhist (list BroadcastSession * Z) :=
  total ← pool_query (fun _ h => Ok (Z.of_nat (length (channel_sessions platform chan p h))));
  l ← pool_query (fun _ h => Ok (take (Z.to_nat limit) (channel_sessions platform chan p h)));
  mret (l, total).

Definition ListChannelBroadcastHistory (platform chan : string) (days limit : Z) : Mhist (list BroadcastSession * Z) :=
  let days := if days <=? 0 then 30 else days in
  now ← time_now;
  list_history platform chan (fun t => now - days * day <=? t) (clamp_history limit).
Definition ListChannelBroadcastHistoryByRange (platform chan : string) (from to_ limit : Z)
  : Mhist (list BroadcastSession * Z) :=
  list_history platform chan (fun t => (from <=? t) && (t <? to_)) (clamp_history limit).

(** ** Metadata *)

Definition InsertMetadata (m : MetadataHistoryRow) : Mhist unit :=
  pool_exec (fun _ h =>
    let k := (mh_ValidFrom m, mh_Platform m, mh_ChannelID m, mh_SessionSeq m) in
    if negb (fits 10 (mh_Platform m) && fits 100 (mh_ChannelID m) && pg_text (mh_Title m) && pg_text (mh_Category m)
             && fits 50 (mh_CategoryCode m) && forallb pg_text (mh_Tags m) && pg_text (mh_ThumbnailURL m)
             && fits 50 (mh_InstanceID m))
       || bool_decide (is_Some (b_metadata h !! k))
    then Err ErrDriver
    else Ok (tt, set_b_metadata (insert k (MetadataColumns (mh_Title m) (mh_Category m) (mh_CategoryCode m)
      (mh_Tags m) (mh_ThumbnailURL m) (mh_MetadataHash m) None (mh_ObservedAt m) (mh_InstanceID m))) h)).

Definition current_metadata (platform chan : string) (seq : Z) (k : broadcast_key) (m : metadata_columns) : bool :=
  let '(_, p, c, n) := k in
  String.eqb p platform && String.eqb c chan && (n =? seq)
  && match hm_valid_to m with None => true | Some _ => false end.
Definition until_columns (at_ : Z) (m : metadata_columns) : metadata_columns :=
  MetadataColumns (hm_title m) (hm_category m) (hm_category_code m) (hm_tags m) (hm_thumbnail m) (hm_hash m)
    (Some at_) (hm_observed_at m) (hm_instance m).
Definition CloseMetadata (platform chan : string) (seq valid_to : Z) : Mhist unit :=
  pool_exec (fun _ h =>
    if exists_row (fun k m => current_metadata platform chan seq k m && negb (ends_after valid_to k)) (b_metadata h)
    then Err ErrDriver
    else Ok (tt, set_b_metadata (update_where (current_metadata platform chan seq) (until_columns valid_to)) h)).

(** The hash of the latest open interval; [None]: there is none. *)
Definition latest_metadata (a b : broadcast_key * metadata_columns) : Prop := b.1.1.1.1 <= a.1.1.1.1.
#[export] Instance latest_metadata_dec a b : Decision (latest_metadata a b).
Proof. unfold latest_metadata. apply _. Defined.
Definition GetCurrentMetadataHash (platform chan : string) (seq : Z) : Mhist (option string) :=
  pool_query (fun _ h => Ok (match merge_sort latest_metadata
      (List.filter (fun '(k, m) => current_metadata platform chan seq k m) (rows (b_metadata h))) with
    | (_, m) :: _ => Some (hm_hash m)
    | [] => None
    end)).

Definition GetChannelViewerCount (platform chan : string) : Mhist Z :=
  pool_query (fun _ h => match find_channel platform chan (main h) with
                         | Some (_, r) => Ok (lc_viewers r)
                         | None => Err ErrNoRows
                         end).

(** ** The upsert that numbers sessions *)

Record UpsertResult := MkUpsert {
  ur_ID : Z; ur_Platform : string; ur_ChannelID : string; ur_SessionSeq : Z; ur_Status : string; ur_IsInsert : bool
}.

Definition seq_of (id : Z) (h : history) : Z := default 0 (seqs h !! id).

(** One row: an ended channel comes back with the next number. *)
Definition upsert_numbered (now : Z) (acc : list UpsertResult * history) (c : discovered) : list UpsertResult * history :=
  let '(results, h) := acc in
  let d := upsert_row now (main h) c in
  match find_channel (dc_Platform c) (dc_ChannelID c) (main h) with
  | Some (id, r) =>
      let seq := if is_ended r then seq_of id h + 1 else seq_of id h in
      (results ++ [MkUpsert id (dc_Platform c) (dc_ChannelID c) seq (lc_status (with_discovered c now r)) false],
       History d (<[id := seq]> (seqs h)) (b_sessions h) (b_metadata h))
  | None =>
      (results ++ [MkUpsert (live_seq (main h)) (dc_Platform c) (dc_ChannelID c) 0 ChannelStatusPending true],
       History d (<[live_seq (main h) := 0]> (seqs h)) (b_sessions h) (b_metadata h))
  end.

Definition UpsertLiveChannelsWithHistory (cs : list discovered) : Mhist (list UpsertResult) :=
  match cs with
  | [] => mret []
  | _ => pool_exec (fun now h => Ok (fold_left (upsert_numbered now) (dedup cs) ([], h)))
  end.
