(* ===== verification/Catalogue.v ===== *)
(** What the query service reads of the live channels
    (src/shared/store/postgres.go): the columns of a broadcast that discovery
    describes (postgres_history.go), the search with its filters, orders and
    pages, the lists and counters of the explore page, and the search of past
    broadcasts. [ILIKE] is PostgreSQL's, a parameter; so are the order in which
    [GROUP BY] leaves its groups and the order of a Go map. *)
From S2P Require Import Prelude GoLib Sha256 Json Tx Model.
From S2P Require Import Db Journal Channels Archive History.

(** The columns of live_channels that describe a broadcast. *)
Record detail_row := Details {
  de_title : option string;
  de_category : option string;
  de_category_code : option string;
  de_tags : list string;
  de_thumbnail : option string;
  de_started_at : option Z
}.
Definition no_details : detail_row := Details None None None [] None None.

(** The tables with the history, and these columns by the id of a channel. *)
Record catalogue := Catalogue { held : history; details : gmap Z detail_row }.
Definition set_held (h : history) (c : catalogue) : catalogue := Catalogue h (details c).
Notation Mcat := (M catalogue).

(** [model.LiveChannel] with all its columns. *)
Record LiveChannel := MkLive { lv_ID : Z; lv_row : live_row; lv_details : detail_row }.

Definition details_of (id : Z) (c : catalogue) : detail_row := default no_details (details c !! id).
Definition all_channels (c : catalogue) : list LiveChannel :=
  map (fun '(id, r) => MkLive id r (details_of id c)) (rows (live (main (held c)))).

(** ** Discovery's upsert, the description included *)

Record described := Described { dd_channel : discovered; dd_details : detail_row }.

Fixpoint replace_described (c : described) (l : list described) : option (list described) :=
  match l with
  | [] => None
  | x :: l =>
      if String.eqb (discovered_key (dd_channel c)) (discovered_key (dd_channel x)) then Some (c :: l)
      else match replace_described c l with Some l => Some (x :: l) | None => None end
  end.
Definition dedup_described (l : list described) : list described :=
  fold_left (fun acc c => match replace_described c acc with Some l => l | None => acc ++ [c] end) l [].

Definition upsert_described (now : Z) (acc : list UpsertResult * catalogue) (c : described)
  : list UpsertResult * catalogue :=
  let '(results, cat) := acc in
  let '(results, h) := upsert_numbered now (results, held cat) (dd_channel c) in
  let id := match last results with Some r => ur_ID r | None => 0 end in
  (results, Catalogue h (<[id := dd_details c]> (details cat))).

Definition UpsertLiveChannelsWithHistory (cs : list described) : Mcat (list UpsertResult) :=
  match cs with
  | [] => mret []
  | _ => pool_exec (fun now c => Ok (fold_left (upsert_described now) (dedup_described cs) ([], c)))
  end.

(** ** Conditions and orders *)

(** [status IN ('live', 'pending') AND last_seen_at > NOW() - INTERVAL '10 minutes'] *)
Definition fresh_after (now : Z) (r : live_row) : bool :=
  (is_live r || is_pending r) && (now - 10 * minute <? lc_last_seen_at r).
Definition on_air (now : Z) (ch : LiveChannel) : bool := fresh_after now (lv_row ch).
(** [$1 = '' OR platform = $1] *)
Definition of_platform (p : string) (ch : LiveChannel) : bool := is_empty p || on_platform p (lv_row ch).
Definition viewers (ch : LiveChannel) : Z := lc_viewers (lv_row ch).
Definition started_after (t : Z) (ch : LiveChannel) : bool :=
  match de_started_at (lv_details ch) with Some s => t <? s | None => false end.

(** [ORDER BY k1, k2, id ASC] *)
Definition before (k : LiveChannel -> Z * Z) (a b : LiveChannel) : Prop :=
  (k a).1 < (k b).1 \/ ((k a).1 = (k b).1 /\
    ((k a).2 < (k b).2 \/ ((k a).2 = (k b).2 /\ lv_ID a <= lv_ID b))).
#[export] Instance before_dec k a b : Decision (before k a b).
Proof. unfold before. apply _. Defined.
Definition order_by (k : LiveChannel -> Z * Z) (l : list LiveChannel) : list LiveChannel :=
  merge_sort (before k) l.

(** The keys: [viewer_count DESC]; the start with [NULLS LAST]. *)
Definition most_viewers (ch : LiveChannel) : Z * Z := (0, - viewers ch).
Definition nulls_last (sign : Z) (ch : LiveChannel) : Z * Z :=
  match de_started_at (lv_details ch) with Some t => (0, sign * t) | None => (1, 0) end.
Definition sort_key (order : string) : LiveChannel -> Z * Z :=
  if String.eqb order "viewer_asc" then fun ch => (0, viewers ch)
  else if String.eqb order "started_at_desc" then nulls_last (-1)
  else if String.eqb order "started_at_asc" then nulls_last 1
  else most_viewers.

Definition limit_offset {A} (limit offset : Z) (l : list A) : result (list A) :=
  if offset <? 0 then Err ErrDriver else sql_limit limit (drop (Z.to_nat offset) l).

(** [::int] *)
Definition to_int4 (n : Z) : result Z := if int4 n then Ok n else Err ErrDriver.

(** Each name once, with how often it occurs. *)
Definition occurrences (names : list string) : list (string * Z) :=
  map (fun x => (x, Z.of_nat (length (List.filter (String.eqb x) names)))) (remove_dups names).
Definition by_count (a b : string * Z) : Prop := b.2 <= a.2.
#[export] Instance by_count_dec a b : Decision (by_count a b).
Proof. unfold by_count. apply _. Defined.

Definition nonempty (o : option string) : list string :=
  match o with Some s => if is_empty s then [] else [s] | None => [] end.
Definition categories_of (l : list LiveChannel) : list string :=
  flat_map (fun ch => nonempty (de_category (lv_details ch))) l.
Definition tags_of (l : list LiveChannel) : list string :=
  flat_map (fun ch => List.filter (fun t => negb (is_empty t)) (de_tags (lv_details ch))) l.
Definition in_category (name : string) (ch : LiveChannel) : bool := opt_eqb (de_category (lv_details ch)) name.

Record SearchLiveChannelsArgs := MkArgs {
  sa_Keyword : string;
  sa_Platform : string; sa_Platforms : list string;
  sa_Category : string; sa_Categories : list string;
  sa_Tag : string; sa_Tags : list string;
  sa_SortOrder : string;
  sa_MinViewerCount : Z; sa_MaxViewerCount : Z; sa_StartedWithinSeconds : Z;
  sa_Limit : Z; sa_Offset : Z
}.

(** The multi-select values, or the single one of the older field. *)
Definition choose (many : list string) (one : string) : list string :=
  match many with [] => if is_empty one then [] else [one] | _ => many end.

Record FacetEntry := MkFacet { fa_Name : string; fa_Count : Z }.
Record PlatformLiveSummary := MkPlatformSummary { ls_Platform : string; ls_ActiveCount : Z; ls_TopChannels : list LiveChannel }.
Record ExploreStats := MkExplore {
  xs_ActiveLiveCount : Z; xs_DistinctCategoryCount : Z; xs_DistinctTagCount : Z; xs_TotalViewerCount : Z;
  xs_PlatformCounts : gmap string Z
}.
Record CategoryLiveBundle := MkBundle { cb_Category : string; cb_ActiveCount : Z; cb_Channels : list LiveChannel }.
Record BroadcastChannel := MkPast {
  pb_Platform : string; pb_ChannelID : string; pb_StreamerName : string; pb_Title : string;
  pb_Category : option string; pb_Tags : list string; pb_ThumbnailURL : option string;
  pb_LastStartedAt : option Z; pb_LastEndedAt : option Z; pb_PeakViewerCount : Z;
  pb_IsLive : bool; pb_CurrentViewerCount : Z
}.

Section Queries.
(** [ilike p s]: [s ILIKE p]. *)
Context (ilike : string -> string -> bool).
Context (grouped ranged : list (string * Z) -> list (string * Z)).

(** ** The search of the live channels *)

Definition keyword_in (keyword : string) (title category : option string) (tags : list string) : bool :=
  let like s := ilike ("%" +:+ keyword +:+ "%") s in
  match title with Some s => like s | None => false end
  || match category with Some s => like s | None => false end
  || existsb like tags.

Definition matched (now : Z) (a : SearchLiveChannelsArgs) (ch : LiveChannel) : bool :=
  let platforms := choose (sa_Platforms a) (sa_Platform a) in
  let categories := choose (sa_Categories a) (sa_Category a) in
  let tags := choose (sa_Tags a) (sa_Tag a) in
  let d := lv_details ch in
  on_air now ch
  && ((length platforms =? 0)%nat || existsb (String.eqb (lc_platform (lv_row ch))) platforms)
  && (is_empty (sa_Keyword a) || keyword_in (sa_Keyword a) (de_title d) (de_category d) (de_tags d))
  && ((length categories =? 0)%nat || existsb (fun x => in_category x ch) categories)
  && ((length tags =? 0)%nat || existsb (fun t => existsb (String.eqb t) tags) (de_tags d))
  && ((sa_MinViewerCount a =? 0) || (sa_MinViewerCount a <=? viewers ch))
  && ((sa_MaxViewerCount a =? 0) || (viewers ch <=? sa_MaxViewerCount a))
  && ((sa_StartedWithinSeconds a =? 0) || started_after (now - sa_StartedWithinSeconds a * second) ch).

(** Parameters the server takes: texts, [int4]s. *)
Definition sendable (a : SearchLiveChannelsArgs) : bool :=
  pg_text (sa_Keyword a)
  && forallb pg_text (choose (sa_Platforms a) (sa_Platform a) ++ choose (sa_Categories a) (sa_Category a)
                      ++ choose (sa_Tags a) (sa_Tag a))
  && int4 (sa_MinViewerCount a) && int4 (sa_MaxViewerCount a) && int4 (sa_StartedWithinSeconds a).

Definition matches (now : Z) (a : SearchLiveChannelsArgs) (c : catalogue) : list LiveChannel :=
  List.filter (matched now a) (all_channels c).
Definition SearchLiveChannels (a : SearchLiveChannelsArgs) : Mcat (list LiveChannel * Z) :=
  total ← pool_query (fun now c =>
    if sendable a then Ok (Z.of_nat (length (matches now a c))) else Err ErrDriver);
  if total =? 0 then mret ([], 0) else
  l ← pool_query (fun now c =>
    limit_offset (sa_Limit a) (sa_Offset a) (order_by (sort_key (sa_SortOrder a)) (matches now a c)));
  mret (l, total).

(** ** Lists *)

(** Channels on the air of a platform, those that satisfy [p], in an order. *)
Definition select_on_air (platform : string) (p : LiveChannel -> bool) (k : LiveChannel -> Z * Z)
    (limit now : Z) (c : catalogue) : result (list LiveChannel) :=
  if pg_text platform
  then sql_limit limit (order_by k (List.filter (fun ch => on_air now ch && of_platform platform ch && p ch) (all_channels c)))
  else Err ErrDriver.

Definition boosted (within now : Z) (ch : LiveChannel) : Z :=
  viewers ch + (if (0 <? within) && started_after (now - within * second) ch then 50 else 0).
(** The score is an [int4]. *)
Definition GetTrendingLiveChannels (platform : string) (within limit : Z) : Mcat (list LiveChannel) :=
  pool_query (fun now c =>
    if existsb (fun ch => on_air now ch && of_platform platform ch && negb (int4 (boosted within now ch))) (all_channels c)
    then Err ErrDriver
    else select_on_air platform (fun _ => true) (fun ch => (0, - boosted within now ch)) limit now c).

Definition latest_start (ch : LiveChannel) : Z := - default 0 (de_started_at (lv_details ch)).
Definition GetJustStartedLiveChannels (platform : string) (minutes limit : Z) : Mcat (list LiveChannel) :=
  pool_query (fun now c =>
    select_on_air platform (started_after (now - minutes * minute)) (fun ch => (- viewers ch, latest_start ch)) limit now c).

Definition GetFeaturedLiveChannels (platform : string) (limit : Z) : Mcat (list LiveChannel) :=
  pool_query (fun now c => select_on_air platform (fun _ => true) most_viewers limit now c).

Definition GetLiveStatusesByChannelIDs (pairs : list (string * string)) : Mcat (list LiveChannel) :=
  match pairs with
  | [] => mret []
  | _ => pool_query (fun now c =>
      if forallb (fun '(p, ch) => pg_text p && pg_text ch) pairs
      then Ok (List.filter (fun ch => on_air now ch
             && existsb (fun '(p, id) => same_channel p id (lv_row ch)) pairs) (all_channels c))
      else Err ErrDriver)
  end.

(** ** Facets and counters *)

(** [GROUP BY name ORDER BY count DESC LIMIT n] *)
Definition top_counts (limit : Z) (names : list string) : result (list (string * Z)) :=
  sql_limit limit (merge_sort by_count (grouped (occurrences names))).

Definition facet_query (names : list LiveChannel -> list string) (platform : string) (limit : Z)
  : Mcat (list (string * Z)) :=
  pool_query (fun now c =>
    if pg_text platform
    then top_counts limit (names (List.filter (fun ch => on_air now ch && of_platform platform ch) (all_channels c)))
    else Err ErrDriver).
Definition facets (l : list (string * Z)) : list FacetEntry := map (fun '(x, n) => MkFacet x n) l.

(** Both queries run; an error of the first comes first. *)
Definition GetLiveDiscoveryFacets (platform : string) (categoryLimit tagLimit : Z)
  : Mcat (list FacetEntry * list FacetEntry) :=
  cat ← try (facet_query categories_of platform categoryLimit);
  tg ← try (facet_query tags_of platform tagLimit);
  cat ← lift cat;
  tg ← lift tg;
  mret (facets cat, facets tg).

Definition active (now : Z) (c : catalogue) : list LiveChannel := List.filter (on_air now) (all_channels c).
Definition platform_names (l : list LiveChannel) : list string := map (fun ch => lc_platform (lv_row ch)) l.

(** The first [n] of each name's channels, names in order. *)
Definition top_of_each (n : Z) (names : list string) (p : string -> LiveChannel -> bool) (l : list LiveChannel)
  : list LiveChannel :=
  flat_map (fun x => take (Z.to_nat n) (order_by most_viewers (List.filter (p x) l))) (merge_sort String.le names).

Definition GetPlatformLiveSummary (topPerPlatform : Z) : Mcat (list PlatformLiveSummary) :=
  counts ← pool_query (fun now c => Ok (list_to_map (M := gmap string Z) (occurrences (platform_names (active now c)))));
  chans ← pool_query (fun now c =>
    let l := active now c in
    Ok (top_of_each topPerPlatform (remove_dups (platform_names l)) (fun p ch => on_platform p (lv_row ch)) l));
  mret (map (fun '(p, n) => MkPlatformSummary p n (List.filter (fun ch => on_platform p (lv_row ch)) chans))
         (ranged (map_to_list counts))).

Definition GetExploreStats : Mcat ExploreStats :=
  totals ← pool_query (fun now c =>
    let l := active now c in
    sum ← to_int4 (sumZ viewers l);
    Ok (Z.of_nat (length l), Z.of_nat (length (remove_dups (categories_of l))), sum));
  tags ← pool_query (fun now c => Ok (Z.of_nat (length (remove_dups (tags_of (active now c))))));
  counts ← pool_query (fun now c => Ok (list_to_map (M := gmap string Z) (occurrences (platform_names (active now c)))));
  let '(n, categories, sum) := totals in
  mret (MkExplore n categories tags sum counts).

Definition GetCategoryLiveBundles (platform : string) (categoryCount channelsPerCategory : Z)
  : Mcat (list CategoryLiveBundle) :=
  topCats ← facet_query categories_of platform categoryCount;
  match topCats with
  | [] => mret []
  | _ =>
      chans ← pool_query (fun now c => Ok (top_of_each channelsPerCategory (map fst topCats) in_category
        (List.filter (fun ch => on_air now ch && of_platform platform ch) (all_channels c))));
      mret (map (fun '(x, n) => MkBundle x n (List.filter (in_category x) chans)) topCats)
  end.

(** ** The search of past broadcasts *)

(** [SELECT DISTINCT ON (platform, channel_id) ... ORDER BY platform, channel_id, valid_from DESC]
    over the metadata in which the keyword occurs. *)
Definition matching_metadata (platform keyword : string) (since : Z) (c : catalogue)
  : list (broadcast_key * metadata_columns) :=
  List.filter (fun '(k, m) => let '(from, p, _, _) := k in
      (since <? from) && (is_empty platform || String.eqb p platform)
      && keyword_in keyword (Some (hm_title m)) (Some (hm_category m)) (hm_tags m))
    (rows (b_metadata (held c))).
Definition channel_of (k : broadcast_key) : string * string := let '(_, p, ch, _) := k in (p, ch).
Definition latest_each (l : list (broadcast_key * metadata_columns)) : list (broadcast_key * metadata_columns) :=
  flat_map (fun x => take 1 (merge_sort latest_metadata (List.filter (fun km => bool_decide (channel_of km.1 = x)) l)))
    (remove_dups (map (fun km => channel_of km.1) l)).

(** The row joined with the sessions of its number and with the live channel. *)
Definition joined (since now : Z) (c : catalogue) (km : broadcast_key * metadata_columns) : list BroadcastChannel :=
  let '((_, p, ch, seq), m) := km in
  let live := find_channel p ch (main (held c)) in
  let row started ended streamer peak := MkPast p ch streamer (hm_title m) (Some (hm_category m)) (hm_tags m)
    (Some (hm_thumbnail m)) started ended peak
    (match live with Some (_, r) => fresh_after now r | None => false end)
    (match live with Some (_, r) => lc_viewers r | None => 0 end) in
  match List.filter (fun '(k, _) => let '(started, q, x, n) := k in
          String.eqb q p && String.eqb x ch && (n =? seq) && (since <? started)) (rows (b_sessions (held c))) with
  | [] => [row None None EmptyString 0]
  | l => map (fun '(k, s) => let '(started, _, _, _) := k in
           row (Some started) (hs_ended_at s) (hs_streamer s) (hs_peak s)) l
  end.

(** [ORDER BY is_live DESC, GREATEST(...) DESC, platform, channel_id] *)
Definition greatest (b : BroadcastChannel) : Z := Z.max (pb_CurrentViewerCount b) (pb_PeakViewerCount b).
Definition live_first (b : BroadcastChannel) : Z := if pb_IsLive b then 0 else 1.
Definition prominent (a b : BroadcastChannel) : Prop :=
  live_first a < live_first b \/ (live_first a = live_first b /\
    (greatest b < greatest a \/ (greatest a = greatest b /\
      (String.compare (pb_Platform a) (pb_Platform b) = Lt \/ (pb_Platform a = pb_Platform b /\
        String.le (pb_ChannelID a) (pb_ChannelID b)))))).
#[export] Instance prominent_dec a b : Decision (prominent a b).
Proof. unfold prominent. apply _. Defined.

Definition found_broadcasts (platform keyword : string) (since now : Z) (c : catalogue) : list BroadcastChannel :=
  merge_sort prominent (flat_map (joined since now c) (latest_each (matching_metadata platform keyword since c))).

(** The total is a column of the page's rows. *)
Definition SearchBroadcastChannels (keyword platform : string) (lookbackDays limit offset : Z)
  : Mcat (list BroadcastChannel * Z) :=
  pool_query (fun now c =>
    if pg_text platform && pg_text keyword then
      let l := found_broadcasts platform keyword (now - lookbackDays * day) now c in
      page ← limit_offset limit offset l;
      Ok (page, match page with [] => 0 | _ => Z.of_nat (length l) end)
    else Err ErrDriver).
End Queries.
