(* ===== verification/Emitter.v ===== *)
(** The history emitter of the discover service
    (src/discover/internal/history/emitter.go): which channels it tracks, the
    sessions and metadata intervals it opens and closes for them, and the
    intervals of viewer counts it hands to the ClickHouse writer. Every method
    runs under the emitter's lock. *)
From S2P Require Import Prelude GoLib Sha256 GoText Json Tx Model.
From S2P Require Import Db Journal Channels Archive History.

Record DiscoveredChannel := MkDiscovered {
  ch_ChannelID : string; ch_StreamerName : string; ch_ViewerCount : Z;
  ch_Title : string; ch_Category : string; ch_CategoryCode : string; ch_Tags : list string;
  ch_StartedAt : option Z; ch_ThumbnailURL : string
}.

(** [uint32] counts, a [uint16] number of samples. *)
Record viewerInterval := Interval {
  vi_validFrom : Z; vi_viewerCount : Z; vi_minCount : Z; vi_maxCount : Z; vi_sampleCount : Z
}.
Record channelState := ChannelState {
  st_sessionSeq : Z; st_metadataHash : string; st_viewerCount : Z;
  st_lastInterval : option viewerInterval; st_missedPolls : Z
}.
Definition set_missed (n : Z) (s : channelState) : channelState :=
  ChannelState (st_sessionSeq s) (st_metadataHash s) (st_viewerCount s) (st_lastInterval s) n.
Definition set_interval (i : option viewerInterval) (s : channelState) : channelState :=
  ChannelState (st_sessionSeq s) (st_metadataHash s) (st_viewerCount s) i (st_missedPolls s).

Record ViewerCountRow := MkViewerRow {
  vr_ValidFrom : Z; vr_ValidTo : Z; vr_Platform : string; vr_ChannelID : string; vr_SessionSeq : Z;
  vr_ViewerCount : Z; vr_MinCount : Z; vr_MaxCount : Z; vr_SampleCount : Z; vr_InstanceID : string
}.

(** The tracked channels, whether there is a ClickHouse writer, and the rows
    it was given. *)
Record emitter := Emitter { states : gmap string channelState; has_writer : bool; enqueued : list ViewerCountRow }.
Definition NewEmitter (writer : bool) : emitter := Emitter ∅ writer [].
Definition SetCHWriter (writer : bool) (em : emitter) : emitter := Emitter (states em) writer (enqueued em).
Definition set_state (key : string) (s : channelState) (em : emitter) : emitter :=
  Emitter (<[key := s]> (states em)) (has_writer em) (enqueued em).
Definition drop_state (key : string) (em : emitter) : emitter :=
  Emitter (delete key (states em)) (has_writer em) (enqueued em).

Definition stateKey (platform chan : string) : string := platform +:+ ":" +:+ chan.

Definition computeMetadataHash (title category : string) (tags : list string) : string :=
  Sha256.sum256 (title +:+ "|" +:+ category +:+ "|" +:+ String.concat "," (merge_sort String.le tags)).
Definition boundedViewerCount (n : Z) : Z := if n <=? 0 then 0 else Z.min n 4294967295.
Definition nonNegativeSessionSeq (n : Z) : Z := if n <=? 0 then 0 else n.
Definition maxIntervalAge : Z := 5 * minute.

Section Emitter.
Context (instanceID : string).

(** ** Viewer intervals *)

Definition flushViewerInterval (platform chan : string) (s : channelState) (valid_to : Z) (em : emitter)
  : channelState * emitter :=
  match st_lastInterval s with
  | Some i =>
      if has_writer em
      then (set_interval None s,
            Emitter (states em) (has_writer em) (enqueued em ++
              [MkViewerRow (vi_validFrom i) valid_to platform chan (nonNegativeSessionSeq (st_sessionSeq s))
                 (vi_viewerCount i) (vi_minCount i) (vi_maxCount i) (vi_sampleCount i) instanceID]))
      else (s, em)
  | None => (s, em)
  end.

Definition new_interval (now viewers : Z) : viewerInterval := Interval now viewers viewers viewers 1.
Definition sample (viewers : Z) (i : viewerInterval) : viewerInterval :=
  Interval (vi_validFrom i) (vi_viewerCount i) (Z.min (vi_minCount i) viewers) (Z.max (vi_maxCount i) viewers)
    ((vi_sampleCount i + 1) mod 65536).

(** The count of this poll: a new interval, or one more sample. *)
Definition count_viewers (platform chan : string) (count now : Z) (s : channelState) (em : emitter)
  : channelState * emitter :=
  let viewers := boundedViewerCount count in
  let restart s := set_interval (Some (new_interval now viewers)) s in
  if negb (count =? st_viewerCount s) then
    let '(s, em) := flushViewerInterval platform chan s now em in
    (restart (ChannelState (st_sessionSeq s) (st_metadataHash s) count (st_lastInterval s) (st_missedPolls s)), em)
  else match st_lastInterval s with
  | None => (s, em)
  | Some i =>
      if maxIntervalAge <? time_sub now (vi_validFrom i)
      then let '(s, em) := flushViewerInterval platform chan s now em in (restart s, em)
      else (set_interval (Some (sample viewers i)) s, em)
  end.

(** ** Discovered channels *)

Definition session_start (platform : string) (r : UpsertResult) (ch : DiscoveredChannel) (now : Z) : BroadcastSession :=
  MkBroadcast (default now (ch_StartedAt ch)) platform (ur_ChannelID r) (ur_SessionSeq r) (ch_StreamerName ch)
    (ch_Title ch) (ch_Category ch) now None None now now (ch_ViewerCount ch) instanceID None false.
Definition metadata_row (platform chan : string) (seq : Z) (ch : DiscoveredChannel) (hash : string) (now : Z)
  : MetadataHistoryRow :=
  MkMetadata now platform chan seq (ch_Title ch) (ch_Category ch) (ch_CategoryCode ch) (ch_Tags ch)
    (ch_ThumbnailURL ch) hash now instanceID.

(** A channel that is not tracked: its session, its first metadata, its state. *)
Definition start_tracking (platform key : string) (r : UpsertResult) (ch : DiscoveredChannel) (hash : string) (now : Z)
    (em : emitter) : Mhist emitter :=
  res ← try (InsertSession (session_start platform r ch now));
  match res with
  | Err _ => mret em
  | Ok _ =>
      res ← try (InsertMetadata (metadata_row platform (ur_ChannelID r) (ur_SessionSeq r) ch hash now));
      match res with
      | Err _ => mret em
      | Ok _ => mret (set_state key (ChannelState (ur_SessionSeq r) hash (ch_ViewerCount ch)
                   (Some (new_interval now (boundedViewerCount (ch_ViewerCount ch)))) 0) em)
      end
  end.

(** The hash the state keeps after the metadata interval was renewed, or not. *)
Definition renew_metadata (platform chan : string) (ch : DiscoveredChannel) (hash : string) (now : Z) (s : channelState)
  : Mhist string :=
  if String.eqb hash (st_metadataHash s) then mret (st_metadataHash s)
  else
    res ← try (CloseMetadata platform chan (st_sessionSeq s) now);
    match res with
    | Err _ => mret (st_metadataHash s)
    | Ok _ =>
        res ← try (InsertMetadata (metadata_row platform chan (st_sessionSeq s) ch hash now));
        match res with Err _ => mret (st_metadataHash s) | Ok _ => mret hash end
    end.

Definition keep_tracking (platform key : string) (r : UpsertResult) (ch : DiscoveredChannel) (hash : string) (now : Z)
    (s : channelState) (em : emitter) : Mhist emitter :=
  h ← renew_metadata platform (ur_ChannelID r) ch hash now s;
  let s := ChannelState (st_sessionSeq s) h (st_viewerCount s) (st_lastInterval s) 0 in
  let '(s, em) := count_viewers platform (ur_ChannelID r) (ch_ViewerCount ch) now s em in
  res ← try (UpdateSessionLastSeen platform (ur_ChannelID r) (st_sessionSeq s) now (ch_ViewerCount ch));
  mret (set_state key s em).

Definition process_one (platform : string) (discovered : gmap string DiscoveredChannel) (now : Z) (r : UpsertResult)
    (em : emitter) : Mhist emitter :=
  let key := stateKey (ur_Platform r) (ur_ChannelID r) in
  match discovered !! ur_ChannelID r with
  | None => mret em
  | Some ch =>
      let hash := computeMetadataHash (ch_Title ch) (ch_Category ch) (ch_Tags ch) in
      match states em !! key with
      | Some s => if ur_IsInsert r then start_tracking platform key r ch hash now em
                  else keep_tracking platform key r ch hash now s em
      | None => start_tracking platform key r ch hash now em
      end
  end.

Fixpoint process_all (platform : string) (discovered : gmap string DiscoveredChannel) (now : Z) (l : list UpsertResult)
    (em : emitter) : Mhist emitter :=
  match l with
  | [] => mret em
  | r :: l => em ← process_one platform discovered now r em; process_all platform discovered now l em
  end.

Definition ProcessDiscovered (platform : string) (results : list UpsertResult)
    (discovered : gmap string DiscoveredChannel) (em : emitter) : Mhist emitter :=
  now ← time_now; process_all platform discovered now results em.

(** ** Ended channels *)

Record EndedChannel := MkEnded { ec_Platform : string; ec_ChannelID : string; ec_StateKey : string }.

(** One tracked channel; the order of the map is not the code's. *)
Definition detect_one (platform : string) (active : list string) (partial : bool) (kv : string * channelState)
    (acc : emitter * list string * list EndedChannel) : emitter * list string * list EndedChannel :=
  let '(key, s) := kv in
  let '(em, kept, ended) := acc in
  let prefix := platform +:+ ":" in
  if negb (has_prefix key prefix) then acc
  else
    let chan := str_drop (String.length prefix) key in
    if existsb (String.eqb chan) active then (set_state key (set_missed 0 s) em, kept, ended)
    else if partial then (em, kept ++ [chan], ended)
    else
      let s := set_missed (st_missedPolls s + 1) s in
      if st_missedPolls s <? 2 then (set_state key s em, kept ++ [chan], ended)
      else (set_state key s em, kept, ended ++ [MkEnded platform chan key]).

Definition DetectEndedChannels (platform : string) (active : list string) (partial : bool) (em : emitter)
  : emitter * list string * list EndedChannel :=
  fold_left (fun acc kv => detect_one platform active partial kv acc) (rows (states em)) (em, active, []).

Definition ResetMissedPolls (platform : string) (ids : list string) (em : emitter) : emitter :=
  fold_left (fun em id => Emitter (alter (set_missed 0) (stateKey platform id) (states em)) (has_writer em) (enqueued em))
    ids em.

Fixpoint commit_all (now : Z) (l : list EndedChannel) (em : emitter) : Mhist emitter :=
  match l with
  | [] => mret em
  | ec :: l =>
      match states em !! ec_StateKey ec with
      | None => commit_all now l em
      | Some s =>
          res ← try (CloseSession (ec_Platform ec) (ec_ChannelID ec) (st_sessionSeq s) now now "grace_timeout");
          match res with
          | Err _ => commit_all now l em
          | Ok _ =>
              let '(_, em) := flushViewerInterval (ec_Platform ec) (ec_ChannelID ec) s now em in
              commit_all now l (drop_state (ec_StateKey ec) em)
          end
      end
  end.
Definition CommitEnded (ended : list EndedChannel) (em : emitter) : Mhist emitter :=
  now ← time_now; commit_all now ended em.

(** ** Leadership *)

Definition poll_interval (platform : string) : Z := if String.eqb platform PlatformCime then 30 * second else 60 * second.

Definition recover_one (now : Z) (s : BroadcastSession) (em : emitter) : Mhist emitter :=
  let key := stateKey (br_Platform s) (br_ChannelID s) in
  match states em !! key with
  | Some _ =>
      res ← try (CloseSession (br_Platform s) (br_ChannelID s) (br_SessionSeq s) (br_LastSeenAt s) now "duplicate_cleanup");
      mret em
  | None =>
      hash ← try (GetCurrentMetadataHash (br_Platform s) (br_ChannelID s) (br_SessionSeq s));
      viewers ← try (GetChannelViewerCount (br_Platform s) (br_ChannelID s));
      let em := set_state key (ChannelState (br_SessionSeq s)
        (match hash with Ok (Some h) => h | _ => EmptyString end)
        (match viewers with Ok n => n | Err _ => br_PeakViewerCount s end) None 0) em in
      if poll_interval (br_Platform s) * 3 <? time_sub now (br_LastSeenAt s)
      then res ← try (MarkSessionGap (br_Platform s) (br_ChannelID s) (br_SessionSeq s)); mret em
      else mret em
  end.
Fixpoint recover_all (now : Z) (l : list BroadcastSession) (em : emitter) : Mhist emitter :=
  match l with
  | [] => mret em
  | s :: l => em ← recover_one now s em; recover_all now l em
  end.

Definition RecoverState (em : emitter) : Mhist emitter :=
  n ← CloseOrphanedSessions;
  sessions ← ListOpenSessions;
  now ← time_now;
  recover_all now sessions (Emitter ∅ (has_writer em) (enqueued em)).

(** [strings.SplitN(key, ":", 2)] *)
Definition flush_one (now : Z) (em : emitter) (kv : string * channelState) : emitter :=
  let '(key, s) := kv in
  match str_index key ":" with
  | None => em
  | Some n => let '(s, em) := flushViewerInterval (str_take n key) (str_drop (S n) key) s now em in set_state key s em
  end.
Definition FlushAll (em : emitter) : Mhist emitter :=
  now ← time_now; mret (fold_left (flush_one now) (rows (states em)) em).
End Emitter.
