(* ===== verification/EmitterInv.v ===== *)
(** What the emitter keeps true of its intervals of viewer counts: the counts
    fit their columns, and the rows of a channel handed to the ClickHouse
    writer do not overlap. *)
From S2P Require Import Prelude GoLib GoText Tx Model Db.
From S2P Require Import Archive History Emitter.

(** ** Keys *)

Lemma valid_platforms p : platform_is_valid p = true ->
  p = PlatformChzzk \/ p = PlatformSoop \/ p = PlatformCime.
Proof. unfold platform_is_valid. rewrite !orb_true_iff, !String.eqb_eq. tauto. Qed.

Lemma stateKey_rest p c : str_drop (String.length (p +:+ ":")) (stateKey p c) = c.
Proof. unfold stateKey. rewrite <- app_assoc_str. apply str_drop_app. Qed.
Lemma stateKey_same p c c' : stateKey p c = stateKey p c' -> c = c'.
Proof. intros H. by rewrite <- (stateKey_rest p c), H, stateKey_rest. Qed.
Lemma stateKey_inj p c p' c' : platform_is_valid p = true -> platform_is_valid p' = true ->
  stateKey p c = stateKey p' c' -> p = p' /\ c = c'.
Proof.
  intros [->|[->| ->]]%valid_platforms [->|[->| ->]]%valid_platforms H;
    first [split; [done|by apply stateKey_same in H] | discriminate H].
Qed.
Lemma stateKey_colon p c : platform_is_valid p = true -> str_index (stateKey p c) ":" = Some (String.length p).
Proof. by intros [->|[->| ->]]%valid_platforms; destruct c. Qed.
Lemma stateKey_prefix p p' c : platform_is_valid p = true -> platform_is_valid p' = true ->
  has_prefix (stateKey p' c) (p +:+ ":") = true -> p' = p.
Proof. by intros [->|[->| ->]]%valid_platforms [->|[->| ->]]%valid_platforms. Qed.

(** ** The invariant *)

(** A row as the columns UInt64, UInt32 and UInt16 hold it. *)
Definition row_typed (r : ViewerCountRow) : Prop :=
  platform_is_valid (vr_Platform r) = true /\ 0 <= vr_SessionSeq r /\
  0 <= vr_ViewerCount r <= 4294967295 /\ vr_MinCount r = vr_ViewerCount r /\ vr_MaxCount r = vr_ViewerCount r /\
  0 <= vr_SampleCount r <= 65535 /\ vr_ValidFrom r <= vr_ValidTo r.

Definition later_row (a b : ViewerCountRow) : Prop :=
  vr_Platform a = vr_Platform b -> vr_ChannelID a = vr_ChannelID b -> vr_ValidTo a <= vr_ValidFrom b.
Definition rows_before (p c : string) (t : Z) (l : list ViewerCountRow) : Prop :=
  Forall (fun r => vr_Platform r = p -> vr_ChannelID r = c -> vr_ValidTo r <= t) l.

Definition interval_ok (t : Z) (l : list ViewerCountRow) (p c : string) (s : channelState) : Prop :=
  match st_lastInterval s with
  | None => True
  | Some i =>
      vi_viewerCount i = boundedViewerCount (st_viewerCount s) /\
      vi_minCount i = vi_viewerCount i /\ vi_maxCount i = vi_viewerCount i /\
      0 <= vi_sampleCount i <= 65535 /\ vi_validFrom i <= t /\ rows_before p c (vi_validFrom i) l
  end.

Definition state_ok (t : Z) (l : list ViewerCountRow) (key : string) (s : channelState) : Prop :=
  (forall p c, platform_is_valid p = true -> key = stateKey p c -> interval_ok t l p c s) /\
  (st_lastInterval s <> None -> exists p c, platform_is_valid p = true /\ key = stateKey p c).

Lemma state_ok_key t l p c s : platform_is_valid p = true -> interval_ok t l p c s -> state_ok t l (stateKey p c) s.
Proof. intros Hv Hi. split; [|by eauto]. intros p' c' Hv' [<- <-]%stateKey_inj; done. Qed.
Lemma state_ok_none t l k s : st_lastInterval s = None -> state_ok t l k s.
Proof. intros E. split; [intros; unfold interval_ok; by rewrite E|done]. Qed.

(** At time [t]; the state of the key [skip] is being worked on. *)
Record em_ok (t : Z) (skip : option string) (em : emitter) : Prop := {
  eo_states : forall k s, states em !! k = Some s -> Some k <> skip -> state_ok t (enqueued em) k s;
  eo_typed : Forall row_typed (enqueued em);
  eo_past : Forall (fun r => vr_ValidTo r <= t) (enqueued em);
  eo_order : StronglySorted later_row (enqueued em)
}.

Lemma bounded_range n : 0 <= boundedViewerCount n <= 4294967295.
Proof. unfold boundedViewerCount. destruct (n <=? 0) eqn:E; b2p; lia. Qed.

Lemma interval_later t t' l p c s : t <= t' -> interval_ok t l p c s -> interval_ok t' l p c s.
Proof. intros Ht. unfold interval_ok. destruct (st_lastInterval s); [|done]. intuition lia. Qed.
Lemma em_later t t' skip em : t <= t' -> em_ok t skip em -> em_ok t' skip em.
Proof.
  intros Ht [Hs Ht' Hp Ho]. split; [|done| |done].
  - intros k s Hk Hn. destruct (Hs k s Hk Hn) as [H1 H2]. split; [|done]. eauto using interval_later.
  - eapply Forall_impl; [done|]. simpl. lia.
Qed.

Lemma em_skip t k em : em_ok t None em -> em_ok t (Some k) em.
Proof. intros [Hs Ht Hp Ho]. split; try done. intros k' s Hk _. by apply Hs. Qed.

Lemma em_set t k s em : em_ok t (Some k) em -> state_ok t (enqueued em) k s -> em_ok t None (set_state k s em).
Proof.
  intros [Hs Ht Hp Ho] H. split; simpl; try done. intros k' s' Hk _.
  apply lookup_insert_Some in Hk as [[<- <-]|[Hn Hk]]; [done|]. apply Hs; [done|congruence].
Qed.
Lemma em_drop t k em : em_ok t (Some k) em -> em_ok t None (drop_state k em).
Proof.
  intros [Hs Ht Hp Ho]. split; simpl; try done. intros k' s' [Hn Hk]%lookup_delete_Some _. apply Hs; [done|congruence].
Qed.

(** Setting a state that differs from the stored one outside its interval. *)
Lemma state_same t l k s s' : state_ok t l k s ->
  st_lastInterval s' = st_lastInterval s -> st_viewerCount s' = st_viewerCount s -> state_ok t l k s'.
Proof. intros [H1 H2] E1 E2. unfold state_ok, interval_ok in *. by rewrite E1, E2. Qed.

Lemma new_interval_ok t l p c s count : st_lastInterval s = Some (new_interval t (boundedViewerCount count)) ->
  st_viewerCount s = count -> Forall (fun r => vr_ValidTo r <= t) l -> interval_ok t l p c s.
Proof.
  intros E1 E2 Hl. unfold interval_ok. rewrite E1. simpl. subst. repeat split; try lia.
  eapply Forall_impl; [done|]. simpl. auto.
Qed.

(** ** The operations *)

Section Operations.
Context (instanceID : string).

Lemma in_keys A (m : gmap string A) kv : kv ∈ rows m -> m !! kv.1 = Some kv.2.
Proof. destruct kv. unfold rows. by rewrite elem_of_map_to_list. Qed.

(** A flush hands over the interval as a row; afterwards the state has none. *)
Lemma flush_ok t p c s em s' em' : platform_is_valid p = true ->
  em_ok t (Some (stateKey p c)) em -> interval_ok t (enqueued em) p c s ->
  flushViewerInterval instanceID p c s t em = (s', em') ->
  em_ok t (Some (stateKey p c)) em' /\ interval_ok t (enqueued em') p c s' /\
  states em' = states em /\ st_viewerCount s' = st_viewerCount s /\ st_sessionSeq s' = st_sessionSeq s /\
  st_metadataHash s' = st_metadataHash s /\ st_missedPolls s' = st_missedPolls s.
Proof.
  intros Hv Hem Hi Hf. unfold flushViewerInterval in Hf.
  destruct (st_lastInterval s) as [i|] eqn:Es; [|by simplify_eq].
  destruct (has_writer em); simplify_eq/=; [|done].
  unfold interval_ok in Hi. rewrite Es in Hi. destruct Hi as (E & Emin & Emax & Hn & Hfrom & Hbefore).
  destruct Hem as [Hs Ht Hp Ho]. split; [|done]. split; simpl.
  - intros k s' Hk Hne. destruct (Hs k s' Hk Hne) as [Hi' Hk']. split; [|done].
    intros p' c' Hv' ->. specialize (Hi' p' c' Hv' eq_refl).
    unfold interval_ok in *. destruct (st_lastInterval s'); [|done]. destruct Hi' as (? & ? & ? & ? & ? & Hb).
    split_and!; try done; try lia. apply Forall_app. split; [done|]. apply Forall_singleton. simpl. congruence.
  - apply Forall_app. split; [done|]. apply Forall_singleton. unfold row_typed, nonNegativeSessionSeq. simpl.
    pose proof (bounded_range (st_viewerCount s)). split_and!; try done; try lia; try (by rewrite E; lia).
    destruct (_ <=? 0) eqn:?; b2p; lia.
  - apply Forall_app. split; [done|]. apply Forall_singleton. simpl. lia.
  - apply StronglySorted_app. split_and!; [|done|by repeat constructor].
    intros a b Ha ->%list_elem_of_singleton. unfold later_row, rows_before in *; simpl. rewrite Forall_forall in Hbefore. auto.
Qed.

(** The count of one poll. *)
Lemma count_ok t p c n s em s' em' : platform_is_valid p = true ->
  em_ok t (Some (stateKey p c)) em -> interval_ok t (enqueued em) p c s ->
  count_viewers instanceID p c n t s em = (s', em') ->
  em_ok t (Some (stateKey p c)) em' /\ state_ok t (enqueued em') (stateKey p c) s' /\
  states em' = states em /\ st_sessionSeq s' = st_sessionSeq s /\ st_missedPolls s' = st_missedPolls s.
Proof.
  intros Hv Hem Hi Hc. unfold count_viewers in Hc.
  assert (forall s1 em1 s2, flushViewerInterval instanceID p c s t em = (s1, em1) ->
    st_lastInterval s2 = Some (new_interval t (boundedViewerCount n)) -> st_viewerCount s2 = n ->
    em_ok t (Some (stateKey p c)) em1 /\ state_ok t (enqueued em1) (stateKey p c) s2 /\ states em1 = states em /\
    st_sessionSeq s1 = st_sessionSeq s /\ st_missedPolls s1 = st_missedPolls s) as Hnew.
  { intros s1 em1 s2 Hf E1 E2. destruct (flush_ok _ _ _ _ _ _ _ Hv Hem Hi Hf) as (H1 & _ & H3 & _ & H4 & _ & H5).
    split_and!; try done. apply state_ok_key; [done|]. by apply (new_interval_ok _ _ _ _ _ n), H1. }
  destruct (n =? st_viewerCount s) eqn:En; cbn [negb] in Hc; b2p.
  - destruct (st_lastInterval s) as [i|] eqn:Es.
    2:{ simplify_eq. split_and!; try done. by apply state_ok_key. }
    destruct (maxIntervalAge <? _).
    + destruct (flushViewerInterval _ _ _ _ _ _) as [s1 em1] eqn:Ef. simplify_eq.
      destruct (flush_ok _ _ _ _ _ _ _ Hv Hem Hi Ef) as (_ & _ & _ & E & _).
      by apply (Hnew s1 em' (set_interval (Some (new_interval t (boundedViewerCount (st_viewerCount s)))) s1)).
    + simplify_eq. split_and!; try done. apply state_ok_key; [done|].
      unfold interval_ok in *. rewrite Es in Hi. simpl. destruct Hi as (E & Emin & Emax & Hn & Hfrom & Hbefore).
      split_and!; try done; try lia.
      * apply Z.mod_pos_bound. lia.
      * pose proof (Z.mod_pos_bound (vi_sampleCount i + 1) 65536). lia.
  - destruct (flushViewerInterval _ _ _ _ _ _) as [s1 em1] eqn:Ef. simplify_eq.
    by apply (Hnew s1 em' (set_interval (Some (new_interval t (boundedViewerCount n)))
      (ChannelState (st_sessionSeq s1) (st_metadataHash s1) n (st_lastInterval s1) (st_missedPolls s1)))).
Qed.

Lemma start_ok t k p c r ch hash em : platform_is_valid p = true -> k = stateKey p c -> em_ok t None em ->
  yields (em_ok t None) (start_tracking instanceID p k r ch hash t em).
Proof.
  intros Hv -> Hem. unfold start_tracking. apply yields_any. intros [?|?]; [|by apply yields_ret].
  apply yields_any. intros [?|?]; apply yields_ret; [|done].
  apply em_set; [by apply em_skip|]. apply state_ok_key; [done|].
  eapply new_interval_ok; [done..|apply Hem].
Qed.

Lemma kept_ok t p c r ch hash s em : platform_is_valid p = true -> ur_ChannelID r = c ->
  em_ok t None em -> states em !! stateKey p c = Some s ->
  yields (em_ok t None) (keep_tracking instanceID p (stateKey p c) r ch hash t s em).
Proof.
  intros Hv <- Hem Hs. unfold keep_tracking. apply yields_any. intros h.
  destruct (count_viewers _ _ _ _ _ _ _) as [s1 em1] eqn:Ec. apply yields_any. intros _. apply yields_ret.
  assert (interval_ok t (enqueued em) p (ur_ChannelID r) s) as Hi.
  { by apply (eo_states _ _ _ Hem _ _ Hs). }
  eapply count_ok in Ec as (H1 & H2 & _); [|done|by apply em_skip|exact Hi]. by apply em_set.
Qed.

Lemma process_ok t p disc l em : platform_is_valid p = true -> Forall (fun r => ur_Platform r = p) l ->
  em_ok t None em -> yields (em_ok t None) (process_all instanceID p disc t l em).
Proof.
  intros Hv Hl. revert em. induction Hl as [|r l Hr Hl IH]; intros em Hem; [by apply yields_ret|].
  cbn [process_all]. eapply yields_bind; [|exact IH]. unfold process_one. rewrite Hr.
  destruct (disc !! ur_ChannelID r) as [ch|]; [|by apply yields_ret].
  destruct (states em !! _) as [s|] eqn:Es; [|by eapply start_ok].
  destruct (ur_IsInsert r); [by eapply start_ok|by eapply kept_ok].
Qed.

Lemma commit_ok t l em : Forall (fun ec => platform_is_valid (ec_Platform ec) = true /\
    ec_StateKey ec = stateKey (ec_Platform ec) (ec_ChannelID ec)) l ->
  em_ok t None em -> yields (em_ok t None) (commit_all instanceID t l em).
Proof.
  intros Hl. revert em. induction Hl as [|ec l [Hv Hk] Hl IH]; intros em Hem; [by apply yields_ret|].
  cbn [commit_all]. destruct (states em !! _) as [s|] eqn:Es; [|by apply IH].
  apply yields_any. intros [?|?]; [|by apply IH].
  destruct (flushViewerInterval _ _ _ _ _ _) as [s1 em1] eqn:Ef. apply IH. rewrite Hk in *.
  eapply flush_ok in Ef as (H1 & _); [|done|by apply em_skip|by apply (eo_states _ _ _ Hem _ _ Es)]. by apply em_drop.
Qed.

Lemma set_missed_ok t k s n em : em_ok t None em -> states em !! k = Some s -> em_ok t None (set_state k (set_missed n s) em).
Proof.
  intros Hem Hs. apply em_set; [by apply em_skip|]. apply (state_same _ _ _ s); [|done|done]. by apply (eo_states _ _ _ Hem).
Qed.

Lemma recover_ok now l em :
  em_ok now None em -> yields (em_ok now None) (recover_all now l em).
Proof.
  revert em. induction l as [|x l IH]; intros em Hem; [by apply yields_ret|].
  cbn [recover_all]. eapply yields_bind; [|exact IH]. unfold recover_one.
  destruct (states em !! _); [apply yields_any; intros; by apply yields_ret|].
  apply yields_any; intros h. apply yields_any; intros v.
  assert (forall s, st_lastInterval s = None ->
    em_ok now None (set_state (stateKey (br_Platform x) (br_ChannelID x)) s em)) as H.
  { intros s E. apply em_set; [by apply em_skip|]. by apply state_ok_none. }
  destruct (_ <? _); [apply yields_any; intros|]; apply yields_ret; by apply H.
Qed.
End Operations.

(** ** Detection, channel by channel *)

(** What a poll makes of a tracked channel: its state, whether it is kept
    among the active ones, whether it is a candidate to end. *)
Definition poll_verdict (p : string) (active : list string) (partial : bool) (kv : string * channelState)
  : channelState * list string * list EndedChannel :=
  let '(key, s) := kv in
  let c := str_drop (String.length (p +:+ ":")) key in
  if negb (has_prefix key (p +:+ ":")) then (s, [], [])
  else if existsb (String.eqb c) active then (set_missed 0 s, [], [])
  else if partial then (s, [c], [])
  else if st_missedPolls s + 1 <? 2 then (set_missed (st_missedPolls s + 1) s, [c], [])
  else (set_missed (st_missedPolls s + 1) s, [], [MkEnded p c key]).

Lemma set_state_same k s em : states em !! k = Some s -> set_state k s em = em.
Proof. intros H. unfold set_state. rewrite insert_id by done. by destruct em. Qed.

Lemma detect_one_verdict p active partial k s em kept ended : states em !! k = Some s ->
  detect_one p active partial (k, s) (em, kept, ended) =
  let '(s', ks, es) := poll_verdict p active partial (k, s) in (set_state k s' em, kept ++ ks, ended ++ es).
Proof.
  intros H. unfold detect_one, poll_verdict. destruct (negb _); [by rewrite set_state_same, !app_nil_r by done|].
  destruct (existsb _ _); [by rewrite !app_nil_r|]. destruct partial; [by rewrite set_state_same, app_nil_r by done|].
  simpl. destruct (_ <? 2); by rewrite app_nil_r.
Qed.

Lemma detect_fold p active partial l em kept ended : NoDup l.*1 ->
  (forall k s, (k, s) ∈ l -> states em !! k = Some s) ->
  exists em', fold_left (fun acc kv => detect_one p active partial kv acc) l (em, kept, ended) =
    (em', kept ++ flat_map (fun kv => (poll_verdict p active partial kv).1.2) l,
     ended ++ flat_map (fun kv => (poll_verdict p active partial kv).2) l) /\
  has_writer em' = has_writer em /\ enqueued em' = enqueued em /\
  (forall k, k ∉ l.*1 -> states em' !! k = states em !! k) /\
  (forall k s, (k, s) ∈ l -> states em' !! k = Some (poll_verdict p active partial (k, s)).1.1).
Proof.
  revert em kept ended. induction l as [|[k s] l IH]; intros em kept ended Hn Hl.
  { exists em. rewrite !app_nil_r. split_and!; try done. intros k s []%not_elem_of_nil. }
  cbn [fold_left]. rewrite detect_one_verdict by (apply Hl; left).
  destruct (poll_verdict p active partial (k, s)) as [[s' ks] es] eqn:Ev.
  cbn [fmap list_fmap fst] in Hn. apply NoDup_cons in Hn as [Hk Hn].
  destruct (IH (set_state k s' em) (kept ++ ks) (ended ++ es) Hn) as (em' & E & Hw & Hq & Ho & Hi).
  { intros k1 s1 H1. simpl. rewrite lookup_insert_ne; [apply Hl; by right|].
    intros ->. apply Hk. apply list_elem_of_fmap. by exists (k1, s1). }
  exists em'. rewrite E. cbn [flat_map]. rewrite Ev. cbn [fst snd]. rewrite <- !app_assoc.
  split_and!; [done..| |].
  - intros k1 [Hne H1]%not_elem_of_cons. rewrite Ho by done. simpl. by rewrite lookup_insert_ne.
  - intros k1 s1 [[= -> ->]|H1]%elem_of_cons; [|by apply Hi].
    rewrite Ho, Ev by done. cbn. by rewrite lookup_insert_eq.
Qed.

(** The detection as a whole. *)
Lemma detect_spec p active partial em :
  exists em' kept ended, DetectEndedChannels p active partial em = (em', active ++ kept, ended) /\
  has_writer em' = has_writer em /\ enqueued em' = enqueued em /\
  (forall k, states em' !! k = (fun s => (poll_verdict p active partial (k, s)).1.1) <$> states em !! k) /\
  (forall c, c ∈ kept <-> exists k s, states em !! k = Some s /\ c ∈ (poll_verdict p active partial (k, s)).1.2) /\
  (forall ec, ec ∈ ended <-> exists k s, states em !! k = Some s /\ ec ∈ (poll_verdict p active partial (k, s)).2).
Proof.
  unfold DetectEndedChannels.
  destruct (detect_fold p active partial (rows (states em)) em active [] (NoDup_fst_map_to_list _))
    as (em' & E & Hw & Hq & Ho & Hi).
  { intros k s H. by apply in_keys in H. }
  eexists em', _, _. split; [exact E|]. split_and!; [done|done| | |].
  - intros k. destruct (states em !! k) as [s|] eqn:Es.
    + refine (Hi k s _). by apply elem_of_map_to_list.
    + rewrite Ho; [done|]. intros (kv & -> & Hkv)%list_elem_of_fmap. apply in_keys in Hkv. congruence.
  - intros c. rewrite list_elem_of_In, in_flat_map. setoid_rewrite <- list_elem_of_In. split.
    + intros ([k s] & Hk%in_keys & Hc). eauto.
    + intros (k & s & Hk & Hc). exists (k, s). split; [|done]. by apply elem_of_map_to_list.
  - intros c. cbn [app]. rewrite list_elem_of_In, in_flat_map. setoid_rewrite <- list_elem_of_In. split.
    + intros ([k s] & Hk%in_keys & Hc). eauto.
    + intros (k & s & Hk & Hc). exists (k, s). split; [|done]. by apply elem_of_map_to_list.
Qed.

(** A state that only differs in its missed polls. *)
Lemma em_same t em em' : em_ok t None em -> enqueued em' = enqueued em ->
  (forall k s', states em' !! k = Some s' -> exists s, states em !! k = Some s /\
     st_lastInterval s' = st_lastInterval s /\ st_viewerCount s' = st_viewerCount s) ->
  em_ok t None em'.
Proof.
  intros [Hs Ht Hp Ho] Eq H. split; rewrite ?Eq; try done. intros k s' Hk Hn.
  destruct (H k s' Hk) as (s & Hs' & E1 & E2). apply (state_same _ _ _ s); [|done|done]. by apply Hs.
Qed.

Lemma verdict_same p active partial k s : let s' := (poll_verdict p active partial (k, s)).1.1 in
  st_lastInterval s' = st_lastInterval s /\ st_viewerCount s' = st_viewerCount s.
Proof. unfold poll_verdict. repeat case_match; done. Qed.

Lemma detect_ok t p active partial em : em_ok t None em -> em_ok t None (DetectEndedChannels p active partial em).1.1.
Proof.
  intros Hem. destruct (detect_spec p active partial em) as (em' & kept & ended & -> & _ & Hq & Hs & _).
  apply (em_same _ em); [done..|]. intros k s'. simpl. rewrite Hs. intros (s & -> & ->)%fmap_Some. exists s.
  split; [done|apply verdict_same].
Qed.

Lemma reset_states p ids em k : exists f, (forall s, f s = s \/ f s = set_missed 0 s) /\
  states (ResetMissedPolls p ids em) !! k = f <$> states em !! k /\
  enqueued (ResetMissedPolls p ids em) = enqueued em /\ has_writer (ResetMissedPolls p ids em) = has_writer em.
Proof.
  unfold ResetMissedPolls. revert em. induction ids as [|id ids IH]; intros em; cbn [fold_left].
  { exists id. split; [by left|]. by destruct (_ !! _). }
  edestruct IH as (f & Hf & -> & -> & ->). cbn [states enqueued has_writer].
  destruct (decide (stateKey p id = k)) as [<-|Hne].
  - rewrite lookup_alter_eq. exists (f ∘ set_missed 0).
    split; [intros s; simpl; destruct (Hf (set_missed 0 s)) as [-> | ->]; by right|by destruct (_ !! _)].
  - rewrite lookup_alter_ne by done. by exists f.
Qed.
Lemma reset_ok t p ids em : em_ok t None em -> em_ok t None (ResetMissedPolls p ids em).
Proof.
  intros Hem. apply (em_same _ em); [done| |].
  - by destruct (reset_states p ids em "") as (_ & _ & _ & -> & _).
  - intros k s'. destruct (reset_states p ids em k) as (f & Hf & -> & _). intros (s & -> & ->)%fmap_Some.
    exists s. split; [done|]. by destruct (Hf s) as [-> | ->].
Qed.

Lemma flush_one_ok iid t em k s : em_ok t None em -> states em !! k = Some s ->
  em_ok t None (flush_one iid t em (k, s)) /\ forall k', k' <> k -> states (flush_one iid t em (k, s)) !! k' = states em !! k'.
Proof.
  intros Hem Hk. unfold flush_one. destruct (str_index k ":") as [n|] eqn:En; [|done].
  destruct (flushViewerInterval _ _ _ _ _ _) as [s' em'] eqn:Ef.
  destruct (st_lastInterval s) as [i|] eqn:Ei.
  2:{ unfold flushViewerInterval in Ef. rewrite Ei in Ef. simplify_eq. by rewrite set_state_same. }
  destruct (eo_states _ _ _ Hem k s Hk) as [Hi Hkey]; [done|].
  destruct Hkey as (p & c & Hv & ->); [by rewrite Ei|].
  rewrite stateKey_colon in En by done. simplify_eq.
  unfold stateKey in Ef at 1 2. rewrite str_take_app in Ef.
  replace (str_drop (S (String.length p)) (p +:+ ":" +:+ c)) with c in Ef
    by (by destruct (valid_platforms p Hv) as [->|[->| ->]]).
  destruct (flush_ok iid t p c s em s' em' Hv (em_skip _ _ _ Hem) (Hi p c Hv eq_refl) Ef) as (H1 & H2 & H3 & _).
  split; [by apply em_set, state_ok_key|]. intros k' Hne. simpl. by rewrite H3, lookup_insert_ne.
Qed.

Lemma flush_all_ok iid t l em : em_ok t None em -> NoDup l.*1 -> (forall k s, (k, s) ∈ l -> states em !! k = Some s) ->
  em_ok t None (fold_left (flush_one iid t) l em).
Proof.
  revert em. induction l as [|[k s] l IH]; intros em Hem Hn Hl; [done|]. cbn [fold_left].
  cbn [fmap list_fmap fst] in Hn. apply NoDup_cons in Hn as [Hk Hn].
  destruct (flush_one_ok iid t em k s Hem) as [H1 H2]; [apply Hl; left|].
  apply IH; [done..|]. intros k1 s1 Hin. rewrite H2; [apply Hl; by right|].
  intros ->. apply Hk. apply list_elem_of_fmap. by exists (k, s1).
Qed.
