(* ===== verification/Redis.v ===== *)
(** The Redis side of the program (src/shared/store/redis.go): a key space
    with expiry, the Lua scripts of the leader lease, heartbeats, published
    commands and the chat streams. Times inside Redis are milliseconds. *)
From S2P Require Import Prelude GoLib Json Tx Channels.
From Stdlib Require Import SpecFloat.

(** ** Data *)

(** [model.WorkerLoad]; a [float64] is a [spec_float] of format 53, 1024. *)
Record WorkerLoad := MkLoad {
  l_WorkerID : string; l_Connections : Z; l_MsgPerSec : spec_float;
  l_MaxConn : Z; l_MaxMsgPerSec : spec_float
}.

Definition stream_id : Type := Z * Z.
Record entry := Entry { en_id : stream_id; en_values : list (string * string) }.

(** A value: a string, the JSON text of a load kept as the load it reads as,
    or a stream in the order of its ids, with the last id it ever gave. *)
Inductive rvalue : Type :=
| RString (s : string)
| RLoad (l : WorkerLoad)
| RStream (l : list entry) (last : stream_id).

(** [bus]: what was published, channel and payload. *)
Record redis := Redis { keys : gmap string (rvalue * option Z); bus : list (string * string) }.

Definition set_keys (f : gmap string (rvalue * option Z) -> gmap string (rvalue * option Z))
    (d : redis) : redis := Redis (f (keys d)) (bus d).

(** ** Commands

    A command, or a script of them, runs at one instant. A script that fails
    keeps the effects of the commands before. *)

Definition script (A : Type) : Type := Z -> redis -> result A * redis.

#[export] Instance script_ret : MRet script := fun A a t d => (Ok a, d).
#[export] Instance script_bind : MBind script := fun A B k m t d =>
  match m t d with
  | (Ok a, d) => k a t d
  | (Err x, d) => (Err x, d)
  end.

Definition raise {A} (x : error) : script A := fun _ d => (Err x, d).

Definition WRONGTYPE : error := ErrMsg "WRONGTYPE".

(** A key is gone once the time is past its expiry. *)
Definition peek (t : Z) (k : string) (d : redis) : option (rvalue * option Z) :=
  match keys d !! k with
  | Some (v, Some at_) => if at_ <? t then None else Some (v, Some at_)
  | x => x
  end.

Definition as_string (v : rvalue) : result rvalue :=
  match v with RStream _ _ => Err WRONGTYPE | v => Ok v end.

Definition cmd_get (k : string) : script (option rvalue) := fun t d =>
  (match peek t k d with
   | Some (v, _) => v ← as_string v; Ok (Some v)
   | None => Ok None
   end, d).

Definition cmd_exists (k : string) : script bool := fun t d =>
  (Ok (match peek t k d with Some _ => true | None => false end), d).

(** The integers Redis accepts: canonical decimal text of an [int64]. *)
Definition redis_int (s : string) : option Z :=
  n ← parse_int s; if String.eqb (format_int n) s then Some n else None.

Definition cmd_incr (k : string) : script Z := fun t d =>
  match peek t k d with
  | None => (Ok 1, set_keys (insert k (RString (format_int 1), None)) d)
  | Some (RString s, x) =>
      match redis_int s with
      | Some n =>
          if n =? 9223372036854775807 then (Err (ErrMsg "increment would overflow"), d)
          else (Ok (n + 1), set_keys (insert k (RString (format_int (n + 1)), x)) d)
      | None => (Err (ErrMsg "value is not an integer"), d)
      end
  | Some (RLoad _, _) => (Err (ErrMsg "value is not an integer"), d)
  | Some (RStream _ _, _) => (Err WRONGTYPE, d)
  end.

Definition cmd_psetex (k : string) (ms : Z) (v : rvalue) : script unit := fun t d =>
  if ms <=? 0 then (Err (ErrMsg "invalid expire time"), d)
  else (Ok tt, set_keys (insert k (v, Some (t + ms))) d).

Definition cmd_del (k : string) : script unit := fun t d => (Ok tt, set_keys (delete k) d).

Definition cmd_pexpire (k : string) (ms : Z) : script unit := fun t d =>
  match peek t k d with
  | Some (v, _) =>
      (Ok tt, if ms <=? 0 then set_keys (delete k) d
              else set_keys (insert k (v, Some (t + ms))) d)
  | None => (Ok tt, d)
  end.

(** The keys that were there and now are not. *)
Definition cmd_unlink (ks : list string) : script Z := fun t d =>
  fold_left (fun '(r, d) k =>
    ((n ← r; Ok (n + match peek t k d with Some _ => 1 | None => 0 end)), set_keys (delete k) d))
    ks (Ok 0, d).

Definition cmd_publish (c payload : string) : script unit := fun t d =>
  (Ok tt, Redis (keys d) (bus d ++ [(c, payload)])).

(** One round trip: the request may be lost before it runs, the reply after. *)
Definition reply {DB} : M DB unit := fun e s =>
  (if driver_fails e (tick s) then Err ErrDriver else Ok tt, bump s).
Definition eval_ {A} (c : script A) : M redis A := fun e s =>
  if driver_fails e (tick s) then (Err ErrDriver, bump s)
  else let '(r, d) := c (unix_milli (clock e (tick s))) (db s) in
    (reply ;; lift r) e (World d (wk s) (S (tick s))).

(** ** Leader lease *)

(** What a script returns; a Lua table ends at its first [nil]. *)
Inductive lua_reply : Type :=
| LInt (n : Z)
| LNil
| LTable (l : list lua_reply).

(** Lua numbers are floats: an integer beyond 53 bits is rounded to even. *)
Definition lua_number (n : Z) : Z :=
  let m := Z.abs n in
  let p := 2 ^ Z.max 0 (Z.log2 m - 52) in
  let q := m / p in
  let r := m mod p in
  let up := (p <? 2 * r) || ((2 * r =? p) && Z.odd q) in
  Z.sgn n * ((if up then q + 1 else q) * p).

(** [tonumber] of a text the scripts stored. *)
Definition tonumber (v : rvalue) : option Z :=
  match v with RString s => lua_number <$> parse_int s | _ => None end.

Definition pair_reply (held : Z) (token : option Z) : lua_reply :=
  LTable (LInt held :: match token with Some n => [LInt n] | None => [] end).

Definition acquireLeaderScript (k counter fence id : string) (ms : Z) : script lua_reply :=
  currentToken ← cmd_get fence;
  taken ← cmd_exists k;
  if negb taken then
    token ← cmd_incr counter;
    cmd_psetex k ms (RString id) ;;
    cmd_psetex fence ms (RString (format_int (lua_number token))) ;;
    mret (pair_reply 1 (Some (lua_number token)))
  else match currentToken with
  | Some v => mret (pair_reply 0 (tonumber v))
  | None => mret (pair_reply 0 (Some 0))
  end.

Definition is_string (v : option rvalue) (s : string) : bool :=
  match v with Some (RString x) => String.eqb x s | _ => false end.

Definition renewLeaderScript (k fence counter id : string) (ms : Z) : script lua_reply :=
  v ← cmd_get k;
  if is_string v id then
    token ← cmd_get fence;
    n ← match token with
        | None =>
            token ← cmd_incr counter;
            cmd_psetex fence ms (RString (format_int (lua_number token))) ;;
            mret (Some (lua_number token))
        | Some v => cmd_pexpire fence ms ;; mret (tonumber v)
        end;
    cmd_pexpire k ms ;;
    mret (pair_reply 1 n)
  else mret (pair_reply 0 (Some 0)).

Definition releaseLeaderScript (k fence id : string) : script lua_reply :=
  v ← cmd_get k;
  if is_string v id then cmd_del k ;; cmd_del fence ;; mret (LInt 1) else mret (LInt 0).

Record LeaderLeaseResult := Lease { Held : bool; Token : Z }.

Definition parseLeaderLeaseResult (raw : lua_reply) : result LeaderLeaseResult :=
  match raw with
  | LTable [LInt held; LInt token] => Ok (Lease (held =? 1) token)
  | LTable [LInt _; _] => Err (ErrMsg "unexpected leader lease token value")
  | LTable [_; _] => Err (ErrMsg "unexpected leader lease held value")
  | _ => Err (ErrMsg "unexpected leader lease result")
  end.

Definition leaderFenceCounterKey (k : string) : string := k +:+ ":fence:counter".
Definition leaderFenceKey (k : string) : string := k +:+ ":fence".

(** [ttl.Milliseconds()] of a duration in nanoseconds. *)
Definition milliseconds (d : Z) : Z := Z.quot d millisecond.

Definition TryAcquireLeaderLease (k id : string) (ttl : Z) : M redis LeaderLeaseResult :=
  raw ← eval_ (acquireLeaderScript k (leaderFenceCounterKey k) (leaderFenceKey k) id
                 (milliseconds ttl));
  lift (parseLeaderLeaseResult raw).

Definition TryAcquireLeader (k id : string) (ttl : Z) : M redis bool :=
  r ← TryAcquireLeaderLease k id ttl; mret (Held r).

Definition RenewLeaderLease (k id : string) (ttl : Z) : M redis LeaderLeaseResult :=
  raw ← eval_ (renewLeaderScript k (leaderFenceKey k) (leaderFenceCounterKey k) id
                 (milliseconds ttl));
  lift (parseLeaderLeaseResult raw).

Definition RenewLeader (k id : string) (ttl : Z) : M redis bool :=
  r ← RenewLeaderLease k id ttl; mret (Held r).

Definition ValidateLeaderLease (k : string) (token : Z) : M redis bool :=
  v ← eval_ (cmd_get (leaderFenceKey k));
  match v with
  | None => mret false
  | Some (RString s) => n ← lift (of_option (ErrMsg "validate leader lease") (parse_int s)); mret (n =? token)
  | Some _ => fail (ErrMsg "validate leader lease")
  end.

Definition ReleaseLeaderLease (k id : string) : M redis bool :=
  raw ← eval_ (releaseLeaderScript k (leaderFenceKey k) id);
  match raw with
  | LInt n => mret (n =? 1)
  | _ => fail (ErrMsg "release leader lease")
  end.

Definition GetLeader (k : string) : M redis string :=
  v ← eval_ (cmd_get k);
  match v with
  | None => mret EmptyString
  | Some (RString s) => mret s
  | Some _ => fail (ErrMsg "get leader")
  end.

(** ** Heartbeats *)

Definition heartbeatTTL : Z := 15 * second.
Definition heartbeatKey (w : string) : string := "worker:heartbeat:" +:+ w.

Definition is_finite (f : spec_float) : bool :=
  match f with S754_infinity _ | S754_nan => false | _ => true end.

Definition SendHeartbeat (w : string) (l : WorkerLoad) : M redis unit :=
  guard_ok (is_finite (l_MsgPerSec l) && is_finite (l_MaxMsgPerSec l)) (ErrMsg "marshal heartbeat") ;;
  eval_ (cmd_psetex (heartbeatKey w) (milliseconds heartbeatTTL)
    (RLoad (MkLoad (coerce (l_WorkerID l)) (l_Connections l) (l_MsgPerSec l) (l_MaxConn l)
              (l_MaxMsgPerSec l)))).

Definition GetWorkerHeartbeat (w : string) : M redis (option WorkerLoad) :=
  v ← eval_ (cmd_get (heartbeatKey w));
  match v with
  | None => mret None
  | Some (RLoad l) => mret (Some l)
  | Some _ => fail (ErrMsg "unmarshal heartbeat")
  end.

(** [MGET], which reads keys of other types as missing, and the loop that
    skips what does not parse. *)
Definition cmd_mget (ks : list string) : script (list (option rvalue)) := fun t d =>
  (Ok (map (fun k => match peek t k d with
                     | Some (RStream _ _, _) | None => None
                     | Some (v, _) => Some v
                     end) ks), d).

Fixpoint collect_loads (ws : list string) (vs : list (option rvalue)) (acc : gmap string WorkerLoad)
  : gmap string WorkerLoad :=
  match ws, vs with
  | w :: ws, Some (RLoad l) :: vs => collect_loads ws vs (<[w := l]> acc)
  | _ :: ws, _ :: vs => collect_loads ws vs acc
  | _, _ => acc
  end.

Definition GetWorkerHeartbeats (ws : list string) : M redis (gmap string WorkerLoad) :=
  match ws with
  | [] => mret ∅
  | _ => vs ← eval_ (cmd_mget (map heartbeatKey ws)); mret (collect_loads ws vs ∅)
  end.

(** ** Published commands *)

Inductive CoordEventType := CoordEventAssign | CoordEventUnassign | CoordEventEnd
  | CoordEventWSClosed | CoordEventDrainStarted | CoordEventOther (s : string).
Definition coord_event_name (x : CoordEventType) : string :=
  match x with
  | CoordEventAssign => "assign" | CoordEventUnassign => "unassign" | CoordEventEnd => "end"
  | CoordEventWSClosed => "ws_closed" | CoordEventDrainStarted => "drain_started"
  | CoordEventOther s => s
  end.
Record CoordEvent := MkCoordEvent {
  ce_Type : CoordEventType; ce_Platform : string; ce_ChannelID : string; ce_WorkerID : string
}.
Definition coordEventsChannel : string := "coord:events".
Definition coord_event_json (x : CoordEvent) : json :=
  JObj [("type", JStr (coerce (coord_event_name (ce_Type x)))); ("platform", JStr (coerce (ce_Platform x)));
        ("channelId", JStr (coerce (ce_ChannelID x))); ("workerId", JStr (coerce (ce_WorkerID x)))]%string.
Definition PublishCoordEvent (x : CoordEvent) : M redis unit :=
  eval_ (cmd_publish coordEventsChannel (render (coord_event_json x))).

Inductive WorkerCommandType := WorkerCommandConnect | WorkerCommandDisconnect | WorkerCommandReconnect.
Definition command_name (x : WorkerCommandType) : string :=
  match x with
  | WorkerCommandConnect => "connect" | WorkerCommandDisconnect => "disconnect"
  | WorkerCommandReconnect => "reconnect"
  end.
Record WorkerCommand := MkCommand {
  wc_Type : WorkerCommandType; wc_Platform : string; wc_ChannelID : string
}.
Definition workerCommandChannel (w : string) : string := "worker:cmd:" +:+ w.
Definition command_json (x : WorkerCommand) : json :=
  JObj [("type", JStr (command_name (wc_Type x))); ("platform", JStr (coerce (wc_Platform x)));
        ("channelId", JStr (coerce (wc_ChannelID x)))]%string.
Definition PublishWorkerCommand (w : string) (x : WorkerCommand) : M redis unit :=
  eval_ (cmd_publish (workerCommandChannel w) (render (command_json x))).

(** [Platform] and [ChannelID] are omitted when empty. *)
Record DiscoverCommand := MkDiscoverCommand { di_Type : string; di_Platform : string; di_ChannelID : string }.
Definition discoverCommandChannel : string := "discover:cmd".
Definition omitempty (k v : string) : list (string * json) :=
  if is_empty v then [] else [(k, JStr (coerce v))].
Definition discover_json (x : DiscoverCommand) : json :=
  JObj ([("type"%string, JStr (coerce (di_Type x)))] ++ omitempty "platform" (di_Platform x)
        ++ omitempty "channelId" (di_ChannelID x)).
Definition PublishDiscoverCommand (x : DiscoverCommand) : M redis unit :=
  eval_ (cmd_publish discoverCommandChannel (render (discover_json x))).

(** ** Chat streams *)

Definition StreamLength (k : string) : M redis Z := eval_ (fun t d =>
  (match peek t k d with
   | None => Ok 0
   | Some (RStream l _, _) => Ok (Z.of_nat (length l))
   | Some _ => Err WRONGTYPE
   end, d)).

Definition batchSize : nat := 100.

(** The loop by batches; an error ends it with what was deleted so far. *)
Fixpoint delete_batches (fuel : nat) (ks : list string) (deleted : Z) : M redis Z :=
  match fuel, ks with
  | _, [] | O, _ => mret deleted
  | S f, _ =>
      n ← eval_ (cmd_unlink (take batchSize ks));
      delete_batches f (drop batchSize ks) (i64 (deleted + n))
  end.
Definition DeleteChatStreams (ks : list string) : M redis Z := delete_batches (length ks) ks 0.

(** The glob [chat:*:*] *)
Definition chat_glob (k : string) : bool := has_prefix k "chat:" && contains (drop_str 5 k) ":".

Section Scan.
(** One [SCAN] call: the keys of a batch and the next cursor. *)
Context (scan : Z -> Z -> redis -> list string * Z).

Fixpoint scan_loop (fuel : nat) (cursor : Z) (acc : list string) : M redis (list string) :=
  match fuel with
  | O => fail ErrContext
  | S f =>
      b ← eval_ (fun t d => (Ok (scan t cursor d), d));
      if b.2 =? 0 then mret (acc ++ b.1) else scan_loop f b.2 (acc ++ b.1)
  end.
(** [fuel]: the calls before the context of the caller ends. *)
Definition ScanChatStreamKeys (fuel : nat) : M redis (list string) := scan_loop fuel 0 [].
End Scan.

Definition format_id (i : stream_id) : string := format_uint i.1 +:+ "-" +:+ format_uint i.2.
(** An id, its sequence number completed with the largest one. *)
Definition parse_id (s : string) : option stream_id :=
  match cut_on "-"%char s with
  | Some (a, b) => m ← parse_uint a; n ← parse_uint b; Some (m, n)
  | None => m ← parse_uint s; Some (m, u64_max)
  end.
Definition id_ltb (a b : stream_id) : bool := (a.1 <? b.1) || ((a.1 =? b.1) && (a.2 <? b.2)).

(** [XREVRANGE k end - COUNT n], [end] being [+] or an exclusive id. *)
Definition cmd_xrevrange (k before : string) (n : Z) : script (list entry) := fun t d =>
  (keep ← (if is_empty before then Ok (fun _ => true)
           else match parse_id before with
                | Some i => if id_ltb (0, 0) i then Ok (fun x => id_ltb (en_id x) i)
                            else Err (ErrMsg "invalid end ID for the interval")
                | None => Err (ErrMsg "Invalid stream ID")
                end);
   match peek t k d with
   | None => Ok []
   | Some (RStream l _, _) => Ok (take (Z.to_nat n) (List.filter keep (rev l)))
   | Some _ => Err WRONGTYPE
   end, d).

Definition clamp_count (count : Z) : Z := if (count <=? 0) || (200 <? count) then 50 else count.

Definition read_stream (k : string) (count : Z) (beforeID : string) : M redis (list (string * list (string * string))) :=
  l ← eval_ (cmd_xrevrange k beforeID (clamp_count count));
  mret (map (fun x => (format_id (en_id x), en_values x)) l).
Definition ReadStreamMessages (platform channel : string) : Z -> string -> M redis _ :=
  read_stream (ChatStreamKey platform channel).
Definition ReadFirehoseMessages : Z -> string -> M redis _ := read_stream "chat:firehose".
