(* ===== verification/ChatStream.v ===== *)
(** Chat in Redis Streams: the publisher of the workers
    (src/worker/internal/pipeline/publisher.go, product_chat.go, dedup.lua)
    and the reads of the product's buffer (src/shared/store/collector_chat.go).
    The code passes a message's fields in the order of a Go map; the model
    keeps the order of [ToStreamFields], which no reader depends on. *)
From S2P Require Import Prelude GoLib Json Sha256 Tx Channels.
From S2P Require Import Message Redis.
From S2P Require Import Model.

(** ** Stream commands *)

Definition cmd_set (k v : string) : script unit := fun t d =>
  (Ok tt, set_keys (insert k (RString v, None)) d).

(** [SET k 1 NX EX secs]: whether it was set. *)
Definition cmd_setnx (k : string) (secs : Z) : script bool := fun t d =>
  match peek t k d with
  | Some _ => (Ok false, d)
  | None => (Ok true, set_keys (insert k (RString "1", Some (t + secs * 1000))) d)
  end.

Definition cmd_expire (k : string) (secs : Z) : script unit := cmd_pexpire k (secs * 1000).

Definition stream_at (t : Z) (k : string) (d : redis) : result (list entry * stream_id * option Z) :=
  match peek t k d with
  | None => Ok ([], (0, 0), None)
  | Some (RStream l last, x) => Ok (l, last, x)
  | Some _ => Err WRONGTYPE
  end.

(** The id [*] stands for: the clock's milliseconds unless the stream is
    ahead of them. *)
Definition next_id (now : Z) (last : stream_id) : option stream_id :=
  if last.1 <? now then Some (now, 0)
  else if last.2 =? u64_max
       then if last.1 =? u64_max then None else Some (last.1 + 1, 0)
       else Some (last.1, last.2 + 1).

Definition cmd_xadd (k : string) (trim : list entry -> list entry) (fields : list (string * string))
  : script stream_id := fun t d =>
  match stream_at t k d with
  | Err x => (Err x, d)
  | Ok (l, last, x) =>
      match next_id t last with
      | None => (Err (ErrMsg "The stream has exhausted the last possible ID"), d)
      | Some i => (Ok i, set_keys (insert k (RStream (trim (l ++ [Entry i fields])) i, x)) d)
      end
  end.

(** [MAXLEN n] *)
Definition keep_last (n : nat) (l : list entry) : list entry := drop (length l - n) l.

(** [XTRIM k MINID id] *)
Definition cmd_xtrim (k minid : string) : script unit := fun t d =>
  match parse_id minid with
  | None => (Err (ErrMsg "Invalid stream ID"), d)
  | Some i =>
      match peek t k d with
      | None => (Ok tt, d)
      | Some (RStream l last, x) =>
          (Ok tt, set_keys (insert k
             (RStream (List.filter (fun y => negb (id_ltb (en_id y) i)) l) last, x)) d)
      | Some _ => (Err WRONGTYPE, d)
      end
  end.

(** [XRANGE k from + COUNT n], [from] being [-] or an exclusive id. *)
Definition cmd_xrange (k : string) (after : option string) (n : nat) : script (list entry) :=
  fun t d =>
  (keep ← match after with
          | None => Ok (fun _ => true)
          | Some s =>
              match parse_id s with
              | None => Err (ErrMsg "Invalid stream ID")
              | Some i => if (i.1 =? u64_max) && (i.2 =? u64_max)
                          then Err (ErrMsg "invalid start ID for the interval")
                          else Ok (fun x => id_ltb i (en_id x))
              end
          end;
   '(l, _, _) ← stream_at t k d;
   Ok (take n (List.filter keep l)), d).

(** ** The product's buffer *)

Definition generation_key (k : string) : string := k +:+ ":generation".

(** What the reading scripts return. *)
Record chat_reply := ChatReply {
  cr_gen : string; cr_first : list entry; cr_last : list entry; cr_rows : list entry
}.

Definition generation_text (v : option rvalue) : result string :=
  match v with
  | None => Ok EmptyString
  | Some (RString s) => Ok s
  | Some _ => Err WRONGTYPE
  end.

Definition chatRead (k gen after : string) : script chat_reply :=
  v ← cmd_get gen;
  generation ← (fun _ d => (generation_text v, d));
  earliest ← cmd_xrange k None 1;
  latest ← cmd_xrevrange k EmptyString 1;
  rows ← cmd_xrange k (Some after) 100;
  mret (ChatReply generation earliest latest rows).

Definition chatReadLatest (k gen : string) : script chat_reply :=
  v ← cmd_get gen;
  generation ← (fun _ d => (generation_text v, d));
  earliest ← cmd_xrange k None 1;
  latest ← cmd_xrevrange k EmptyString 1;
  rows ← cmd_xrevrange k EmptyString 100;
  mret (ChatReply generation earliest latest (rev rows)).

Record StreamMessage := MkStreamMessage { StreamID : string; Values : list (string * string) }.

Record ChatBatch := MkBatch {
  b_Generation : string; b_Earliest : string; b_Latest : string; b_Messages : list StreamMessage
}.

Definition first_id (l : list entry) : string :=
  match l with [] => EmptyString | x :: _ => format_id (en_id x) end.

Definition parseChatBatch (r : chat_reply) : ChatBatch :=
  MkBatch (cr_gen r) (first_id (cr_first r)) (first_id (cr_last r))
    (map (fun x => MkStreamMessage (format_id (en_id x)) (en_values x)) (cr_rows r)).

(** [msg.Values[k].(string)]: of equal fields the last. *)
Definition value (m : StreamMessage) (k : string) : string :=
  match find (fun '(k', _) => String.eqb k' k) (rev (Values m)) with
  | Some (_, v) => v
  | None => EmptyString
  end.

Definition valid_part (p : string) : bool :=
  negb (is_empty p) && all_chars is_digit p && (if parse_uint p then true else false).
Definition ValidStreamID (id : string) : bool :=
  match split_on "-" id with
  | [a; b] => valid_part a && valid_part b
  | _ => false
  end.

(** [strconv.ParseUint] with its error ignored: out of range is the largest. *)
Definition uint_or (s : string) : Z :=
  match parse_uint s with
  | Some n => n
  | None => if negb (is_empty s) && all_chars is_digit s then u64_max else 0
  end.

Definition StreamIDBefore (a b : string) : bool :=
  match split_on "-" a, split_on "-" b with
  | [a1; a2], [b1; b2] =>
      if uint_or a1 =? uint_or b1
      then if uint_or a2 =? uint_or b2 then false else uint_or a2 <? uint_or b2
      else uint_or a1 <? uint_or b1
  | _, _ => false
  end.

Definition ReadProductChat (channel after : string) : M redis ChatBatch :=
  guard_ok (ValidStreamID after) (ErrMsg "invalid stream cursor") ;;
  let key := ChatStreamKey PlatformSoop channel in
  r ← eval_ (chatRead key (generation_key key) after);
  mret (parseChatBatch r).

Definition ReadLatestProductChat (channel : string) : M redis ChatBatch :=
  let key := ChatStreamKey PlatformSoop channel in
  r ← eval_ (chatReadLatest key (generation_key key));
  mret (parseChatBatch r).

Definition NotifyDonations (channel : string) : M redis unit :=
  eval_ (cmd_publish ("collector:donations:" +:+ channel) "changed").

(** [strconv.FormatInt(time.Now().Add(-24*time.Hour).UnixMilli(), 10) + "-0"] *)
Definition day_ago (now : Z) : string := format_int (unix_milli (now - 24 * hour)) +:+ "-0".

Definition TrimProductChat (channel : string) : M redis unit :=
  now ← time_now;
  eval_ (cmd_xtrim (ChatStreamKey PlatformSoop channel) (day_ago now)).

(** ** The publisher *)

Definition productChat (k gen new_generation minid : string) (fields : list (string * string))
  : script stream_id :=
  a ← cmd_exists k;
  b ← cmd_exists gen;
  (if negb a || negb b then cmd_set gen new_generation else mret tt) ;;
  id ← cmd_xadd k (keep_last 10000) fields;
  cmd_xtrim k minid ;;
  cmd_expire k 86400 ;;
  cmd_expire gen 86400 ;;
  mret id.

Definition chatStreamKey (platform channel : string) : string :=
  "chat:" +:+ platform +:+ ":" +:+ channel.
Definition firehoseKey : string := "chat:firehose".
Definition channelMaxLen : Z := 1000.
Definition firehoseMaxLen : Z := 100000.
Definition streamTTL : Z := 48 * hour.
Definition dedupTTL : Z := 10.

Definition without_raw (l : list (string * string)) : list (string * string) :=
  List.filter (fun '(k, _) => negb (String.eqb k "raw")) l.

(** The script of [publishProductChat], without the counters. *)
Definition product_script (msg : ChatMessage) : M redis stream_id :=
  generation ← new_uuid;
  now ← time_now;
  let key := chatStreamKey (m_Platform msg) (m_ChannelID msg) in
  eval_ (productChat key (generation_key key) generation (day_ago now)
           (without_raw (ToStreamFields msg))).

(** A [Publisher]: Redis and the two counters. *)
Record pipeline := Pipe { pp_redis : redis; published : Z; errors : Z }.
Definition on_pipe {A} (m : M redis A) : M pipeline A := fun e s =>
  let x := db s in
  let '(r, w) := m e (World (pp_redis x) (pp_redis x) (tick s)) in
  (r, World (Pipe (db w) (published x) (errors x)) (wk s) (tick w)).
Definition count (ok : bool) : M pipeline unit := fun _ s =>
  let x := db s in
  (Ok tt, World (if ok then Pipe (pp_redis x) (i64 (published x + 1)) (errors x)
                 else Pipe (pp_redis x) (published x) (i64 (errors x + 1))) (wk s) (tick s)).

Definition publishProductChat (msg : ChatMessage) : M pipeline unit :=
  r ← try (on_pipe (product_script msg));
  match r with
  | Err x => count false ;; fail x
  | Ok _ => count true
  end.

(** The commands of a pipeline all run; the first error is reported. *)
Definition also {A} (m : script A) (k : script unit) : script unit := fun t d =>
  let '(r, d) := m t d in
  let '(r', d) := k t d in
  (match r with Err x => Err x | Ok _ => r' end, d).

Section Publish.
(** How much of a stream [MAXLEN ~ n] drops; [xxhash.Sum64String]. *)
Context (approx_trim : Z -> list entry -> list entry) (Sum64String : string -> Z).

Fixpoint hex_digits (n : nat) (x : Z) : string :=
  match n with
  | O => EmptyString
  | S n => hex_digits n (x / 16) +:+ String (Sha256.hex_digit (x mod 16)) EmptyString
  end.
Definition dedupKey (msg : ChatMessage) : string :=
  "dedup:" +:+ m_Platform msg +:+ ":" +:+ m_ChannelID msg +:+ ":"
  +:+ hex_digits 16 (Sum64String (m_Raw msg)).

Definition publish_script (k : string) (fields : list (string * string)) : script unit :=
  also (cmd_xadd k (approx_trim channelMaxLen) fields)
    (also (cmd_expire k (Z.quot streamTTL second))
      (also (cmd_xadd firehoseKey (approx_trim firehoseMaxLen) fields) (mret tt))).

Definition dedup_script (dedup k : string) (fields : list (string * string)) : script Z :=
  fresh_ ← cmd_setnx dedup dedupTTL;
  if negb fresh_ then mret 0
  else
    cmd_xadd k (approx_trim channelMaxLen) fields ;;
    cmd_expire k (Z.quot streamTTL second) ;;
    cmd_xadd firehoseKey (approx_trim firehoseMaxLen) fields ;;
    mret 1.

Definition Publish (msg : ChatMessage) : M pipeline unit :=
  if String.eqb (m_Platform msg) PlatformSoop then publishProductChat msg
  else
    r ← try (on_pipe (eval_ (publish_script (chatStreamKey (m_Platform msg) (m_ChannelID msg))
                               (ToStreamFields msg))));
    match r with
    | Err x => count false ;; fail (ErrMsg ("publish message: " +:+ "redis"))
    | Ok _ => count true
    end.

Definition PublishWithDedup (msg : ChatMessage) : M pipeline unit :=
  if String.eqb (m_Platform msg) PlatformSoop then publishProductChat msg
  else
    r ← try (on_pipe (eval_ (dedup_script (dedupKey msg)
               (chatStreamKey (m_Platform msg) (m_ChannelID msg)) (ToStreamFields msg))));
    match r with
    | Err _ => count false ;; Publish msg
    | Ok n => if n =? 0 then mret tt else count true
    end.
End Publish.
