(* ===== verification/LeaseInv.v ===== *)
(** The leader lease as its users see it: who holds it, with which token and
    until when. The Lua scripts of Redis.v, which keep it in three keys,
    implement this description. *)
From S2P Require Import Prelude GoLib Json Tx Redis.

Create HintDb lease.

(** ** Decimal texts *)

Lemma format_uint_digit n c r : 0 <= n <= u64_max -> format_uint n = String c r -> is_digit c = true.
Proof.
  intros Hn E. pose proof (parse_format_uint n Hn) as P. rewrite E in P. unfold parse_uint in P.
  cbn [is_empty parse_digits] in P. by destruct (is_digit c).
Qed.

Lemma parse_format_nonneg n : 0 <= n < 9223372036854775808 -> parse_int (format_int n) = Some n.
Proof.
  intros Hn. unfold format_int. replace (n <? 0) with false by (symmetry; apply Z.ltb_ge; lia).
  assert (0 <= n <= u64_max) as Hu by (unfold u64_max; lia).
  pose proof (parse_format_uint n Hu) as P. unfold parse_uint in P.
  destruct (format_uint n) as [|c r] eqn:E; [done|]. cbn [is_empty] in P.
  pose proof (format_uint_digit _ _ _ Hu E) as D. unfold parse_int.
  replace (Ascii.eqb c "045") with false by (destruct (Ascii.eqb_spec c "045"%char); [by subst|done]).
  replace (Ascii.eqb c "043") with false by (destruct (Ascii.eqb_spec c "043"%char); [by subst|done]).
  cbn [is_empty]. destruct (parse_digits 0 (String c r)); [|done].
  destruct (_ <=? _); [|done]. injection P as ->.
  by replace (n <=? 9223372036854775807) with true by (symmetry; apply Z.leb_le; lia).
Qed.

Lemma redis_format_int n : 0 <= n < 9223372036854775808 -> redis_int (format_int n) = Some n.
Proof.
  intros Hn. unfold redis_int. rewrite parse_format_nonneg by done. simpl. by rewrite String.eqb_refl.
Qed.

Lemma lua_number_id n : 0 <= n < 2 ^ 53 -> lua_number n = n.
Proof.
  intros Hn. unfold lua_number. rewrite Z.abs_eq by lia.
  assert (Z.max 0 (Z.log2 n - 52) = 0) as ->.
  { destruct (decide (n = 0)) as [->|]; [done|]. pose proof (proj1 (Z.log2_lt_pow2 n 53 ltac:(lia))). lia. }
  rewrite Z.pow_0_r, Z.div_1_r, Z.mod_1_r. simpl. nia.
Qed.

(** ** The abstract lease *)

Record grant := Grant { holder : string; token : Z; until_ : Z }.
Record lease := MkLease { issued : Z; granted : option grant }.

Definition held_at (t : Z) (L : lease) : option grant :=
  match granted L with Some g => if until_ g <? t then None else Some g | None => None end.
Definition held_by (t : Z) (id : string) (L : lease) : option grant :=
  match held_at t L with Some g => if String.eqb (holder g) id then Some g else None | None => None end.

(** Taking it when it is free issues a new token; renewing and releasing are
    the holder's. *)
Definition spec_acquire (id : string) (ms t : Z) (L : lease) : LeaderLeaseResult * lease :=
  match held_at t L with
  | Some g => (Lease false (token g), L)
  | None =>
      (Lease true (issued L + 1), MkLease (issued L + 1) (Some (Grant id (issued L + 1) (t + ms))))
  end.
Definition spec_renew (id : string) (ms t : Z) (L : lease) : LeaderLeaseResult * lease :=
  match held_by t id L with
  | Some g => (Lease true (token g), MkLease (issued L) (Some (Grant id (token g) (t + ms))))
  | None => (Lease false 0, L)
  end.
Definition spec_release (id : string) (t : Z) (L : lease) : bool * lease :=
  match held_by t id L with
  | Some _ => (true, MkLease (issued L) None)
  | None => (false, L)
  end.
Definition spec_validate (n t : Z) (L : lease) : bool :=
  match held_at t L with Some g => token g =? n | None => false end.

(** ** How the keys represent it *)

Section Key.
Context (k : string).
Notation fence := (leaderFenceKey k).
Notation counter := (leaderFenceCounterKey k).

Definition counter_entry (n : Z) (d : redis) : Prop :=
  keys d !! counter = if n =? 0 then None else Some (RString (format_int n), None).

Definition represents (d : redis) (L : lease) : Prop :=
  0 <= issued L /\ counter_entry (issued L) d /\
  match granted L with
  | None => keys d !! k = None /\ keys d !! fence = None
  | Some g =>
      1 <= token g <= issued L /\
      keys d !! k = Some (RString (holder g), Some (until_ g)) /\
      keys d !! fence = Some (RString (format_int (token g)), Some (until_ g))
  end.

Lemma string_app_length a b : String.length (a +:+ b) = (String.length a + String.length b)%nat.
Proof. induction a; simpl; auto. Qed.

Lemma key_neq a b : (String.length a < String.length b)%nat -> a <> b.
Proof. intros H ->. lia. Qed.
Lemma k_fence : k <> fence.
Proof. apply key_neq. unfold leaderFenceKey. rewrite string_app_length. simpl. lia. Qed.
Lemma k_counter : k <> counter.
Proof. apply key_neq. unfold leaderFenceCounterKey. rewrite string_app_length. simpl. lia. Qed.
Lemma fence_counter : fence <> counter.
Proof.
  apply key_neq. unfold leaderFenceCounterKey, leaderFenceKey. rewrite !string_app_length. simpl. lia.
Qed.

#[local] Hint Resolve k_fence k_counter fence_counter : lease.
#[local] Hint Resolve not_eq_sym : lease.

Lemma represents_peek d L t : represents d L ->
  match held_at t L with
  | None => peek t k d = None /\ peek t fence d = None
  | Some g => peek t k d = Some (RString (holder g), Some (until_ g)) /\
      peek t fence d = Some (RString (format_int (token g)), Some (until_ g)) /\
      1 <= token g <= issued L /\ granted L = Some g /\ until_ g <? t = false
  end.
Proof.
  intros (_ & _ & R). unfold held_at, peek. destruct (granted L) as [g|].
  - destruct R as (Hn & -> & ->). destruct (until_ g <? t) eqn:E; repeat split; done || lia.
  - destruct R as (-> & ->). done.
Qed.

Lemma represents_peek_counter d L t : represents d L ->
  peek t counter d = if issued L =? 0 then None else Some (RString (format_int (issued L)), None).
Proof. intros (_ & R & _). unfold peek. rewrite R. by destruct (issued L =? 0). Qed.

Lemma peek_insert_ne t x y e d : x <> y -> peek t x (set_keys (insert y e) d) = peek t x d.
Proof. intros H. unfold peek, set_keys. cbn [keys]. by rewrite lookup_insert_ne by done. Qed.

(** Counting up, the other keys as they are. *)
Lemma incr_spec d L t : represents d L -> issued L < 2 ^ 53 ->
  cmd_incr counter t d =
    (Ok (issued L + 1), set_keys (insert counter (RString (format_int (issued L + 1)), None)) d).
Proof.
  intros R Hb. pose proof R as (Hi & _). unfold cmd_incr.
  rewrite (represents_peek_counter _ _ _ R). destruct (issued L =? 0) eqn:E; b2p.
  - by rewrite E.
  - rewrite redis_format_int by lia.
    by replace (issued L =? 9223372036854775807) with false by (symmetry; apply Z.eqb_neq; lia).
Qed.

(** The keys after the lease was granted anew. *)
Lemma represents_grant c g d' :
  1 <= token g <= c -> counter_entry c d' ->
  keys d' !! k = Some (RString (holder g), Some (until_ g)) ->
  keys d' !! fence = Some (RString (format_int (token g)), Some (until_ g)) ->
  represents d' (MkLease c (Some g)).
Proof. intros H1 H2 H3 H4. split; [simpl; lia|]. by repeat split; simpl; try lia. Qed.

Lemma cmd_get_peek x t d v e : peek t x d = Some (v, e) ->
  match v with RStream _ _ => False | _ => True end -> cmd_get x t d = (Ok (Some v), d).
Proof. intros H. unfold cmd_get. rewrite H. by destruct v. Qed.
Lemma cmd_get_none x t d : peek t x d = None -> cmd_get x t d = (Ok None, d).
Proof. intros H. unfold cmd_get. by rewrite H. Qed.

Lemma script_ok {A B} (m : script A) (f : A -> script B) t d a d' :
  m t d = (Ok a, d') -> (m ≫= f) t d = f a t d'.
Proof. intros H. unfold mbind, script_bind. by rewrite H. Qed.

Lemma acquire_refines id ms t d L : represents d L -> issued L + 1 < 2 ^ 53 -> 0 < ms ->
  exists d', acquireLeaderScript k counter fence id ms t d =
      (Ok (let r := (spec_acquire id ms t L).1 in
           pair_reply (if Held r then 1 else 0) (Some (Redis.Token r))), d') /\
    represents d' (spec_acquire id ms t L).2.
Proof.
  intros R Hb Hms. pose proof R as (Hi & _). pose proof (represents_peek _ _ t R) as P.
  unfold acquireLeaderScript, spec_acquire. destruct (held_at t L) as [g|].
  - destruct P as (P1 & P2 & Hn & _). erewrite script_ok by (by eapply cmd_get_peek).
    erewrite script_ok by (unfold cmd_exists; by rewrite P1). cbn [negb fst snd Held Redis.Token].
    exists d. unfold tonumber. rewrite parse_format_nonneg by lia. simpl. rewrite lua_number_id by lia. done.
  - destruct P as (P1 & P2). erewrite script_ok by (by eapply cmd_get_none).
    erewrite script_ok by (unfold cmd_exists; by rewrite P1). cbn [negb fst snd Held Redis.Token].
    erewrite script_ok by (apply (incr_spec _ _ _ R); lia). rewrite lua_number_id by lia.
    unfold cmd_psetex. replace (ms <=? 0) with false by (symmetry; apply Z.leb_gt; lia).
    eexists. split; [reflexivity|]. apply represents_grant; simpl; [lia|..].
    + unfold counter_entry. replace (issued L + 1 =? 0) with false by (symmetry; apply Z.eqb_neq; lia).
      simpl. rewrite lookup_insert_ne by auto with lease. rewrite lookup_insert_ne by auto with lease.
      by rewrite lookup_insert_eq.
    + rewrite lookup_insert_ne by (apply not_eq_sym; auto with lease). by rewrite lookup_insert_eq.
    + by rewrite lookup_insert_eq.
Qed.

Lemma renew_refines id ms t d L : represents d L -> issued L + 1 < 2 ^ 53 -> 0 < ms ->
  exists d', renewLeaderScript k fence counter id ms t d =
      (Ok (let r := (spec_renew id ms t L).1 in
           pair_reply (if Held r then 1 else 0) (Some (Redis.Token r))), d') /\
    represents d' (spec_renew id ms t L).2.
Proof.
  intros R Hb Hms. pose proof R as (Hi & Hc & _). pose proof (represents_peek _ _ t R) as P.
  unfold renewLeaderScript, spec_renew, held_by. destruct (held_at t L) as [g|].
  - destruct P as (P1 & P2 & Hn & _). erewrite script_ok by (by eapply cmd_get_peek).
    cbn [is_string]. destruct (String.eqb_spec (holder g) id) as [<-|].
    2: { by exists d. }
    cbn [fst snd Held Redis.Token].
    rewrite (script_ok (cmd_get fence) _ t d (Some (RString (format_int (token g)))) d)
      by (by eapply cmd_get_peek).
    assert (ms <=? 0 = false) as Eb by (apply Z.leb_gt; lia).
    eexists. split.
    + unfold tonumber. rewrite parse_format_nonneg by lia. simpl fmap. rewrite lua_number_id by lia.
      unfold mbind, script_bind, mret, script_ret, cmd_pexpire. rewrite P2, Eb. cbn [snd].
      rewrite (peek_insert_ne t k fence) by auto with lease. rewrite P1. reflexivity.
    + apply represents_grant; simpl; [lia|..].
      * unfold counter_entry. simpl. rewrite lookup_insert_ne by auto with lease.
        rewrite lookup_insert_ne by auto with lease. exact Hc.
      * by rewrite lookup_insert_eq.
      * rewrite lookup_insert_ne by auto with lease. by rewrite lookup_insert_eq.
  - destruct P as (P1 & P2). erewrite script_ok by (by eapply cmd_get_none). by exists d.
Qed.

Lemma release_refines id t d L : represents d L ->
  exists d', releaseLeaderScript k fence id t d =
      (Ok (LInt (if (spec_release id t L).1 then 1 else 0)), d') /\
    represents d' (spec_release id t L).2.
Proof.
  intros R. pose proof R as (Hi & Hc & _). pose proof (represents_peek _ _ t R) as P.
  unfold releaseLeaderScript, spec_release, held_by. destruct (held_at t L) as [g|].
  - destruct P as (P1 & P2 & Hn & _). erewrite script_ok by (by eapply cmd_get_peek).
    cbn [is_string]. destruct (String.eqb_spec (holder g) id) as [<-|].
    2: { by exists d. }
    eexists. split; [reflexivity|]. repeat split; simpl; try done.
    + unfold counter_entry. simpl. rewrite lookup_delete_ne by auto with lease.
      rewrite lookup_delete_ne by auto with lease. exact Hc.
    + rewrite lookup_delete_ne by auto with lease. by rewrite lookup_delete_eq.
    + by rewrite lookup_delete_eq.
  - destruct P as (P1 & P2). erewrite script_ok by (by eapply cmd_get_none). by exists d.
Qed.

Lemma validate_refines t d L : represents d L -> issued L < 2 ^ 53 ->
  cmd_get fence t d =
    (Ok ((fun g => RString (format_int (token g))) <$> held_at t L), d) /\
  forall g, held_at t L = Some g -> parse_int (format_int (token g)) = Some (token g).
Proof.
  intros R Hb. pose proof (represents_peek _ _ t R) as P. destruct (held_at t L) as [g|].
  - destruct P as (P1 & P2 & Hn & _). split; [by eapply cmd_get_peek|].
    intros ? [= <-]. apply parse_format_nonneg. lia.
  - destruct P as (P1 & P2). split; [by eapply cmd_get_none|done].
Qed.

(** ** The operations of the store

    Each either never reaches Redis or has the effect described, and reports
    what it says unless the reply is lost. *)

Definition at_ms (e : env) (n : nat) : Z := unix_milli (clock e n).

(** [None]: the request was lost. *)
Inductive call_result {A} (f : lease -> A * lease) (e : env) (s s' : world redis)
    (r : result A) (L : lease) : lease -> Prop :=
| call_lost x : r = Err x -> db s' = db s -> tick s' = S (tick s) -> call_result f e s s' r L L
| call_done : (r = Ok (f L).1 \/ exists x, r = Err x) -> represents (db s') (f L).2 ->
    tick s' = S (S (tick s)) -> call_result f e s s' r L (f L).2.

Lemma eval_cases {A} (c : script A) e (s : world redis) r s' : eval_ c e s = (r, s') ->
  (exists x, r = Err x /\ db s' = db s /\ tick s' = S (tick s)) \/
  (tick s' = S (S (tick s)) /\ db s' = (c (at_ms e (tick s)) (db s)).2 /\
   (r = (c (at_ms e (tick s)) (db s)).1 \/ exists x, r = Err x)).
Proof.
  unfold eval_. destruct (driver_fails e (tick s)); [intros [= <- <-]; eauto|].
  fold (at_ms e (tick s)). destruct (c (at_ms e (tick s)) (db s)) as [r0 d].
  unfold mbind, M_bind, reply. simpl. destruct (driver_fails e (S (tick s))).
  - intros [= <- <-]. right. eauto.
  - destruct r0; intros [= <- <-]; right; eauto.
Qed.

Lemma parse_pair (b : bool) n :
  parseLeaderLeaseResult (pair_reply (if b then 1 else 0) (Some n)) = Ok (Lease b n).
Proof. by destruct b. Qed.

Lemma lease_call {A} (c : script lua_reply) (p : lua_reply -> result A) (f : Z -> lease -> A * lease)
    e s r s' L :
  (forall t d, represents d L -> exists raw d', c t d = (Ok raw, d') /\ p raw = Ok (f t L).1 /\
     represents d' (f t L).2) ->
  represents (db s) L -> (raw ← eval_ c; lift (p raw)) e s = (r, s') ->
  exists L', call_result (f (at_ms e (tick s))) e s s' r L L' /\ represents (db s') L'.
Proof.
  intros Hc R H. apply bind_inv in H. destruct (Hc (at_ms e (tick s)) (db s) R) as (raw & d' & E & Ep & R').
  destruct H as [(a & s1 & H1 & H2)|(x & H1 & ->)]; apply eval_cases in H1; rewrite E in H1; cbn [fst snd] in H1.
  - destruct H1 as [(x & ? & _)|(Ht & Hd & [[= ->]|[x ?]])]; [done| |done].
    rewrite Ep in H2. injection H2 as <- <-. eexists. split; [apply call_done; eauto; by rewrite Hd|].
    by rewrite Hd.
  - destruct H1 as [(y & [= <-] & Hd & Ht)|(Ht & Hd & _)].
    + exists L. split; [by eapply call_lost|]. by rewrite Hd.
    + eexists. split; [apply call_done; eauto; by rewrite Hd|]. by rewrite Hd.
Qed.

Lemma TryAcquire_call id ttl e s r s' L :
  represents (db s) L -> issued L + 1 < 2 ^ 53 -> 0 < milliseconds ttl ->
  TryAcquireLeaderLease k id ttl e s = (r, s') ->
  exists L', call_result (spec_acquire id (milliseconds ttl) (at_ms e (tick s))) e s s' r L L' /\
    represents (db s') L'.
Proof.
  intros R Hb Hms. apply (lease_call _ _ (spec_acquire id (milliseconds ttl))); [|done].
  intros t d Rd. destruct (acquire_refines id _ t _ _ Rd Hb Hms) as (d' & E & R').
  eexists _, d'. split; [exact E|]. split; [|done]. rewrite parse_pair. by destruct (spec_acquire _ _ _ _) as [[] ?].
Qed.

Lemma Renew_call id ttl e s r s' L :
  represents (db s) L -> issued L + 1 < 2 ^ 53 -> 0 < milliseconds ttl ->
  RenewLeaderLease k id ttl e s = (r, s') ->
  exists L', call_result (spec_renew id (milliseconds ttl) (at_ms e (tick s))) e s s' r L L' /\
    represents (db s') L'.
Proof.
  intros R Hb Hms. apply (lease_call _ _ (spec_renew id (milliseconds ttl))); [|done].
  intros t d Rd. destruct (renew_refines id _ t _ _ Rd Hb Hms) as (d' & E & R').
  eexists _, d'. split; [exact E|]. split; [|done]. rewrite parse_pair. by destruct (spec_renew _ _ _ _) as [[] ?].
Qed.

Lemma Release_call id e s r s' L : represents (db s) L ->
  ReleaseLeaderLease k id e s = (r, s') ->
  exists L', call_result (spec_release id (at_ms e (tick s))) e s s' r L L' /\
    represents (db s') L'.
Proof.
  intros R H.
  apply (lease_call (releaseLeaderScript k fence id)
    (fun raw => match raw with LInt n => Ok (n =? 1) | _ => Err (ErrMsg "release leader lease") end)
    (spec_release id)); [|done|].
  - intros t d Rd. destruct (release_refines id t _ _ Rd) as (d' & E & R').
    eexists _, d'. split; [exact E|]. split; [|done]. by destruct (spec_release _ _ _) as [[] ?].
  - unfold ReleaseLeaderLease in H. rewrite <- H. unfold mbind, M_bind.
    destruct (eval_ _ e s) as [[[]|] ?]; done.
Qed.

Lemma Validate_call n e s r s' L : represents (db s) L -> issued L < 2 ^ 53 ->
  ValidateLeaderLease k n e s = (r, s') ->
  db s' = db s /\ (r = Ok (spec_validate n (at_ms e (tick s)) L) \/ exists x, r = Err x).
Proof.
  intros R Hb H. unfold ValidateLeaderLease in H. apply bind_inv in H.
  destruct (validate_refines (at_ms e (tick s)) _ _ R Hb) as (E & Hp).
  destruct H as [(a & s1 & H1 & H2)|(x & H1 & ->)]; apply eval_cases in H1; rewrite E in H1; cbn [fst snd] in H1.
  - destruct H1 as [(x & ? & _)|(Ht & Hd & [[= ->]|[x ?]])]; [done| |done].
    unfold spec_validate. destruct (held_at _ L) as [g|]; simpl in H2.
    + rewrite (Hp _ eq_refl) in H2. injection H2 as <- <-. auto.
    + injection H2 as <- <-. auto.
  - destruct H1 as [(y & [= <-] & Hd & Ht)|(Ht & Hd & _)]; eauto.
Qed.
End Key.

