(* ===== verification/QueryServer.v ===== *)
(** The query gRPC service (src/query/internal/server.go): the calls of
    ChatAdminService and ChatQueryService over the store, the history and the
    Redis streams, with their validation, defaults and bounds. The text after
    the prefix of a status's message is left out. *)
From S2P Require Import Prelude GoLib Sha256 Json GoText GoTime.
From S2P Require Import GoFloat Tx Model Db Ownership Archive.
From S2P Require Import Query Channels History Catalogue Redis.
From Stdlib Require Import SpecFloat.

(** What the service reads and writes. *)
Record backend := Backend { cat : catalogue; red : redis }.
Definition on_cat {A} : Mcat A -> M backend A := zoom cat (fun c b => Backend c (red b)).
Definition on_hist {A} (m : Mhist A) : M backend A := on_cat (zoom held set_held m).
Definition on_main {A} (m : Mdb A) : M backend A := on_hist (zoom main set_main m).
Definition on_redis {A} : M redis A -> M backend A := zoom red (fun r b => Backend (cat b) r).

Notation rpc A := (M backend (answer A)).
Definition served {A} (a : A) : rpc A := mret (Answer a).
Definition refused {A} (code : Code) (message : string) : rpc A := mret (Refused (plain code message)).
(** [if err != nil { return nil, status.Errorf(code, message) }] *)
Definition or_status {A B} (code : Code) (message : string) (m : M backend A) (k : A -> rpc B) : rpc B :=
  r ← try m;
  match r with Ok a => k a | Err _ => refused code message end.

(** [t.Format(time.RFC3339)]: whole seconds. *)
Definition format_time (t : Z) : string := rfc3339 (t / second * second).

(** ** Values of the requests *)

Definition clampInt (v lo hi def : Z) : Z :=
  if v <=? 0 then def else if v <? lo then lo else if hi <? v then hi else v.

Fixpoint normalize_loop (transform : string -> string) (seen out : list string) (l : list string) : list string :=
  match l with
  | [] => out
  | v :: l =>
      let v := trim_space (transform v) in
      if is_empty v || existsb (String.eqb v) seen then normalize_loop transform seen out l
      else normalize_loop transform (v :: seen) (out ++ [v]) l
  end.
Definition normalizeStrings (l : list string) (transform : string -> string) : list string :=
  normalize_loop transform [] [] l.

(** The optional platform in lower case. *)
Definition scoped (platform : option string) : string :=
  match platform with Some p => to_lower p | None => EmptyString end.
Definition at_least_0 (n : Z) : Z := if n <? 0 then 0 else n.

(** ** Values of the responses *)

Record LiveStatus := MkLiveStatus {
  lt_Platform : string; lt_ChannelId : string; lt_StreamerName : string; lt_ViewerCount : Z; lt_Tags : list string;
  lt_Title : option string; lt_Category : option string; lt_ThumbnailUrl : option string;
  lt_BroadcastStartedAt : option string
}.
Definition live_status (ch : LiveChannel) : LiveStatus :=
  let r := lv_row ch in
  let d := lv_details ch in
  MkLiveStatus (lc_platform r) (lc_channel r) (lc_streamer r) (lc_viewers r) (de_tags d)
    (de_title d) (de_category d) (de_thumbnail d) (format_time <$> de_started_at d).
Definition liveChannelsToProto (l : list LiveChannel) : list LiveStatus := map live_status l.

(** [pb.ChatMessage] of a stream entry. *)
Record StreamChat := MkStreamChat {
  sc_StreamId : string; sc_Id : string; sc_Type : string; sc_Platform : string; sc_ChannelId : string;
  sc_StreamerName : string; sc_UserId : string; sc_Nickname : string; sc_Message : string; sc_Timestamp : string;
  sc_Amount : spec_float; sc_Currency : string; sc_AmountKrw : Z
}.

(** A map of the fields: the last of equal names. *)
Definition field_of (v : list (string * string)) (k : string) : option string :=
  snd <$> last (List.filter (fun '(k', _) => String.eqb k' k) v).
Definition strval (v : list (string * string)) (k : string) : string := default EmptyString (field_of v k).

(** [strconv.ParseInt(s, 10, 64)]'s value, its error ignored: too many digits
    leave the bound, whatever follows them. *)
Fixpoint saturating_digits (acc : Z) (s : string) : option Z :=
  match s with
  | EmptyString => Some acc
  | String c s =>
      if is_digit c then
        let n := 10 * acc + digit_val c in
        if u64_max <? n then Some u64_max else saturating_digits n s
      else None
  end.
Definition parse_int_value (s : string) : Z :=
  let '(neg, r) := after_sign s in
  if is_empty r then 0 else
  match saturating_digits 0 r with
  | Some n => if neg then Z.max (- n) (-9223372036854775808) else Z.min n 9223372036854775807
  | None => 0
  end.

Definition streamMsgToProto (m : string * list (string * string)) : StreamChat :=
  let v := m.2 in
  MkStreamChat m.1 (strval v "id") (strval v "type") (strval v "platform") (strval v "channelId")
    (strval v "streamerName") (strval v "userId") (strval v "nickname") (strval v "message") (strval v "timestamp")
    (match field_of v "amount" with Some s => parse_float_value s | None => S754_zero false end)
    (strval v "currency")
    (match field_of v "amountKRW" with Some s => parse_int_value s | None => 0 end).

(** ** Administration *)

Definition GetPlatformStats : rpc (list PlatformStats) :=
  or_status Unavailable "get platform stats" (on_main Channels.GetPlatformStats) served.

(** [pb.LiveChannel] *)
Record ListedChannel := MkListed {
  lg_Id : Z; lg_Platform : string; lg_ChannelId : string; lg_StreamerName : string; lg_ViewerCount : Z;
  lg_Status : string; lg_DiscoveredAt : string; lg_LastSeenAt : string; lg_WorkerId : option string;
  lg_EndedAt : option string
}.
Definition listed (ch : channel) : ListedChannel :=
  let '(id, r) := ch in
  MkListed id (lc_platform r) (lc_channel r) (lc_streamer r) (lc_viewers r) (lc_status r)
    (format_time (lc_discovered_at r)) (format_time (lc_last_seen_at r)) (lc_worker r)
    (format_time <$> lc_ended_at r).
Record ListChannelsResponse := MkListResponse { lp_Channels : list ListedChannel; lp_Total : Z; lp_Page : Z; lp_Size : Z }.
Definition ListChannels (platform channelStatus sort : option string) (pagination : option (Z * Z))
  : rpc ListChannelsResponse :=
  let '(page, size) := default (0, 0) pagination in
  or_status Unavailable "list channels"
    (on_main (ListChannelsFiltered (default EmptyString platform) (default EmptyString channelStatus)
       (default EmptyString sort) page size)) (fun '(channels, total) =>
  served (MkListResponse (map listed channels) total page size)).

Record ListedWorker := MkListedWorker {
  lw_Id : string; lw_Status : string; lw_MaxCapacity : Z; lw_RegisteredAt : string; lw_LastHeartbeat : string;
  lw_ActiveConnections : Z
}.
(** Without the heartbeats the workers have no connections. *)
Definition listed_worker (beats : gmap string WorkerLoad) (w : worker) : ListedWorker :=
  MkListedWorker (w_ID w) (w_Status w) (w_MaxCapacity w) (format_time (w_RegisteredAt w))
    (format_time (w_LastHeartbeat w))
    (match beats !! w_ID w with Some hb => l_Connections hb | None => 0 end).
Definition ListWorkers : rpc (list ListedWorker) :=
  or_status Unavailable "list workers" (on_main ListAllWorkers) (fun workers =>
  beats ← try (on_redis (GetWorkerHeartbeats (map w_ID workers)));
  served (map (listed_worker (match beats with Ok b => b | Err _ => ∅ end)) workers)).

Definition GetChannelMessages (platform channel : string) (count : Z) (beforeId : option string) : rpc (list StreamChat) :=
  or_status Unavailable "read stream messages"
    (on_redis (ReadStreamMessages platform channel count (default EmptyString beforeId))) (fun msgs =>
  served (map streamMsgToProto msgs)).
Definition GetFirehoseMessages (count : Z) (beforeId : option string) : rpc (list StreamChat) :=
  or_status Unavailable "read firehose messages"
    (on_redis (ReadFirehoseMessages count (default EmptyString beforeId))) (fun msgs =>
  served (map streamMsgToProto msgs)).

(** ** Commands to the worker and to discovery *)

Definition blank_channel (platform channel : string) : bool := is_empty platform || is_empty channel.
Definition required : status := plain InvalidArgument "platform and channel_id are required".

(** The worker a channel is assigned to; [None]: not in the table, or nobody. *)
Definition assigned_worker (r : result channel) : option (channel * string) :=
  match r with
  | Ok (id, row) => match lc_worker row with
                    | Some w => if is_empty w then None else Some ((id, row), w)
                    | None => None
                    end
  | Err _ => None
  end.
Definition reconnect_command (ch : channel) (channelID : string) : WorkerCommand :=
  MkCommand WorkerCommandReconnect (lc_platform ch.2) channelID.

(** [GetChannel] and the command, as both calls do it; the worker commanded. *)
Definition reconnect (platform channelID : string) : rpc (option string) :=
  r ← try (on_main (GetChannel platform channelID));
  match r with
  | Err x => if bool_decide (x = ErrNoRows) then served None else refused Unavailable "get channel"
  | Ok _ =>
      match assigned_worker r with
      | None => served None
      | Some (ch, w) =>
          or_status Unavailable "publish reconnect"
            (on_redis (PublishWorkerCommand w (reconnect_command ch channelID))) (fun _ => served (Some w))
      end
  end.

Record ForceReconnectResponse := MkReconnect { fr_Dispatched : bool; fr_WorkerId : option string }.
Definition ForceReconnectChannel (platform channelId : string) : rpc ForceReconnectResponse :=
  let platform := trim_space platform in
  let channelID := trim_space channelId in
  if blank_channel platform channelID then mret (Refused required) else
  r ← reconnect platform channelID;
  match r with
  | Refused st => mret (Refused st)
  | Answer None => served (MkReconnect false None)
  | Answer (Some w) => served (MkReconnect true (Some w))
  end.

(** [RedisRediscoverClient.ForceRediscover]: the status of its result is empty. *)
Definition RedisForceRediscover (platform channelID : string) : M backend string :=
  on_redis (PublishDiscoverCommand (MkDiscoverCommand "rediscover" platform channelID)) ;;
  mret EmptyString.

Definition filled (s : string) : option string := if is_empty s then None else Some s.

Section Rediscover.
Context (RediscoverClient : option (string -> string -> M backend string)).

Record ForceRediscoverResponse := MkRediscover { fd_Dispatched : bool; fd_Status : option string }.
Definition ForceRediscoverChannel (platform channelId : string) : rpc ForceRediscoverResponse :=
  let platform := trim_space platform in
  let channelID := trim_space channelId in
  if blank_channel platform channelID then mret (Refused required) else
  match RediscoverClient with
  | None => refused Unimplemented "discover client not configured"
  | Some ForceRediscover =>
      or_status Unavailable "force rediscover" (ForceRediscover platform channelID) (fun st =>
      served (MkRediscover true (filled st)))
  end.

Record RecoverChannelResponse := MkRecover {
  rc_RediscoverDispatched : bool; rc_ReconnectDispatched : bool; rc_WorkerId : option string; rc_Status : option string
}.
(** A failed rediscovery does not stop the reconnect. *)
Definition RecoverChannel (platform channelId : string) : rpc RecoverChannelResponse :=
  let platform := trim_space platform in
  let channelID := trim_space channelId in
  if blank_channel platform channelID then mret (Refused required) else
  found ← (match RediscoverClient with
           | None => mret (false, None)
           | Some ForceRediscover =>
               res ← try (ForceRediscover platform channelID);
               mret (match res with Ok st => (true, filled st) | Err _ => (false, None) end)
           end : M backend (bool * option string));
  r ← reconnect platform channelID;
  match r with
  | Refused st => mret (Refused st)
  | Answer w => served (MkRecover found.1 (match w with Some _ => true | None => false end) w found.2)
  end.
End Rediscover.

(** ** Broadcasts of a channel *)

Record BroadcastHistoryItem := MkHistoryItem {
  hi_Platform : string; hi_ChannelId : string; hi_StreamerName : string; hi_Title : string; hi_Category : string;
  hi_StartedAt : string; hi_EndedAt : option string; hi_PeakViewerCount : Z; hi_DurationMinutes : Z
}.
(** [int64(d.Minutes())]: the minutes as a float64. *)
Definition minutes_of (d : Z) : Z :=
  let float n := binary_normalize 53 1024 n 0 false in
  float_to_int64 (SFadd 53 1024 (float (Z.quot d minute)) (SFdiv 53 1024 (float (Z.rem d minute)) (float minute))).
Definition history_item (s : BroadcastSession) : BroadcastHistoryItem :=
  MkHistoryItem (br_Platform s) (br_ChannelID s) (br_StreamerName s) (br_Title s) (br_Category s)
    (format_time (br_StartedAt s)) (format_time <$> br_EndedAt s) (br_PeakViewerCount s)
    (match br_EndedAt s with Some t => minutes_of (time_sub t (br_StartedAt s)) | None => 0 end).

Definition maxBroadcastHistoryRangeDays : Z := 90.
Definition bad_history (message : string) : status := plain InvalidArgument message.

(** The range asked for, both ends in RFC 3339; [None]: by days. *)
Definition history_range (from to_ : option string) : status + option (Z * Z) :=
  match from, to_ with
  | None, None => inr None
  | Some f, Some t =>
      match parse_rfc3339 f with
      | None => inl (bad_history "invalid from (RFC 3339)")
      | Some fromT =>
          match parse_rfc3339 t with
          | None => inl (bad_history "invalid to (RFC 3339)")
          | Some toT =>
              if toT <=? fromT then inl (bad_history "to must be strictly greater than from")
              else if maxBroadcastHistoryRangeDays * 24 * hour <? time_sub toT fromT
                   then inl (bad_history "range too large: max 90 days")
                   else inr (Some (fromT, toT))
          end
      end
  | _, _ => inl (bad_history "from and to must be provided together")
  end.

Definition GetBroadcastHistory (platform channelID : string) (limit days : Z) (from to_ : option string)
  : rpc (list BroadcastHistoryItem * Z) :=
  if blank_channel platform channelID then mret (Refused required) else
  match history_range from to_ with
  | inl st => mret (Refused st)
  | inr range =>
      or_status Unavailable "list broadcast history"
        (on_hist (match range with
                  | Some (fromT, toT) => ListChannelBroadcastHistoryByRange platform channelID fromT toT limit
                  | None => ListChannelBroadcastHistory platform channelID days limit
                  end)) (fun '(sessions, total) =>
      served (map history_item sessions, total))
  end.

Example minutes_truncated : map minutes_of [0; 59 * second; 90 * minute + 59999999999; 240 * hour]%Z = [0; 0; 90; 14400].
Proof. vm_compute. reflexivity. Qed.
Example parse_int_values :
  map parse_int_value ["12"; "-7"; "+5"; ""; "1x"; "99999999999999999999x"; "-9223372036854775809"]%string
  = [12; -7; 5; 0; 0; 9223372036854775807; -9223372036854775808].
Proof. vm_compute. reflexivity. Qed.

Section Explore.
Context (ilike : string -> string -> bool).
Context (grouped ranged : list (string * Z) -> list (string * Z)).

(** ** The live board *)

(** The guard of [GetLiveStatuses], over the channels in order. *)
Definition bad_identifier (p : string * string) : bool := (32 <? char_count p.1) || (256 <? char_count p.2).
Definition GetLiveStatuses (channels : list (string * string)) : rpc (list LiveStatus) :=
  if (500 <? length channels)%nat then refused InvalidArgument "too many channels (max 500)" else
  if existsb bad_identifier channels then refused InvalidArgument "invalid channel identifier" else
  or_status Unavailable "get live statuses" (on_cat (GetLiveStatusesByChannelIDs channels)) (fun l =>
  served (liveChannelsToProto l)).

Record SearchRequest := MkSearch {
  sq_Keyword : string; sq_Platform : option string; sq_Limit : Z; sq_Offset : Z; sq_Category : string; sq_Tag : string;
  sq_Sort : string; sq_Platforms : list string; sq_Categories : list string; sq_TagsIn : list string;
  sq_MinViewerCount : Z; sq_MaxViewerCount : Z; sq_StartedWithinSeconds : Z; sq_SortOrder : string
}.
Record SearchResponse := MkFound { sr_Channels : list LiveStatus; sr_Total : Z }.

Definition search_limit (n : Z) : Z := if (n <=? 0) || (60 <? n) then 10 else n.
Definition sort_order (q : SearchRequest) : string :=
  let s := trim_space (sq_SortOrder q) in
  if is_empty s then trim_space (sq_Sort q) else s.
Definition supported_orders : list string :=
  [EmptyString; "viewer_desc"; "viewer_asc"; "started_at_desc"; "started_at_asc"]%string.

Definition search_args (q : SearchRequest) : SearchLiveChannelsArgs :=
  MkArgs (trim_space (sq_Keyword q))
    (scoped (sq_Platform q)) (normalizeStrings (sq_Platforms q) to_lower)
    (trim_space (sq_Category q)) (normalizeStrings (sq_Categories q) trim_space)
    (trim_space (sq_Tag q)) (normalizeStrings (sq_TagsIn q) trim_space)
    (sort_order q)
    (at_least_0 (sq_MinViewerCount q)) (at_least_0 (sq_MaxViewerCount q)) (at_least_0 (sq_StartedWithinSeconds q))
    (search_limit (sq_Limit q)) (at_least_0 (sq_Offset q)).

(** The early returns, in order. *)
Definition search_invalid (q : SearchRequest) : option status :=
  let a := search_args q in
  let bad m := Some (plain InvalidArgument m) in
  if 50 <? char_count (sa_Keyword a) then bad "keyword too long (max 50 chars)"
  else if 80 <? char_count (sa_Category a) then bad "category too long (max 80 chars)"
  else if 80 <? char_count (sa_Tag a) then bad "tag too long (max 80 chars)"
  else if (10 <? length (sa_Platforms a))%nat || (50 <? length (sa_Categories a))%nat || (50 <? length (sa_Tags a))%nat
       then bad "too many filter values"
  else if existsb (fun s => 80 <? char_count s) (sa_Categories a) then bad "category too long (max 80 chars)"
  else if existsb (fun s => 80 <? char_count s) (sa_Tags a) then bad "tag too long (max 80 chars)"
  else if negb (existsb (String.eqb (sa_SortOrder a)) supported_orders)
       then bad ("unsupported sort_order: " +:+ sa_SortOrder a)
  else None.

Definition SearchLiveChannels (q : SearchRequest) : rpc SearchResponse :=
  match search_invalid q with
  | Some st => mret (Refused st)
  | None =>
      or_status Internal "search live channels failed"
        (on_cat (Catalogue.SearchLiveChannels ilike (search_args q))) (fun '(l, total) =>
      served (MkFound (liveChannelsToProto l) total))
  end.

(** ** The explore page *)

(** [if n <= 0 { n = def }; if n > hi { n = hi }] *)
Definition bounded (n hi def : Z) : Z := let n := if n <=? 0 then def else n in if hi <? n then hi else n.

Definition GetLiveDiscoveryFacets (platform : option string) (categoryLimit tagLimit : Z)
  : rpc (list FacetEntry * list FacetEntry) :=
  or_status Internal "get live discovery facets failed"
    (on_cat (Catalogue.GetLiveDiscoveryFacets grouped (scoped platform) (bounded categoryLimit 50 12) (bounded tagLimit 100 24)))
    served.

Definition channels_or_internal (message : string) (m : Mcat (list LiveChannel)) : rpc (list LiveStatus) :=
  or_status Internal message (on_cat m) (fun l => served (liveChannelsToProto l)).

Definition GetTrendingLiveChannels (limit boostWithinSeconds : Z) (platform : option string) : rpc (list LiveStatus) :=
  channels_or_internal "get trending live channels failed"
    (Catalogue.GetTrendingLiveChannels (scoped platform)
       (if boostWithinSeconds <=? 0 then 3600 else boostWithinSeconds) (clampInt limit 1 60 12)).
Definition GetJustStartedLiveChannels (withinMinutes limit : Z) (platform : option string) : rpc (list LiveStatus) :=
  channels_or_internal "get just-started live channels failed"
    (Catalogue.GetJustStartedLiveChannels (scoped platform) (clampInt withinMinutes 1 180 30) (clampInt limit 1 60 12)).
Definition GetFeaturedLiveChannels (limit : Z) (platform : option string) : rpc (list LiveStatus) :=
  channels_or_internal "get featured live channels failed"
    (Catalogue.GetFeaturedLiveChannels (scoped platform) (clampInt limit 1 60 24)).

Record PlatformSummary := MkSummary { pm_Platform : string; pm_ActiveCount : Z; pm_TopChannels : list LiveStatus }.
Definition GetPlatformLiveSummary (topPerPlatform : Z) : rpc (list PlatformSummary) :=
  or_status Internal "get platform live summary failed"
    (on_cat (Catalogue.GetPlatformLiveSummary ranged (clampInt topPerPlatform 1 20 6))) (fun l =>
  served (map (fun s => MkSummary (ls_Platform s) (ls_ActiveCount s) (liveChannelsToProto (ls_TopChannels s))) l)).

Definition GetExploreStats : rpc ExploreStats :=
  or_status Internal "get explore stats failed" (on_cat Catalogue.GetExploreStats) served.

Record Bundle := MkLiveBundle { bu_Category : string; bu_ActiveCount : Z; bu_Channels : list LiveStatus }.
Definition GetCategoryLiveBundles (categoryCount channelsPerCategory : Z) (platform : option string)
  : rpc (list Bundle) :=
  or_status Internal "get category live bundles failed"
    (on_cat (Catalogue.GetCategoryLiveBundles grouped (scoped platform)
       (clampInt categoryCount 1 20 6) (clampInt channelsPerCategory 1 20 6))) (fun l =>
  served (map (fun b => MkLiveBundle (cb_Category b) (cb_ActiveCount b) (liveChannelsToProto (cb_Channels b))) l)).

(** ** Past broadcasts *)

(** [pb.BroadcastChannel] *)
Record PastChannel := MkPastChannel {
  pc_Platform : string; pc_ChannelId : string; pc_StreamerName : string; pc_Title : string; pc_Tags : list string;
  pc_PeakViewerCount : Z; pc_IsLive : bool; pc_Category : option string; pc_ThumbnailUrl : option string;
  pc_LastStartedAt : option string; pc_LastEndedAt : option string; pc_CurrentViewerCount : option Z
}.
Definition past_channel (b : BroadcastChannel) : PastChannel :=
  MkPastChannel (pb_Platform b) (pb_ChannelID b) (pb_StreamerName b) (pb_Title b) (pb_Tags b)
    (pb_PeakViewerCount b) (pb_IsLive b) (pb_Category b) (pb_ThumbnailURL b)
    (format_time <$> pb_LastStartedAt b) (format_time <$> pb_LastEndedAt b)
    (if pb_IsLive b then Some (pb_CurrentViewerCount b) else None).

Definition SearchBroadcastChannels (keyword : string) (platform : option string) (limit offset lookbackDays : Z)
  : rpc (list PastChannel * Z) :=
  let keyword := trim_space keyword in
  if is_empty keyword then refused InvalidArgument "keyword must not be empty" else
  if 50 <? char_count keyword then refused InvalidArgument "keyword too long (max 50 chars)" else
  or_status Internal "search broadcast channels failed"
    (on_cat (Catalogue.SearchBroadcastChannels ilike keyword (scoped platform) (bounded lookbackDays 180 30)
       (bounded limit 200 20) (at_least_0 offset))) (fun '(l, total) =>
  served (map past_channel l, total)).
End Explore.
