(* ===== verification/QueryServerProps.v ===== *)
(** The live board: a search is answered with a page of exactly the channels
    it asks for, in the order it asks for. *)
From S2P Require Import Prelude GoLib Json GoText Tx Model.
From S2P Require Import Db Ownership Archive Query Channels History.
From S2P Require Import Catalogue Redis QueryServer.

(** ** What a request asks for, in its own terms *)

Section Wanted.
Context (ilike : string -> string -> bool).
Implicit Types (q : SearchRequest) (ch : LiveChannel).

(** Values of a filter: the multi-select ones that are not blank, or the
    older single one when there are none; nothing at all asks for anything. *)
Definition asks (clean : string -> string) (many : list string) (one : string) (has : string -> Prop) : Prop :=
  (exists raw, raw ∈ many /\ clean raw <> EmptyString /\ has (clean raw)) \/
  ((forall raw, raw ∈ many -> clean raw = EmptyString) /\ (one = EmptyString \/ has one)).

Definition mentions (keyword : string) (d : detail_row) : Prop :=
  exists text, (de_title d = Some text \/ de_category d = Some text \/ text ∈ de_tags d) /\
    ilike ("%" +:+ keyword +:+ "%") text = true.

Record wanted q (now : Z) ch : Prop := {
  want_status : lc_status (lv_row ch) = ChannelStatusLive \/ lc_status (lv_row ch) = ChannelStatusPending;
  want_seen : now - 600 * second < lc_last_seen_at (lv_row ch);
  want_platform : asks (fun s => trim_space (to_lower s)) (sq_Platforms q)
    (match sq_Platform q with Some p => to_lower p | None => EmptyString end)
    (fun p => lc_platform (lv_row ch) = p);
  want_keyword : trim_space (sq_Keyword q) = EmptyString \/ mentions (trim_space (sq_Keyword q)) (lv_details ch);
  want_category : asks (fun s => trim_space (trim_space s)) (sq_Categories q) (trim_space (sq_Category q))
    (fun c => de_category (lv_details ch) = Some c);
  want_tag : asks (fun s => trim_space (trim_space s)) (sq_TagsIn q) (trim_space (sq_Tag q))
    (fun t => t ∈ de_tags (lv_details ch));
  want_min : 0 < sq_MinViewerCount q -> sq_MinViewerCount q <= lc_viewers (lv_row ch);
  want_max : 0 < sq_MaxViewerCount q -> lc_viewers (lv_row ch) <= sq_MaxViewerCount q;
  want_start : 0 < sq_StartedWithinSeconds q -> exists t, de_started_at (lv_details ch) = Some t /\
    now - sq_StartedWithinSeconds q * second < t
}.

(** Which of two channels comes first. *)
Definition ahead (order : string) (a b : LiveChannel) : Prop :=
  let ties x y := x = y /\ lv_ID a < lv_ID b in
  let va := lc_viewers (lv_row a) in
  let vb := lc_viewers (lv_row b) in
  let latest up :=
    match de_started_at (lv_details a), de_started_at (lv_details b) with
    | Some x, Some y => (if up : bool then x < y else y < x) \/ ties x y
    | Some _, None => True
    | None, Some _ => False
    | None, None => lv_ID a < lv_ID b
    end in
  if String.eqb order "viewer_asc" then va < vb \/ ties va vb
  else if String.eqb order "started_at_desc" then latest false
  else if String.eqb order "started_at_asc" then latest true
  else vb < va \/ ties va vb.

(** The board of a request: the channels of the table it wants, in order. *)
Record board q (now : Z) (c : catalogue) (l : list LiveChannel) : Prop := {
  board_members : forall ch, ch ∈ l <->
    live (main (held c)) !! lv_ID ch = Some (lv_row ch) /\ lv_details ch = details_of (lv_ID ch) c /\ wanted q now ch;
  board_order : StronglySorted (ahead (sort_order q)) l
}.
End Wanted.

(** ** Orders *)

Section Order.
Context (k : LiveChannel -> Z * Z).

#[export] Instance before_total : Total (before k).
Proof. intros a b. unfold before. lia. Qed.
#[export] Instance before_trans : Transitive (before k).
Proof. intros a b c. unfold before. lia. Qed.

Lemma order_by_perm l : order_by k l ≡ₚ l.
Proof. apply merge_sort_Permutation. Qed.
Lemma order_by_sorted l : StronglySorted (before k) (order_by k l).
Proof. apply (StronglySorted_merge_sort _). Qed.
End Order.

Lemma before_ahead order a b : lv_ID a <> lv_ID b -> before (sort_key order) a b <-> ahead order a b.
Proof.
  intros Hid. unfold before, ahead, sort_key, most_viewers, nulls_last, viewers.
  repeat case_match; cbn [fst snd]; lia.
Qed.

(** Sorted by a relation that agrees on the list's distinct elements. *)
Lemma StronglySorted_distinct {A} (R S : relation A) (f : A -> Z) l :
  (forall a b, f a <> f b -> R a b -> S a b) -> NoDup (map f l) -> StronglySorted R l -> StronglySorted S l.
Proof.
  intros Hrs Hnd Hs. induction Hs as [|a l Hs IH Ha]; [constructor|].
  cbn in Hnd. apply NoDup_cons in Hnd as [Hni Hnd]. constructor; [auto|].
  rewrite List.Forall_forall in *. intros b Hb. apply Hrs; [|auto].
  intros E. apply Hni. rewrite E. by apply list_elem_of_In, in_map.
Qed.

(** ** Requests *)

Lemma normalize_loop_spec f seen out l :
  (forall x, x ∈ seen <-> x ∈ out) ->
  forall x, x ∈ normalize_loop f seen out l <->
    x ∈ out \/ (x <> EmptyString /\ exists raw, raw ∈ l /\ x = trim_space (f raw)).
Proof.
  revert seen out. induction l as [|v l IH]; intros seen out Hso x; cbn [normalize_loop].
  { split; [auto|]. intros [?|(_ & raw & H & _)]; [done|]. by apply elem_of_nil in H. }
  set (y := trim_space (f v)).
  destruct (is_empty y || existsb (String.eqb y) seen) eqn:E.
  - rewrite IH by done. split.
    + intros [?|(? & raw & ? & ?)]; [auto|]. right. split; [done|]. exists raw. split; [by right|done].
    + intros [?|(? & raw & [->|?]%elem_of_cons & Hx)]; [auto| |right; eauto].
      left. apply Hso. fold y in Hx. apply orb_true_iff in E as [E|E].
      * apply is_empty_true in E. congruence.
      * apply existsb_exists in E as (z & Hz & Ez%String.eqb_eq). rewrite Hx, Ez. by apply list_elem_of_In.
  - apply orb_false_iff in E as [E _]. apply is_empty_false in E. rewrite IH.
    + rewrite elem_of_app, list_elem_of_singleton. split.
      * intros [[?| ->]|(? & raw & ? & ?)]; [auto| |].
        -- right. split; [done|]. exists v. split; [by left|done].
        -- right. split; [done|]. exists raw. split; [by right|done].
      * intros [?|(? & raw & [->|?]%elem_of_cons & ->)]; [auto|auto|right; eauto].
    + intros z. rewrite elem_of_cons, elem_of_app, list_elem_of_singleton, Hso. tauto.
Qed.

Lemma elem_of_normalizeStrings f l x :
  x ∈ normalizeStrings l f <-> x <> EmptyString /\ exists raw, raw ∈ l /\ x = trim_space (f raw).
Proof.
  unfold normalizeStrings. rewrite normalize_loop_spec by done. split; [|auto].
  intros [?%elem_of_nil|?]; [done|auto].
Qed.

(** What the store's filter makes of the values. *)
Lemma asks_choose (f : string -> string) many one (has : string -> Prop) (test : string -> bool) :
  (forall x, test x = true <-> has x) ->
  (length (choose (normalizeStrings many f) one) =? 0)%nat || existsb test (choose (normalizeStrings many f) one) = true
  <-> asks (fun s => trim_space (f s)) many one has.
Proof.
  intros Ht. set (l := normalizeStrings many f).
  assert (existsb test l = true <-> exists raw, raw ∈ many /\ trim_space (f raw) <> EmptyString /\ has (trim_space (f raw))) as He.
  { rewrite existsb_exists. split.
    - intros (x & Hx%list_elem_of_In & Hp%Ht). apply elem_of_normalizeStrings in Hx as (Hx & raw & ? & ->). eauto.
    - intros (raw & ? & ? & ?). exists (trim_space (f raw)). split; [|by apply Ht].
      apply list_elem_of_In, elem_of_normalizeStrings. eauto. }
  assert (l = [] <-> forall raw, raw ∈ many -> trim_space (f raw) = EmptyString) as Hn.
  { split.
    - intros Hl raw Hr. destruct (decide (trim_space (f raw) = EmptyString)) as [?|Hne]; [done|].
      exfalso. assert (trim_space (f raw) ∈ l) as Hin by (apply elem_of_normalizeStrings; eauto).
      rewrite Hl in Hin. by apply elem_of_nil in Hin.
    - intros Hr. destruct l as [|x l'] eqn:El; [done|]. exfalso.
      assert (x ∈ l) as Hin by (rewrite El; by left). subst l.
      apply elem_of_normalizeStrings in Hin as (Hx & raw & ? & ->). by apply Hx, Hr. }
  unfold asks. destruct l as [|x l'] eqn:El; cbn [choose].
  - rewrite <- He, <- Hn. cbn. destruct (is_empty one) eqn:Eo; cbn.
    + apply is_empty_true in Eo. tauto.
    + apply is_empty_false in Eo. rewrite orb_false_r, Ht. intuition done.
  - rewrite <- He, <- Hn. cbn [length Nat.eqb orb]. intuition done.
Qed.

(** A bound that is not positive is no bound. *)
Lemma at_least_guard m (test : Z -> bool) :
  (at_least_0 m =? 0) || test (at_least_0 m) = true <-> (0 < m -> test m = true).
Proof.
  unfold at_least_0. destruct (Z.ltb_spec m 0) as [?|?]; [split; [lia|done]|].
  rewrite orb_true_iff, Z.eqb_eq. split; [intros [->|?] ?; [lia|done]|].
  intros Hm. destruct (decide (0 < m)); [right; auto|left; lia].
Qed.

Section Filter.
Context (ilike : string -> string -> bool).

Lemma keyword_mentions keyword d :
  keyword_in ilike keyword (de_title d) (de_category d) (de_tags d) = true <-> mentions ilike keyword d.
Proof.
  unfold keyword_in, mentions. rewrite !orb_true_iff, existsb_exists. setoid_rewrite list_elem_of_In.
  destruct (de_title d), (de_category d); naive_solver.
Qed.

Lemma tags_overlap (row tags : list string) :
  existsb (fun t => existsb (String.eqb t) tags) row = existsb (fun t => existsb (String.eqb t) row) tags.
Proof.
  apply eq_true_iff_eq. rewrite !existsb_exists. setoid_rewrite existsb_exists.
  setoid_rewrite String.eqb_eq. naive_solver.
Qed.

Lemma matched_wanted q now ch : matched ilike now (search_args q) ch = true <-> wanted ilike q now ch.
Proof.
  unfold matched. cbn [search_args sa_Keyword sa_Platform sa_Platforms sa_Category sa_Categories sa_Tag sa_Tags
    sa_MinViewerCount sa_MaxViewerCount sa_StartedWithinSeconds].
  rewrite tags_overlap, !andb_true_iff.
  rewrite (asks_choose _ _ _ (fun p => lc_platform (lv_row ch) = p)) by (intros; apply String.eqb_eq).
  rewrite (asks_choose _ _ _ (fun c => de_category (lv_details ch) = Some c)).
  2: { intros x. unfold in_category, opt_eqb. destruct (de_category _); [rewrite String.eqb_eq|]; naive_solver. }
  rewrite (asks_choose _ _ _ (fun t => t ∈ de_tags (lv_details ch))).
  2: { intros x. rewrite existsb_exists. setoid_rewrite String.eqb_eq. rewrite list_elem_of_In. naive_solver. }
  rewrite (at_least_guard (sq_MinViewerCount q) (fun n => n <=? viewers ch)), Z.leb_le.
  rewrite (at_least_guard (sq_MaxViewerCount q) (fun n => viewers ch <=? n)), Z.leb_le.
  rewrite (at_least_guard (sq_StartedWithinSeconds q) (fun n => started_after (now - n * second) ch)).
  rewrite orb_true_iff, is_empty_true, keyword_mentions.
  unfold on_air, fresh_after, is_live, is_pending. rewrite andb_true_iff, orb_true_iff, !String.eqb_eq, Z.ltb_lt.
  replace (10 * minute) with (600 * second) by done.
  unfold started_after. split.
  - intros ((((((((Hs & Ht) & Hp) & Hk) & Hc) & Hg) & Hmin) & Hmax) & Hst). constructor; try done.
    intros Hpos. specialize (Hst Hpos). destruct (de_started_at _); [|done]. apply Z.ltb_lt in Hst. eauto.
  - intros [Hs Ht Hp Hk Hc Hg Hmin Hmax Hst]. repeat split; try done.
    intros Hpos. destruct (Hst Hpos) as (t & -> & Hlt). by apply Z.ltb_lt.
Qed.
End Filter.

(** ** The board *)

Lemma all_channels_spec c ch : ch ∈ all_channels c <->
  live (main (held c)) !! lv_ID ch = Some (lv_row ch) /\ lv_details ch = details_of (lv_ID ch) c.
Proof.
  unfold all_channels, rows. rewrite list_elem_of_In, in_map_iff. split.
  - intros ([id r] & <- & Hin%list_elem_of_In%elem_of_map_to_list). done.
  - destruct ch as [id r d]. cbn. intros [Hl ->]. exists (id, r). split; [done|].
    by apply list_elem_of_In, elem_of_map_to_list.
Qed.

Lemma all_channels_distinct c : NoDup (map lv_ID (all_channels c)).
Proof.
  unfold all_channels, rows. rewrite map_map.
  rewrite (map_ext _ fst) by (by intros [id r]). apply NoDup_fst_map_to_list.
Qed.

Lemma NoDup_map_filter {A B} (f : A -> B) (p : A -> bool) l : NoDup (map f l) -> NoDup (map f (List.filter p l)).
Proof.
  induction l as [|a l IH]; cbn; [done|]. intros [Hni Hnd]%NoDup_cons.
  destruct (p a); cbn; [|auto]. apply NoDup_cons. split; [|auto].
  rewrite list_elem_of_In, in_map_iff. intros (b & Hf & Hb%filter_In). apply Hni.
  apply list_elem_of_In, in_map_iff. exists b. tauto.
Qed.

Section Board.
Context (ilike : string -> string -> bool).

Definition sorted_matches (q : SearchRequest) (now : Z) (c : catalogue) : list LiveChannel :=
  order_by (sort_key (sort_order q)) (matches ilike now (search_args q) c).

Lemma sorted_board q now c : board ilike q now c (sorted_matches q now c).
Proof.
  constructor.
  - intros ch. unfold sorted_matches. rewrite order_by_perm. unfold matches.
    rewrite list_elem_of_In, filter_In, <- list_elem_of_In, all_channels_spec, matched_wanted. tauto.
  - apply (StronglySorted_distinct (before (sort_key (sort_order q))) _ lv_ID).
    + intros a b Hid. by apply before_ahead.
    + unfold sorted_matches. rewrite (Permutation_map lv_ID (order_by_perm _ _)).
      apply NoDup_map_filter, all_channels_distinct.
    + apply order_by_sorted.
Qed.

Lemma sorted_length q now c : length (sorted_matches q now c) = length (matches ilike now (search_args q) c).
Proof. unfold sorted_matches. by rewrite order_by_perm. Qed.

(** The page of the limit and offset, with the limit the code makes of them. *)
Definition code_page {A} (q : SearchRequest) (l : list A) : list A :=
  take (Z.to_nat (search_limit (sq_Limit q))) (drop (Z.to_nat (at_least_0 (sq_Offset q))) l).

Lemma search_limit_pos n : 0 < search_limit n <= 60.
Proof. unfold search_limit. destruct (_ || _) eqn:E; [lia|]. b2p. lia. Qed.

Lemma limit_offset_page {A} q (l : list A) :
  limit_offset (search_limit (sq_Limit q)) (at_least_0 (sq_Offset q)) l = Ok (code_page q l).
Proof.
  unfold limit_offset, sql_limit. pose proof (search_limit_pos (sq_Limit q)).
  replace (at_least_0 (sq_Offset q) <? 0) with false.
  - by replace (search_limit (sq_Limit q) <? 0) with false by (symmetry; apply Z.ltb_ge; lia).
  - symmetry. apply Z.ltb_ge. unfold at_least_0. destruct (Z.ltb_spec (sq_Offset q) 0); lia.
Qed.

Lemma search_run q e s : no_failures e -> search_invalid q = None -> sendable (search_args q) = true ->
  let c := cat (db s) in
  let l1 := sorted_matches q (clock e (tick s)) c in
  let l2 := sorted_matches q (clock e (S (tick s))) c in
  exists s', SearchLiveChannels ilike q e s =
    (Ok (Answer (MkFound (match l1 with [] => [] | _ => map live_status (code_page q l2) end) (Z.of_nat (length l1)))), s').
Proof.
  intros Hnf Hv Hs c l1 l2. subst c. unfold SearchLiveChannels. rewrite Hv. unfold or_status.
  unfold mbind at 1, M_bind at 1, try, on_cat, zoom. cbn [db wk tick].
  unfold Catalogue.SearchLiveChannels.
  erewrite pool_query_run; [|done|cbn [clock tick db]; by rewrite Hs].
  rewrite <- sorted_length. fold l1. destruct l1 as [|x l1'] eqn:El.
  - cbn. by eexists.
  - replace (Z.of_nat (length (x :: l1')) =? 0) with false by (symmetry; apply Z.eqb_neq; cbn; lia).
    erewrite pool_query_run; [|done|].
    2: { cbn [bump clock tick db]. apply limit_offset_page. }
    cbn. by eexists.
Qed.
End Board.

(** The pages of a fixed size cover a list. *)
Lemma pages_cover {A} (l : list A) m n :
  concat (map (fun k => take m (drop (k * m) l)) (seq 0 n)) = take (n * m) l.
Proof.
  induction n as [|n IH]; [done|]. rewrite seq_S, map_app, concat_app, IH. cbn. rewrite app_nil_r.
  rewrite take_take_drop. f_equal. lia.
Qed.

Definition at_offset (q : SearchRequest) (n : Z) : SearchRequest :=
  MkSearch (sq_Keyword q) (sq_Platform q) (sq_Limit q) n (sq_Category q) (sq_Tag q) (sq_Sort q) (sq_Platforms q)
    (sq_Categories q) (sq_TagsIn q) (sq_MinViewerCount q) (sq_MaxViewerCount q) (sq_StartedWithinSeconds q) (sq_SortOrder q).

(** The channels of an answer. *)
Definition channels_of (r : result (answer SearchResponse)) : list LiveStatus :=
  match r with Ok (Answer x) => sr_Channels x | _ => [] end.

Section Pages.
Context (ilike : string -> string -> bool).

Lemma page_at q e s k : no_failures e -> search_invalid q = None -> sendable (search_args q) = true ->
  (forall i, clock e i = clock e (tick s)) ->
  let l := sorted_matches ilike q (clock e (tick s)) (cat (db s)) in
  let size := Z.to_nat (search_limit (sq_Limit q)) in
  channels_of (SearchLiveChannels ilike (at_offset q (Z.of_nat (k * size))) e s).1
  = map live_status (take size (drop (k * size) l)).
Proof.
  intros Hnf Hv Hs Hc l size.
  destruct (search_run ilike (at_offset q (Z.of_nat (k * size))) e s) as (s' & ->); [done|exact Hv|exact Hs|].
  rewrite (Hc (S _)). cbn [fst channels_of sr_Channels].
  change (sorted_matches ilike (at_offset q (Z.of_nat (k * size))) (clock e (tick s)) (cat (db s))) with l.
  replace (code_page _ _) with (take size (drop (k * size) l)).
  - destruct l; [|done]. by rewrite drop_nil, take_nil.
  - unfold code_page, at_least_0. cbn [at_offset sq_Limit sq_Offset]. fold size.
    destruct (Z.ltb_spec (Z.of_nat (k * size)) 0); [lia|]. by rewrite Nat2Z.id.
Qed.

(** The page size the API documents: 10 when none is given, otherwise the
    limit, clamped to 1-60. *)
Definition documented_limit (n : Z) : Z := if n =? 0 then 10 else Z.max 1 (Z.min 60 n).
Definition page_of {A} (q : SearchRequest) (l : list A) : list A :=
  take (Z.to_nat (documented_limit (sq_Limit q))) (drop (Z.to_nat (at_least_0 (sq_Offset q))) l).

Lemma limit_documented n : 0 <= n <= 60 -> search_limit n = documented_limit n.
Proof.
  unfold search_limit, documented_limit. intros H.
  destruct ((n <=? 0) || (60 <? n)) eqn:E, (n =? 0) eqn:E0; b2p; lia.
Qed.
(** Outside that range the code does not clamp: it answers as if no limit had
    been given. *)
Lemma limit_not_clamped n : ~ 0 <= n <= 60 -> search_limit n = 10 /\ documented_limit n <> 10.
Proof.
  unfold search_limit, documented_limit. intros H.
  destruct ((n <=? 0) || (60 <? n)) eqn:E, (n =? 0) eqn:E0; b2p; lia.
Qed.

(** C19: the search of the live channels, for the limits that need no clamping
    (0, which means the documented default of 10, to 60). A request beyond the
    other bounds is refused with InvalidArgument before any query. Any other
    is answered, when the database does not fail, with how many channels it
    wants (live or pending, seen in the last ten minutes, of one of the
    platforms, categories and tags, with the keyword, within the viewer and
    start bounds) and with the stretch of them its documented limit and its
    offset name, each channel once, in the order asked for, ties by id; and
    while the clock and the tables stand still the pages of consecutive
    offsets are together the board from its start, none missing or repeated. *)
Theorem search_pages q e s : no_failures e -> sendable (search_args q) = true -> 0 <= sq_Limit q <= 60 ->
  match search_invalid q with
  | Some st => SearchLiveChannels ilike q e s = (Ok (Refused st), s) /\ st_code st = InvalidArgument
  | None => exists l1 l2 s',
      board ilike q (clock e (tick s)) (cat (db s)) l1 /\
      board ilike q (clock e (S (tick s))) (cat (db s)) l2 /\
      SearchLiveChannels ilike q e s =
        (Ok (Answer (MkFound (match l1 with [] => [] | _ => map live_status (page_of q l2) end) (Z.of_nat (length l1)))), s') /\
      ((forall i, clock e i = clock e (tick s)) -> l2 = l1 /\
       forall n, let size := Z.to_nat (documented_limit (sq_Limit q)) in
         concat (map (fun k => channels_of (SearchLiveChannels ilike (at_offset q (Z.of_nat (k * size))) e s).1) (seq 0 n))
         = map live_status (take (n * size) l1))
  end.
Proof.
  intros Hnf Hs Hq. destruct (search_invalid q) as [st|] eqn:Hv.
  - unfold SearchLiveChannels. rewrite Hv. split; [done|].
    unfold search_invalid in Hv. repeat case_match; by simplify_eq.
  - unfold page_of. rewrite <- (limit_documented _ Hq).
    destruct (search_run ilike q e s Hnf Hv Hs) as (s' & Hrun).
    eexists _, _, s'. split; [apply sorted_board|]. split; [apply sorted_board|]. split; [exact Hrun|].
    intros Hc. split; [by rewrite (Hc (S _))|]. intros n. set (size := Z.to_nat (search_limit _)).
    rewrite (map_ext _ _ (fun k => page_at q e s k Hnf Hv Hs Hc)).
    rewrite <- pages_cover, concat_map, map_map. done.
Qed.
End Pages.

(** ** The best of each group

    The window function's rows, taken apart again by group as the code does:
    each group has its own best channels. *)

Lemma filter_flat_map {A B} (p : B -> bool) (f : A -> list B) l :
  List.filter p (flat_map f l) = flat_map (fun x => List.filter p (f x)) l.
Proof. induction l as [|a l IH]; cbn; [done|]. by rewrite List.filter_app, IH. Qed.

Lemma flat_map_one {A B} (f : A -> list B) x l :
  NoDup l -> x ∈ l -> (forall y, y ∈ l -> y <> x -> f y = []) -> flat_map f l = f x.
Proof.
  intros Hnd Hx Hf. assert (forall l', (forall y, y ∈ l' -> f y = []) -> flat_map f l' = []) as He.
  { induction l' as [|y l' IH]; cbn; intros Hl'; [done|]. rewrite (Hl' y), IH; [done| |by left].
    intros z Hz. apply Hl'. by right. }
  induction l as [|y l IH]; [by apply elem_of_nil in Hx|]. apply NoDup_cons in Hnd as [Hy Hnd]. cbn.
  apply elem_of_cons in Hx as [->|Hx].
  - rewrite He; [by rewrite app_nil_r|]. intros z Hz. apply Hf; [by right|]. by intros ->.
  - rewrite (Hf y); [|by left|by intros ->]. apply IH; [done|done|]. intros z Hz. apply Hf. by right.
Qed.

Lemma filter_keeps_all {A} (p : A -> bool) l : (forall a, a ∈ l -> p a = true) -> List.filter p l = l.
Proof.
  induction l as [|a l IH]; cbn; intros Hl; [done|]. rewrite (Hl a), IH; [done| |by left].
  intros b Hb. apply Hl. by right.
Qed.
Lemma filter_keeps_none {A} (p : A -> bool) l : (forall a, a ∈ l -> p a = false) -> List.filter p l = [].
Proof.
  induction l as [|a l IH]; cbn; intros Hl; [done|]. rewrite (Hl a), IH; [done| |by left].
  intros b Hb. apply Hl. by right.
Qed.

Lemma elem_of_best n k p l ch : ch ∈ take n (order_by k (List.filter p l)) -> ch ∈ l /\ p ch = true.
Proof.
  intros Hch%subseteq_take.
  rewrite order_by_perm in Hch. by apply list_elem_of_In, filter_In in Hch as [?%list_elem_of_In ?].
Qed.

Lemma top_of_each_group n names (p : string -> LiveChannel -> bool) l x :
  NoDup names -> x ∈ names -> (forall y ch, p x ch = true -> p y ch = true -> y = x) ->
  List.filter (p x) (top_of_each n names p l) = take (Z.to_nat n) (order_by most_viewers (List.filter (p x) l)).
Proof.
  intros Hnd Hx Hp. unfold top_of_each. rewrite filter_flat_map, (flat_map_one _ x).
  - apply filter_keeps_all. intros ch Hch. by apply elem_of_best in Hch as [_ Hch].
  - by rewrite merge_sort_Permutation.
  - by rewrite merge_sort_Permutation.
  - intros y Hy Hne. apply filter_keeps_none. intros ch Hch. apply elem_of_best in Hch as [_ Hch].
    destruct (p x ch) eqn:E; [|done]. destruct Hne. by eapply Hp.
Qed.

(** A platform of the summary and a category of the bundles show their own. *)
Corollary platform_group n l p : p ∈ platform_names l ->
  List.filter (fun ch => on_platform p (lv_row ch))
    (top_of_each n (remove_dups (platform_names l)) (fun p ch => on_platform p (lv_row ch)) l)
  = take (Z.to_nat n) (order_by most_viewers (List.filter (fun ch => on_platform p (lv_row ch)) l)).
Proof.
  intros Hp. apply (top_of_each_group n _ (fun p ch => on_platform p (lv_row ch))).
  - apply NoDup_remove_dups.
  - by apply elem_of_remove_dups.
  - unfold on_platform. intros y ch ->%String.eqb_eq <-%String.eqb_eq. done.
Qed.
Corollary category_group n names l x : NoDup names -> x ∈ names ->
  List.filter (in_category x) (top_of_each n names in_category l)
  = take (Z.to_nat n) (order_by most_viewers (List.filter (in_category x) l)).
Proof.
  intros Hnd Hx. apply top_of_each_group; [done|done|]. unfold in_category, opt_eqb.
  intros y ch. destruct (de_category _); [|done]. intros ->%String.eqb_eq <-%String.eqb_eq. done.
Qed.

(** ** A board of five channels *)

Module Demo.
Definition t0 : Z := 1700000000 * second.
Definition row (p ch : string) (n : Z) (status : string) (seen : Z) : live_row :=
  LiveRow p ch "streamer" n status None t0 seen None None None None.
Definition tables : catalogue := Catalogue
  (set_main (set_live (fun _ => list_to_map
     [(1, row "soop" "a" 10 "live" t0); (2, row "chzzk" "b" 30 "pending" t0);
      (3, row "soop" "c" 10 "live" t0); (4, row "soop" "d" 99 "ended" t0);
      (5, row "soop" "e" 50 "live" (t0 - 600 * second))]%string) empty_db) (History empty_db ∅ ∅ ∅))
  (list_to_map [(1, Details (Some "Chess night"%string) None None ["strategy"%string] None (Some t0));
                (3, Details (Some "chess"%string) None None [] None None)]).
(** A text that contains the pattern between its two percent signs. *)
Definition ilike (pattern text : string) : bool :=
  contains (to_lower text) (to_lower (remove_byte "%"%char pattern)).
Definition calm : env := Env (fun _ => false) (fun _ => false) (fun _ => t0 + second) (fun _ => t0) (fun _ => EmptyString).
Definition start : world backend := let b := Backend tables (Redis ∅ []) in World b b 0.
Definition everything : SearchRequest :=
  MkSearch "" None 2 0 "" "" "" [] [] [] 0 0 0 "viewer_desc".
Definition chess : SearchRequest :=
  MkSearch " CHESS " (Some "cime"%string) 0 0 "" "" "started_at_desc" [" SOOP "; "soop"]%string [] [] 5 0 0 "".
Definition answered (q : SearchRequest) : option (list string * Z) :=
  match (SearchLiveChannels ilike q calm start).1 with
  | Ok (Answer r) => Some (map lt_ChannelId (sr_Channels r), sr_Total r)
  | _ => None
  end.

Example board_first_page : answered everything = Some (["b"; "a"]%string, 3).
Proof. vm_compute. reflexivity. Qed.
Example board_second_page : answered (at_offset everything 2) = Some (["c"]%string, 3).
Proof. vm_compute. reflexivity. Qed.
(** The older platform field does not count next to the newer one. *)
Example chess_on_soop : answered chess = Some (["a"; "c"]%string, 2).
Proof. vm_compute. reflexivity. Qed.
(** The broadcast of chzzk/b was about chess and is about cooking now; the
    search of past broadcasts still finds its older metadata. *)
Definition about (title : string) : metadata_columns :=
  MetadataColumns title "game" "" [] "" "" None t0 "i".
Definition past : catalogue := set_held (History (main (held tables)) ∅ ∅ (list_to_map
  [((t0 - hour, "chzzk", "b", 0), about "chess"); ((t0, "chzzk", "b", 0), about "cooking")]%string)) tables.
Definition searched_past (offset : Z) : option (list (string * string) * Z) :=
  let b := Backend past (Redis ∅ []) in
  match (SearchBroadcastChannels ilike "chess" None 20 offset 30 calm (World b b 0)).1 with
  | Ok (Answer (l, total)) => Some (map (fun x => (pc_ChannelId x, pc_Title x)) l, total)
  | _ => None
  end.
Example older_metadata_found : searched_past 0 = Some ([("b", "chess")]%string, 1).
Proof. vm_compute. reflexivity. Qed.
(** Past the last page the total is 0. *)
Example total_past_the_end : searched_past 1 = Some ([], 0).
Proof. vm_compute. reflexivity. Qed.

(** More than an [int4] of viewers together: no counters at all. *)
Definition crowded : catalogue := set_held (set_main (set_live (fun _ => list_to_map
  [(1, row "soop" "a" 2000000000 "live" t0); (2, row "soop" "b" 2000000000 "live" t0)]%string) empty_db) (held tables)) tables.
Example explore_overflows :
  let b := Backend crowded (Redis ∅ []) in
  (GetExploreStats calm (World b b 0)).1 = Ok (Refused (plain Internal "get explore stats failed")).
Proof. vm_compute. reflexivity. Qed.

(** A limit over 60 falls back to 10. *)
Example limit_61 : map search_limit [60; 61; 0; -1] = [60; 10; 10; 10].
Proof. vm_compute. reflexivity. Qed.
End Demo.

Lemma search_pages_witness :
  no_failures Demo.calm /\ sendable (search_args Demo.chess) = true /\ search_invalid Demo.chess = None /\
  match search_invalid Demo.chess with
  | Some _ => False
  | None => exists l1 l2 s',
      board Demo.ilike Demo.chess (clock Demo.calm 0) Demo.tables l1 /\
      board Demo.ilike Demo.chess (clock Demo.calm 1) Demo.tables l2 /\
      SearchLiveChannels Demo.ilike Demo.chess Demo.calm Demo.start =
        (Ok (Answer (MkFound (match l1 with [] => [] | _ => map live_status (page_of Demo.chess l2) end)
           (Z.of_nat (length l1)))), s') /\ l2 = l1
  end.
Proof.
  assert (no_failures Demo.calm) as Hnf by (intros n; reflexivity).
  assert (sendable (search_args Demo.chess) = true) as Hs by (vm_compute; reflexivity).
  assert (search_invalid Demo.chess = None) as Hv by (vm_compute; reflexivity).
  split; [exact Hnf|]. split; [exact Hs|]. split; [exact Hv|].
  assert (0 <= sq_Limit Demo.chess <= 60) as Hq by (vm_compute; split; discriminate).
  pose proof (search_pages Demo.ilike Demo.chess Demo.calm Demo.start Hnf Hs Hq) as H.
  rewrite Hv in H |- *. destruct H as (l1 & l2 & s' & H1 & H2 & H3 & H4).
  exists l1, l2, s'. split; [exact H1|]. split; [exact H2|]. split; [exact H3|].
  apply H4. intros i. reflexivity.
Defined.
