(* ===== verification/Election.v ===== *)
(** Leader election over the Redis lease: the coordinator's
    (src/coordinator/internal/leader.go) and the discover service's, with its
    fencing token and grace on failed renewals
    (src/discover/internal/leader.go). The loops are given by what they do
    per timer event and on cancellation. *)
From S2P Require Import Prelude GoLib Tx Redis.

(** The callbacks an event of the loop calls. *)
Inductive callback := OnAcquire | OnLose.

Module CoordLeader.

Definition leaderKey : string := "coordinator:leader".
Definition ttl : Z := 5 * second.

(** An elector's own state. *)
Record elector := Elector { isLeader : bool }.
Definition NewLeaderElection : elector := Elector false.

Section Instance_.
Context (instanceID : string).

Definition loseLeadership : elector * list callback := (Elector false, [OnLose]).

Definition tryAcquire (le : elector) : M redis (elector * list callback) :=
  r ← try (TryAcquireLeader leaderKey instanceID ttl);
  mret (match (r : result bool) return elector * list callback with
        | Err _ => (le, [])
        | Ok ok => if ok then (Elector true, [OnAcquire]) else (le, [])
        end).

Definition tryRenew (le : elector) : M redis (elector * list callback) :=
  r ← try (RenewLeader leaderKey instanceID ttl);
  mret (match (r : result bool) return elector * list callback with
        | Err _ => loseLeadership
        | Ok ok => if ok then (le, []) else loseLeadership
        end).

(** [Run]: one tick of its ticker, and its return when the context ends. *)
Definition on_tick (le : elector) : M redis (elector * list callback) :=
  if isLeader le then tryRenew le else tryAcquire le.
Definition on_done (le : elector) : M redis (elector * list callback) :=
  mret (if isLeader le return elector * list callback then loseLeadership else (le, [])).
End Instance_.
End CoordLeader.

Module DiscoverLeader.

Definition leaderKey : string := "discover:leader".

Record LeaderElectionConfig := Config {
  TTL : Z; RenewInterval : Z; AcquireInterval : Z; RenewJitter : Z; AcquireJitter : Z;
  RetryInterval : Z; OperationTimeout : Z; ExpiryGuard : Z; MaxConsecutiveRenewErrors : Z
}.

Definition DefaultLeaderElectionConfig : LeaderElectionConfig :=
  Config (15 * second) (3 * second) (2 * second) (750 * millisecond) (500 * millisecond)
    (1 * second) (2 * second) (2 * second) 3.
Definition minLeaderLoopDelay : Z := 100 * millisecond.

Definition positive_or (x y : Z) : Z := if x <=? 0 then y else x.

Definition normalized (cfg : LeaderElectionConfig) : LeaderElectionConfig :=
  let d := DefaultLeaderElectionConfig in
  let ttl := positive_or (TTL cfg) (TTL d) in
  let guard := positive_or (ExpiryGuard cfg) (ExpiryGuard d) in
  Config ttl
    (positive_or (RenewInterval cfg) (RenewInterval d))
    (positive_or (AcquireInterval cfg) (AcquireInterval d))
    (positive_or (RenewJitter cfg) (RenewJitter d))
    (positive_or (AcquireJitter cfg) (AcquireJitter d))
    (positive_or (RetryInterval cfg) (RetryInterval d))
    (positive_or (OperationTimeout cfg) (OperationTimeout d))
    (if ttl <=? guard then Z.max (Z.quot ttl 5) second else guard)
    (positive_or (MaxConsecutiveRenewErrors cfg) (MaxConsecutiveRenewErrors d)).

Record elector := Elector {
  isLeader : bool; leaseToken : Z; leaseValidUntil : Z; consecutiveRenewErrors : Z
}.
Definition NewLeaderElection : elector := Elector false 0 zero_time 0.

Definition FencingToken (le : elector) : Z := if isLeader le then leaseToken le else 0.

Section Instance_.
Context (config : LeaderElectionConfig) (instanceID : string).
(** [random.Int63n(n)], drawn at a point of time. *)
Context (int63n : nat -> Z -> Z).

Definition withJitter (base jitter : Z) : M redis Z := fun e s =>
  let base := Z.max base minLeaderLoopDelay in
  if jitter <=? 0 then (Ok base, s)
  else
    let delta := int63n (tick s) (i64 (i64 (jitter * 2) + 1)) - jitter in
    (Ok (Z.max (i64 (base + delta)) minLeaderLoopDelay), bump s).

Definition nextAcquireDelay : M redis Z := withJitter (AcquireInterval config) (AcquireJitter config).

Definition nextRenewDelay (lastRTT : Z) (suspect : bool) : M redis Z :=
  withJitter (if suspect || (Z.quot (RenewInterval config) 2 <=? lastRTT)
              then RetryInterval config else RenewInterval config) (RenewJitter config).

Definition shouldKeepLeadership (errors remainingLease : Z) : bool :=
  if remainingLease <=? ExpiryGuard config then false
  else if errors <=? MaxConsecutiveRenewErrors config then true
  else ExpiryGuard config + RetryInterval config <? remainingLease.

(** [redisOpContext]: a call whose reply is not in by the deadline reports an
    error, whatever it did. *)
Definition redisOpContext {A} (m : M redis A) : M redis A := fun e s =>
  let '(r, s') := m e s in
  if OperationTimeout config <? time_sub (wall e (tick s')) (wall e (tick s))
  then (Err ErrContext, s') else (r, s').

Definition loseLeadership : elector * list callback :=
  (Elector false 0 zero_time 0, [OnLose]).

Definition step_result : Type := elector * list callback * Z.

Definition tryAcquire (le : elector) : M redis step_result :=
  r ← try (redisOpContext (TryAcquireLeaderLease leaderKey instanceID (TTL config)));
  match r with
  | Err _ => d ← nextAcquireDelay; mret (le, [], d)
  | Ok lease =>
      if Held lease then
        now ← time_now;
        d ← nextRenewDelay 0 false;
        mret (Elector true (Redis.Token lease) (now + TTL config) 0, [OnAcquire], d)
      else d ← nextAcquireDelay; mret (le, [], d)
  end.

Definition tryRenew (le : elector) : M redis step_result :=
  startedAt ← time_now;
  r ← try (redisOpContext (RenewLeaderLease leaderKey instanceID (TTL config)));
  match r with
  | Err _ =>
      let errors := consecutiveRenewErrors le + 1 in
      now ← time_now;
      if shouldKeepLeadership errors (time_sub (leaseValidUntil le) now) then
        later ← time_now;
        d ← nextRenewDelay (time_sub later startedAt) true;
        mret (Elector (isLeader le) (leaseToken le) (leaseValidUntil le) errors, [], d)
      else d ← nextAcquireDelay; mret (loseLeadership, d)
  | Ok lease =>
      if Held lease then
        later ← time_now;
        d ← nextRenewDelay (time_sub later startedAt) false;
        mret (Elector (isLeader le) (Redis.Token lease) (startedAt + TTL config) 0, [], d)
      else d ← nextAcquireDelay; mret (loseLeadership, d)
  end.

(** [Run]: one expiry of its timer, and its return when the context ends. *)
Definition on_timer (le : elector) : M redis step_result :=
  if isLeader le then tryRenew le else tryAcquire le.
Definition on_done (le : elector) : M redis (elector * list callback) :=
  if isLeader le then
    r ← try (redisOpContext (ReleaseLeaderLease leaderKey instanceID));
    mret loseLeadership
  else mret (le, []).
End Instance_.
End DiscoverLeader.
