(* ===== verification/ElectionInv.v ===== *)
(** The discover service's instances competing for the leader lease: the
    system of their electors over one Redis, and its invariant. *)
From S2P Require Import Prelude GoLib Json Tx Redis LeaseInv.
From S2P Require Import Election.
Import DiscoverLeader.

(** ** How one call changes the lease *)

Inductive change (j : string) (ms t : Z) (L : lease) : lease -> Prop :=
| ch_same : change j ms t L L
| ch_take : held_at t L = None ->
    change j ms t L (MkLease (issued L + 1) (Some (Grant j (issued L + 1) (t + ms))))
| ch_extend g : held_by t j L = Some g ->
    change j ms t L (MkLease (issued L) (Some (Grant j (token g) (t + ms))))
| ch_free g : held_by t j L = Some g -> change j ms t L (MkLease (issued L) None).

Lemma acquire_change j ms t L : change j ms t L (spec_acquire j ms t L).2.
Proof. unfold spec_acquire. destruct (held_at t L) eqn:E; by constructor. Qed.
Lemma renew_change j ms t L : change j ms t L (spec_renew j ms t L).2.
Proof. unfold spec_renew. destruct (held_by t j L) eqn:E; econstructor; done. Qed.
Lemma release_change j ms t L : change j ms t L (spec_release j t L).2.
Proof. unfold spec_release. destruct (held_by t j L) eqn:E; econstructor; done. Qed.

Lemma held_at_Some t L g : held_at t L = Some g <-> granted L = Some g /\ t <= until_ g.
Proof.
  unfold held_at. destruct (granted L) as [h|]; [|naive_solver].
  destruct (until_ h <? t) eqn:E; b2p; split; [done| | |]; intros; destruct_and?; simplify_eq; auto; lia.
Qed.
Lemma held_at_None t L : held_at t L = None <-> forall g, granted L = Some g -> until_ g < t.
Proof.
  unfold held_at. destruct (granted L) as [h|]; [|naive_solver].
  destruct (until_ h <? t) eqn:E; b2p; split; try done.
  - intros _ g [= <-]. done.
  - intros H. specialize (H _ eq_refl). lia.
Qed.
Lemma held_by_Some t j L g : held_by t j L = Some g <-> granted L = Some g /\ t <= until_ g /\ holder g = j.
Proof.
  unfold held_by. destruct (held_at t L) as [h|] eqn:E.
  - apply held_at_Some in E as [E1 E2]. destruct (String.eqb_spec (holder h) j); naive_solver.
  - rewrite held_at_None in E. split; [done|]. intros (H1 & H2 & _). specialize (E _ H1). lia.
Qed.

(** ** The system *)

Record esys := ESys {
  redis_ : world redis;
  insts : gmap string elector;
  captured : list (string * Z)   (* the fencing tokens read, by the instance that read them *)
}.

Section System.
Context (config : LeaderElectionConfig) (int63n : string -> nat -> Z -> Z) (envs : string -> env).

(** [elsewhere]: anything that leaves the three keys of the lease alone. *)
Inductive estep : esys -> esys -> Prop :=
| start i w m h : m !! i = None ->
    estep (ESys w m h) (ESys w (<[i := NewLeaderElection]> m) h)
| timer i w m h le le' cbs d w' : m !! i = Some le ->
    on_timer config i (int63n i) le (envs i) w = (Ok (le', cbs, d), w') ->
    estep (ESys w m h) (ESys w' (<[i := le']> m) h)
| stop i w m h le le' cbs w' : m !! i = Some le ->
    on_done config i le (envs i) w = (Ok (le', cbs), w') ->
    estep (ESys w m h) (ESys w' (delete i m) h)
| crash i w m h : estep (ESys w m h) (ESys w (delete i m) h)
| capture i w m h le : m !! i = Some le -> FencingToken le <> 0 ->
    estep (ESys w m h) (ESys w m ((i, FencingToken le) :: h))
| elsewhere w m h w' : (tick w <= tick w')%nat ->
    (forall k, k = leaderKey \/ k = leaderFenceKey leaderKey \/ k = leaderFenceCounterKey leaderKey ->
       keys (db w') !! k = keys (db w) !! k) ->
    estep (ESys w m h) (ESys w' m h).

Definition einit (w : world redis) : Prop :=
  forall k, k = leaderKey \/ k = leaderFenceKey leaderKey \/ k = leaderFenceCounterKey leaderKey ->
    keys (db w) !! k = None.

Inductive ereachable : esys -> Prop :=
| reach_init w : einit w -> ereachable (ESys w ∅ [])
| reach_step s s' : ereachable s -> estep s s' -> ereachable s'.

(** One Redis server with a clock that does not run backwards; the clock of
    an instance runs at the same rate. *)
Context (server : nat -> Z) (skew : string -> Z).
Hypothesis server_clock : forall i n, clock (envs i) n = server n.
Hypothesis local_clock : forall i n, wall (envs i) n = server n + skew i.
Hypothesis server_mono : forall n m, (n <= m)%nat -> server n <= server m.
Hypothesis ttl_ms : exists q, 0 < q /\ TTL config = q * millisecond.
Hypothesis timeout_guard :
  0 < OperationTimeout config <= ExpiryGuard config /\ ExpiryGuard config < 9223372036854775807.

Definition ms_at (n : nat) : Z := unix_milli (server n).
Notation ms := (milliseconds (TTL config)).

Lemma ms_mono n m : (n <= m)%nat -> ms_at n <= ms_at m.
Proof. intros H. apply Z.div_le_mono; [done|]. by apply server_mono. Qed.
Lemma ms_pos : 0 < ms.
Proof. destruct ttl_ms as (q & Hq & ->). unfold milliseconds. rewrite Z.quot_mul; [done|discriminate]. Qed.
Lemma at_ms_server i n : at_ms (envs i) n = ms_at n.
Proof. unfold at_ms, ms_at. by rewrite server_clock. Qed.

(** An instant before [t + TTL] is in a millisecond at most that of the expiry. *)
Lemma before_expiry c t : c < t + TTL config -> unix_milli c <= unix_milli t + ms.
Proof.
  destruct ttl_ms as (q & Hq & ->). unfold milliseconds, unix_milli. rewrite Z.quot_mul by discriminate.
  intros H. rewrite <- Z.div_add by discriminate. apply Z.div_le_mono; [done|lia].
Qed.

(** [i] holds token [t]: its elector has it, or it was captured from it. *)
Definition has_token (st : esys) (i : string) (t : Z) : Prop :=
  (i, t) ∈ captured st \/
  exists le, insts st !! i = Some le /\ isLeader le = true /\ leaseToken le = t.

(** As long as the local deadline less the guard is not reached, the lease of
    [i] is in Redis. *)
Definition backed (L : lease) (n : nat) (i : string) (valid : Z) : Prop :=
  exists x, (forall c, c + skew i < valid - ExpiryGuard config -> unix_milli c <= x) /\
    ((exists g, granted L = Some g /\ holder g = i /\ x <= until_ g) \/ x < ms_at n).

Record inv (L : lease) (st : esys) : Prop := {
  inv_rep : represents leaderKey (db (redis_ st)) L;
  inv_issued : issued L <= Z.of_nat (tick (redis_ st));
  inv_until : forall g, granted L = Some g -> until_ g <= ms_at (tick (redis_ st)) + ms;
  inv_range : forall i t, has_token st i t -> 1 <= t <= issued L;
  inv_unique : forall i j t, has_token st i t -> has_token st j t -> i = j;
  inv_holder : forall i t g, has_token st i t -> granted L = Some g -> token g = t -> holder g = i;
  inv_backed : forall i le, insts st !! i = Some le -> isLeader le = true ->
    backed L (tick (redis_ st)) i (leaseValidUntil le)
}.

(** ** What a change of the lease preserves *)

Lemma change_until j n m L L' : (n <= m)%nat ->
  (forall g, granted L = Some g -> until_ g <= ms_at n + ms) -> change j ms (ms_at m) L L' ->
  forall g, granted L' = Some g -> until_ g <= ms_at m + ms.
Proof.
  intros Hn H C g. pose proof (ms_mono _ _ Hn). destruct C; simpl.
  - intros Hg. specialize (H _ Hg). lia.
  - intros [= <-]; simpl; lia.
  - intros [= <-]; simpl; lia.
  - done.
Qed.

Lemma backed_later L n m i v : (n <= m)%nat -> backed L n i v -> backed L m i v.
Proof.
  intros Hn (x & Hx & H). exists x. split; [done|]. pose proof (ms_mono _ _ Hn).
  destruct H; [auto|right; lia].
Qed.

(** Whoever makes the change, unless the lease is given up by [i]. *)
Lemma change_backed j n m L L' i v : (n <= m)%nat ->
  (forall g, granted L = Some g -> until_ g <= ms_at n + ms) ->
  (i <> j \/ (granted L <> None -> granted L' <> None)) -> change j ms (ms_at m) L L' -> backed L n i v -> backed L' m i v.
Proof.
  intros Hn Hu Hfree C (x & Hx & [(g & Hg & Hi & Hle)|Hlt]).
  2: { exists x. split; [done|]. right. pose proof (ms_mono _ _ Hn). lia. }
  exists x. split; [done|]. specialize (Hu _ Hg). pose proof (ms_mono _ _ Hn).
  inversion C as [|E|g' E|g' E]; subst L'.
  - left. eauto.
  - right. rewrite held_at_None in E. specialize (E _ Hg). lia.
  - left. apply held_by_Some in E as (E & _ & E'). simplify_eq. eexists. split; [done|]. split; [done|]. simpl. lia.
  - apply held_by_Some in E as (E & _ & E'). simplify_eq. simpl in Hfree.
    destruct Hfree as [?|Hfree]; [done|]. by destruct Hfree; [congruence|].
Qed.

(** ** One event of one instance *)

(** What the new state [o] of instance [j] must satisfy. *)
Definition accounted (L' : lease) (n : nat) (st : esys) (j : string) (o : option elector) : Prop :=
  forall le, o = Some le -> isLeader le = true ->
    (has_token st j (leaseToken le) \/
     exists g, granted L' = Some g /\ holder g = j /\ token g = leaseToken le) /\
    backed L' n j (leaseValidUntil le).

Lemma token_origin L' st j m' w' : accounted L' (tick w') st j (m' !! j) ->
  (forall i, i <> j -> m' !! i = insts st !! i) ->
  forall i t, has_token (ESys w' m' (captured st)) i t ->
  has_token st i t \/ (i = j /\ exists g, granted L' = Some g /\ holder g = j /\ token g = t).
Proof.
  intros Ha Hm i t [H|(le & H1 & H2 & H3)]; [by left; left|]. cbn [insts] in H1.
  destruct (decide (i = j)) as [->|Hn].
  - destruct (Ha le H1 H2) as [[Ht|(g & ?)] _]; subst; eauto.
  - left. right. rewrite Hm in H1 by done. eauto.
Qed.

Lemma change_token j t L L' g : change j ms t L L' -> granted L' = Some g ->
  token g = issued L + 1 \/ exists g0, granted L = Some g0 /\ token g0 = token g /\ holder g0 = holder g.
Proof.
  intros [|E|g' E|g' E]; simpl.
  - eauto.
  - intros [= <-]. by left.
  - intros [= <-]. apply held_by_Some in E as (E & _ & E'). right. eauto.
  - done.
Qed.

Lemma change_issued j t L L' : change j ms t L L' -> issued L <= issued L' <= issued L + 1.
Proof. intros []; simpl; lia. Qed.

Lemma inv_move j L L' st n w' m' : inv L st -> (tick (redis_ st) <= n <= tick w')%nat ->
  change j ms (ms_at n) L L' -> represents leaderKey (db w') L' -> issued L' <= Z.of_nat (tick w') ->
  (forall i, i <> j -> m' !! i = insts st !! i) -> accounted L' (tick w') st j (m' !! j) ->
  inv L' (ESys w' m' (captured st)).
Proof.
  intros I [Hn Hn'] C R Hi Hm Ha. pose proof (token_origin _ _ _ _ _ Ha Hm) as Ho.
  pose proof (change_issued _ _ _ _ C) as Hc.
  assert (forall i t g, has_token st i t -> granted L' = Some g -> token g = t -> holder g = i) as Hh.
  { intros i t g Ht Hg <-. destruct (change_token _ _ _ _ _ C Hg) as [Hf|(g0 & H1 & H2 & H3)].
    - pose proof (inv_range _ _ I _ _ Ht). lia.
    - rewrite <- H3. by eapply inv_holder. }
  split; cbn [redis_ insts captured].
  - done.
  - done.
  - intros g Hg. pose proof (change_until j _ _ _ _ Hn (inv_until _ _ I) C g Hg).
    pose proof (ms_mono _ _ Hn'). lia.
  - intros i t Ht. destruct (Ho _ _ Ht) as [H|(_ & g & H1 & _ & <-)].
    + pose proof (inv_range _ _ I _ _ H). lia.
    + destruct R as (_ & _ & R). rewrite H1 in R. lia.
  - intros i k t H1 H2.
    destruct (Ho _ _ H1) as [H|(-> & g & Hg & Hj & Ht)], (Ho _ _ H2) as [H'|(-> & g' & Hg' & Hj' & Ht')].
    + by eapply inv_unique.
    + rewrite <- Hj'. symmetry. by eapply Hh.
    + rewrite <- Hj. by eapply Hh.
    + done.
  - intros i t g Ht Hg Eg. destruct (Ho _ _ Ht) as [H|(-> & g' & Hg' & Hj' & Ht')]; [by eapply Hh|].
    by simplify_eq.
  - intros i le Hl Hle. destruct (decide (i = j)) as [->|Hne]; [by apply Ha|].
    rewrite Hm in Hl by done. apply (backed_later _ n); [done|].
    eapply change_backed; [exact Hn|exact (inv_until _ _ I)|by left|exact C|].
    by eapply inv_backed.
Qed.

(** ** The runs of an event *)

Lemma withJitter_run b x r e (w : world redis) out w' : withJitter r b x e w = (out, w') ->
  db w' = db w /\ (tick w <= tick w')%nat.
Proof. unfold withJitter. destruct (_ <=? _); intros [= <- <-]; simpl; auto. Qed.

Lemma op_run {A} (m : M redis A) e w r w' : try (redisOpContext config m) e w = (Ok r, w') ->
  exists r0, m e w = (r0, w') /\
    (r = r0 /\ time_sub (wall e (tick w')) (wall e (tick w)) <= OperationTimeout config \/
     r = Err ErrContext).
Proof.
  unfold try, redisOpContext. destruct (m e w) as [r0 w1]. destruct (_ <? _) eqn:E; intros [= <- <-]; b2p; eauto.
Qed.

Lemma elapsed_op i n m : time_sub (wall (envs i) m) (wall (envs i) n) <= OperationTimeout config ->
  server m - server n <= OperationTimeout config.
Proof. rewrite !local_clock. unfold time_sub. lia. Qed.

Lemma call_facts {A} k (f : lease -> A * lease) e (w w' : world redis) r L L' :
  call_result k f e w w' r L L' -> (tick w < tick w')%nat /\
  (L' = L \/ L' = (f L).2) /\ forall a, r = Ok a -> a = (f L).1 /\ L' = (f L).2.
Proof.
  intros [x -> ? ->|H ? ->]; (split; [lia|]); split; auto; [done|].
  intros a ->. destruct H as [[= ->]|[? [=]]]. done.
Qed.

(** What an event of [j] in [w] leads to. *)
Definition event_ok (L : lease) (st : esys) (j : string) (w' : world redis) (o : option elector) : Prop :=
  exists L' n, (tick (redis_ st) <= n <= tick w')%nat /\ change j ms (ms_at n) L L' /\
    represents leaderKey (db w') L' /\ issued L' <= Z.of_nat (tick w') /\
    accounted L' (tick w') st j o /\
    (forall le, o = Some le -> isLeader le = true ->
       exists m, (tick (redis_ st) <= m < tick w')%nat /\ held_by (ms_at m) j L' <> None).

Lemma fresh_backed n m j v t : (n <= m)%nat -> v - ExpiryGuard config <= server n + skew j + TTL config ->
  backed (MkLease t (Some (Grant j t (ms_at n + ms)))) m j v.
Proof.
  intros Hn Hv. exists (ms_at n + ms). split; [|left; simpl; eauto using Z.le_refl].
  intros c Hc. apply before_expiry. lia.
Qed.

Lemma nextAcquireDelay_run j e w out w' : nextAcquireDelay config (int63n j) e w = (out, w') ->
  db w' = db w /\ (tick w <= tick w')%nat.
Proof. apply withJitter_run. Qed.
Lemma nextRenewDelay_run j x b e w out w' : nextRenewDelay config (int63n j) x b e w = (out, w') ->
  db w' = db w /\ (tick w <= tick w')%nat.
Proof. apply withJitter_run. Qed.

Ltac run_local H :=
  repeat match type of H with
  | (_ ≫= _) _ _ = (Ok _, _) =>
      let a := fresh "d" in let w := fresh "w" in let R := fresh "R" in
      apply bind_ok in H as (a & w & R & H);
      first [ apply nextAcquireDelay_run in R as [? ?] | apply nextRenewDelay_run in R as [? ?]
            | apply time_now_ok in R as [? ?]; subst ]
  | mret _ _ _ = (Ok _, _) => apply ret_ok in H as [H ?]; subst
  end; try unfold loseLeadership in H; simplify_eq/=.

(** The call to Redis, and what follows locally. *)
Lemma event_intro L st j w1 w' n L' o : inv L st ->
  (tick (redis_ st) <= n < tick w1)%nat -> (tick w1 <= tick w')%nat -> db w' = db w1 ->
  change j ms (ms_at n) L L' -> represents leaderKey (db w1) L' ->
  accounted L' (tick w') st j o ->
  (forall le, o = Some le -> isLeader le = true ->
     exists m, (tick (redis_ st) <= m < tick w')%nat /\ held_by (ms_at m) j L' <> None) ->
  event_ok L st j w' o.
Proof.
  intros I [? ?] ? Hd C R Ha Hh. exists L', n. rewrite Hd. pose proof (inv_issued _ _ I).
  pose proof (change_issued _ _ _ _ C). split_and!; try done; lia.
Qed.

Lemma not_leader L' n st j le : isLeader le = false -> accounted L' n st j (Some le).
Proof. intros H ? [= <-]. congruence. Qed.

Lemma acquire_event L st j le le' cbs d w' : inv L st -> isLeader le = false ->
  issued L + 1 < 2 ^ 53 ->
  tryAcquire config j (int63n j) le (envs j) (redis_ st) = (Ok (le', cbs, d), w') ->
  event_ok L st j w' (Some le').
Proof.
  intros I Hle Hb H. unfold tryAcquire in H. apply bind_ok in H as (r & w1 & H1 & H).
  apply op_run in H1 as (r0 & H1 & Hr).
  pose proof (TryAcquire_call leaderKey j (TTL config) _ _ _ _ _ (inv_rep _ _ I) Hb ms_pos H1) as (L' & Hc & R).
  rewrite at_ms_server in Hc. apply call_facts in Hc as (Ht & HL & Hok).
  set (n := tick (redis_ st)) in *.
  assert (change j ms (ms_at n) L L') as C by (destruct HL as [-> | ->]; auto using acquire_change, ch_same).
  destruct r as [l|x]; [destruct (Held l) eqn:El|]; run_local H.
  2,3: eapply (event_intro _ _ _ w1 _ n); [done|fold n; lia|simpl; lia|simpl; congruence|done..| |];
    [by apply not_leader|intros ? [= <-]; congruence].
  destruct Hr as [[<- Hto]|?]; [|done]. apply elapsed_op in Hto.
  destruct (Hok _ eq_refl) as [-> ->]. unfold spec_acquire in *.
  destruct (held_at (ms_at n) L) as [g|] eqn:E; cbn [fst snd Held Redis.Token] in *; [done|].
  eapply (event_intro _ _ _ w1 _ n); [done|fold n; lia|simpl; lia|simpl; congruence|done..| |].
  - intros ? [= <-] _. cbn [leaseToken leaseValidUntil]. split; [right; by eexists|].
    apply fresh_backed; [lia|]. rewrite local_clock. lia.
  - intros ? [= <-] _. exists n. split; [fold n; lia|].
    rewrite (proj2 (held_by_Some _ _ _ (Grant j (issued L + 1) (ms_at n + ms)))); [done|].
    simpl. pose proof ms_pos. split_and!; [done|lia|done].
Qed.

Lemma remaining_bound v now : ExpiryGuard config < time_sub v now -> ExpiryGuard config < v - now.
Proof. unfold time_sub. lia. Qed.

Lemma keep_remaining errors v now : shouldKeepLeadership config errors (time_sub v now) = true ->
  now < v - ExpiryGuard config.
Proof.
  unfold shouldKeepLeadership. destruct (_ <=? _) eqn:E; [done|]. intros _. b2p.
  apply remaining_bound in E. lia.
Qed.

(** A backed lease whose local deadline is ahead by the guard is in Redis. *)
Lemma backed_held L n m i v : backed L n i v -> (n <= m)%nat ->
  wall (envs i) m < v - ExpiryGuard config -> held_by (ms_at m) i L <> None.
Proof.
  intros (x & Hx & H) Hn Hm. rewrite local_clock in Hm. specialize (Hx (server m) Hm).
  fold (ms_at m) in Hx. pose proof (ms_mono _ _ Hn).
  destruct H as [(g & H1 & H2 & H3)|]; [|lia].
  rewrite (proj2 (held_by_Some _ _ _ g)); [done|]. split_and!; [done|lia|done].
Qed.

Lemma renew_event L st j le le' cbs d w' : inv L st -> insts st !! j = Some le -> isLeader le = true ->
  issued L + 1 < 2 ^ 53 ->
  tryRenew config j (int63n j) le (envs j) (redis_ st) = (Ok (le', cbs, d), w') ->
  event_ok L st j w' (Some le').
Proof.
  intros I Hl Hle Hb H. unfold tryRenew in H. apply bind_ok in H as (t0 & w0 & [<- <-]%time_now_ok & H).
  apply bind_ok in H as (r & w1 & H1 & H). apply op_run in H1 as (r0 & H1 & Hr).
  pose proof (Renew_call leaderKey j (TTL config) (envs j) (bump (redis_ st)) r0 w1 L
    (inv_rep _ _ I) Hb ms_pos H1) as (L' & Hc & R).
  rewrite at_ms_server in Hc. apply call_facts in Hc as (Ht & HL & Hok). cbn [bump tick] in *.
  set (n := S (tick (redis_ st))) in *.
  assert (change j ms (ms_at n) L L') as C by (destruct HL as [-> | ->]; auto using renew_change, ch_same).
  assert (granted L <> None -> granted L' <> None) as Hg.
  { destruct HL as [-> | ->]; [done|]. unfold spec_renew. by destruct (held_by _ _ _). }
  assert (backed L' n j (leaseValidUntil le)) as B.
  { eapply (change_backed j (tick (redis_ st))); [lia|by apply inv_until|by right|done|].
    by eapply inv_backed. }
  assert (has_token st j (leaseToken le)) as Htok by (right; eauto).
  destruct r as [l|x]; [destruct (Held l) eqn:El|]; run_local H.
  2: eapply (event_intro _ _ _ w1 _ n); [done|lia|simpl; lia|simpl; congruence|done..| |];
    [by apply not_leader|by intros ? [= <-]].
  2: destruct (shouldKeepLeadership _ _ _) eqn:Ek; run_local H;
    (eapply (event_intro _ _ _ w1 _ n); [done|lia|simpl; lia|simpl; congruence|done..| |]).
  - destruct Hr as [[<- Hto]|?]; [|done]. destruct (Hok _ eq_refl) as [-> ->].
    unfold spec_renew in *. destruct (held_by (ms_at n) j L) as [g|] eqn:E; cbn [fst snd Held Redis.Token] in *; [|done].
    eapply (event_intro _ _ _ w1 _ n); [done|lia|simpl; lia|simpl; congruence|done..| |].
    + intros ? [= <-] _. cbn [leaseToken leaseValidUntil]. split; [right; by eexists|].
      exists (ms_at n + ms). split; [|left; simpl; eauto using Z.le_refl].
      intros c Hcc. rewrite local_clock in Hcc. apply before_expiry.
      pose proof (server_mono (tick (redis_ st)) n ltac:(lia)). lia.
    + intros ? [= <-] _. exists n. split; [simpl; lia|].
      rewrite (proj2 (held_by_Some _ _ _ (Grant j (token g) (ms_at n + ms)))); [done|].
      simpl. pose proof ms_pos. split_and!; [done|lia|done].
  - intros ? [= <-] _. cbn [leaseToken leaseValidUntil]. split; [by left|].
    apply (backed_later _ n); [simpl; lia|done].
  - intros ? [= <-] _. exists (tick w1). split; [simpl; lia|].
    apply (backed_held _ n _ _ (leaseValidUntil le)); [done|lia|]. by apply keep_remaining in Ek.
  - by apply not_leader.
  - by intros ? [= <-].
Qed.

Lemma done_event L st j le le' cbs w' : inv L st ->
  on_done config j le (envs j) (redis_ st) = (Ok (le', cbs), w') -> event_ok L st j w' None.
Proof.
  intros I H. unfold on_done in H. destruct (isLeader le).
  - apply bind_ok in H as (r & w1 & H1 & H). apply ret_ok in H as [_ <-].
    apply op_run in H1 as (r0 & H1 & _).
    pose proof (Release_call leaderKey j _ _ _ _ _ (inv_rep _ _ I) H1) as (L' & Hc & R).
    rewrite at_ms_server in Hc. apply call_facts in Hc as (Ht & HL & _).
    eapply (event_intro _ _ _ w1 _ (tick (redis_ st))); [done|lia|lia|done| |done|done..].
    destruct HL as [-> | ->]; auto using release_change, ch_same.
  - apply ret_ok in H as [_ <-]. pose proof (inv_issued _ _ I). exists L, (tick (redis_ st)).
    split_and!; [lia|lia|apply ch_same|by apply inv_rep|lia|done|done].
Qed.

Lemma event_inv L st j w' m' : inv L st -> event_ok L st j w' (m' !! j) ->
  (forall i, i <> j -> m' !! i = insts st !! i) ->
  exists L', inv L' (ESys w' m' (captured st)).
Proof.
  intros I (L' & n & Hn & C & R & Hi & Ha & _) Hm. exists L'. by eapply (inv_move j L L' st n).
Qed.

(** Every reachable state, for as long as fewer than 2^53 - 2 round trips were
    made: the tokens stay exact. *)
Lemma forward_eval {A} (c : script A) : forward (eval_ c).
Proof.
  intros e s. destruct (eval_ c e s) as [r s'] eqn:E. apply eval_cases in E. simpl.
  destruct E as [(? & _ & _ & ->)|(-> & _)]; lia.
Qed.
Lemma forward_op {A} (m : M redis A) : forward m -> forward (redisOpContext config m).
Proof.
  intros H e s. unfold redisOpContext. specialize (H e s). destruct (m e s) as [r s']. by destruct (_ <? _).
Qed.
Lemma forward_jitter r b x : forward (withJitter r b x).
Proof. intros e s. unfold withJitter. destruct (_ <=? _); simpl; lia. Qed.

#[local] Hint Resolve forward_eval forward_op forward_jitter : collector.

Lemma forward_timer i r le : forward (on_timer config i r le).
Proof.
  unfold on_timer, tryRenew, tryAcquire, nextAcquireDelay, nextRenewDelay, TryAcquireLeaderLease, RenewLeaderLease.
  frame_solve.
Qed.
Lemma forward_done i le : forward (on_done config i le).
Proof.
  unfold on_done, ReleaseLeaderLease. destruct (isLeader le); [|frame_solve].
  apply forward_bind; [|frame_solve]. apply forward_try, forward_op, forward_bind; [frame_solve|].
  intros []; frame_solve.
Qed.

Lemma estep_mono st st' : estep st st' -> (tick (redis_ st) <= tick (redis_ st'))%nat.
Proof.
  intros []; simpl; try lia.
  - match goal with H : on_timer _ _ _ ?le _ _ = _ |- _ => pose proof (forward_timer i (int63n i) le (envs i) w) as F; by rewrite H in F end.
  - match goal with H : on_done _ _ ?le _ _ = _ |- _ => pose proof (forward_done i le (envs i) w) as F; by rewrite H in F end.
Qed.

Lemma has_token_insts w m m' h w' i t :
  (forall x, m' !! x = m !! x \/ m' !! x = None \/ exists le, m' !! x = Some le /\ isLeader le = false) ->
  has_token (ESys w' m' h) i t -> has_token (ESys w m h) i t.
Proof.
  intros Hm [H|(le & H1 & H2 & H3)]; [by left|]. right. cbn [insts] in *.
  destruct (Hm i) as [E|[E|(x & E & ?)]]; rewrite E in H1; simplify_eq; eauto. congruence.
Qed.

(** Electors that start or vanish. *)
Lemma inv_insts L w m m' h :
  (forall x, m' !! x = m !! x \/ m' !! x = None \/ exists le, m' !! x = Some le /\ isLeader le = false) ->
  inv L (ESys w m h) -> inv L (ESys w m' h).
Proof.
  intros Hm I. pose proof (fun i t => has_token_insts w m m' h w i t Hm) as Ht.
  destruct I as [I1 I2 I3 I4 I5 I6 I7]. split; try done.
  - eauto.
  - eauto.
  - eauto.
  - intros i le Hl Hle. cbn [insts] in *. destruct (Hm i) as [E|[E|(x & E & ?)]]; rewrite E in Hl; simplify_eq; eauto.
    congruence.
Qed.

Lemma inv_capture L w m h i le : m !! i = Some le -> FencingToken le <> 0 ->
  inv L (ESys w m h) -> inv L (ESys w m ((i, FencingToken le) :: h)).
Proof.
  intros Hm Hf I.
  assert (forall j t, has_token (ESys w m ((i, FencingToken le) :: h)) j t -> has_token (ESys w m h) j t) as Ht.
  { intros j t [H|H]; [|by right]. cbn [captured] in H. apply elem_of_cons in H as [[= -> ->]|]; [|by left].
    right. exists le. unfold FencingToken in *. by destruct (isLeader le). }
  destruct I as [I1 I2 I3 I4 I5 I6 I7]. split; try done; eauto.
Qed.

Lemma represents_ext d d' L :
  (forall k, k = leaderKey \/ k = leaderFenceKey leaderKey \/ k = leaderFenceCounterKey leaderKey ->
     keys d' !! k = keys d !! k) -> represents leaderKey d L -> represents leaderKey d' L.
Proof.
  intros H (R1 & R2 & R3). split; [done|]. unfold counter_entry in *. rewrite !H by auto. done.
Qed.

Lemma inv_elsewhere L w w' m h : (tick w <= tick w')%nat ->
  (forall k, k = leaderKey \/ k = leaderFenceKey leaderKey \/ k = leaderFenceCounterKey leaderKey ->
     keys (db w') !! k = keys (db w) !! k) ->
  inv L (ESys w m h) -> inv L (ESys w' m h).
Proof.
  intros Hw Hk [I1 I2 I3 I4 I5 I6 I7]. cbn [redis_ insts captured] in *. split; cbn [redis_ insts captured]; try done.
  - by eapply represents_ext.
  - lia.
  - intros g Hg. specialize (I3 _ Hg). pose proof (ms_mono _ _ Hw). lia.
  - intros i le H1 H2. eapply backed_later; [exact Hw|]. eauto.
Qed.

(** Tokens stay exact while fewer than 2^53 - 1 round trips were made. *)
Definition exact (st : esys) : Prop := Z.of_nat (tick (redis_ st)) + 1 < 2 ^ 53.

Lemma inv_step L st st' : exact st -> inv L st -> estep st st' -> exists L', inv L' st'.
Proof.
  intros Hx I H. assert (issued L + 1 < 2 ^ 53) as Hb by (pose proof (inv_issued _ _ I); unfold exact in Hx; lia).
  destruct H as [i w m h Hm|i w m h le le' cbs d w' Hm H|i w m h le le' cbs w' Hm H|i w m h| |].
  - exists L. eapply inv_insts, I. intros x. destruct (decide (x = i)) as [->|].
    + rewrite lookup_insert_eq. right; right. by eexists.
    + rewrite lookup_insert_ne by done. by left.
  - apply (event_inv L (ESys w m h) i w' _ I).
    + rewrite lookup_insert_eq. unfold on_timer in H. destruct (isLeader le) eqn:El.
      * by eapply renew_event.
      * by eapply acquire_event.
    + intros x Hx'. by rewrite lookup_insert_ne by done.
  - apply (event_inv L (ESys w m h) i w' _ I).
    + rewrite lookup_delete_eq. by eapply done_event.
    + intros x Hx'. by rewrite lookup_delete_ne by done.
  - exists L. eapply inv_insts, I. intros x. destruct (decide (x = i)) as [->|].
    + rewrite lookup_delete_eq. auto.
    + rewrite lookup_delete_ne by done. by left.
  - exists L. by apply inv_capture.
  - exists L. by eapply inv_elsewhere.
Qed.

Lemma reachable_inv st : ereachable st -> exact st -> exists L, inv L st.
Proof.
  intros H. induction H as [w Hw|st st' Hr IH Hs]; intros Hx.
  - exists (MkLease 0 None). split; cbn [redis_ insts captured].
    + split; [simpl; lia|]. split; [apply Hw; auto|]. simpl. split; apply Hw; auto.
    + simpl. lia.
    + done.
    + intros i t [H|(le & H & _)]; [by apply elem_of_nil in H|done].
    + intros i j t [H|(le & H & _)]; [by apply elem_of_nil in H|done].
    + done.
    + done.
  - pose proof (estep_mono _ _ Hs). assert (exact st) as Hx' by (unfold exact in *; lia).
    destruct (IH Hx') as (L & I). by eapply inv_step.
Qed.
End System.
