(* ===== verification/ElectionProps.v ===== *)
(** Leader election: the lease, fencing, and who may act as leader. *)
From S2P Require Import Prelude GoLib Json Tx Redis LeaseInv.
From S2P Require Import Election ElectionInv.

(** C20: the Lua scripts implement the lease: on a key space that represents
    a lease, each script answers what the description says and leaves a key
    space representing the new lease. Acquiring a free or expired lease
    issues the next token, renewing keeps the token, only the holder can
    renew or release, and a token is valid only while its lease is held. *)
Theorem scripts_implement_lease k id ms t d L n :
  represents k d L -> issued L + 1 < 2 ^ 53 -> 0 < ms ->
  (exists d', acquireLeaderScript k (leaderFenceCounterKey k) (leaderFenceKey k) id ms t d =
      (Ok (pair_reply (if Held (spec_acquire id ms t L).1 then 1 else 0)
             (Some (Redis.Token (spec_acquire id ms t L).1))), d') /\
     represents k d' (spec_acquire id ms t L).2) /\
  (exists d', renewLeaderScript k (leaderFenceKey k) (leaderFenceCounterKey k) id ms t d =
      (Ok (pair_reply (if Held (spec_renew id ms t L).1 then 1 else 0)
             (Some (Redis.Token (spec_renew id ms t L).1))), d') /\
     represents k d' (spec_renew id ms t L).2) /\
  (exists d', releaseLeaderScript k (leaderFenceKey k) id t d =
      (Ok (LInt (if (spec_release id t L).1 then 1 else 0)), d') /\
     represents k d' (spec_release id t L).2) /\
  (forall e s r s', db s = d -> at_ms e (tick s) = t -> ValidateLeaderLease k n e s = (r, s') ->
     db s' = d /\ (r = Ok (spec_validate n t L) \/ exists x, r = Err x)).
Proof.
  intros R Hb Hms. split_and!.
  - by apply acquire_refines.
  - by apply renew_refines.
  - by apply release_refines.
  - intros e s r s' <- <- H. eapply Validate_call; [exact R|lia|exact H].
Qed.

Section Discover.
Import DiscoverLeader.
Context (config : LeaderElectionConfig) (int63n : string -> nat -> Z -> Z) (envs : string -> env).
Context (server : nat -> Z) (skew : string -> Z).

(** C21: a fencing token belongs to one instance for ever, and whenever the
    check of a captured token succeeds, the lease is, at that instant, held
    by the instance that captured it, whatever was lost, delayed or crashed
    before. *)
Theorem validated_means_holder st i t :
  (forall i n, clock (envs i) n = server n) ->
  (forall i n, wall (envs i) n = server n + skew i) ->
  (forall n m, (n <= m)%nat -> server n <= server m) ->
  (exists q, 0 < q /\ TTL config = q * millisecond) ->
  0 < OperationTimeout config <= ExpiryGuard config /\ ExpiryGuard config < 9223372036854775807 ->
  ereachable config int63n envs st -> exact st -> (i, t) ∈ captured st ->
  (forall j, (j, t) ∈ captured st -> j = i) /\
  (forall j s', ValidateLeaderLease leaderKey t (envs j) (redis_ st) = (Ok true, s') ->
     (cmd_get leaderKey (at_ms (envs j) (tick (redis_ st))) (db (redis_ st))).1 = Ok (Some (RString i))).
Proof.
  intros H1 H2 H3 H4 H5 Hr Hx Hi.
  destruct (reachable_inv config int63n envs server skew H1 H2 H3 H4 H5 st Hr Hx) as (L & I). split.
  - intros j Hj. eapply (inv_unique _ _ _ _ _ I _ _ t); by left.
  - intros j s' HV. pose proof (inv_issued _ _ _ _ _ I).
    destruct (Validate_call leaderKey t _ _ _ _ L (inv_rep _ _ _ _ _ I) ltac:(unfold exact in Hx; lia) HV)
      as (_ & [[= E]|[? ?]]); [|done].
    unfold spec_validate in E. destruct (held_at _ L) as [g|] eqn:Eg; [|done]. symmetry in E. b2p.
    pose proof (represents_peek _ _ _ (at_ms (envs j) (tick (redis_ st))) (inv_rep _ _ _ _ _ I)) as P.
    rewrite Eg in P. destruct P as (P1 & _ & _ & Hg & _). erewrite cmd_get_peek by done. simpl.
    by rewrite (inv_holder _ _ _ _ _ I i t g ltac:(by left) Hg E).
Qed.

(** C22: whenever an event of the loop leaves an instance believing it leads
    (newly acquired, renewed, or kept although the renewal failed) there was
    an instant during that event at which the lease was in Redis in its name. *)
Theorem leadership_backed st i le le' cbs d w' :
  (forall i n, clock (envs i) n = server n) ->
  (forall i n, wall (envs i) n = server n + skew i) ->
  (forall n m, (n <= m)%nat -> server n <= server m) ->
  (exists q, 0 < q /\ TTL config = q * millisecond) ->
  0 < OperationTimeout config <= ExpiryGuard config /\ ExpiryGuard config < 9223372036854775807 ->
  ereachable config int63n envs st -> exact st -> insts st !! i = Some le ->
  on_timer config i (int63n i) le (envs i) (redis_ st) = (Ok (le', cbs, d), w') ->
  isLeader le' = true ->
  exists n, (tick (redis_ st) <= n < tick w')%nat /\
    (cmd_get leaderKey (at_ms (envs i) n) (db w')).1 = Ok (Some (RString i)).
Proof.
  intros H1 H2 H3 H4 H5 Hr Hx Hi H Hle.
  destruct (reachable_inv config int63n envs server skew H1 H2 H3 H4 H5 st Hr Hx) as (L & I).
  assert (issued L + 1 < 2 ^ 53) as Hb by (pose proof (inv_issued _ _ _ _ _ I); unfold exact in Hx; lia).
  assert (event_ok config server skew L st i w' (Some le')) as (L' & n & _ & _ & R & _ & _ & Hh).
  { unfold on_timer in H. destruct (isLeader le) eqn:El.
    - by eapply (renew_event config int63n envs).
    - by eapply (acquire_event config int63n envs). }
  destruct (Hh _ eq_refl Hle) as (m & Hm & Hheld). exists m. split; [done|].
  rewrite (at_ms_server envs server H1).
  destruct (held_by (ms_at server m) i L') as [g|] eqn:E; [|done].
  apply held_by_Some in E as (Hg & Hu & <-).
  pose proof (represents_peek _ _ _ (ms_at server m) R) as P.
  rewrite (proj2 (held_at_Some _ _ _) (conj Hg Hu)) in P. destruct P as (P1 & _).
  by erewrite cmd_get_peek by done.
Qed.
End Discover.

(** ** The coordinator's instances *)

Section Coordinator.
Import CoordLeader.
Context (envs : string -> env).

Inductive cevent := Tick (i : string) | Done (i : string).
Definition instance_of (x : cevent) : string := match x with Tick i | Done i => i end.

Definition coord_step (x : cevent) (wm : world redis * gmap string elector)
  : world redis * gmap string elector :=
  let '(w, m) := wm in
  match m !! instance_of x with
  | None => wm
  | Some le =>
      match (match x with Tick i => on_tick i le | Done _ => on_done le end)
              (envs (instance_of x)) w with
      | (Ok (le', _), w') => (w', <[instance_of x := le']> m)
      | (Err _, w') => (w', m)
      end
  end.
Definition coord_run (l : list cevent) wm := fold_left (fun wm x => coord_step x wm) l wm.

Context (server : nat -> Z).
Hypothesis server_clock : forall i n, clock (envs i) n = server n.
Hypothesis server_mono : forall n m, (n <= m)%nat -> server n <= server m.

(** While [g] holds the lease, an event of another instance changes nothing
    of it and leaves that instance without leadership. *)
Lemma coord_other x w m L g w' m' : represents leaderKey (db w) L -> issued L + 1 < 2 ^ 53 ->
  granted L = Some g -> instance_of x <> holder g ->
  unix_milli (server (tick w)) <= until_ g -> coord_step x (w, m) = (w', m') ->
  represents leaderKey (db w') L /\ (tick w <= tick w')%nat /\
  (m' = m /\ m !! instance_of x = None \/
   exists le, m' = <[instance_of x := le]> m /\ isLeader le = false).
Proof.
  intros R Hb Hg Hx Ht H. unfold coord_step in H. destruct (m !! instance_of x) as [le|] eqn:Em.
  2: { injection H as <- <-. auto. }
  assert (held_by (unix_milli (server (tick w))) (instance_of x) L = None) as Hby.
  { destruct (held_by _ _ _) as [g'|] eqn:E; [|done]. apply held_by_Some in E as (E & _ & ?). simplify_eq. }
  assert (0 < milliseconds ttl) as Hms by done. set (e := envs (instance_of x)) in *.
  assert (at_ms e (tick w) = unix_milli (server (tick w))) as Ea by (unfold at_ms, e; by rewrite server_clock).
  assert (forall r s', TryAcquireLeader leaderKey (instance_of x) ttl e w = (r, s') ->
    represents leaderKey (db s') L /\ (tick w <= tick s')%nat /\ r <> Ok true) as HA.
  { intros r s' E. unfold TryAcquireLeader in E. apply bind_inv in E.
    destruct E as [(a & s1 & E1 & E)|(y & E1 & ->)].
    - pose proof (TryAcquire_call leaderKey _ _ _ _ _ _ L R Hb Hms E1) as (L' & C & R').
      apply call_facts in C as (C1 & C2 & C3). destruct (C3 _ eq_refl) as [-> ->].
      injection E as <- <-. rewrite Ea in *. unfold spec_acquire in *.
      rewrite (proj2 (held_at_Some _ _ _) (conj Hg Ht)) in *. simpl in *. auto with lia.
    - pose proof (TryAcquire_call leaderKey _ _ _ _ _ _ L R Hb Hms E1) as (L' & C & R').
      apply call_facts in C as (C1 & C2 & _). rewrite Ea in *. unfold spec_acquire in C2.
      rewrite (proj2 (held_at_Some _ _ _) (conj Hg Ht)) in C2. destruct C2 as [-> | ->]; auto with lia. }
  assert (forall r s', RenewLeader leaderKey (instance_of x) ttl e w = (r, s') ->
    represents leaderKey (db s') L /\ (tick w <= tick s')%nat /\ r <> Ok true) as HR.
  { intros r s' E. unfold RenewLeader in E. apply bind_inv in E.
    destruct E as [(a & s1 & E1 & E)|(y & E1 & ->)].
    - pose proof (Renew_call leaderKey _ _ _ _ _ _ L R Hb Hms E1) as (L' & C & R').
      apply call_facts in C as (C1 & C2 & C3). destruct (C3 _ eq_refl) as [-> ->].
      injection E as <- <-. rewrite Ea in *. unfold spec_renew in *. rewrite Hby in *. simpl in *. auto with lia.
    - pose proof (Renew_call leaderKey _ _ _ _ _ _ L R Hb Hms E1) as (L' & C & R').
      apply call_facts in C as (C1 & C2 & _). rewrite Ea in *. unfold spec_renew in C2.
      rewrite Hby in C2. destruct C2 as [-> | ->]; auto with lia. }
  destruct x as [j|j]; cbn [instance_of] in *.
  - unfold on_tick, tryRenew, tryAcquire in H. destruct (isLeader le) eqn:El; unfold mbind, M_bind, try in H.
    + destruct (RenewLeader _ _ _ _ _) as [r s'] eqn:E. destruct (HR _ _ eq_refl) as (? & ? & ?).
      destruct r as [[]|]; [done|..]; injection H as <- <-; split_and!; try done; right; by eexists.
    + destruct (TryAcquireLeader _ _ _ _ _) as [r s'] eqn:E. destruct (HA _ _ eq_refl) as (? & ? & ?).
      destruct r as [[]|]; [done|..]; injection H as <- <-; split_and!; try done; right; by eexists.
  - unfold on_done in H. destruct (isLeader le) eqn:El; injection H as <- <-; split_and!; try done; right; by eexists.
Qed.

Lemma coord_mono x w m : (tick w <= tick (coord_step x (w, m)).1)%nat.
Proof.
  unfold coord_step. destruct (m !! instance_of x) as [le|]; [|done].
  assert (forall A (c : script A), forward (eval_ c)) as Hf by (intros; apply forward_eval).
  assert (forward (match x with Tick i => on_tick i le | Done _ => on_done le end)) as F.
  { destruct x; unfold on_tick, on_done, tryRenew, tryAcquire, TryAcquireLeader, RenewLeader,
      TryAcquireLeaderLease, RenewLeaderLease; frame_solve. }
  specialize (F (envs (instance_of x)) w). destruct (_ (envs (instance_of x)) w) as [[[? ?]|] ?]; done.
Qed.
Lemma coord_run_mono l w m : (tick w <= tick (coord_run l (w, m)).1)%nat.
Proof.
  revert w m. induction l as [|x l IH]; intros w m; [done|]. unfold coord_run. cbn [fold_left].
  pose proof (coord_mono x w m) as Hx. destruct (coord_step x (w, m)) as [w1 m1]. specialize (IH w1 m1).
  unfold coord_run in IH. simpl in Hx. lia.
Qed.

(** C23: from the moment a coordinator holds the lease until its term ends
    (five seconds after its last acquisition or renewal), whatever the other
    coordinators do, the lease stays with it and none of them becomes leader;
    one that believed it led stands down at its first event. *)
Theorem coordinator_exclusive l w m L g w' m' :
  represents leaderKey (db w) L -> issued L + 1 < 2 ^ 53 -> granted L = Some g ->
  (forall x, x ∈ l -> instance_of x <> holder g) ->
  coord_run l (w, m) = (w', m') -> unix_milli (server (tick w')) <= until_ g ->
  represents leaderKey (db w') L /\ m' !! holder g = m !! holder g /\
  (forall j le, j <> holder g -> m' !! j = Some le -> isLeader le = true ->
     m !! j = Some le /\ forall x, x ∈ l -> instance_of x <> j).
Proof.
  revert w m. induction l as [|x l IH]; intros w m R Hb Hg Hl Hrun Hend.
  { injection Hrun as <- <-. split_and!; try done. intros. split; [done|]. set_solver. }
  unfold coord_run in Hrun. cbn [fold_left] in Hrun. pose proof (coord_mono x w m) as Hm1.
  destruct (coord_step x (w, m)) as [w1 m1] eqn:E. cbn [fst] in Hm1. fold (coord_run l (w1, m1)) in Hrun.
  pose proof (coord_run_mono l w1 m1) as Hm2. rewrite Hrun in Hm2. cbn [fst] in Hm2.
  assert (unix_milli (server (tick w)) <= until_ g) as Ht.
  { etrans; [|exact Hend]. apply Z.div_le_mono; [done|]. apply server_mono. lia. }
  destruct (coord_other _ _ _ _ _ _ _ R Hb Hg (Hl x ltac:(left)) Ht E) as (R1 & _ & Hm).
  destruct (IH w1 m1 R1 Hb Hg ltac:(intros y Hy; apply Hl; by right) Hrun Hend) as (R' & Hi & Hj).
  assert (instance_of x <> holder g) as Hx by (apply Hl; left). split; [done|].
  destruct Hm as [[-> Hn]|(le & -> & Hle)].
  - split; [done|]. intros j le' Hne H1 H2. destruct (Hj _ _ Hne H1 H2) as (H3 & H4). split; [done|].
    intros y [->|Hy]%elem_of_cons; [congruence|by apply H4].
  - rewrite lookup_insert_ne in Hi by done. split; [done|]. intros j le' Hne H1 H2.
    destruct (Hj _ _ Hne H1 H2) as (H3 & H4). destruct (decide (instance_of x = j)) as [<-|Hd].
    + rewrite lookup_insert_eq in H3. congruence.
    + rewrite lookup_insert_ne in H3 by done. split; [done|].
      intros y [->|Hy]%elem_of_cons; [done|by apply H4].
Qed.
End Coordinator.

(** ** Runs *)

Module ElectionDemo.
Definition server (n : nat) : Z := Z.of_nat n * (10 * millisecond).
Definition skew (i : string) : Z := if String.eqb i "b" then 3 * second else 0.
Definition envs (i : string) : env :=
  Env (fun _ => false) (fun _ => false) server (fun n => server n + skew i) (fun _ => EmptyString).
Definition nothing : world redis := World (Redis ∅ []) (Redis ∅ []) 0.

Lemma server_mono n m : (n <= m)%nat -> server n <= server m.
Proof. unfold server, millisecond. lia. Qed.

Section Discover.
Import DiscoverLeader.
Notation config := DefaultLeaderElectionConfig.
Definition rnd (_ : string) (_ : nat) (n : Z) : Z := n / 2.

Definition begin_ (i : string) (st : esys) : esys :=
  ESys (redis_ st) (<[i := NewLeaderElection]> (insts st)) (captured st).
Definition fire (i : string) (st : esys) : esys :=
  match insts st !! i with
  | Some le =>
      match on_timer config i (rnd i) le (envs i) (redis_ st) with
      | (Ok (le', _, _), w') => ESys w' (<[i := le']> (insts st)) (captured st)
      | _ => st
      end
  | None => st
  end.
Definition read_token (i : string) (st : esys) : esys :=
  match insts st !! i with
  | Some le => if FencingToken le =? 0 then st
               else ESys (redis_ st) (insts st) ((i, FencingToken le) :: captured st)
  | None => st
  end.

Notation reach := (ereachable config rnd envs).
Lemma begin_reach i st : reach st -> insts st !! i = None -> reach (begin_ i st).
Proof. intros H E. eapply reach_step; [exact H|]. destruct st. by apply start. Qed.
Lemma fire_reach i st : reach st -> reach (fire i st).
Proof.
  intros H. unfold fire. destruct (insts st !! i) as [le|] eqn:E; [|done].
  destruct (on_timer _ _ _ _ _ _) as [[[[le' cbs] d]|] w'] eqn:Er; [|done].
  eapply reach_step; [exact H|]. destruct st. by eapply timer.
Qed.
Lemma read_reach i st : reach st -> reach (read_token i st).
Proof.
  intros H. unfold read_token. destruct (insts st !! i) as [le|] eqn:E; [|done].
  destruct (_ =? 0) eqn:Et; [done|]. b2p. eapply reach_step; [exact H|]. destruct st. by apply capture.
Qed.

(** [a] leads with a captured token; [b] stands by. *)
Definition demo : esys :=
  fire "b" (begin_ "b" (read_token "a" (fire "a" (begin_ "a" (ESys nothing ∅ []))))).
Lemma demo_reach : reach demo.
Proof.
  unfold demo. apply fire_reach, begin_reach; [|by vm_compute].
  apply read_reach, fire_reach, begin_reach; [|done]. apply reach_init. by intros k _.
Qed.
Lemma default_ttl : exists q, 0 < q /\ TTL config = q * millisecond.
Proof. by exists 15000. Qed.

Lemma default_guard : 0 < OperationTimeout config <= ExpiryGuard config /\
  ExpiryGuard config < 9223372036854775807.
Proof. by vm_compute. Qed.
End Discover.

Lemma envs_clock i n : clock (envs i) n = server n.
Proof. reflexivity. Qed.
Lemma envs_wall i n : wall (envs i) n = server n + skew i.
Proof. reflexivity. Qed.

Lemma scripts_implement_lease_witness :
  represents "x" (Redis ∅ []) (MkLease 0 None) /\
  exists d', acquireLeaderScript "x" (leaderFenceCounterKey "x") (leaderFenceKey "x") "i" 5000 7
    (Redis ∅ []) = (Ok (LTable [LInt 1; LInt 1]), d') /\
    represents "x" d' (MkLease 1 (Some (Grant "i" 1 5007))).
Proof.
  assert (represents "x" (Redis ∅ []) (MkLease 0 None)) as R by (repeat split; done).
  split; [exact R|].
  exact (proj1 (scripts_implement_lease "x" "i" 5000 7 _ _ 0 R ltac:(done) ltac:(done))).
Defined.

Lemma validated_means_holder_witness :
  ("a", 1) ∈ captured demo /\ (forall j, (j, 1) ∈ captured demo -> j = "a") /\
  (cmd_get DiscoverLeader.leaderKey (at_ms (envs "b") (tick (redis_ demo))) (db (redis_ demo))).1 =
    Ok (Some (RString "a")).
Proof.
  assert (("a", 1) ∈ captured demo) as Hin by (vm_compute; left). split; [exact Hin|].
  assert (exact demo) as Hx by (vm_compute; reflexivity).
  destruct (validated_means_holder DiscoverLeader.DefaultLeaderElectionConfig rnd envs server skew demo "a" 1
    envs_clock envs_wall server_mono default_ttl default_guard demo_reach Hx Hin) as [H1 H2].
  split; [exact H1|].
  assert (exists s', ValidateLeaderLease DiscoverLeader.leaderKey 1 (envs "b") (redis_ demo) = (Ok true, s')) as [s' E].
  { eexists. vm_compute. reflexivity. }
  exact (H2 "b" s' E).
Defined.

(** The leader renews; the lease is there. *)
Lemma leadership_backed_witness :
  exists le le' cbs d w' n, insts demo !! "a" = Some le /\
    DiscoverLeader.on_timer DiscoverLeader.DefaultLeaderElectionConfig "a" (rnd "a") le (envs "a") (redis_ demo)
      = (Ok (le', cbs, d), w') /\ DiscoverLeader.isLeader le' = true /\
    (cmd_get DiscoverLeader.leaderKey (at_ms (envs "a") n) (db w')).1 = Ok (Some (RString "a")).
Proof.
  destruct (insts demo !! "a") as [le|] eqn:El; [|by vm_compute in El].
  destruct (DiscoverLeader.on_timer DiscoverLeader.DefaultLeaderElectionConfig "a" (rnd "a") le (envs "a") (redis_ demo))
    as [[[[le' cbs] d]|] w'] eqn:Er.
  2: { exfalso. vm_compute in El. injection El as <-. by vm_compute in Er. }
  assert (DiscoverLeader.isLeader le' = true) as Hl.
  { vm_compute in El. injection El as <-. vm_compute in Er. by injection Er as <- _ _ _. }
  assert (exact demo) as Hx by (vm_compute; reflexivity).
  destruct (leadership_backed DiscoverLeader.DefaultLeaderElectionConfig rnd envs server skew demo "a" le le' cbs d w'
    envs_clock envs_wall server_mono default_ttl default_guard demo_reach Hx El Er Hl) as (n & _ & Hn).
  exists le, le', cbs, d, w', n. repeat split; done.
Defined.

(** [c] holds the coordinators' lease; [d], who thinks it leads, stands down. *)
Definition held : world redis :=
  let '(_, w) := CoordLeader.on_tick "c" CoordLeader.NewLeaderElection (envs "c") nothing in w.
Definition two : gmap string CoordLeader.elector :=
  <["c" := CoordLeader.Elector true]> (<["d" := CoordLeader.Elector true]> ∅).
Definition after : world redis * gmap string CoordLeader.elector :=
  coord_run envs [Tick "d"; Tick "d"] (held, two).
Lemma coordinator_exclusive_witness :
  after.2 !! "c" = Some (CoordLeader.Elector true) /\
  CoordLeader.isLeader <$> (after.2 !! "d") <> Some true.
Proof.
  assert (represents CoordLeader.leaderKey (db held) (MkLease 1 (Some (Grant "c" 1 5000)))) as R
    by (vm_compute; repeat split; congruence).
  assert (unix_milli (server (tick after.1)) <= 5000) as Ht by (vm_compute; congruence).
  destruct after as [w' m'] eqn:E. cbn [fst snd] in *.
  assert (forall x, x ∈ [Tick "d"; Tick "d"] -> instance_of x <> "c") as Hx.
  { intros x Hx. repeat (apply elem_of_cons in Hx as [->|Hx]; [discriminate|]). by apply elem_of_nil in Hx. }
  destruct (coordinator_exclusive envs server envs_clock server_mono [Tick "d"; Tick "d"] held two
    (MkLease 1 (Some (Grant "c" 1 5000))) (Grant "c" 1 5000) w' m' R eq_refl eq_refl Hx E Ht) as (_ & H1 & H2).
  split; [exact H1|]. destruct (m' !! "d") as [le|] eqn:Hd; [|discriminate]. intros [= Hl].
  destruct (H2 "d" le ltac:(discriminate) Hd Hl) as [_ H3]. apply (H3 (Tick "d")); [left|reflexivity].
Defined.
End ElectionDemo.
