(* ===== verification/Coordinator.v ===== *)
(** The coordinator (src/coordinator/internal): worker load and selection,
    assignment of pending channels, drain handoffs, health checks, coordinator
    events with their debouncing, and the cleanup of chat streams. One cycle
    of a loop or one event is one computation over the database, Redis and
    the coordinator's own state; metrics and logs are left out. *)
From S2P Require Import Prelude GoLib Json Tx Model Db.
From S2P Require Import Channels Redis Election.
From Stdlib Require Import SpecFloat.

(** ** Worker load (src/shared/model/worker.go) *)

(** [float64(n)] *)
Definition of_int (n : Z) : spec_float := binary_normalize 53 1024 n 0 false.
Definition fdiv : spec_float -> spec_float -> spec_float := SFdiv 53 1024.
Definition fzero : spec_float := S754_zero false.

Definition Load (w : WorkerLoad) : spec_float :=
  let connRatio := if 0 <? l_MaxConn w then fdiv (of_int (l_Connections w)) (of_int (l_MaxConn w))
                   else fzero in
  let msgRatio := if SFltb fzero (l_MaxMsgPerSec w) then fdiv (l_MsgPerSec w) (l_MaxMsgPerSec w)
                  else fzero in
  if SFltb msgRatio connRatio then connRatio else msgRatio.

(** [map[string]WorkerLoad]; a [range] visits it in any order. *)
Definition loads : Type := gmap string WorkerLoad.

Definition select_step (threshold : spec_float) (best : string * spec_float)
    (x : string * WorkerLoad) : string * spec_float :=
  let l := Load x.2 in
  if SFleb threshold l then best
  else if SFltb l best.2 then (x.1, l) else best.

(** [selectWorker] over the map in the order ranged; [""] when none is fit. *)
Definition selectWorker (threshold : spec_float) (l : list (string * WorkerLoad)) : string :=
  (fold_left (select_step threshold) l (EmptyString, of_int 1)).1.

(** ** The world of a coordinator *)

Record HealthCheckResult := MkHealth {
  AliveWorkers : list string; DeadWorkers : list string; WorkerLoads : loads
}.

Record coordinator := Coordinator {
  lastHealthResult : option HealthCheckResult;
  debounceMap : gmap string Z;
  unassignCooldown : gmap string Z;
  loops : bool   (* the goroutines of a leader run *)
}.

Record sys := Sys { pg : database; rd : redis; co : coordinator }.
Notation Msys := (M sys).

(** A computation on one part of the world. *)
Definition focus {S DB A} (get : S -> DB) (put : DB -> S -> S) (m : M DB A) : M S A := fun e s =>
  let '(r, w) := m e (World (get (db s)) (get (db s)) (tick s)) in
  (r, World (put (db w) (db s)) (wk s) (tick w)).
Definition on_pg {A} : M database A -> Msys A := focus pg (fun d x => Sys d (rd x) (co x)).
Definition on_redis {A} : M redis A -> Msys A := focus rd (fun d x => Sys (pg x) d (co x)).
Definition get_co : Msys coordinator := fun _ s => (Ok (co (db s)), s).
Definition set_co (f : coordinator -> coordinator) : Msys unit := fun _ s =>
  (Ok tt, World (Sys (pg (db s)) (rd (db s)) (f (co (db s)))) (wk s) (tick s)).

Definition NewCoordinator : coordinator := Coordinator None ∅ ∅ false.

(** [if err != nil { log }] *)
Definition logged (m : Msys unit) : Msys unit := r ← try m; mret tt.

Section Assigner.
(** The scope of a single-channel deployment, and the configuration. *)
Context (scope : option string) (batchSize : Z) (loadThreshold : spec_float).
(** The order a [range] over a map takes, at a point of time. *)
Context (order : nat -> list (string * WorkerLoad) -> list (string * WorkerLoad)).

Definition pick (ws : loads) : Msys string := fun e s =>
  (Ok (selectWorker loadThreshold (order (tick s) (map_to_list ws))), s).

(** [load.Connections++] on the local copy. *)
Definition one_more (w : string) (ws : loads) : loads :=
  alter (fun l => MkLoad (l_WorkerID l) (i64 (l_Connections l + 1)) (l_MsgPerSec l) (l_MaxConn l)
                    (l_MaxMsgPerSec l)) w ws.

Definition send (w : string) (t : WorkerCommandType) (platform channel : string) : Msys unit :=
  on_redis (PublishWorkerCommand w (MkCommand t platform channel)).

(** ** Assigning (assigner.go) *)

Fixpoint assign_loop (pending : list channel) (ws : loads) (assigned : Z) : Msys (Z * loads) :=
  match pending with
  | [] => mret (assigned, ws)
  | (id, ch) :: pending =>
      workerID ← pick ws;
      if is_empty workerID then mret (assigned, ws)
      else
        r ← try (on_pg (AssignChannel scope id workerID));
        match r with
        | Err _ => assign_loop pending ws assigned
        | Ok _ =>
            logged (send workerID WorkerCommandConnect (lc_platform ch) (lc_channel ch)) ;;
            assign_loop pending (one_more workerID ws) (assigned + 1)
        end
  end.

(** The number assigned, and the map it updated. *)
Definition AssignPending (ws : loads) : Msys (Z * loads) :=
  if decide (ws = ∅) then mret (0, ws)
  else pending ← on_pg (ListPendingChannels scope batchSize); assign_loop pending ws 0.

(** The loop of [ReassignDrainingChannels] and, without bound, of
    [RetryStuckHandoffs]; [old] is the worker the handoff starts from. *)
Fixpoint reassign_loop (bound : option Z) (old : live_row -> option string) (l : list channel)
    (ws : loads) (n : Z) : Msys (Z * loads) :=
  match l with
  | [] => mret (n, ws)
  | (id, ch) :: l =>
      if match bound with Some b => b <=? n | None => false end then mret (n, ws)
      else
        workerID ← pick ws;
        if is_empty workerID then mret (n, ws)
        else
          r ← try (on_pg (ReassignChannel scope id workerID (default EmptyString (old ch))));
          match r with
          | Err _ | Ok false => reassign_loop bound old l ws n
          | Ok true =>
              logged (send workerID WorkerCommandConnect (lc_platform ch) (lc_channel ch)) ;;
              reassign_loop bound old l (one_more workerID ws) (n + 1)
          end
  end.

Definition ReassignDrainingChannels (ws : loads) : Msys (Z * loads) :=
  l ← on_pg ListDrainingWorkerChannels;
  reassign_loop (Some batchSize) lc_worker l ws 0.

Definition RetryStuckHandoffs (ws : loads) (threshold : Z) : Msys (Z * loads) :=
  l ← on_pg (ListStuckHandoffs threshold);
  reassign_loop None lc_handoff_from l ws 0.

(** ** One tick of the assignment loop (coordinator.go) *)

(** The larger of the reported connections and the rows in the database. *)
Definition augment (counts : gmap string Z) (ws : loads) : loads :=
  map_imap (fun id l => Some
    match counts !! id with
    | Some n => if l_Connections l <? n
                then MkLoad (l_WorkerID l) n (l_MsgPerSec l) (l_MaxConn l) (l_MaxMsgPerSec l) else l
    | None => l
    end) ws.

(** The map belongs to the health result, which other ticks read again. *)
Definition share_loads (ws : loads) : Msys unit :=
  set_co (fun c => Coordinator
    ((fun h => MkHealth (AliveWorkers h) (DeadWorkers h) ws) <$> lastHealthResult c)
    (debounceMap c) (unassignCooldown c) (loops c)).

Definition assignment_tick : Msys unit :=
  c ← get_co;
  match lastHealthResult c with
  | None => mret tt
  | Some h =>
      counts ← try (on_pg (CountAssignedByWorker scope));
      let ws := match counts with Ok m => augment m (WorkerLoads h) | Err _ => WorkerLoads h end in
      share_loads ws ;;
      r ← try (AssignPending ws);
      match r with
      | Err _ => mret tt
      | Ok (_, ws) =>
          share_loads ws ;;
          r ← try (ReassignDrainingChannels ws);
          let ws := match r with Ok (_, ws) => ws | Err _ => ws end in
          share_loads ws ;;
          r ← try (RetryStuckHandoffs ws (30 * second));
          share_loads (match r with Ok (_, ws) => ws | Err _ => ws end)
      end
  end.
End Assigner.

Section Default.
(** [NewCoordinator]: a threshold that is not positive means 0.95. *)
Definition threshold_of (t : spec_float) : spec_float :=
  if SFleb t fzero then fdiv (of_int 95) (of_int 100) else t.
End Default.

(** ** Health (healthcheck.go) *)

Definition Check : Msys HealthCheckResult :=
  ws ← on_pg ListAliveWorkers;
  let ids := map w_ID ws in
  beats ← on_redis (GetWorkerHeartbeats ids);
  let alive id := match beats !! id with Some _ => true | None => false end in
  mret (MkHealth (List.filter alive ids) (List.filter (fun id => negb (alive id)) ids)
          (fold_left (fun m id => match beats !! id with Some l => <[id := l]> m | None => m end) ids ∅)).

Fixpoint mark_loop (draining dead : list string) (total : Z) (errs : list error)
  : Msys (Z * list error) :=
  match dead with
  | [] => mret (total, errs)
  | w :: dead =>
      if existsb (String.eqb w) draining then mark_loop draining dead total errs
      else
        r ← try (on_pg (UpdateWorkerStatus w WorkerStatusDead));
        match r with
        | Err x => mark_loop draining dead total (errs ++ [x])
        | Ok _ =>
            r ← try (on_pg (UnassignWorkerChannels w));
            match r with
            | Err x => mark_loop draining dead total (errs ++ [x])
            | Ok _ => mark_loop draining dead (total + 1) errs
            end
        end
  end.

(** The count, and the errors joined. *)
Definition MarkDead (dead : list string) : Msys (Z * list error) :=
  r ← try (on_pg (ListWorkersByStatus WorkerStatusDraining));
  mark_loop (match r with Ok l => map w_ID l | Err _ => [] end) dead 0 [].

Definition reconcileDeadWorkerChannels : Msys unit :=
  r ← try (on_pg UnassignDeadWorkerChannels); mret tt.
Definition cleanupZombieChannels : Msys unit := reconcileDeadWorkerChannels.

Definition health_tick : Msys unit :=
  reconcileDeadWorkerChannels ;;
  r ← try Check;
  match r with
  | Err _ => mret tt
  | Ok h =>
      set_co (fun c => Coordinator (Some h) (debounceMap c) (unassignCooldown c) (loops c)) ;;
      match DeadWorkers h with
      | [] => mret tt
      | dead => r ← MarkDead dead; mret tt
      end
  end.

(** ** Coordinator events *)

Definition event_key (platform channel : string) : string := platform +:+ ":" +:+ channel.

Definition unassignCooldownTTL : Z := 10 * minute.
Definition wsClosedDebounceTTL : Z := 30 * second.

(** Stamps a key; a map grown beyond [bound] loses its stale entries. *)
Definition evict (ttl now : Z) (m : gmap string Z) : gmap string Z :=
  filter (fun '(_, t) => time_sub now t <= ttl) m.
Definition stamp (bound : nat) (ttl : Z) (k : string) (t now : Z) (m : gmap string Z) : gmap string Z :=
  let m := <[k := t]> m in if (bound <? size m)%nat then evict ttl now m else m.

(** [last, ok := m[key]; ok && now.Sub(last) < ttl] *)
Definition recent (ttl : Z) (k : string) (now : Z) (m : gmap string Z) : bool :=
  match m !! k with Some last => time_sub now last <? ttl | None => false end.

Definition set_debounce (m : gmap string Z) (c : coordinator) : coordinator :=
  Coordinator (lastHealthResult c) m (unassignCooldown c) (loops c).
Definition set_cooldown (m : gmap string Z) (c : coordinator) : coordinator :=
  Coordinator (lastHealthResult c) (debounceMap c) m (loops c).

Definition shouldDebounce (platform channel : string) : Msys bool :=
  let key := event_key platform channel in
  now ← time_now;
  c ← get_co;
  if recent wsClosedDebounceTTL key now (debounceMap c) then mret true
  else set_co (set_debounce (stamp 500 wsClosedDebounceTTL key now now (debounceMap c))) ;; mret false.

(** The clock is read for the comparison, the stamp and the eviction. *)
Definition handleUnassign (x : CoordEvent) : Msys unit :=
  let platform := ce_Platform x in let channel := ce_ChannelID x in let w := ce_WorkerID x in
  let key := event_key platform channel in
  c ← get_co;
  since ← time_now;
  if recent unassignCooldownTTL key since (unassignCooldown c) then mret tt
  else
    t ← time_now;
    now ← time_now;
    set_co (set_cooldown (stamp 1000 unassignCooldownTTL key t now (unassignCooldown c))) ;;
    r ← try (on_pg (UnassignChannel platform channel w));
    match r with
    | Err _ => mret tt
    | Ok _ => logged (send w WorkerCommandDisconnect platform channel)
    end.

Definition handleWSClosed (x : CoordEvent) : Msys unit :=
  let platform := ce_Platform x in let channel := ce_ChannelID x in let w := ce_WorkerID x in
  skip ← shouldDebounce platform channel;
  if (skip : bool) then mret tt
  else
    draining ← try (on_pg (ListWorkersByStatus WorkerStatusDraining));
    if match draining with Ok l => existsb (fun y => String.eqb (w_ID y) w) l | Err _ => false end
    then mret tt
    else
      r ← try (on_pg (GetChannel platform channel));
      match r with
      | Err _ => mret tt
      | Ok (_, ch) =>
          if negb (is_ended ch) then logged (send w WorkerCommandConnect platform channel)
          else
            logged (send w WorkerCommandDisconnect platform channel) ;;
            match lc_ended_at ch with
            | None => mret tt
            | Some t =>
                now ← time_now;
                if 30 * second <? time_sub now t then
                  r ← try (on_redis (DeleteChatStreams [ChatStreamKey platform channel])); mret tt
                else mret tt
            end
      end.

Definition handleEvent (x : CoordEvent) : Msys unit :=
  match ce_Type x with
  | CoordEventWSClosed => handleWSClosed x
  | CoordEventUnassign => handleUnassign x
  | _ => mret tt
  end.

(** ** Stream cleanup *)

Section Cleanup.
Context (scan : Z -> Z -> redis -> list string * Z) (scan_fuel : nat).

Definition key_of (c : channel) : string := ChatStreamKey (lc_platform c.2) (lc_channel c.2).

(** Phase 1: the channels that ended more than an hour ago. *)
Definition cleanup_ended : Msys unit :=
  now ← time_now;
  r ← try (on_pg (ListEndedChannelsBefore (now - hour) 5000));
  match r with
  | Err _ | Ok [] => mret tt
  | Ok l => r ← try (on_redis (DeleteChatStreams (map key_of l))); mret tt
  end.

(** Phase 2: the keys no channel of the database has. *)
Definition cleanup_orphans : Msys unit :=
  r ← try (on_redis (ScanChatStreamKeys scan scan_fuel));
  match r with
  | Err _ | Ok [] => mret tt
  | Ok redisKeys =>
      r ← try (on_pg ListAllKnownChannelKeys);
      match r with
      | Err _ => mret tt
      | Ok known =>
          match List.filter (fun k => negb (existsb (String.eqb k) known)) redisKeys with
          | [] => mret tt
          | orphans => r ← try (on_redis (DeleteChatStreams orphans)); mret tt
          end
      end
  end.

Definition runStreamCleanup : Msys unit := cleanup_ended ;; cleanup_orphans.
End Cleanup.

(** ** Leadership *)

Fixpoint resume_pending (l : list channel) : Msys unit :=
  match l with
  | [] => mret tt
  | (_, ch) :: l =>
      match lc_worker ch with
      | Some w => logged (send w WorkerCommandConnect (lc_platform ch) (lc_channel ch))
      | None => mret tt
      end ;;
      resume_pending l
  end.
Fixpoint resume_workers (l : list worker) : Msys unit :=
  match l with
  | [] => mret tt
  | w :: l =>
      r ← try (on_pg (ListPendingHandoffs (w_ID w)));
      match r with Err _ => mret tt | Ok pending => resume_pending pending end ;;
      resume_workers l
  end.
Definition resumeDrainingHandoffs : Msys unit :=
  r ← try (on_pg (ListWorkersByStatus WorkerStatusDraining));
  match r with Err _ => mret tt | Ok l => resume_workers l end.

Definition set_loops (b : bool) (c : coordinator) : coordinator :=
  Coordinator (lastHealthResult c) (debounceMap c) (unassignCooldown c) b.

Definition onBecomeLeader : Msys unit :=
  cleanupZombieChannels ;;
  resumeDrainingHandoffs ;;
  set_co (set_debounce ∅) ;;
  set_co (set_loops true).
Definition onLoseLeadership : Msys unit := set_co (set_loops false).

(** One event of the election, with the callback it calls. *)
Definition leader_event (m : M redis (CoordLeader.elector * list callback))
  : Msys CoordLeader.elector :=
  r ← on_redis m;
  match r.2 with
  | OnAcquire :: _ => onBecomeLeader
  | OnLose :: _ => onLoseLeadership
  | [] => mret tt
  end ;;
  mret r.1.
