(* ===== verification/AssignRun.v ===== *)
(** Worker selection, and what the assigning loops do. *)
From S2P Require Import Prelude GoLib Json Tx Model Db.
From S2P Require Import Channels ChannelsInv Redis Coordinator.
From Stdlib Require Import SpecFloat.

(** ** Comparing floats *)

Lemma SFltb_trans x y z : SFltb x y = true -> SFltb y z = true -> SFltb x z = true.
Proof.
  assert (forall a b, PosDef.Pos.compare_cont Eq a b = (a ?= b)%positive) as Hc by done.
  unfold SFltb. destruct x as [[]|[]| |[] m1 e1], y as [[]|[]| |[] m2 e2], z as [[]|[]| |[] m3 e3];
    simpl; try done;
    repeat match goal with
    | |- context [Z.compare ?a ?b] => destruct (Z.compare_spec a b); simpl; try done
    end; rewrite ?Hc;
    repeat match goal with
    | |- context [Pos.compare ?a ?b] => destruct (Pos.compare_spec a b); simpl; rewrite ?Hc; try done
    end; intros; try discriminate; lia.
Qed.

(** ** Selection *)

Definition qualified (threshold : spec_float) (l : WorkerLoad) : Prop :=
  SFleb threshold (Load l) = false /\ SFltb (Load l) (of_int 1) = true.

(** [id] is the choice among [l]: none when nothing qualifies, otherwise one
    that qualifies and than which no other that does is less loaded. *)
Definition best_choice (threshold : spec_float) (l : list (string * WorkerLoad)) (id : string) : Prop :=
  id = EmptyString /\ (forall x, x ∈ l -> ~ qualified threshold x.2) \/
  exists w, (id, w) ∈ l /\ qualified threshold w /\
    forall x, x ∈ l -> qualified threshold x.2 -> SFltb (Load x.2) (Load w) = false.

Lemma selectWorker_best threshold l : best_choice threshold l (selectWorker threshold l).
Proof.
  unfold selectWorker.
  assert (forall done_ l b, 
    (b = (EmptyString, of_int 1) /\ (forall x, x ∈ done_ -> ~ qualified threshold x.2) \/
     exists w, (b.1, w) ∈ done_ /\ b.2 = Load w /\ qualified threshold w /\
       forall x, x ∈ done_ -> qualified threshold x.2 -> SFltb (Load x.2) (Load w) = false) ->
    best_choice threshold (done_ ++ l) (fold_left (select_step threshold) l b).1) as H.
  { clear l. intros done_ l. revert done_. induction l as [|x l IH]; intros d b Hb.
    - rewrite app_nil_r. simpl. destruct Hb as [(-> & Hn)|(w & H1 & _ & H3 & H4)]; [by left|right; eauto].
    - cbn [fold_left]. replace (d ++ x :: l) with ((d ++ [x]) ++ l) by (by rewrite <- app_assoc).
      apply IH. unfold select_step. destruct (SFleb threshold (Load x.2)) eqn:Et.
      + assert (~ qualified threshold x.2) as Hq by (intros [? _]; congruence).
        destruct Hb as [(-> & Hn)|(w & H1 & H2 & H3 & H4)]; [left|right].
        * split; [done|]. intros y [Hy| ->%list_elem_of_singleton]%elem_of_app; auto.
        * exists w. split_and!; [set_solver|done|done|].
          intros y [Hy| ->%list_elem_of_singleton]%elem_of_app; [auto|done].
      + destruct (SFltb (Load x.2) b.2) eqn:El.
        * right. exists x.2. cbn [fst snd].
          assert (qualified threshold x.2) as Hq.
          { split; [done|]. destruct Hb as [(-> & _)|(w & _ & H2 & [_ H3] & _)]; [done|].
            rewrite H2 in El. by eapply SFltb_trans. }
          split_and!; [destruct x; set_solver|done|done|].
          intros y [Hy| ->%list_elem_of_singleton]%elem_of_app Hqy.
          -- destruct Hb as [(-> & Hn)|(w & _ & H2 & _ & H4)]; [by destruct (Hn y)|].
             apply not_true_iff_false. intros Hlt. rewrite H2 in El.
             pose proof (SFltb_trans _ _ _ Hlt El). rewrite (H4 y Hy Hqy) in *. done.
          -- apply not_true_iff_false. intros Hlt. pose proof (SFltb_trans _ _ _ Hlt El).
             clear -Hlt. unfold SFltb in Hlt. destruct (Load x.2) as [[]|[]| |[] m e]; try done; simpl in Hlt;
               rewrite Z.compare_refl in Hlt; change (Pos.compare_cont Eq m m) with (m ?= m)%positive in Hlt;
               by rewrite Pos.compare_refl in Hlt.
        * destruct Hb as [(-> & Hn)|(w & H1 & H2 & H3 & H4)]; [left|right].
          -- split; [done|]. intros y [Hy| ->%list_elem_of_singleton]%elem_of_app; [auto|].
             intros [_ Hq]. cbn [snd] in El. congruence.
          -- exists w. split_and!; [set_solver|done|done|].
             intros y [Hy| ->%list_elem_of_singleton]%elem_of_app Hqy; [auto|]. by rewrite <- H2. }
  apply (H [] l). left. split; [done|]. intros x Hx. by apply elem_of_nil in Hx.
Qed.

Lemma best_choice_perm threshold l l' id : l ≡ₚ l' ->
  best_choice threshold l id -> best_choice threshold l' id.
Proof.
  intros Hp [[-> H]|(w & H1 & H2 & H3)].
  - left. split; [done|]. intros x Hx. apply H. by rewrite Hp.
  - right. exists w. split_and!; [by rewrite <- Hp|done|]. intros x Hx. apply H3. by rewrite Hp.
Qed.

(** ** Running a part of the world *)

Section Focus.
Implicit Types (s : world sys).

Definition pg_world s : world database := World (pg (db s)) (pg (db s)) (tick s).
Definition rd_world s : world redis := World (rd (db s)) (rd (db s)) (tick s).

Lemma on_pg_run {A} (m : M database A) e s r s' : on_pg m e s = (r, s') ->
  exists w, m e (pg_world s) = (r, w) /\
    s' = World (Sys (db w) (rd (db s)) (co (db s))) (wk s) (tick w).
Proof. unfold on_pg, focus. fold (pg_world s). destruct (m e (pg_world s)) as [r0 w]. intros [= <- <-]. eauto. Qed.

Lemma on_redis_run {A} (m : M redis A) e s r s' : on_redis m e s = (r, s') ->
  exists w, m e (rd_world s) = (r, w) /\
    s' = World (Sys (pg (db s)) (db w) (co (db s))) (wk s) (tick w).
Proof. unfold on_redis, focus. fold (rd_world s). destruct (m e (rd_world s)) as [r0 w]. intros [= <- <-]. eauto. Qed.

(** The database is read, not changed. *)
Lemma on_pg_quiet {A} (m : M database A) e s r s' : quiet m -> on_pg m e s = (r, s') -> db s' = db s.
Proof.
  intros Hq H. apply on_pg_run in H as (w & H & ->). apply quiet_run in H; [|done]. simpl in *.
  rewrite H. by destruct (db s).
Qed.

Lemma logged_run (m : Msys unit) e s r s' : logged m e s = (r, s') -> r = Ok tt /\ exists r0, m e s = (r0, s').
Proof.
  unfold logged, mbind, M_bind, try. destruct (m e s) as [r0 s1]. intros [= <- <-]. eauto.
Qed.

(** Publishing leaves the database and the coordinator alone. *)
Lemma send_run w t p c e s r s' : logged (send w t p c) e s = (r, s') ->
  r = Ok tt /\ pg (db s') = pg (db s) /\ co (db s') = co (db s).
Proof.
  intros H. apply logged_run in H as (-> & r0 & H). apply on_redis_run in H as (w0 & _ & ->). auto.
Qed.

Lemma send_forward w t p c e s r s' : logged (send w t p c) e s = (r, s') -> (tick s <= tick s')%nat.
Proof.
  intros H. apply logged_run in H as (_ & r0 & H). apply on_redis_run in H as (w0 & H & ->).
  assert (forward (PublishWorkerCommand w (MkCommand t p c))) as Hf.
  { intros e0 s0. unfold PublishWorkerCommand, eval_, reply, mbind, M_bind, lift, cmd_publish, mret, M_ret.
    destruct (driver_fails e0 (tick s0)); cbn; [lia|]. destruct (driver_fails e0 _); cbn; lia. }
  specialize (Hf e (rd_world s)). by rewrite H in Hf.
Qed.
End Focus.

(** ** One assignment *)

Lemma count_one q id (m : gmap Z live_row) :
  countZ (fun i r => (i =? id) && q r) m =
  match m !! id with Some r => if q r then 1 else 0 | None => 0 end.
Proof.
  unfold countZ, count_where, rows. induction m as [|k r m Hk IH] using map_ind.
  - by rewrite map_to_list_empty, lookup_empty.
  - rewrite map_to_list_insert by done. rewrite filter_cons. 
    destruct (decide (k = id)) as [->|Hne].
    + rewrite lookup_insert_eq. rewrite Hk in IH.
      case_decide as Hq; rewrite Z.eqb_refl in Hq; destruct (q r); simpl in *; try done; lia.
    + rewrite lookup_insert_ne by done. case_decide as Hq; [|exact IH].
      rewrite (proj2 (Z.eqb_neq k id) Hne) in Hq. done.
Qed.

Definition give (w : string) : live_row -> live_row := with_assignment ChannelStatusLive (Some w).

Lemma update_one (p : Z -> live_row -> bool) q id f (m : gmap Z live_row) :
  (forall i r, p i r = (i =? id) && q r) ->
  countZ p m = match m !! id with Some r => if q r then 1 else 0 | None => 0 end /\
  update_where p f m = match m !! id with Some r => if q r then alter f id m else m | None => m end.
Proof.
  intros Hp. split.
  - rewrite <- (count_one q id m). unfold countZ, count_where. do 2 f_equal.
    apply list_filter_iff. intros [i r]. by rewrite Hp.
  - apply map_eq. intros i. rewrite lookup_update_where.
    destruct (decide (i = id)) as [->|Hne].
    + destruct (m !! id) as [r|] eqn:E; simpl; [|by rewrite E]. rewrite Hp, Z.eqb_refl. simpl.
      destruct (q r); [rewrite lookup_alter, E; by case_decide|by rewrite E].
    + assert (forall r, p i r = false) as Hf
        by (intros r; rewrite Hp; by replace (i =? id) with false by (symmetry; by apply Z.eqb_neq)).
      assert ((match m !! id with Some r => if q r then alter f id m else m | None => m end) !! i = m !! i) as ->.
      { destruct (m !! id) as [r|]; [|done]. destruct (q r); [|done]. by rewrite lookup_alter_ne by done. }
      destruct (m !! i) as [r|]; simpl; [by rewrite Hf|done].
Qed.

Lemma set_live_id d : set_live (fun m => m) d = d.
Proof. by destruct d. Qed.

Lemma update_to_worker_one w p q id f d n d' : (forall i r, p i r = (i =? id) && q r) ->
  update_to_worker w p f d = Ok (n, d') ->
  n = match live d !! id with Some r => if q r then 1 else 0 | None => 0 end /\
  d' = if n =? 1 then set_live (alter f id) d else d.
Proof.
  intros Hp H. unfold update_to_worker in H. destruct (_ && _); [done|]. injection H as <- <-.
  destruct (update_one p q id f (live d) Hp) as [-> Hu]. unfold set_live at 1. rewrite Hu.
  destruct (live d !! id) as [r|] eqn:E; simpl; [destruct (q r)|]; simpl; try done; by destruct d.
Qed.

Lemma set_live_none f id d : live d !! id = None -> set_live (alter f id) d = d.
Proof.
  intros H. transitivity (set_live (fun m => m) d); [|apply set_live_id]. unfold set_live. f_equal.
  apply map_eq. intros i. rewrite lookup_alter. case_decide; subst; by rewrite ?H.
Qed.

(** An assignment whose call fails has left the row alone, or its reply was
    lost. *)
Lemma AssignChannel_run scope id w e s r s' : AssignChannel scope id w e s = (r, s') ->
  tick s' = S (tick s) /\
  match r with
  | Ok _ => db s' = set_live (alter (give w) id) (db s)
  | Err _ => db s' = db s \/ driver_fails e (tick s) = true /\ applied e (tick s) = true /\
               db s' = set_live (alter (give w) id) (db s)
  end.
Proof.
  intros H. unfold AssignChannel in H. destruct scope as [c|].
  - set (f := fun (_ : Z) d => update_to_worker w _ _ d) in H.
    assert (forall t d n d', f t d = Ok (n, d') ->
      d' = if n =? 1 then set_live (alter (give w) id) d else d) as Hf.
    { intros t d n d' E. eapply (update_to_worker_one w _ (fun r => on_platform PlatformSoop r
        && String.eqb (lc_channel r) c && negb (is_empty c)) id) in E as [_ E]; [exact E|].
      intros. by rewrite !andb_assoc. }
    apply bind_inv in H. destruct H as [(n & s1 & H1 & H)|(x & H1 & ->)];
      apply pool_exec_after in H1 as [Ht [[Hd [y Hy]]|(a & d & H1 & Hd & Hr)]]; try done; auto;
      apply Hf in H1 as ->.
    + destruct Hr as [[= ->]|[? _]]; [|done]. unfold guard_ok, fail, mret, M_ret in H.
      destruct (_ =? 1); injection H as <- <-; auto.
    + destruct Hr as [?|(_ & Hr & Ha)]; [done|]. destruct (_ =? 1); auto.
  - apply pool_exec_after in H as [Ht [[Hd [y ->]]|(a & d & H1 & Hd & Hr)]]; auto.
    simpl in H1. destruct (update_to_worker _ _ _ _) as [[n d']|] eqn:E; [|done]. injection H1 as _ <-.
    apply (update_to_worker_one w _ (fun _ => true) id) in E as [-> ->]; [|intros; by rewrite andb_true_r].
    assert (db s' = set_live (alter (give w) id) (db s)) as Hs.
    { destruct (live (db s) !! id) as [r0|] eqn:El; [done|]. rewrite Hd. symmetry. by apply set_live_none. }
    destruct Hr as [->|(-> & ? & ?)]; auto.
Qed.

(** ** The loop *)

(** The run of assignments [given] (channel, worker), from loads [ws]. *)
Definition given_live (given : list (Z * string)) (m : gmap Z live_row) : gmap Z live_row :=
  fold_left (fun m '(id, w) => alter (give w) id m) given m.
Definition given_loads (given : list (Z * string)) (ws : loads) : loads :=
  fold_left (fun ws '(_, w) => one_more w ws) given ws.

(** Every assignment went to the best choice among the loads of its turn. *)
Fixpoint well_given (threshold : spec_float) (given : list (Z * string)) (ws : loads) : Prop :=
  match given with
  | [] => True
  | (_, w) :: given =>
      w <> EmptyString /\ best_choice threshold (map_to_list ws) w /\
      well_given threshold given (one_more w ws)
  end.

Section Loop.
Context (scope : option string) (threshold : spec_float).
Context (order : nat -> list (string * WorkerLoad) -> list (string * WorkerLoad)).
Hypothesis order_perm : forall n l, order n l ≡ₚ l.

Lemma pick_run ws e s r s' : pick threshold order ws e s = (r, s') ->
  s' = s /\ exists w, r = Ok w /\ best_choice threshold (map_to_list ws) w.
Proof.
  intros [= <- <-]. split; [done|]. eexists. split; [done|].
  eapply best_choice_perm; [apply order_perm|apply selectWorker_best].
Qed.

(** What assigning [pending] in turn does: each channel goes to the best choice
    among the loads of its turn, or is passed over because that assignment's
    call, between the round trips [lo] and [hi], failed; and it ends early
    only when no worker qualifies. *)
Inductive assigns (e : env) (lo hi : nat) :
    list channel -> loads -> database -> list (Z * string) -> loads -> database -> Prop :=
| assigns_all ws d : assigns e lo hi [] ws d [] ws d
| assigns_full pending ws d : best_choice threshold (map_to_list ws) EmptyString ->
    assigns e lo hi pending ws d [] ws d
| assigns_given id ch pending w ws d given ws' d' :
    w <> EmptyString -> best_choice threshold (map_to_list ws) w ->
    assigns e lo hi pending (one_more w ws) (set_live (alter (give w) id) d) given ws' d' ->
    assigns e lo hi ((id, ch) :: pending) ws d ((id, w) :: given) ws' d'
| assigns_failed id ch pending w ws d t x s1 given ws' d' :
    w <> EmptyString -> best_choice threshold (map_to_list ws) w -> (lo <= t < hi)%nat ->
    AssignChannel scope id w e (World d d t) = (Err x, s1) ->
    (db s1 = d \/ driver_fails e t = true /\ applied e t = true /\
                  db s1 = set_live (alter (give w) id) d) ->
    assigns e lo hi pending ws (db s1) given ws' d' ->
    assigns e lo hi ((id, ch) :: pending) ws d given ws' d'.

Lemma assigns_later e lo hi hi' pending ws d given ws' d' : (hi <= hi')%nat ->
  assigns e lo hi pending ws d given ws' d' -> assigns e lo hi' pending ws d given ws' d'.
Proof. intros Hh. induction 1; econstructor; eauto; lia. Qed.

Lemma assigns_earlier e lo lo' hi pending ws d given ws' d' : (lo' <= lo)%nat ->
  assigns e lo hi pending ws d given ws' d' -> assigns e lo' hi pending ws d given ws' d'.
Proof. intros Hh. induction 1; econstructor; eauto; lia. Qed.

Lemma assigns_given_all e lo hi pending ws d given ws' d' :
  assigns e lo hi pending ws d given ws' d' ->
  sublist given.*1 pending.*1 /\ well_given threshold given ws /\ ws' = given_loads given ws /\
  (answered e -> d' = set_live (given_live given) d).
Proof.
  induction 1 as [ws d|pending ws d _|id ch pending w ws d given ws' d' Hw Hb _ (IH1 & IH2 & IH3 & IH4)
                 |id ch pending w ws d t x s1 given ws' d' Hw Hb _ _ Hd _ (IH1 & IH2 & IH3 & IH4)].
  - split_and!; try done; by destruct d.
  - split; [apply sublist_nil_l|]. split_and!; try done; by destruct d.
  - split; [by apply sublist_skip|]. by split_and!.
  - split; [by apply sublist_cons|]. split_and!; try done. intros Ha. rewrite (IH4 Ha).
    destruct Hd as [->|(Hf & Happ & _)]; [done|]. by rewrite (Ha _ Hf) in Happ.
Qed.

Lemma assign_loop_run pending ws n e s r s' : assign_loop scope threshold order pending ws n e s = (r, s') ->
  (tick s <= tick s')%nat /\ co (db s') = co (db s) /\
  exists given ws', r = Ok (n + Z.of_nat (length given), ws') /\
    assigns e (tick s) (tick s') pending ws (pg (db s)) given ws' (pg (db s')).
Proof.
  revert ws n s. induction pending as [|[id ch] pending IH]; intros ws n s H.
  { injection H as <- <-. split_and!; [done..|]. exists [], ws. rewrite Z.add_0_r. split; [done|constructor]. }
  simpl in H. apply bind_inv in H as [(w & s1 & H1 & H)|(x & H1 & _)].
  2: { apply pick_run in H1 as (_ & ? & ? & _). done. }
  apply pick_run in H1 as (-> & ? & [= <-] & Hb). destruct (is_empty w) eqn:Ew.
  { injection H as <- <-. split_and!; [done..|]. exists [], ws. rewrite Z.add_0_r. split; [done|].
    apply assigns_full. by destruct w. }
  apply is_empty_false in Ew. apply bind_inv in H as [(r1 & s1 & H1 & H)|(x & H1 & _)].
  2: { unfold try in H1. by destruct (on_pg _ e s). }
  apply (proj1 (try_ok _ _ _ _ _)) in H1. apply on_pg_run in H1 as (w1 & H1 & ->).
  pose proof (AssignChannel_run _ _ _ _ _ _ _ H1) as [Ht Hd]. cbn [pg_world db tick] in Ht, Hd.
  destruct r1 as [u|x].
  - apply bind_inv in H as [(u1 & s2 & H2 & H)|(x & H2 & _)].
    2: { apply send_run in H2 as [? _]. done. }
    pose proof (send_forward _ _ _ _ _ _ _ _ H2) as Ht2.
    apply send_run in H2 as (_ & Hp & Hc). apply IH in H as (Ht3 & Hco & given & ws' & -> & Ha).
    cbn [db tick co pg] in *. split_and!; [lia|congruence|]. exists ((id, w) :: given), ws'. split.
    { do 2 f_equal. cbn [length]. lia. }
    rewrite Hp, Hd in Ha. apply assigns_given; [done|done|]. eapply assigns_earlier; [|exact Ha]. lia.
  - apply IH in H as (Ht3 & Hco & given & ws' & -> & Ha). cbn [db tick co pg] in *.
    split_and!; [lia|done|]. exists given, ws'. split; [done|].
    eapply (assigns_failed _ _ _ _ _ _ _ _ _ (tick s)); [done|done|lia|exact H1|exact Hd|].
    eapply assigns_earlier; [|exact Ha]. lia.
Qed.
End Loop.

(** ** Reassigning *)

Record move := Move { mv_id : Z; mv_to : string; mv_from : string; mv_at : Z }.
Definition hand (v : move) : live_row -> live_row :=
  with_handoff (Some (mv_to v)) (Some (mv_from v)) (Some "pending"%string) (Some (mv_at v)).
Definition moved_live (moves : list move) (m : gmap Z live_row) : gmap Z live_row :=
  fold_left (fun m v => alter (hand v) (mv_id v) m) moves m.
Definition target (v : move) : Z * string := (mv_id v, mv_to v).

Lemma ReassignChannel_run scope id new old e s r s' : ReassignChannel scope id new old e s = (r, s') ->
  let moved := scope = None /\
    db s' = set_live (alter (hand (Move id new old (clock e (tick s)))) id) (db s) in
  match r with
  | Ok true => moved
  | Ok false => db s' = db s
  | Err _ => db s' = db s \/ driver_fails e (tick s) = true /\ applied e (tick s) = true /\ moved
  end.
Proof.
  intros H. unfold ReassignChannel in H. destruct scope as [c|]; [by injection H as <- <-|].
  apply bind_inv in H. destruct H as [(n & s1 & H1 & H)|(x & H1 & ->)];
    apply pool_exec_after in H1 as [_ [[Hd [y Hy]]|(a & d & H1 & Hd & Hr)]]; try done; auto;
    eapply (update_to_worker_one new _ is_live id) in H1 as [-> ->]; try done;
    (destruct (live (db s) !! id) as [r0|]; [destruct (is_live r0)|]); cbn in *;
    destruct Hr as [?|(? & ? & ?)]; simplify_eq; auto.
  all: injection H as <- <-; cbn; auto.
Qed.

Section Reassign.
Context (scope : option string) (threshold : spec_float).
Context (order : nat -> list (string * WorkerLoad) -> list (string * WorkerLoad)).
Hypothesis order_perm : forall n l, order n l ≡ₚ l.

(** What reassigning the channels [from], each with its old worker, does from
    the loads [ws], the count [n] and the database [d]; [all]: the moves in the
    database, [moves]: those whose call succeeded. *)
Definition made (e : env) (bound : option Z) (from : list (Z * string)) (ws : loads) (n : Z)
    (d : database) (r : result (Z * loads)) (d' : database) : Prop :=
  exists moves all, r = Ok (n + Z.of_nat (length moves), given_loads (map target moves) ws) /\
    sublist (map (fun v => (mv_id v, mv_from v)) all) from /\
    sublist moves all /\ (answered e -> all = moves) /\
    well_given threshold (map target moves) ws /\
    d' = set_live (moved_live all) d /\
    (forall b, bound = Some b -> moves <> [] -> n + Z.of_nat (length moves) <= b) /\
    (scope <> None -> all = []).

Lemma made_nothing e bound from ws n d : made e bound from ws n d (Ok (n, ws)) d.
Proof.
  exists [], []. rewrite Z.add_0_r.
  split_and!; [done|apply sublist_nil_l|done|done|done|by destruct d|done..].
Qed.
Lemma made_skip e bound x from ws n d r d' :
  made e bound from ws n d r d' -> made e bound (x :: from) ws n d r d'.
Proof.
  intros (moves & all & -> & Hs & H). exists moves, all. split; [done|].
  split; [by apply sublist_cons|done].
Qed.
Lemma made_lost e bound v from ws n d r d' : scope = None -> ~ answered e ->
  made e bound from ws n (set_live (alter (hand v) (mv_id v)) d) r d' ->
  made e bound ((mv_id v, mv_from v) :: from) ws n d r d'.
Proof.
  intros Hsc Hna (moves & all & -> & Hs & Hm & _ & Hw & -> & Hn & _). exists moves, (v :: all).
  split_and!; [done|by apply sublist_skip|by apply sublist_cons|done|done|done|done|congruence].
Qed.
Lemma made_move e bound v from ws n d r d' : scope = None ->
  (forall b, bound = Some b -> n < b) -> mv_to v <> EmptyString ->
  best_choice threshold (map_to_list ws) (mv_to v) ->
  made e bound from (one_more (mv_to v) ws) (n + 1) (set_live (alter (hand v) (mv_id v)) d) r d' ->
  made e bound ((mv_id v, mv_from v) :: from) ws n d r d'.
Proof.
  intros Hsc Hb He Hc (moves & all & -> & Hs & Hm & Ha & Hw & -> & Hn & _). exists (v :: moves), (v :: all).
  split_and!; [|by apply sublist_skip|by apply sublist_skip|intros ?; f_equal; auto|done|done| |congruence].
  - do 2 f_equal. cbn [length]. lia.
  - intros b Eb _. specialize (Hb b Eb). destruct moves as [|m0 moves]; cbn [length] in *; [lia|].
    specialize (Hn b Eb ltac:(done)). lia.
Qed.

Lemma reassign_loop_run bound old l ws n e s r s' :
  reassign_loop scope threshold order bound old l ws n e s = (r, s') ->
  made e bound (map (fun '(id, ch) => (id, default EmptyString (old ch))) l) ws n (pg (db s)) r (pg (db s')) /\
  co (db s') = co (db s).
Proof.
  revert ws n s. induction l as [|[id ch] l IH]; intros ws n s H.
  { injection H as <- <-. split; [apply made_nothing|done]. }
  simpl in H. destruct (match bound with Some b => b <=? n | None => false end) eqn:Eb.
  { injection H as <- <-. split; [apply made_nothing|done]. }
  apply bind_inv in H as [(w & s1 & H1 & H)|(x & H1 & _)].
  2: { apply (pick_run threshold order order_perm) in H1 as (_ & ? & ? & _). done. }
  apply (pick_run threshold order order_perm) in H1 as (-> & ? & [= <-] & Hb).
  destruct (is_empty w) eqn:Ew.
  { injection H as <- <-. split; [apply made_nothing|done]. }
  apply is_empty_false in Ew. apply bind_inv in H as [(r1 & s1 & H1 & H)|(x & H1 & _)].
  2: { unfold try in H1. by destruct (on_pg _ e s). }
  apply (proj1 (try_ok _ _ _ _ _)) in H1. apply on_pg_run in H1 as (w1 & H1 & ->).
  apply ReassignChannel_run in H1. cbv zeta in H1. cbn [pg_world db tick] in H1.
  set (v := Move id w (default EmptyString (old ch)) (clock e (tick s))) in *.
  destruct r1 as [[]|x].
  - destruct H1 as [Hsc H1]. apply bind_inv in H as [(u1 & s2 & H2 & H)|(x & H2 & _)].
    2: { apply send_run in H2 as [? _]. done. }
    apply send_run in H2 as (_ & Hp & Hc). apply IH in H as [H Hco].
    cbn [db pg co] in *. rewrite Hp, H1 in H. split; [|congruence].
    apply (made_move e bound v); try done. intros b ->. b2p. lia.
  - apply IH in H as [H Hco]. cbn [db pg co] in *. rewrite H1 in H. split; [by apply made_skip|done].
  - apply IH in H as [H Hco]. cbn [db pg co] in *. split; [|done].
    destruct H1 as [H1|(Hf & Ha & Hsc & H1)]; rewrite H1 in H; [by apply made_skip|].
    apply (made_lost e bound v); try done. intros Han. by rewrite (Han _ Hf) in Ha.
Qed.
End Reassign.

(** ** The rows offered *)

Lemma select_live_elem p d x : x ∈ select_live p d <-> live d !! x.1 = Some x.2 /\ p x = true.
Proof.
  unfold select_live, rows. rewrite merge_sort_Permutation, list_elem_of_In, filter_In, <- list_elem_of_In.
  destruct x. by rewrite elem_of_map_to_list.
Qed.

Lemma NoDup_filter_fst {A} (p : Z * A -> bool) (m : gmap Z A) :
  NoDup (List.filter p (map_to_list m)).*1.
Proof.
  assert (NoDup (map_to_list m).*1) as H by apply NoDup_fst_map_to_list.
  induction (map_to_list m) as [|x l IH]; [constructor|]. apply NoDup_cons in H as [H1 H2].
  simpl. destruct (p x); [|by apply IH]. simpl. apply NoDup_cons. split; [|by apply IH].
  intros Hin. apply H1. apply list_elem_of_fmap in Hin as (y & E & Hy). rewrite E. apply list_elem_of_fmap.
  exists y. split; [done|]. apply list_elem_of_In. apply list_elem_of_In in Hy. by apply filter_In in Hy as [? _].
Qed.

Lemma select_live_NoDup p d : NoDup (select_live p d).*1.
Proof. unfold select_live. rewrite merge_sort_Permutation. apply NoDup_filter_fst. Qed.

(** The pending channels an assignment works on: the first [limit] that may be
    collected, most viewers first. *)
Definition pending_channels (scope : option string) (limit : Z) (d : database) : list channel :=
  take (Z.to_nat limit)
    (select_live (fun '(_, r) => is_pending r && unassigned r && collectable scope d r) d).

Lemma ListPending_run scope limit e s l s' : ListPendingChannels scope limit e s = (Ok l, s') ->
  l = pending_channels scope limit (db s) /\ 0 <= limit /\ s' = bump s.
Proof.
  unfold ListPendingChannels. intros H. apply pool_query_ok in H as (_ & H & ->). unfold sql_limit in H.
  destruct (limit <? 0) eqn:El; [done|]. b2p. by injection H as <-.
Qed.

Lemma pending_channels_rows scope limit d :
  NoDup (pending_channels scope limit d).*1 /\
  forall id r, (id, r) ∈ pending_channels scope limit d -> live d !! id = Some r /\
    is_pending r = true /\ lc_worker r = None /\ collectable scope d r = true.
Proof.
  unfold pending_channels. split.
  - rewrite fmap_take. eapply sublist_NoDup; [|apply sublist_take]. apply select_live_NoDup.
  - intros id r Hin. apply elem_of_take in Hin as (i & Hi & _). apply list_elem_of_lookup_2 in Hi.
    apply select_live_elem in Hi as [H1 H2]. cbn [fst snd] in *.
    rewrite !andb_true_iff in H2. unfold unassigned in H2. destruct (lc_worker r); intuition congruence.
Qed.

Lemma ListDraining_run e s l s' : ListDrainingWorkerChannels e s = (Ok l, s') ->
  NoDup l.*1 /\ db s' = db s /\
  forall id r, (id, r) ∈ l -> live (db s) !! id = Some r /\ is_live r = true /\ lc_handoff_status r = None /\
    exists w x, lc_worker r = Some w /\ workers (db s) !! w = Some x /\ wo_status x = WorkerStatusDraining.
Proof.
  unfold ListDrainingWorkerChannels. intros H. inv_run H. simplify_eq.
  split_and!; [apply NoDup_filter_fst|done|]. intros id r Hin.
  apply list_elem_of_In, filter_In in Hin as [H1 H2]. apply list_elem_of_In, elem_of_map_to_list in H1.
  rewrite !andb_true_iff in H2. destruct H2 as [[H2 H3] H4]. split_and!; [done|done|by destruct (lc_handoff_status r)|].
  destruct (lc_worker r) as [w|]; [|done]. destruct (workers (db s) !! w) as [x|] eqn:E; [|done].
  apply String.eqb_eq in H2. eauto.
Qed.
