(* ===== verification/HealthRun.v ===== *)
(** What a tick of the health loop leaves behind when nothing fails, and the
    debounce and cooldown maps of the coordinator across its activities. *)
From S2P Require Import Prelude GoLib Json Tx Model Db.
From S2P Require Import Ownership Channels ChannelsInv Redis Election ElectionInv.
From S2P Require Import Coordinator AssignRun.

Section NoFailures.
Context (e : env).
Hypothesis Hnf : no_failures e.

Lemma pool_query_total {DB A} (f : Z -> DB -> result A) s :
  pool_query f e s = (f (clock e (tick s)) (db s), bump s).
Proof. unfold pool_query. by rewrite Hnf. Qed.
Lemma pool_exec_total {DB A} (f : Z -> DB -> result (A * DB)) s :
  pool_exec f e s = match f (clock e (tick s)) (db s) with
                    | Ok (a, d) => (Ok a, World d (wk s) (S (tick s)))
                    | Err x => (Err x, bump s)
                    end.
Proof. unfold pool_exec. by rewrite Hnf. Qed.
Lemma eval_total {A} (c : script A) s : eval_ c e s =
  let '(r, d) := c (unix_milli (clock e (tick s))) (db s) in (r, World d (wk s) (S (S (tick s)))).
Proof.
  unfold eval_. rewrite Hnf. destruct (c _ _) as [r d]. unfold mbind, M_bind, reply.
  simpl. rewrite Hnf. by destruct r.
Qed.

(** ** The check *)

Lemma collect_loads_lookup ws vs acc w l : length ws = length vs ->
  collect_loads ws vs acc !! w = Some l ->
  acc !! w = Some l \/ exists i, ws !! i = Some w /\ vs !! i = Some (Some (RLoad l)).
Proof.
  revert vs acc. induction ws as [|x ws IH]; intros [|v vs] acc Hlen H; try done; [by left|].
  injection Hlen as Hlen. simpl in H.
  assert (forall acc', collect_loads ws vs acc' !! w = Some l -> acc' !! w = acc !! w ->
    acc !! w = Some l \/ exists i, (x :: ws) !! i = Some w /\ (v :: vs) !! i = Some (Some (RLoad l))) as Hgo.
  { intros acc' H1 H2. apply IH in H1 as [H1|(i & H3 & H4)]; [left; congruence|right; by exists (S i)|done]. }
  destruct v as [[s|l'|? ?]|]; eauto.
  destruct (decide (w = x)) as [->|Hne].
  - apply IH in H as [H|(i & H3 & H4)]; [|right; by exists (S i)|done].
    rewrite lookup_insert_eq in H. injection H as ->. right. by exists O.
  - apply (Hgo _ H). by rewrite lookup_insert_ne by done.
Qed.

(** A recent heartbeat of [w] is in Redis. *)
Definition beating (t : Z) (d : redis) (w : string) (l : WorkerLoad) : Prop :=
  exists x, peek t (heartbeatKey w) d = Some (RLoad l, x).

Lemma heartbeats_run ids s : exists m,
  GetWorkerHeartbeats ids e s = (Ok m, World (db s) (wk s) (if decide (ids = []) then tick s else S (S (tick s)))) /\
  forall w l, m !! w = Some l -> w ∈ ids /\ beating (unix_milli (clock e (tick s))) (db s) w l.
Proof.
  destruct ids as [|id ids]; [by exists ∅; split; [by destruct s|]|].
  unfold GetWorkerHeartbeats. set (l := id :: ids). unfold mbind, M_bind. rewrite eval_total.
  unfold cmd_mget. eexists. split; [reflexivity|]. intros w v H.
  apply collect_loads_lookup in H as [H|(i & H1 & H2)]; [done| |by rewrite !length_map].
  split; [by eapply list_elem_of_lookup_2|]. rewrite !list_lookup_fmap, H1 in H2. simpl in H2.
  destruct (peek _ _ (db s)) as [[[?|?|? ?] x]|] eqn:E; simplify_eq. by exists x.
Qed.

Definition alive (w : string) (d : database) : bool :=
  match workers d !! w with Some x => String.eqb (wo_status x) WorkerStatusAlive | None => false end.

Lemma by_status_ids st d w :
  w ∈ map w_ID (map (fun '(k, x) => worker_of k x)
    (List.filter (fun '(_, x) => String.eqb (wo_status x) st) (rows (workers d)))) <->
  exists x, workers d !! w = Some x /\ wo_status x = st.
Proof.
  rewrite map_map, list_elem_of_In, in_map_iff. split.
  - intros ([k x] & <- & [H1 H2]%filter_In). exists x. b2p. split; [|done].
    by apply elem_of_map_to_list, list_elem_of_In.
  - intros (x & H1 & H2). exists (w, x). split; [done|]. apply filter_In. split.
    + by apply list_elem_of_In, elem_of_map_to_list.
    + by apply String.eqb_eq.
Qed.

Lemma alive_ids d w :
  w ∈ map w_ID (map (fun '(k, x) => worker_of k x)
    (List.filter (fun '(_, x) => String.eqb (wo_status x) WorkerStatusAlive) (rows (workers d)))) <->
  alive w d = true.
Proof.
  rewrite by_status_ids. unfold alive. destruct (workers d !! w); [rewrite String.eqb_eq|]; naive_solver.
Qed.

Lemma fold_loads_lookup (beats : loads) ids (acc : loads) w l :
  fold_left (fun (m : loads) id => match beats !! id with Some l => <[id := l]> m | None => m end) ids acc !! w = Some l ->
  acc !! w = Some l \/ w ∈ ids /\ beats !! w = Some l.
Proof.
  unfold loads in *. revert acc. induction ids as [|x ids IH]; intros acc H; [by left|]. simpl in H.
  apply IH in H as [H|[H1 H2]]; [|right; split; [by right|done]].
  destruct (beats !! x) as [l'|] eqn:E; [|by left].
  destruct (decide (x = w)) as [->|Hne].
  - rewrite lookup_insert_eq in H. right. split; [left|congruence].
  - rewrite lookup_insert_ne in H by done. by left.
Qed.

(** What a check says about a database and a heartbeat instant. *)
Record checked (d : database) (r : redis) (t : Z) (h : HealthCheckResult) : Prop := {
  ck_dead : forall w, w ∈ DeadWorkers h -> alive w d = true;
  ck_alive : forall w, alive w d = true -> w ∉ DeadWorkers h -> w ∈ AliveWorkers h;
  ck_beats : forall w, w ∈ AliveWorkers h -> exists l, beating t r w l;
  ck_loads : forall w l, WorkerLoads h !! w = Some l -> alive w d = true /\ beating t r w l
}.

Lemma Check_run s : exists h n m, Check e s = (Ok h, World (db s) (wk s) n) /\
  checked (pg (db s)) (rd (db s)) (unix_milli (clock e m)) h.
Proof.
  unfold Check, ListAliveWorkers, ListWorkersByStatus, mbind, M_bind, on_pg, focus.
  rewrite pool_query_total. cbn [db wk tick bump]. set (ids := map w_ID _).
  unfold on_redis, focus. cbn [db wk tick pg rd co].
  destruct (heartbeats_run ids (World (rd (db s)) (rd (db s)) (S (tick s)))) as (m & -> & Hm).
  cbn [db wk tick pg rd co] in *. eexists _, _, (S (tick s)).
  split. { unfold mret, M_ret. do 3 f_equal. by destruct (db s). }
  assert (forall w, w ∈ ids <-> alive w (pg (db s)) = true) as Hl by (intros; apply alive_ids).
  split; cbn [DeadWorkers AliveWorkers WorkerLoads].
  - intros w [Hw _]%list_elem_of_In%filter_In. by apply Hl, list_elem_of_In.
  - intros w Ha Hd. apply list_elem_of_In, filter_In. split; [by apply list_elem_of_In, Hl|].
    destruct (m !! w) eqn:E; [done|]. exfalso. apply Hd, list_elem_of_In, filter_In.
    rewrite E. split; [by apply list_elem_of_In, Hl|done].
  - intros w [Hw Hb]%list_elem_of_In%filter_In. destruct (m !! w) as [v|] eqn:E; [|done].
    exists v. by apply Hm.
  - intros w v H. apply fold_loads_lookup in H as [H|[H1 H2]]; [done|]. split; [by apply Hl|]. by apply Hm.
Qed.

(** ** Marking the dead *)

(** The workers [W] are marked dead and their channels returned. *)
Record marked (W : list string) (d0 d : database) : Prop := {
  mk_in : forall w x, w ∈ W -> workers d !! w = Some x -> wo_status x = WorkerStatusDead;
  mk_out : forall w, w ∉ W -> workers d !! w = workers d0 !! w;
  mk_live : forall id r, live d !! id = Some r -> exists r0, live d0 !! id = Some r0 /\
    (r = unassign r0 \/
     r = r0 /\ forall w, w ∈ W -> lc_worker r0 = Some w -> is_ended r0 = true)
}.

Lemma marked_nil d : marked [] d d.
Proof.
  split; [by intros w x Hw%elem_of_nil|done|]. intros id r H. exists r. split; [done|]. right.
  split; [done|]. by intros w Hw%elem_of_nil.
Qed.

Definition mark (now : Z) (w : string) (d : database) : database :=
  set_live (update_where (fun _ r => opt_eqb (lc_worker r) w && negb (is_ended r)) unassign)
    (set_workers (alter (fun x => WorkerRow WorkerStatusDead (wo_max_capacity x) (wo_registered_at x) now) w) d).

Lemma opt_eqb_Some o w : opt_eqb o w = true <-> o = Some w.
Proof. unfold opt_eqb. destruct o; [rewrite String.eqb_eq|]; naive_solver. Qed.

Lemma marked_mark W d0 d now w : marked W d0 d -> marked (w :: W) d0 (mark now w d).
Proof.
  intros [M1 M2 M3]. split; cbn [mark set_live set_workers workers live].
  - intros v x Hv Hx. rewrite lookup_alter in Hx. case_decide as E.
    + by apply fmap_Some in Hx as (y & _ & ->).
    + apply elem_of_cons in Hv as [->|Hv]; [done|]. by eapply M1.
  - intros v Hv. apply not_elem_of_cons in Hv as [Hv1 Hv2]. rewrite lookup_alter_ne by done. auto.
  - intros id r H. apply lookup_update_where_Some in H as (r1 & H1 & ->).
    destruct (M3 _ _ H1) as (r0 & H0 & Hr). exists r0. split; [done|].
    destruct (opt_eqb (lc_worker r1) w && negb (is_ended r1)) eqn:E.
    + left. destruct Hr as [->|[-> _]]; done.
    + destruct Hr as [->|[-> Hr]]; [by left|]. right. split; [done|].
      intros v [->|Hv]%elem_of_cons Hw; [|by eapply Hr].
      apply andb_false_iff in E as [E|E]; [|by apply negb_false_iff in E].
      apply opt_eqb_Some in Hw. congruence.
Qed.

Lemma mark_loop_run draining dead total errs W d0 s : marked W d0 (pg (db s)) ->
  exists n d t, mark_loop draining dead total errs e s =
    (Ok (total + n, errs), World (Sys d (rd (db s)) (co (db s))) (wk s) t) /\
    exists W', marked W' d0 d /\ forall w, w ∈ W' <-> w ∈ W \/ (w ∈ dead /\ w ∉ draining).
Proof.
  revert total W s. induction dead as [|w dead IH]; intros total W s M; cbn [mark_loop].
  { exists 0, (pg (db s)), (tick s). rewrite Z.add_0_r. split; [by destruct s as [[]]|].
    exists W. split; [done|]. set_solver. }
  destruct (existsb (String.eqb w) draining) eqn:Ed.
  { apply existsb_exists in Ed as (v & Hv & E%String.eqb_eq). subst v. apply list_elem_of_In in Hv.
    destruct (IH total W s M) as (n & d & t & -> & W' & M' & HW). exists n, d, t. split; [done|].
    exists W'. split; [done|]. intros v. rewrite HW. set_solver. }
  assert (w ∉ draining) as Hn.
  { intros Hw. apply not_true_iff_false in Ed. apply Ed. apply existsb_exists. exists w.
    split; [by apply list_elem_of_In|apply String.eqb_refl]. }
  unfold mbind, M_bind, try, on_pg, focus, UpdateWorkerStatus. rewrite pool_exec_total.
  cbn [db wk tick pg rd co]. unfold UnassignWorkerChannels. rewrite pool_exec_total.
  cbn [db wk tick pg rd co]. set (now := clock e (tick s)).
  change (set_live _ (set_workers _ (pg (db s)))) with (mark now w (pg (db s))).
  set (s1 := World _ _ _). destruct (IH (total + 1) (w :: W) s1) as (n & d & t & H & W' & M' & HW).
  { by apply marked_mark. }
  exists (1 + n), d, t. rewrite H. split; [subst s1; cbn [db rd co wk]; by rewrite Z.add_assoc|].
  exists W'. split; [done|]. intros v. rewrite HW. set_solver.
Qed.

(** ** The tick *)

Lemma health_run s : exists h n s', health_tick e s = (Ok tt, s') /\
  let d0 := set_live (update_where (fun _ r => stranded (pg (db s)) r) unassign) (pg (db s)) in
  checked d0 (rd (db s)) (unix_milli (clock e n)) h /\
  lastHealthResult (co (db s')) = Some h /\ rd (db s') = rd (db s) /\
  marked (DeadWorkers h) d0 (pg (db s')).
Proof.
  unfold health_tick, reconcileDeadWorkerChannels, mbind, M_bind. unfold try at 1, on_pg at 1, focus at 1.
  unfold UnassignDeadWorkerChannels. rewrite pool_exec_total. unfold mret at 1, M_ret at 1. cbn [db wk tick pg rd co].
  set (d0 := set_live _ (pg (db s))). set (s1 := World (Sys d0 _ _) _ _).
  destruct (Check_run s1) as (h & n & m & Hc & Hck). unfold try at 1. rewrite Hc. cbn [db wk tick].
  unfold set_co. cbn [db wk tick pg rd co].
  destruct (DeadWorkers h) as [|w dead] eqn:Ed.
  { eexists h, m, _. split; [reflexivity|]. cbn [db pg rd co]. split_and!; [done|done|done|].
    rewrite Ed. apply marked_nil. }
  unfold MarkDead, mbind, M_bind, try, on_pg at 1, focus, ListWorkersByStatus. rewrite pool_query_total.
  cbn [db wk tick pg rd co bump]. set (draining := map w_ID _).
  match goal with |- context [mark_loop _ _ _ _ e ?x] => set (s2 := x) end.
  destruct (mark_loop_run draining (w :: dead) 0 [] [] d0 s2 (marked_nil _)) as (k & d & t & -> & W' & M' & HW).
  eexists h, m, _. split; [reflexivity|]. subst s2. cbn [db pg rd co]. split_and!; [done|done|done|].
  rewrite Ed. assert (forall v, v ∈ W' <-> v ∈ w :: dead) as HW'.
  { intros v. rewrite HW. split; [set_solver|]. intros Hv. right. split; [done|].
    intros Hd. rewrite <- Ed in Hv. apply (ck_dead _ _ _ _ Hck) in Hv. 
    apply by_status_ids in Hd as (x & Hx & Hs). subst s1. unfold alive in Hv. cbn [db pg] in Hv, Hx.
    rewrite Hx, Hs in Hv. done. }
  destruct M' as [M1 M2 M3]. split.
  - intros v x Hv. apply M1. by apply HW'.
  - intros v Hv. apply M2. by rewrite HW'.
  - intros id r Hr. destruct (M3 _ _ Hr) as (r0 & H0 & [->|[-> H1]]); exists r0; (split; [done|]); [by left|right].
    split; [done|]. intros v Hv. apply H1. by apply HW'.
Qed.
End NoFailures.

(** ** Activities that leave the maps alone *)

Definition maps (c : coordinator) := (debounceMap c, unassignCooldown c).
Definition tame {A} (m : Msys A) : Prop := forall e s,
  (tick s <= tick (m e s).2)%nat /\ maps (co (db (m e s).2)) = maps (co (db s)).

Lemma tame_bind {A B} (m : Msys A) (k : A -> Msys B) : tame m -> (forall a, tame (k a)) -> tame (m ≫= k).
Proof.
  intros Hm Hk e s. unfold mbind, M_bind. destruct (Hm e s) as [H1 H2].
  destruct (m e s) as [[a|x] s1]; simpl in *; [|done]. destruct (Hk a e s1) as [H3 H4].
  split; [lia|congruence].
Qed.
Lemma tame_ret {A} (a : A) : tame (mret a : Msys A).
Proof. by intros e s. Qed.
Lemma tame_try {A} (m : Msys A) : tame m -> tame (try m).
Proof. intros H e s. unfold try. specialize (H e s). by destruct (m e s). Qed.
Lemma tame_logged m : tame m -> tame (logged m).
Proof. intros H. apply tame_bind; [by apply tame_try|]. intros. apply tame_ret. Qed.
Lemma tame_now : tame (time_now : Msys Z).
Proof. intros e s. simpl. split; [lia|done]. Qed.
Lemma tame_get : tame get_co.
Proof. by intros e s. Qed.
Lemma tame_set f : (forall c, maps (f c) = maps c) -> tame (set_co f).
Proof. intros H e s. simpl. by rewrite H. Qed.
Lemma tame_pg {A} (m : M database A) : forward m -> tame (on_pg m).
Proof.
  intros H e s. unfold on_pg, focus. specialize (H e (World (pg (db s)) (pg (db s)) (tick s))).
  destruct (m e _) as [r w]. simpl in *. done.
Qed.
Lemma tame_redis {A} (m : M redis A) : forward m -> tame (on_redis m).
Proof.
  intros H e s. unfold on_redis, focus. specialize (H e (World (rd (db s)) (rd (db s)) (tick s))).
  destruct (m e _) as [r w]. simpl in *. done.
Qed.

#[local] Hint Resolve forward_eval : collector.

Lemma forward_deletes n l k : forward (delete_batches n l k).
Proof. revert l k. induction n as [|n IH]; intros [|x l] k; simpl; frame_solve. Qed.
Lemma forward_scan sc n c acc : forward (scan_loop sc n c acc).
Proof.
  revert c acc. induction n as [|n IH]; intros c acc; simpl; [frame_solve|].
  apply forward_bind; [frame_solve|]. intros b. destruct (_ =? 0); frame_solve.
Qed.
Lemma forward_beats ids : forward (GetWorkerHeartbeats ids).
Proof. unfold GetWorkerHeartbeats. destruct ids; frame_solve. Qed.
Lemma forward_assign sc id w : forward (AssignChannel sc id w).
Proof. unfold AssignChannel. destruct sc; frame_solve. Qed.
Lemma forward_reassign sc id w o : forward (ReassignChannel sc id w o).
Proof. unfold ReassignChannel. destruct sc; frame_solve. Qed.
#[local] Hint Resolve forward_deletes forward_scan forward_beats forward_assign forward_reassign : collector.

Ltac forward_op := unfold ListPendingChannels, ListDrainingWorkerChannels, ListStuckHandoffs,
  CountAssignedByWorker, ListAliveWorkers, ListWorkersByStatus, UpdateWorkerStatus, UnassignWorkerChannels,
  UnassignDeadWorkerChannels, UnassignChannel, GetChannel, ListEndedChannelsBefore, ListAllKnownChannelKeys,
  DeleteChatStreams, ScanChatStreamKeys, PublishWorkerCommand; frame_solve.

Ltac tame_solve :=
  repeat first
    [ apply tame_ret | apply tame_now | apply tame_get | apply tame_logged | apply tame_try
    | apply tame_bind; [|intros ?] | apply tame_pg; solve [forward_op] | apply tame_redis; solve [forward_op]
    | apply tame_set; solve [intros []; done]
    | match goal with |- tame (match ?x with _ => _ end) => destruct x end
    | solve [eauto] ].

Lemma tame_send w t p c : tame (send w t p c).
Proof. unfold send. tame_solve. Qed.
#[local] Hint Resolve tame_send : core.

Lemma tame_pick th o ws : tame (pick th o ws).
Proof. by intros e s. Qed.
#[local] Hint Resolve tame_pick : core.

Lemma tame_assign sc th o l ws n : tame (assign_loop sc th o l ws n).
Proof. revert ws n. induction l as [|[id ch] l IH]; intros ws n; simpl; tame_solve. Qed.
Lemma tame_reassign sc th o b old l ws n : tame (reassign_loop sc th o b old l ws n).
Proof. revert ws n. induction l as [|[id ch] l IH]; intros ws n; simpl; tame_solve. Qed.
#[local] Hint Resolve tame_assign tame_reassign : core.

Lemma tame_assignment sc b th o : tame (assignment_tick sc b th o).
Proof.
  unfold assignment_tick, share_loads, AssignPending, ReassignDrainingChannels, RetryStuckHandoffs. tame_solve.
Qed.

Lemma tame_mark dr d n l : tame (mark_loop dr d n l).
Proof. revert n l. induction d as [|w d IH]; intros n l; simpl; tame_solve. Qed.
#[local] Hint Resolve tame_mark : core.

Lemma tame_health : tame health_tick.
Proof. unfold health_tick, reconcileDeadWorkerChannels, Check, MarkDead. tame_solve. Qed.

Lemma tame_cleanup sc n : tame (runStreamCleanup sc n).
Proof. unfold runStreamCleanup, cleanup_ended, cleanup_orphans. tame_solve. Qed.

(** ** Stamps *)

Lemma stamp_same b ttl k t now m : time_sub now t <= ttl -> stamp b ttl k t now m !! k = Some t.
Proof.
  intros H. unfold stamp. destruct (_ <? _)%nat; [|by rewrite lookup_insert_eq].
  unfold evict. apply map_lookup_filter_Some. by rewrite lookup_insert_eq.
Qed.

(** Another key's stamp does not remove one that is still recent. *)
Lemma stamp_other b ttl k k' t t' now m : k <> k' -> m !! k = Some t -> time_sub now t <= ttl ->
  stamp b ttl k' t' now m !! k = Some t.
Proof.
  intros Hk Hm H. unfold stamp. destruct (_ <? _)%nat; [|by rewrite lookup_insert_ne by done].
  unfold evict. apply map_lookup_filter_Some. by rewrite lookup_insert_ne by done.
Qed.

Lemma recent_true ttl k t now m : m !! k = Some t -> time_sub now t < ttl -> recent ttl k now m = true.
Proof. intros Hm H. unfold recent. rewrite Hm. by apply Z.ltb_lt. Qed.

Lemma sub_below now t d : now < t + d -> 0 < d < 9223372036854775808 -> time_sub now t < d.
Proof. unfold time_sub. lia. Qed.

(** ** Events *)

Definition ws_rest (x : CoordEvent) (skip : bool) : Msys unit :=
  if skip then mret tt
  else
    draining ← try (on_pg (ListWorkersByStatus WorkerStatusDraining));
    if match draining with Ok l => existsb (fun y => String.eqb (w_ID y) (ce_WorkerID x)) l | Err _ => false end
    then mret tt
    else
      r ← try (on_pg (GetChannel (ce_Platform x) (ce_ChannelID x)));
      match r with
      | Err _ => mret tt
      | Ok (_, ch) =>
          if negb (is_ended ch) then logged (send (ce_WorkerID x) WorkerCommandConnect (ce_Platform x) (ce_ChannelID x))
          else
            logged (send (ce_WorkerID x) WorkerCommandDisconnect (ce_Platform x) (ce_ChannelID x)) ;;
            match lc_ended_at ch with
            | None => mret tt
            | Some t =>
                now ← time_now;
                if 30 * second <? time_sub now t then
                  r ← try (on_redis (DeleteChatStreams [ChatStreamKey (ce_Platform x) (ce_ChannelID x)])); mret tt
                else mret tt
            end
      end.

Lemma ws_split x : handleWSClosed x = (shouldDebounce (ce_Platform x) (ce_ChannelID x) ≫= ws_rest x).
Proof. reflexivity. Qed.
Lemma tame_ws_rest x b : tame (ws_rest x b).
Proof. unfold ws_rest. tame_solve. Qed.

Definition key_of_event (x : CoordEvent) : string := event_key (ce_Platform x) (ce_ChannelID x).

Lemma debounce_run x e s : shouldDebounce (ce_Platform x) (ce_ChannelID x) e s =
  let now := wall e (tick s) in let m := debounceMap (co (db s)) in
  if recent wsClosedDebounceTTL (key_of_event x) now m then (Ok true, bump s)
  else (Ok false, World (Sys (pg (db s)) (rd (db s))
          (set_debounce (stamp 500 wsClosedDebounceTTL (key_of_event x) now now m) (co (db s))))
          (wk s) (S (tick s))).
Proof. unfold shouldDebounce, mbind, M_bind, time_now, get_co. cbn [db]. by destruct (recent _ _ _ _). Qed.

Lemma unassign_run x e s : handleUnassign x e s =
  let m := unassignCooldown (co (db s)) in
  if recent unassignCooldownTTL (key_of_event x) (wall e (tick s)) m then (Ok tt, bump s)
  else
    (r ← try (on_pg (UnassignChannel (ce_Platform x) (ce_ChannelID x) (ce_WorkerID x)));
     match r with
     | Err _ => mret tt
     | Ok _ => logged (send (ce_WorkerID x) WorkerCommandDisconnect (ce_Platform x) (ce_ChannelID x))
     end) e (World (Sys (pg (db s)) (rd (db s))
       (set_cooldown (stamp 1000 unassignCooldownTTL (key_of_event x) (wall e (S (tick s)))
          (wall e (S (S (tick s)))) m) (co (db s)))) (wk s) (S (S (S (tick s))))).
Proof.
  unfold handleUnassign, mbind at 1 2, M_bind, time_now at 1, get_co. cbn [db tick].
  fold (key_of_event x). by destruct (recent _ _ _ _).
Qed.

(** ** The stamps survive every activity while they are recent *)

Definition stamped (k : string) (t u : option Z) (s : world sys) : Prop :=
  (forall v, t = Some v -> debounceMap (co (db s)) !! k = Some v) /\
  (forall v, u = Some v -> unassignCooldown (co (db s)) !! k = Some v).

Lemma stamped_tame {A} (m : Msys A) k t u e s : tame m -> stamped k t u s -> stamped k t u (m e s).2.
Proof. intros Hm [H1 H2]. destruct (Hm e s) as [_ E]. injection E as E1 E2. split; by rewrite ?E1, ?E2. Qed.

Inductive activity : Type :=
| Event (x : CoordEvent)
| Health
| Assign (scope : option string) (batch : Z) (threshold : SpecFloat.spec_float)
    (order : nat -> list (string * WorkerLoad) -> list (string * WorkerLoad))
| Cleanup (scan : Z -> Z -> redis -> list string * Z) (fuel : nat)
| Elected
| Deposed.
Definition act (a : activity) : Msys unit :=
  match a with
  | Event x => handleEvent x
  | Health => health_tick
  | Assign sc b th o => assignment_tick sc b th o
  | Cleanup sc n => runStreamCleanup sc n
  | Elected => onBecomeLeader
  | Deposed => onLoseLeadership
  end.
Definition acts (l : list activity) (e : env) (s : world sys) : world sys :=
  fold_left (fun s a => (act a e s).2) l s.

(** Without becoming the leader (again). *)
Definition same_term (l : list activity) : bool :=
  forallb (fun a => match a with Elected => false | _ => true end) l.

Lemma resume_answers e s : exists s', resumeDrainingHandoffs e s = (Ok tt, s').
Proof.
  assert (forall l s, exists s', resume_pending l e s = (Ok tt, s')) as Hp.
  { induction l as [|[i c] l IH]; intros s0; simpl; [by exists s0|].
    unfold mbind at 1, M_bind at 1. destruct (lc_worker c) as [w|]; [|apply IH].
    unfold logged, mbind, M_bind, try. destruct (send _ _ _ _ e s0). apply IH. }
  assert (forall l s, exists s', resume_workers l e s = (Ok tt, s')) as Hw.
  { induction l as [|w l IH]; intros s0; simpl; [by exists s0|].
    unfold mbind at 1, M_bind at 1, try. destruct (on_pg _ e s0) as [[p|x] s1]; unfold mbind, M_bind; [|apply IH].
    destruct (Hp p s1) as [s2 ->]. apply IH. }
  unfold resumeDrainingHandoffs, mbind, M_bind, try. destruct (on_pg _ e s) as [[l|x] s1]; [apply Hw|by exists s1].
Qed.

(** A new leader forgets what was debounced, not what cools down. *)
Lemma become_run e s : (tick s <= tick (onBecomeLeader e s).2)%nat /\
  debounceMap (co (db (onBecomeLeader e s).2)) = ∅ /\
  unassignCooldown (co (db (onBecomeLeader e s).2)) = unassignCooldown (co (db s)).
Proof.
  assert (tame cleanupZombieChannels /\ tame resumeDrainingHandoffs) as [H1 H2].
  { split; [unfold cleanupZombieChannels, reconcileDeadWorkerChannels; tame_solve|].
    assert (forall l, tame (resume_pending l)) as Hp
      by (induction l as [|[i c] l IH]; simpl; tame_solve).
    assert (forall l, tame (resume_workers l)) as Hw
      by (induction l as [|w l IH]; simpl; tame_solve).
    unfold resumeDrainingHandoffs. tame_solve. }
  assert (exists s1, cleanupZombieChannels e s = (Ok tt, s1)) as [s1 Es1].
  { unfold cleanupZombieChannels, reconcileDeadWorkerChannels, mbind, M_bind, try.
    destruct (on_pg _ e s) as [r s1]. by exists s1. }
  destruct (resume_answers e s1) as [s2 Es2].
  destruct (H1 e s) as [T1 E1], (H2 e s1) as [T2 E2]. rewrite Es1 in T1, E1. rewrite Es2 in T2, E2.
  apply (f_equal snd) in E1, E2. cbn in T1, E1, T2, E2.
  unfold onBecomeLeader, mbind, M_bind. rewrite Es1, Es2. cbn. split; [lia|]. split; [done|congruence].
Qed.
Lemma tame_lose : tame onLoseLeadership.
Proof. unfold onLoseLeadership. tame_solve. Qed.

Section Time.
Context (e : env).
Hypothesis wall_mono : forall n m, (n <= m)%nat -> wall e n <= wall e m.

Lemma event_forward x s : (tick s <= tick (handleEvent x e s).2)%nat.
Proof.
  unfold handleEvent. destruct (ce_Type x); try done.
  - rewrite unassign_run. cbv zeta. destruct (recent _ _ _ _); [simpl; lia|].
    match goal with |- context [?m e ?w] => assert (tame m) as F by tame_solve; pose proof (proj1 (F e w)) as G end.
    simpl in G. simpl. lia.
  - rewrite ws_split. unfold mbind, M_bind. rewrite debounce_run. cbv zeta.
    destruct (recent _ _ _ _); pose proof (tame_ws_rest x) as F.
    + specialize (F true e (bump s)) as [F _]. simpl in *. lia.
    + match goal with |- context [ws_rest x false e ?w] => specialize (F false e w) as [F _] end. simpl in *. lia.
Qed.

Lemma act_forward a s : (tick s <= tick (act a e s).2)%nat.
Proof. destruct a; [apply event_forward|apply tame_health|apply tame_assignment|apply tame_cleanup
  |apply become_run|apply tame_lose]. Qed.
Lemma acts_forward l s : (tick s <= tick (acts l e s))%nat.
Proof.
  revert s. induction l as [|a l IH]; intros s; [done|]. cbn [acts fold_left].
  pose proof (act_forward a s). specialize (IH (act a e s).2). unfold acts in IH. lia.
Qed.

Lemma event_stamped x k t u s : stamped k t u s ->
  (forall v, t = Some v -> wall e (tick (handleEvent x e s).2) < v + wsClosedDebounceTTL) ->
  (forall v, u = Some v -> wall e (tick (handleEvent x e s).2) < v + unassignCooldownTTL) ->
  stamped k t u (handleEvent x e s).2.
Proof.
  intros S Ht Hu. unfold handleEvent in *. destruct (ce_Type x); try done.
  - rewrite unassign_run in *. cbv zeta in *. destruct (recent _ _ _ _) eqn:Er; [done|].
    match type of Hu with context [?m e ?w] => assert (tame m) as F by tame_solve; pose proof (proj1 (F e w)) as G end.
    apply stamped_tame; [exact F|]. cbn [tick] in G. destruct S as [S1 S2]. split; cbn [db co set_cooldown debounceMap unassignCooldown]; [done|].
    intros v ->. specialize (S2 v eq_refl). specialize (Hu v eq_refl).
    pose proof (wall_mono _ _ G). pose proof (wall_mono (tick s) (S (S (S (tick s)))) ltac:(lia)).
    pose proof (wall_mono (S (S (tick s))) (S (S (S (tick s)))) ltac:(lia)).
    destruct (decide (k = key_of_event x)) as [->|Hk].
    + rewrite (recent_true _ _ v) in Er; [done|done|]. apply sub_below; [lia|done].
    + apply stamp_other; [done|done|]. apply Z.lt_le_incl, sub_below; [lia|done].
  - rewrite ws_split in *. unfold mbind, M_bind in *. rewrite debounce_run in *. cbv zeta in *.
    destruct (recent _ _ _ _) eqn:Er.
    { apply stamped_tame; [apply tame_ws_rest|done]. }
    apply stamped_tame; [apply tame_ws_rest|].
    match type of Ht with context [ws_rest x false e ?w] => pose proof (proj1 (tame_ws_rest x false e w)) as G end.
    cbn [tick] in G. destruct S as [S1 S2]. split; cbn [db co set_debounce debounceMap unassignCooldown]; [|done].
    intros v ->. specialize (S1 v eq_refl). specialize (Ht v eq_refl).
    pose proof (wall_mono _ _ G). pose proof (wall_mono (tick s) (S (tick s)) ltac:(lia)).
    destruct (decide (k = key_of_event x)) as [->|Hk].
    + rewrite (recent_true _ _ v) in Er; [done|done|]. apply sub_below; [lia|done].
    + apply stamp_other; [done|done|]. apply Z.lt_le_incl, sub_below; [lia|done].
Qed.

Lemma acts_stamped l k t u s : stamped k t u s -> (t = None \/ same_term l = true) ->
  (forall v, t = Some v -> wall e (tick (acts l e s)) < v + wsClosedDebounceTTL) ->
  (forall v, u = Some v -> wall e (tick (acts l e s)) < v + unassignCooldownTTL) ->
  stamped k t u (acts l e s).
Proof.
  revert s. induction l as [|a l IH]; intros s S Hl Ht Hu; [done|]. cbn [acts fold_left] in *.
  fold (acts l e (act a e s).2) in *. pose proof (wall_mono _ _ (acts_forward l (act a e s).2)).
  apply IH; [| |done..].
  2:{ destruct Hl as [?|Hl]; [by left|right]. unfold same_term in *. cbn in Hl. by apply andb_true_iff in Hl as [_ ?]. }
  destruct a as [x| | | | |]; cbn [act] in *.
  - apply event_stamped; [done|..]; intros v Hv; [specialize (Ht v Hv)|specialize (Hu v Hv)]; lia.
  - apply stamped_tame; [apply tame_health|done].
  - apply stamped_tame; [apply tame_assignment|done].
  - apply stamped_tame; [apply tame_cleanup|done].
  - destruct Hl as [->|?]; [|done]. destruct (become_run e s) as (_ & _ & E), S as [_ S].
    split; [done|]. intros v Hv. rewrite E. auto.
  - apply stamped_tame; [apply tame_lose|done].
Qed.
End Time.
