(* ===== verification/CoordProps.v ===== *)
(** The properties of the coordinator, and before them what the cleanup of
    chat streams deletes. *)
From S2P Require Import Prelude GoLib Json Tx Model Db.
From S2P Require Import Ownership Channels ChannelsInv Redis LeaseInv Coordinator.
From S2P Require Import AssignRun HealthRun.
From Stdlib Require Import SpecFloat.

(** [d'] is [d] without some of the keys [P] allows. *)
Definition pruned (P : string -> Prop) (d d' : redis) : Prop :=
  forall k, keys d' !! k = keys d !! k \/ (keys d' !! k = None /\ P k).

Lemma pruned_refl P d : pruned P d d.
Proof. intros k. by left. Qed.
Lemma pruned_trans (P Q : string -> Prop) d1 d2 d3 : pruned P d1 d2 -> pruned Q d2 d3 ->
  pruned (fun k => P k \/ Q k) d1 d3.
Proof.
  intros H1 H2 k. destruct (H2 k) as [E|[E ?]]; [|right; auto]. rewrite E.
  destruct (H1 k) as [E1|[E1 ?]]; [by left|right; auto].
Qed.
Lemma pruned_mono (P Q : string -> Prop) d d' : (forall k, P k -> Q k) -> pruned P d d' -> pruned Q d d'.
Proof. intros H H1 k. destruct (H1 k) as [?|[? ?]]; [by left|right; auto]. Qed.

Lemma unlink_pruned ks t d : pruned (fun k => k ∈ ks) d (cmd_unlink ks t d).2.
Proof.
  unfold cmd_unlink. generalize (Ok 0 : result Z). revert d. induction ks as [|x ks IH]; intros d n.
  { apply pruned_refl. }
  cbn [fold_left]. eapply pruned_mono; [|eapply (pruned_trans (fun k => k = x)); [|apply IH]].
  { intros k [->|H]; set_solver. }
  intros k. cbn [set_keys keys]. destruct (decide (k = x)) as [->|Hne].
  - right. by rewrite lookup_delete_eq.
  - left. by rewrite lookup_delete_ne by done.
Qed.

Lemma delete_batches_pruned n ks z e s :
  pruned (fun k => k ∈ ks) (db s) (db (delete_batches n ks z e s).2).
Proof.
  revert ks z s. induction n as [|n IH]; intros ks z s; [by destruct ks; apply pruned_refl|].
  destruct ks as [|k0 ks0]; [apply pruned_refl|]. cbn [delete_batches]. set (ks := k0 :: ks0).
  unfold mbind, M_bind. destruct (eval_ _ e s) as [r s1] eqn:E.
  assert (pruned (fun k => k ∈ take batchSize ks) (db s) (db s1)) as H1.
  { apply eval_cases in E as [(x & _ & -> & _)|(_ & -> & _)]; [apply pruned_refl|apply unlink_pruned]. }
  destruct r as [m|x].
  - eapply pruned_mono; [|eapply pruned_trans; [exact H1|apply IH]].
    intros k [H|H]; [exact (subseteq_take _ _ _ H)|exact (subseteq_drop _ _ _ H)].
  - eapply pruned_mono; [|exact H1]. intros k H. exact (subseteq_take _ _ _ H).
Qed.

(** A stream by its name and its value. *)
Definition chat_stream (t : Z) (d : redis) (k : string) : Prop :=
  chat_glob k = true /\ exists l last x, peek t k d = Some (RStream l last, x).

Lemma scan_loop_run sc n c acc e s r s' :
  (forall t c d k, k ∈ (sc t c d).1 -> chat_stream t d k) ->
  scan_loop sc n c acc e s = (r, s') ->
  db s' = db s /\ forall l, r = Ok l -> forall k, k ∈ l -> k ∈ acc \/ exists t, chat_stream t (db s) k.
Proof.
  intros Hsc. revert c acc s. induction n as [|n IH]; intros c acc s H; cbn [scan_loop] in H.
  { by injection H as <- <-. }
  apply bind_inv in H as [(b & s1 & H1 & H)|(x & H1 & ->)]; apply eval_cases in H1; cbn [fst snd] in H1.
  - destruct H1 as [(? & ? & _)|(_ & Hd & [[= ->]|[? ?]])]; [done| |done].
    set (t := at_ms e (tick s)) in *.
    assert (forall k, k ∈ acc ++ (sc t c (db s)).1 -> k ∈ acc \/ exists t, chat_stream t (db s) k) as Hk.
    { intros k [?|Hk]%elem_of_app; [by left|]. right. exists t. by eapply Hsc. }
    destruct (_ =? 0).
    + injection H as <- <-. split; [done|]. by intros l [= <-].
    + apply IH in H as [H2 H3]. split; [congruence|]. intros l -> k Hl.
      destruct (H3 l eq_refl k Hl) as [?|?]; [auto|]. rewrite Hd in *. auto.
  - destruct H1 as [(? & _ & Hd & _)|(_ & Hd & _)]; by split.
Qed.

Lemma delete_streams_run ks e s r s' : on_redis (DeleteChatStreams ks) e s = (r, s') ->
  pg (db s') = pg (db s) /\ co (db s') = co (db s) /\ pruned (fun k => k ∈ ks) (rd (db s)) (rd (db s')).
Proof.
  intros H. apply on_redis_run in H as (w & H & ->). split_and!; [done..|].
  unfold DeleteChatStreams in H. pose proof (delete_batches_pruned (length ks) ks 0 e (rd_world s)) as P.
  by rewrite H in P.
Qed.

(** What may be deleted: the stream of a channel that ended long ago, or a
    chat stream no channel of the database has. *)
Definition old_stream (cutoff : Z) (d : database) (k : string) : Prop :=
  exists id r t, live d !! id = Some r /\ is_ended r = true /\ lc_ended_at r = Some t /\ t < cutoff /\
    k = ChatStreamKey (lc_platform r) (lc_channel r).
Definition orphan (d : database) (r : redis) (k : string) : Prop :=
  (exists t, chat_stream t r k) /\
  forall id row, live d !! id = Some row -> ChatStreamKey (lc_platform row) (lc_channel row) <> k.

Lemma ended_before_run cutoff limit e s l s' : ListEndedChannelsBefore cutoff limit e s = (Ok l, s') ->
  forall k, k ∈ map key_of l -> old_stream cutoff (db s) k.
Proof.
  unfold ListEndedChannelsBefore. intros H. inv_run H. unfold sql_limit in *.
  destruct (limit <? 0); [done|]. simplify_eq. intros k Hk.
  apply list_elem_of_In, in_map_iff in Hk as ([id r] & <- & Hin). apply list_elem_of_In in Hin. apply (subseteq_take _ _ _) in Hin.
  rewrite merge_sort_Permutation in Hin. apply list_elem_of_In, filter_In in Hin as [H1 H2].
  apply list_elem_of_In, elem_of_map_to_list in H1. apply andb_true_iff in H2 as [H2 H3].
  destruct (lc_ended_at r) as [t|] eqn:Et; [|done]. b2p. exists id, r, t. auto.
Qed.

Lemma cleanup_ended_run e s s' r : cleanup_ended e s = (r, s') ->
  r = Ok tt /\ pg (db s') = pg (db s) /\ co (db s') = co (db s) /\
  pruned (old_stream (wall e (tick s) - hour) (pg (db s))) (rd (db s)) (rd (db s')).
Proof.
  unfold cleanup_ended, mbind, M_bind, time_now, try.
  destruct (on_pg _ e (bump s)) as [r1 s1] eqn:E1.
  pose proof (on_pg_quiet (ListEndedChannelsBefore (wall e (tick s) - hour) 5000) e _ _ _
    ltac:(unfold ListEndedChannelsBefore; frame_solve) E1) as Hd. cbn [db bump] in Hd.
  assert (forall r' s2, (Ok tt, s1) = (r', s2) -> r' = Ok tt /\ pg (db s2) = pg (db s) /\ co (db s2) = co (db s) /\
    pruned (old_stream (wall e (tick s) - hour) (pg (db s))) (rd (db s)) (rd (db s2))) as Hskip.
  { intros r' s2 [= <- <-]. rewrite Hd. split_and!; try done. apply pruned_refl. }
  destruct r1 as [[|c l]|x]; [by apply Hskip| |by apply Hskip].
  destruct (on_redis _ e s1) as [r2 s2] eqn:E2. intros [= <- <-].
  apply delete_streams_run in E2 as (-> & -> & P). rewrite Hd in P. rewrite Hd. split_and!; try done.
  apply on_pg_run in E1 as (w & E1 & _). eapply pruned_mono; [|exact P].
  by eapply (ended_before_run _ _ _ _ _ _ E1).
Qed.

Lemma cleanup_orphans_run sc n e s r s' :
  (forall t c d k, k ∈ (sc t c d).1 -> chat_stream t d k) ->
  cleanup_orphans sc n e s = (r, s') ->
  r = Ok tt /\ pg (db s') = pg (db s) /\ co (db s') = co (db s) /\
  pruned (orphan (pg (db s)) (rd (db s))) (rd (db s)) (rd (db s')).
Proof.
  intros Hsc. unfold cleanup_orphans, mbind, M_bind, try.
  destruct (on_redis _ e s) as [r1 s1] eqn:E1. apply on_redis_run in E1 as (w & E1 & ->).
  unfold ScanChatStreamKeys in E1. apply scan_loop_run in E1 as [Hw Hk]; [|done]. cbn [rd_world db] in Hw, Hk.
  set (s1 := World _ _ _). assert (db s1 = db s) as Hd by (subst s1; cbn [db]; rewrite Hw; by destruct (db s)).
  assert (forall r' s2 s3, (Ok tt, s3) = (r', s2) -> db s3 = db s -> r' = Ok tt /\ pg (db s2) = pg (db s) /\
    co (db s2) = co (db s) /\ pruned (orphan (pg (db s)) (rd (db s))) (rd (db s)) (rd (db s2))) as Hskip.
  { intros r' s2 s3 [= <- <-] ->. split_and!; try done. apply pruned_refl. }
  destruct r1 as [[|k0 ks]|x]; [intros H; by eapply Hskip| |intros H; by eapply Hskip].
  specialize (Hk _ eq_refl). set (found := k0 :: ks) in *.
  destruct (on_pg _ e s1) as [r2 s2] eqn:E2.
  pose proof (on_pg_quiet ListAllKnownChannelKeys e _ _ _ ltac:(unfold ListAllKnownChannelKeys; frame_solve) E2) as Hd2.
  rewrite Hd in Hd2. destruct r2 as [known|x]; [|intros H; by eapply Hskip].
  set (orphans := List.filter _ found).
  assert (forall k, k ∈ orphans -> orphan (pg (db s)) (rd (db s)) k) as Ho.
  { intros k [H1 H2]%list_elem_of_In%filter_In. apply list_elem_of_In in H1.
    destruct (Hk k H1) as [?%elem_of_nil|Hs]; [done|]. split; [done|]. intros id row Hr Heq.
    apply negb_true_iff, not_true_iff_false in H2. apply H2, existsb_exists. exists k.
    split; [|apply String.eqb_refl]. apply on_pg_run in E2 as (w2 & E2 & _).
    unfold ListAllKnownChannelKeys in E2. apply pool_query_ok in E2 as (_ & [= <-] & _).
    apply in_map_iff. exists (id, row). split; [done|]. apply list_elem_of_In, elem_of_map_to_list.
    change (live (pg (db s1)) !! id = Some row). by rewrite Hd. }
  destruct orphans as [|o os]; [intros H; by eapply Hskip|].
  destruct (on_redis _ e s2) as [r3 s3] eqn:E3. intros [= <- <-].
  apply delete_streams_run in E3 as (-> & -> & P). rewrite Hd2 in P. rewrite Hd2. split_and!; [done..|].
  eapply pruned_mono; [exact Ho|exact P].
Qed.

(** C24: assigning goes through the pending channels (the first batch of
    those unassigned and collectable, most viewers first) in that order: each
    is given to a worker that is below the threshold and than which none below
    it is less loaded, counting the assignments made before, and its row
    becomes live with that worker; it is passed over only when the call that
    assigns it fails, and the rest are left only when no worker qualifies.
    Nothing else in the database changes; a row of a channel passed over
    changes only where the reply to its assignment is lost, so that without
    lost replies the rows changed are exactly those of the channels counted. *)
Theorem assignment_correct scope batch threshold order ws e s n ws' s' :
  (forall n l, order n l ≡ₚ l) ->
  AssignPending scope batch threshold order ws e s = (Ok (n, ws'), s') ->
  let pending := pending_channels scope batch (pg (db s)) in
  exists given, n = Z.of_nat (length given) /\ n <= Z.max 0 batch /\
    assigns scope threshold e (tick s) (tick s') pending ws (pg (db s)) given ws' (pg (db s')) /\
    ws' = given_loads given ws /\ well_given threshold given ws /\
    sublist given.*1 pending.*1 /\ NoDup given.*1 /\
    (forall id, id ∈ given.*1 -> exists r, live (pg (db s)) !! id = Some r /\ is_pending r = true /\
       lc_worker r = None /\ collectable scope (pg (db s)) r = true) /\
    (answered e -> pg (db s') = set_live (given_live given) (pg (db s))) /\ co (db s') = co (db s).
Proof.
  intros Hp H pending. unfold AssignPending in H.
  assert (exists given, n = Z.of_nat (length given) /\ co (db s') = co (db s) /\
    assigns scope threshold e (tick s) (tick s') pending ws (pg (db s)) given ws' (pg (db s')))
    as (given & -> & Hco & Ha).
  { destruct (decide (ws = ∅)) as [->|_].
    { injection H as <- <- <-. exists []. split_and!; [done..|]. apply assigns_full.
      left. split; [done|]. intros [i x] Hx.
      by apply elem_of_map_to_list in Hx. }
    apply bind_ok in H as (l & s1 & H1 & H). apply on_pg_run in H1 as (w & H1 & ->).
    apply ListPending_run in H1 as (-> & _ & ->). cbn [pg_world db bump] in *.
    apply (assign_loop_run scope threshold order Hp) in H as (_ & Hco & given & ws1 & [= -> ->] & Ha).
    cbn [db pg co tick] in *. exists given. split_and!; [done..|]. eapply assigns_earlier; [|exact Ha]. cbn. lia. }
  destruct (assigns_given_all _ _ _ _ _ _ _ _ _ _ _ Ha) as (Hs & Hw & -> & Hd).
  destruct (pending_channels_rows scope batch (pg (db s))) as [Hnd Hin]. fold pending in Hnd, Hin.
  exists given. split_and!; try done.
  - pose proof (sublist_length _ _ Hs) as Hle. rewrite !length_fmap in Hle.
    subst pending. unfold pending_channels in Hle. rewrite length_take in Hle. lia.
  - by eapply sublist_NoDup.
  - intros id Hid. assert (id ∈ pending.*1) as Hx by (by eapply sublist_subseteq).
    apply list_elem_of_fmap in Hx as ([i r] & -> & Hir). exists r. by apply Hin.
Qed.

Lemma sublist_map_ {A B} (f : A -> B) (l k : list A) : sublist l k -> sublist (f <$> l) (f <$> k).
Proof. induction 1; simpl; by constructor. Qed.
Lemma fst_map {A B C} (f : A -> B * C) (l : list A) : (map f l).*1 = map (fun x => (f x).1) l.
Proof. induction l as [|x l IH]; simpl; [done|by f_equal]. Qed.

(** C25: draining moves some of the live channels whose worker is draining
    and that no handoff holds, each at most once and at most a batch, to
    least loaded workers: such a channel's row names the new worker and a
    pending handoff from the draining one. In a single-channel deployment
    nothing is moved. Without lost replies the moves in the database are
    exactly those counted; a lost reply leaves such a move uncounted. *)
Theorem draining_correct scope batch threshold order ws e s n ws' s' :
  (forall n l, order n l ≡ₚ l) ->
  ReassignDrainingChannels scope batch threshold order ws e s = (Ok (n, ws'), s') ->
  exists moves all, n = Z.of_nat (length moves) /\ (moves <> [] -> n <= batch) /\
    ws' = given_loads (map target moves) ws /\ well_given threshold (map target moves) ws /\
    sublist moves all /\ (answered e -> all = moves) /\
    NoDup (map mv_id all) /\
    (forall v, v ∈ all -> exists r x, live (pg (db s)) !! mv_id v = Some r /\ is_live r = true /\
       lc_handoff_status r = None /\ lc_worker r = Some (mv_from v) /\
       workers (pg (db s)) !! mv_from v = Some x /\ wo_status x = WorkerStatusDraining) /\
    pg (db s') = set_live (moved_live all) (pg (db s)) /\ co (db s') = co (db s) /\
    (scope <> None -> all = []).
Proof.
  intros Hp H. unfold ReassignDrainingChannels in H.
  apply bind_ok in H as (l & s1 & H1 & H). apply on_pg_run in H1 as (w & H1 & ->).
  apply ListDraining_run in H1 as (Hnd & Hd & Hin). cbn [pg_world db] in *.
  apply (reassign_loop_run scope threshold order Hp) in H as [H Hc].
  destruct H as (moves & all & [= -> ->] & Hs & Hm & Ha & Hw & Hl & Hb & Hsc).
  exists moves, all. cbn [db pg co] in *. rewrite Hd in Hl. split_and!; try done.
  - intros Hne. by apply (Hb batch).
  - apply (sublist_map_ fst) in Hs. rewrite !fst_map in Hs. cbn [fst] in Hs.
    eapply sublist_NoDup; [|exact Hs]. replace (map _ l) with (l.*1); [done|].
    clear. induction l as [|[] l IH]; simpl; [done|by f_equal].
  - intros v Hv. assert ((mv_id v, mv_from v) ∈ map (fun '(id, ch) => (id, default EmptyString (lc_worker ch))) l) as Hx.
    { eapply sublist_subseteq; [exact Hs|]. apply list_elem_of_In, in_map_iff. exists v.
      split; [done|by apply list_elem_of_In]. }
    apply list_elem_of_In, in_map_iff in Hx as ([i r] & [= -> Hf] & Hir). apply list_elem_of_In in Hir.
    destruct (Hin _ _ Hir) as (H1 & H2 & H3 & w' & x & H4 & H5 & H6). rewrite H4 in Hf. simpl in Hf. subst w'. eauto 10.
Qed.

(** C26: a tick of the health loop in which no call fails leaves no channel
    with a worker that is dead or, other than while draining, has no
    heartbeat: every channel that still has a worker has one that is
    registered and draining, or alive with a heartbeat in Redis; and the loads
    the assignment works with are those of workers that are alive with one. *)
Theorem health_tick_reclaims e s :
  no_failures e -> live_inv (pg (db s)) ->
  exists h t s', health_tick e s = (Ok tt, s') /\ lastHealthResult (co (db s')) = Some h /\
    (forall id r w, live (pg (db s')) !! id = Some r -> lc_worker r = Some w ->
       exists x, workers (pg (db s')) !! w = Some x /\ wo_status x <> WorkerStatusDead /\
         (wo_status x = WorkerStatusAlive -> exists l, beating t (rd (db s')) w l)) /\
    (forall w l, WorkerLoads h !! w = Some l ->
       alive w (pg (db s)) = true /\ beating t (rd (db s')) w l).
Proof.
  intros Hn I. destruct (health_run e Hn s) as (h & n & s' & Hr & Hck & Hh & Hrd & Hm).
  set (d0 := set_live _ (pg (db s))) in *.
  exists h, (unix_milli (clock e n)), s'. split_and!; [done|done| |].
  - intros id r w Hl Hw. destruct (mk_live _ _ _ Hm _ _ Hl) as (r0 & H0 & [->|[-> Hd]]); [done|].
    subst d0. cbn [set_live live] in H0. apply lookup_update_where_Some in H0 as (r1 & H1 & E).
    destruct (stranded (pg (db s)) r1) eqn:Es; [by subst r0|]. subst r0.
    destruct (li_rows _ I _ _ H1) as [_ Hwk _]. destruct (Hwk _ Hw) as [Hlv Hex].
    assert (is_ended r1 = false) as He.
    { unfold is_live, is_ended in *. apply String.eqb_eq in Hlv. by rewrite Hlv. }
    assert (w ∉ DeadWorkers h) as Hnd by (intros Hin; by rewrite (Hd _ Hin Hw) in He).
    pose proof (mk_out _ _ _ Hm _ Hnd) as Ho. cbn [set_live workers] in Ho.
    destruct (workers (pg (db s)) !! w) as [x|] eqn:Ex; [|done]. exists x. split; [by rewrite Ho|]. split.
    + intros Hs. unfold stranded, dead_worker in Es. rewrite Hw, Ex, Hs, Hlv in Es. done.
    + intros Hs. rewrite Hrd. apply (ck_beats _ _ _ _ Hck). apply (ck_alive _ _ _ _ Hck); [|done].
      unfold alive. cbn [set_live workers]. by rewrite Ex, Hs.
  - intros w l Hl. rewrite Hrd. by apply (ck_loads _ _ _ _ Hck).
Qed.

(** C27: after a ws_closed event of a channel was handled, another one of the
    same channel within thirty seconds does nothing, as long as the instance
    does not become the leader in between, which forgets every such event;
    after an unassign event was, another one within ten minutes does nothing,
    through any changes of leadership. Between the two may be any other
    events, health checks, assignments, cleanups and losses of the leadership
    (and however many entries are evicted from the maps). *)
Theorem debounce_and_cooldown e s x l x' :
  (forall n m, (n <= m)%nat -> wall e n <= wall e m) -> key_of_event x' = key_of_event x ->
  (recent wsClosedDebounceTTL (key_of_event x) (wall e (tick s)) (debounceMap (co (db s))) = false ->
   same_term l = true ->
   let s' := acts l e (handleWSClosed x e s).2 in
   wall e (tick s') < wall e (tick s) + wsClosedDebounceTTL ->
   handleWSClosed x' e s' = (Ok tt, bump s')) /\
  debounceMap (co (db (act Elected e s).2)) = ∅ /\
  (recent unassignCooldownTTL (key_of_event x) (wall e (tick s)) (unassignCooldown (co (db s))) = false ->
   wall e (S (S (tick s))) <= wall e (S (tick s)) + unassignCooldownTTL ->
   let s' := acts l e (handleUnassign x e s).2 in
   wall e (tick s') < wall e (S (tick s)) + unassignCooldownTTL ->
   handleUnassign x' e s' = (Ok tt, bump s')).
Proof.
  intros Hm Hk. split_and!; [|apply become_run|].
  - intros Hr Hl s' Hs'. set (s1 := (handleWSClosed x e s).2) in *.
    assert (stamped (key_of_event x) (Some (wall e (tick s))) None s1) as S1.
    { subst s1. rewrite ws_split. unfold mbind, M_bind. rewrite debounce_run. cbv zeta. rewrite Hr.
      apply stamped_tame; [apply tame_ws_rest|]. split; [|done]. intros v [= <-].
      cbn [db co set_debounce debounceMap]. apply stamp_same. unfold time_sub, wsClosedDebounceTTL, second. lia. }
    apply (acts_stamped e Hm l) in S1; [|by right|by intros v [= <-]|done].
    rewrite ws_split. unfold mbind, M_bind. rewrite debounce_run. cbv zeta. rewrite Hk.
    erewrite recent_true; [done|by apply S1|]. apply sub_below; done.
  - intros Hr Hw s' Hs'. set (s1 := (handleUnassign x e s).2) in *.
    assert (stamped (key_of_event x) None (Some (wall e (S (tick s)))) s1) as S1.
    { subst s1. rewrite unassign_run. cbv zeta. rewrite Hr.
      apply stamped_tame; [tame_solve; apply tame_send|]. split; [done|]. intros v [= <-].
      cbn [db co set_cooldown unassignCooldown]. apply stamp_same.
      unfold time_sub, unassignCooldownTTL, minute, second in *. lia. }
    apply (acts_stamped e Hm l) in S1; [|by left|done|by intros v [= <-]].
    rewrite unassign_run. cbv zeta. rewrite Hk.
    erewrite recent_true; [done|by apply S1|]. apply sub_below; done.
Qed.

(** C28: a cleanup deletes from Redis nothing but the streams of channels
    that ended more than an hour before it began and chat streams of which
    the database knows no channel; every other key (leases, heartbeats,
    streams of live, pending and recently ended channels) keeps its value,
    and the database is not touched. *)
Theorem cleanup_spares scan fuel e s r s' :
  (forall t c d k, k ∈ (scan t c d).1 -> chat_stream t d k) ->
  runStreamCleanup scan fuel e s = (r, s') ->
  r = Ok tt /\ pg (db s') = pg (db s) /\ co (db s') = co (db s) /\
  forall k, keys (rd (db s')) !! k = keys (rd (db s)) !! k \/
    keys (rd (db s')) !! k = None /\
    (old_stream (wall e (tick s) - hour) (pg (db s)) k \/ orphan (pg (db s)) (rd (db s)) k).
Proof.
  intros Hsc H. unfold runStreamCleanup in H. apply bind_inv in H as [(u & s1 & H1 & H)|(x & H1 & _)].
  2: { by apply cleanup_ended_run in H1 as [? _]. }
  apply cleanup_ended_run in H1 as (_ & Hp1 & Hc1 & P1).
  apply cleanup_orphans_run in H as (-> & Hp & Hc & P); [|done]. rewrite Hp, Hc, Hp1, Hc1.
  split_and!; try done. intros k. destruct (P k) as [E|[E Ho]].
  - rewrite E. destruct (P1 k) as [?|[? ?]]; auto.
  - destruct (keys (rd (db s)) !! k) as [v|] eqn:Ek; [|by left; rewrite E].
    right. split; [done|]. right. rewrite Hp1 in Ho. destruct Ho as [(t & Hg & ll & la & xx & Hs) Hn].
    split; [|done]. exists t. split; [done|]. exists ll, la, xx. unfold peek in *.
    destruct (P1 k) as [E1|[E1 _]]; rewrite E1 in Hs; [done|done].
Qed.

(** ** Runs *)

Module CoordDemo.
Definition e : env :=
  Env (fun _ => false) (fun _ => false) (fun n => 1700000000 * second + Z.of_nat n) (fun n => 1700000000 * second + Z.of_nat n)
    (fun _ => EmptyString).
Definition row (c status : string) (w : option string) (ended : option Z) : live_row :=
  LiveRow "chzzk" c "streamer" 100 status w 0 0 ended None None None.
Definition database0 : database :=
  set_workers (fun _ => <["w1" := WorkerRow WorkerStatusAlive 10 0 0]> (<["w2" := WorkerRow WorkerStatusAlive 10 0 0]>
    (<["w3" := WorkerRow WorkerStatusDraining 10 0 0]> (<["w4" := WorkerRow WorkerStatusAlive 10 0 0]> ∅))))
  (set_live (fun _ => <[1 := row "c1" ChannelStatusPending None None]> (<[2 := row "c2" ChannelStatusLive (Some "w3") None]>
    (<[3 := row "c3" ChannelStatusLive (Some "w4") None]>
      (<[4 := row "c4" ChannelStatusEnded None (Some 1000)]> ∅))))
  (set_live_seq 9 empty_db)).
Definition load (w : string) (n : Z) : WorkerLoad := MkLoad w n fzero 10 fzero.
Definition beat (w : string) (n : Z) : rvalue * option Z := (RLoad (load w n), Some 1700000009000).
Definition redis0 : redis :=
  Redis (<["worker:heartbeat:w1" := beat "w1" 6]> (<["worker:heartbeat:w2" := beat "w2" 5]>
    (<["chat:chzzk:c4" := (RStream [] (1, 0), None)]> (<["chat:chzzk:gone" := (RStream [] (1, 0), None)]>
      (<["chat:chzzk:c2" := (RStream [] (1, 0), None)]> ∅))))) [].
Definition world0 : world sys :=
  let s := Sys database0 redis0 NewCoordinator in World s s 0.
Definition in_order (_ : nat) (l : list (string * WorkerLoad)) := l.
Definition loads0 : loads := <["w1" := load "w1" 6]> (<["w2" := load "w2" 5]> ∅).
Notation thr := (threshold_of fzero).

Lemma in_order_perm n l : in_order n l ≡ₚ l.
Proof. done. Qed.
Lemma never_fails : no_failures e.
Proof. done. Qed.
Lemma wall_mono n m : (n <= m)%nat -> wall e n <= wall e m.
Proof. simpl. lia. Qed.

Lemma assignment_correct_witness :
  exists given ws' s', AssignPending None 5 thr in_order loads0 e world0 = (Ok (1, ws'), s') /\
    1 = Z.of_nat (length given) /\ well_given thr given loads0 /\
    pg (db s') = set_live (given_live given) (pg (db world0)).
Proof.
  assert (fst <$> (match fst (AssignPending None 5 thr in_order loads0 e world0) with Ok x => Some x | Err _ => None end) = Some 1) as Hok
    by (vm_compute; reflexivity).
  destruct (AssignPending None 5 thr in_order loads0 e world0) as [[[n ws']|] s'] eqn:E; [|done].
  simpl in Hok. injection Hok as ->.
  destruct (assignment_correct None 5 thr in_order loads0 e world0 1 ws' s' in_order_perm E)
    as (given & H1 & _ & _ & _ & H2 & _ & _ & _ & H3 & _).
  exists given, ws', s'. split; [reflexivity|]. split; [exact H1|]. split; [exact H2|].
  apply H3. intros k Hk. discriminate Hk.
Defined.

Lemma draining_correct_witness :
  exists moves ws' s', ReassignDrainingChannels None 5 thr in_order loads0 e world0 = (Ok (1, ws'), s') /\
    1 = Z.of_nat (length moves) /\ well_given thr (map target moves) loads0 /\
    pg (db s') = set_live (moved_live moves) (pg (db world0)).
Proof.
  assert (fst <$> (match fst (ReassignDrainingChannels None 5 thr in_order loads0 e world0) with Ok x => Some x | Err _ => None end) = Some 1) as Hok
    by (vm_compute; reflexivity).
  destruct (ReassignDrainingChannels None 5 thr in_order loads0 e world0) as [[[n ws']|] s'] eqn:E; [|done].
  simpl in Hok. injection Hok as ->.
  destruct (draining_correct None 5 thr in_order loads0 e world0 1 ws' s' in_order_perm E)
    as (moves & all & H1 & _ & _ & H2 & _ & Ha & _ & _ & H3 & _).
  rewrite Ha in H3 by (intros k Hk; discriminate Hk).
  exists moves, ws', s'. split; [reflexivity|]. split; [exact H1|]. split; [exact H2|exact H3].
Defined.

Ltac each_row := repeat match goal with
  | H : <[_ := _]> _ !! _ = Some _ |- _ => apply lookup_insert_Some in H as [[<- <-]|[_ H]]
  end; try done.
Lemma database0_inv : live_inv database0.
Proof.
  unfold database0. split; cbn [set_workers set_live set_live_seq live live_seq].
  - intros i j r1 r2 H1 H2 _ Hc. each_row.
  - intros i r H. each_row.
  - intros i r H. each_row; (split; [reflexivity| |done]); intros w [=]; subst;
      (split; [reflexivity|by vm_compute]).
Qed.

Lemma health_tick_reclaims_witness :
  exists h s', health_tick e world0 = (Ok tt, s') /\ lastHealthResult (co (db s')) = Some h /\
    forall r, live (pg (db s')) !! 3 = Some r -> lc_worker r <> Some "w4".
Proof.
  destruct (health_tick_reclaims e world0 never_fails database0_inv) as (h & t & s' & H1 & H2 & H3 & _).
  exists h, s'. split; [exact H1|]. split; [exact H2|]. intros r Hr Hw.
  destruct (H3 3 r "w4" Hr Hw) as (x & Hx & Hd & _). apply Hd.
  assert (wo_status <$> (workers (pg (db (health_tick e world0).2)) !! "w4") = Some WorkerStatusDead) as Hv
    by (vm_compute; reflexivity).
  rewrite H1 in Hv. cbn [snd] in Hv. rewrite Hx in Hv. by injection Hv.
Defined.

Definition closed : CoordEvent := MkCoordEvent CoordEventWSClosed "chzzk" "c2" "w1".
Definition failed : CoordEvent := MkCoordEvent CoordEventUnassign "chzzk" "c2" "w3".
Lemma debounce_and_cooldown_witness :
  (let s' := acts [Health; Event failed; Deposed] e (handleWSClosed closed e world0).2 in
   handleWSClosed closed e s' = (Ok tt, bump s')) /\
  (let s' := acts [Health; Deposed; Elected; Event closed] e (handleUnassign failed e world0).2 in
   handleUnassign failed e s' = (Ok tt, bump s')).
Proof.
  split.
  - apply (proj1 (debounce_and_cooldown e world0 closed [Health; Event failed; Deposed] closed wall_mono eq_refl)).
    + reflexivity.
    + reflexivity.
    + vm_compute. reflexivity.
  - apply (proj2 (proj2 (debounce_and_cooldown e world0 failed [Health; Deposed; Elected; Event closed] failed wall_mono eq_refl))).
    + reflexivity.
    + vm_compute. discriminate.
    + vm_compute. reflexivity.
Defined.

(** A [SCAN] that returns everything in one batch. *)
Definition is_chat_stream (t : Z) (d : redis) (k : string) : bool :=
  chat_glob k && match peek t k d with Some (RStream _ _, _) => true | _ => false end.
Definition scan_all (t _ : Z) (d : redis) : list string * Z :=
  (List.filter (is_chat_stream t d) (map_to_list (keys d)).*1, 0).
Lemma scan_all_law t c d k : k ∈ (scan_all t c d).1 -> chat_stream t d k.
Proof.
  intros [_ H]%list_elem_of_In%filter_In. apply andb_true_iff in H as [H1 H2]. split; [done|].
  destruct (peek t k d) as [[[?|?|l i] x]|]; eauto; done.
Qed.
Lemma cleanup_spares_witness :
  exists s', runStreamCleanup scan_all 3 e world0 = (Ok tt, s') /\
    keys (rd (db s')) !! "chat:chzzk:gone" = None /\
    keys (rd (db s')) !! "chat:chzzk:c2" = Some (RStream [] (1, 0), None).
Proof.
  destruct (runStreamCleanup scan_all 3 e world0) as [r s'] eqn:E.
  destruct (cleanup_spares scan_all 3 e world0 r s' scan_all_law E) as (-> & _ & _ & H).
  exists s'. split; [done|].
  assert (keys (rd (db (runStreamCleanup scan_all 3 e world0).2)) !! "chat:chzzk:gone" = None) as Hg
    by (vm_compute; reflexivity).
  rewrite E in Hg. split; [exact Hg|]. destruct (H "chat:chzzk:c2") as [->|[_ [Ho|[_ Ho]]]].
  - reflexivity.
  - exfalso. destruct Ho as (id & r & t & Hr & He & _ & _ & Hk). unfold world0, database0 in Hr.
    cbn [db pg set_workers set_live live] in Hr.
    each_row.
  - exfalso. by apply (Ho 2 (row "c2" ChannelStatusLive (Some "w3") None)).
Defined.
End CoordDemo.
