(* ===== verification/OptOut.v ===== *)
(** Collection opt-outs (src/shared/store/collection_opt_out.go): batches of
    requests, revocation, the administration's lists, ending the live channel
    of an opt-out, and the cache the discover service filters with. The schema
    is the migrated one, so the fallbacks for a missing table are left out. *)
From S2P Require Import Prelude GoLib Json Tx Model Db Ownership.
From S2P Require Import Channels.

(** A row with its id: [model.CollectionOptOut]. *)
Notation optout := (Z * opt_row)%type.

Record CollectionOptOutInput := MkInput {
  in_Platform : string; in_ChannelID : string; in_StreamerName : option string;
  in_RequesterEmail : option string; in_Reason : option string
}.
Record CreateCollectionOptOutBatchInput := MkBatchInput {
  bi_Title : string; bi_RequestSource : option string; bi_Reason : option string;
  bi_RequestedBy : option string; bi_CreatedBy : option string; bi_Items : list CollectionOptOutInput
}.

(** [model.CollectionOptOutBatch]: the row with its counts. *)
Record batch := MkBatch { bt_ID : Z; bt_row : batch_row; bt_ItemCount : Z; bt_ActiveCount : Z }.

Definition normalizeCollectionOptOutInput (i : CollectionOptOutInput) : CollectionOptOutInput :=
  MkInput (to_lower (trim_space (in_Platform i))) (trim_space (in_ChannelID i)) (in_StreamerName i)
    (in_RequesterEmail i) (in_Reason i).

Definition same_optout (p c : string) (r : opt_row) : bool :=
  String.eqb (oo_platform r) p && String.eqb (oo_channel r) c.

(** [COALESCE(a, b)] *)
Definition coalesce {A} (a b : option A) : option A := match a with Some _ => a | None => b end.

(** ** Creating *)

Definition insert_batch (i : CreateCollectionOptOutBatchInput) (now : Z) (d : database)
  : result (batch * database) :=
  let r := BatchRow (bi_Title i) (bi_RequestSource i) (bi_Reason i) (bi_RequestedBy i) (bi_CreatedBy i) now in
  Ok (MkBatch (batch_seq d) r 0 0, set_batches (insert (batch_seq d) r) (batch_seq d + 1) d).

(** The row of the partial unique index an insertion would collide with. *)
Definition active_row (p c : string) (d : database) : option optout :=
  find (fun '(_, r) => oo_active r && same_optout p c r) (rows (opt_outs d)).

(** The [DO UPDATE] of an upsert. *)
Definition updated_optout (b : Z) (i : CollectionOptOutInput) (createdBy : option string) (now : Z)
    (r : opt_row) : opt_row :=
  OptRow (Some b) (oo_platform r) (oo_channel r) (coalesce (in_StreamerName i) (oo_streamer r))
    (coalesce (in_RequesterEmail i) (oo_email r)) (coalesce (in_Reason i) (oo_reason r)) (oo_active r)
    createdBy (oo_created_at r) now (oo_revoked_at r) (oo_revoked_by r) (oo_revocation_reason r).

Definition upsert_optout (b : Z) (i : CollectionOptOutInput) (createdBy : option string) (now : Z)
    (d : database) : result (optout * database) :=
  let '(id, r) :=
    match active_row (in_Platform i) (in_ChannelID i) d with
    | Some (id, r) => (id, updated_optout b i createdBy now r)
    | None => (opt_seq d, OptRow (Some b) (in_Platform i) (in_ChannelID i) (in_StreamerName i)
        (in_RequesterEmail i) (in_Reason i) true createdBy now now None None None)
    end in
  Ok ((id, r), set_opt_outs (insert id r) (opt_seq d + 1) d).

Fixpoint create_items (b : Z) (createdBy : option string) (l : list CollectionOptOutInput)
    (items : list optout) : Mdb (list optout) :=
  match l with
  | [] => mret items
  | raw :: l =>
      let i := normalizeCollectionOptOutInput raw in
      guard_ok (platform_is_valid (in_Platform i)) (ErrMsg "invalid platform") ;;
      guard_ok (negb (is_empty (in_ChannelID i))) (ErrMsg "channel_id required") ;;
      out ← tx_exec (upsert_optout b i createdBy);
      create_items b createdBy l (items ++ [out])
  end.

Definition CreateCollectionOptOutBatch (i : CreateCollectionOptOutBatchInput) : Mdb (batch * list optout) :=
  guard_ok (negb (Nat.eqb (length (bi_Items i)) 0)) (ErrMsg "items required") ;;
  tx_begin ;;
  b ← tx_exec (insert_batch i);
  items ← create_items (bt_ID b) (bi_CreatedBy i) (bi_Items i) [];
  tx_commit ;;
  let n := Z.of_nat (length items) in
  mret (MkBatch (bt_ID b) (bt_row b) n n, items).

(** ** Revoking and ending *)

Definition revoked (by_ reason : option string) (now : Z) (r : opt_row) : opt_row :=
  OptRow (oo_batch r) (oo_platform r) (oo_channel r) (oo_streamer r) (oo_email r) (oo_reason r) false
    (oo_created_by r) (oo_created_at r) now (Some now) by_ reason.

Definition RevokeCollectionOptOut (p c : string) (by_ reason : option string) : Mdb Z :=
  pool_exec (fun now d =>
    let sel (_ : Z) r := oo_active r && same_optout p c r in
    Ok (Z.of_nat (count_where sel (opt_outs d)),
        set_opt_outs (update_where sel (revoked by_ reason now)) (opt_seq d) d)).

(** The worker the channel had; [None] too when there was nothing to end. *)
Definition EndCollectionOptedOutLiveChannel (p c : string) : Mdb (option string) :=
  pool_exec (fun now d =>
    let sel (_ : Z) r := same_channel p c r && negb (is_ended r) in
    let end_ (r : live_row) :=
      LiveRow (lc_platform r) (lc_channel r) (lc_streamer r) (lc_viewers r) ChannelStatusEnded None
        (lc_discovered_at r) (lc_last_seen_at r) (coalesce (lc_ended_at r) (Some now))
        (lc_handoff_from r) (lc_handoff_status r) (lc_handoff_started_at r) in
    Ok (match List.filter (fun '(i, r) => sel i r) (rows (live d)) with
        | (_, r) :: _ => lc_worker r
        | [] => None
        end, set_live (update_where sel end_) d)).

(** ** Queries *)

Definition IsCollectionOptedOut (p c : string) : Mdb bool :=
  pool_query (fun _ d => Ok (opted_out d p c)).

Definition by_channel (a b : optout) : Prop :=
  String.ltb (oo_platform a.2) (oo_platform b.2) = true \/
  oo_platform a.2 = oo_platform b.2 /\ String.le (oo_channel a.2) (oo_channel b.2).
#[export] Instance by_channel_dec a b : Decision (by_channel a b).
Proof. unfold by_channel. apply _. Defined.
Definition ListActiveCollectionOptOuts : Mdb (list optout) :=
  pool_query (fun _ d => Ok (merge_sort by_channel (List.filter (fun '(_, r) => oo_active r) (rows (opt_outs d))))).

(** SQL's [LIKE], on ASCII text: [%], [_] and the escape. *)
Fixpoint like (p : list Ascii.ascii) (s : list Ascii.ascii) : bool :=
  match p with
  | [] => match s with [] => true | _ => false end
  | c :: p' =>
      if Ascii.eqb c "%"%char then
        (fix any (s : list Ascii.ascii) := like p' s || match s with [] => false | _ :: s => any s end) s
      else if Ascii.eqb c "_"%char then match s with _ :: s => like p' s | [] => false end
      else if Ascii.eqb c "\"%char then
        match p', s with
        | x :: p'', y :: s => Ascii.eqb x y && like p'' s
        | _, _ => false
        end
      else match s with y :: s => Ascii.eqb c y && like p' s | [] => false end
  end.

Record ListCollectionOptOutsArgs := MkArgs {
  ar_Active : option bool; ar_Platform : string; ar_Query : string; ar_Limit : Z; ar_Offset : Z
}.

(** [buildCollectionOptOutWhere] as the condition it denotes. *)
Definition matches (a : ListCollectionOptOutsArgs) (r : opt_row) : bool :=
  match ar_Active a with Some b => Bool.eqb (oo_active r) b | None => true end
  && (is_empty (ar_Platform a) || String.eqb (oo_platform r) (ar_Platform a))
  && (is_empty (trim_space (ar_Query a)) ||
      let pat := String.list_ascii_of_string ("%" +:+ to_lower (trim_space (ar_Query a)) +:+ "%") in
      let hit s := like pat (String.list_ascii_of_string (to_lower s)) in
      hit (oo_channel r) || hit (default EmptyString (oo_streamer r)) || hit (default EmptyString (oo_email r))).

Definition active_first (a b : optout) : Prop :=
  let x := if oo_active a.2 then 1 else 0 in let y := if oo_active b.2 then 1 else 0 in
  y < x \/ (x = y /\ (oo_updated_at b.2 < oo_updated_at a.2 \/
                      (oo_updated_at a.2 = oo_updated_at b.2 /\ b.1 <= a.1))).
#[export] Instance active_first_dec a b : Decision (active_first a b).
Proof. unfold active_first. apply _. Defined.

Definition clamp_page (limit max default_ : Z) : Z := if (limit <=? 0) || (max <? limit) then default_ else limit.
Definition page {A} (limit offset : Z) (l : list A) : list A :=
  take (Z.to_nat limit) (drop (Z.to_nat (Z.max 0 offset)) l).

(** The total and the page: two statements. *)
Definition ListCollectionOptOuts (a : ListCollectionOptOutsArgs) : Mdb (list optout * Z) :=
  let sel '((_, r) : optout) := matches a r in
  total ← pool_query (fun _ d => Ok (Z.of_nat (length (List.filter sel (rows (opt_outs d))))));
  items ← pool_query (fun _ d => Ok (page (clamp_page (ar_Limit a) 500 100) (ar_Offset a)
    (merge_sort active_first (List.filter sel (rows (opt_outs d))))));
  mret (items, total).

Definition newest_batch (a b : batch) : Prop :=
  ba_created_at (bt_row b) < ba_created_at (bt_row a) \/
  (ba_created_at (bt_row a) = ba_created_at (bt_row b) /\ bt_ID b <= bt_ID a).
#[export] Instance newest_batch_dec a b : Decision (newest_batch a b).
Proof. unfold newest_batch. apply _. Defined.

Definition batch_counts (d : database) : Z * batch_row -> batch := fun '(id, r) =>
  let mine (_ : Z) (o : opt_row) := match oo_batch o with Some b => b =? id | None => false end in
  MkBatch id r (Z.of_nat (count_where mine (opt_outs d)))
    (Z.of_nat (count_where (fun k o => mine k o && oo_active o) (opt_outs d))).

Definition ListCollectionOptOutBatches (limit offset : Z) : Mdb (list batch * Z) :=
  total ← pool_query (fun _ d => Ok (Z.of_nat (size (batches d))));
  l ← pool_query (fun _ d => Ok (page (clamp_page limit 200 50) offset
    (merge_sort newest_batch (map (batch_counts d) (rows (batches d))))));
  mret (l, total).

(** ** The cache *)

(** [CollectionOptOutSource], what the cache refreshes from. *)
Class CollectionOptOutSource (D : Type) := source_list : M D (list optout).
#[export] Instance store_source : CollectionOptOutSource database := ListActiveCollectionOptOuts.

Definition cache : Type := gmap string (gmap string optout).

Definition index_items (l : list optout) : cache :=
  fold_left (fun (m : cache) o =>
    <[oo_platform o.2 := <[oo_channel o.2 := o]> (default ∅ (m !! oo_platform o.2))]> m) l ∅.

(** A failed refresh keeps the old items. *)
Definition Refresh {D} `{CollectionOptOutSource D} (c : cache) : M D cache :=
  items ← source_list; mret (index_items items).
Definition refresh_tick {D} `{CollectionOptOutSource D} (c : cache) : M D cache :=
  r ← try (Refresh c); mret (match r with Ok c => c | Err _ => c end).

Definition IsOptedOut (c : cache) (p ch : string) : bool :=
  match c !! p with
  | Some m => match m !! ch with Some _ => true | None => false end
  | None => false
  end.

Definition interval_of (interval : Z) : Z := if interval <=? 0 then 30 * second else interval.
