(* ===== verification/OptOutProps.v ===== *)
(** The properties of opt-outs. *)
From S2P Require Import Prelude GoLib Json Tx Model Db.
From S2P Require Import Ownership Channels ChannelsInv AssignRun OptOut.

(** ** The invariant *)

(** At most one active opt-out per channel, on normalised names. *)
Record opt_inv (d : database) : Prop := {
  oi_unique : forall i j r1 r2, opt_outs d !! i = Some r1 -> opt_outs d !! j = Some r2 ->
    oo_active r1 = true -> oo_active r2 = true -> oo_platform r1 = oo_platform r2 ->
    oo_channel r1 = oo_channel r2 -> i = j;
  oi_seq : forall i r, opt_outs d !! i = Some r -> i < opt_seq d;
  oi_rows : forall i r, opt_outs d !! i = Some r ->
    platform_is_valid (oo_platform r) = true /\ oo_channel r <> EmptyString /\
    (oo_active r = false <-> oo_revoked_at r <> None) /\
    exists b, oo_batch r = Some b /\ batches d !! b <> None
}.

Lemma same_optout_spec p c r : same_optout p c r = true <-> oo_platform r = p /\ oo_channel r = c.
Proof. unfold same_optout. by rewrite andb_true_iff, !String.eqb_eq. Qed.

Lemma active_row_Some p c d id r : active_row p c d = Some (id, r) ->
  opt_outs d !! id = Some r /\ oo_active r = true /\ oo_platform r = p /\ oo_channel r = c.
Proof.
  unfold active_row. intros H. apply find_some in H as [H1 H2]. apply andb_true_iff in H2 as [H2 H3].
  apply same_optout_spec in H3. split; [|done]. by apply elem_of_map_to_list, list_elem_of_In.
Qed.
Lemma active_row_None p c d id r : active_row p c d = None -> opt_outs d !! id = Some r ->
  oo_active r = true -> oo_platform r = p -> oo_channel r = c -> False.
Proof.
  intros H Hr Ha Hp Hc. assert ((id, r) ∈ rows (opt_outs d)) as Hin by (by apply elem_of_map_to_list).
  apply list_elem_of_In in Hin. pose proof (find_none _ _ H _ Hin) as E. simpl in E.
  rewrite Ha in E. simpl in E. rewrite (proj2 (same_optout_spec p c r) (conj Hp Hc)) in E. done.
Qed.

Lemma insert_batch_inv i now d b d' : insert_batch i now d = Ok (b, d') -> opt_inv d ->
  opt_inv d' /\ batches d' !! bt_ID b <> None /\ opt_outs d' = opt_outs d /\ live d' = live d.
Proof.
  intros [= <- <-] [I1 I2 I3]. split_and!; try done.
  - split; [done|done|]. cbn [set_batches opt_outs batches]. intros j r Hr.
    destruct (I3 _ _ Hr) as (H1 & H2 & H3 & b & H4 & H5). split_and!; try done. exists b. split; [done|].
    destruct (decide (batch_seq d = b)) as [->|?]; [by rewrite lookup_insert_eq|by rewrite lookup_insert_ne].
  - cbn [set_batches batches bt_ID]. by rewrite lookup_insert_eq.
Qed.

(** What an upsert of a valid request does. *)
Lemma upsert_optout_spec b i cb now d o d' : upsert_optout b i cb now d = Ok (o, d') -> opt_inv d ->
  platform_is_valid (in_Platform i) = true -> in_ChannelID i <> EmptyString -> batches d !! b <> None ->
  opt_inv d' /\ batches d' = batches d /\ live d' = live d /\
  opt_outs d' !! o.1 = Some o.2 /\ oo_active o.2 = true /\ oo_platform o.2 = in_Platform i /\
  oo_channel o.2 = in_ChannelID i /\ oo_batch o.2 = Some b /\
  (forall j r, opt_outs d !! j = Some r -> j <> o.1 -> opt_outs d' !! j = Some r) /\
  (forall r, opt_outs d !! o.1 = Some r -> oo_active r = true /\ oo_platform r = in_Platform i /\
     oo_channel r = in_ChannelID i) /\
  (forall j r, opt_outs d' !! j = Some r -> j <> o.1 -> opt_outs d !! j = Some r).
Proof.
  intros H [I1 I2 I3] Hp Hc Hb. unfold upsert_optout in H.
  assert (exists id r, o = (id, r) /\ d' = set_opt_outs (insert id r) (opt_seq d + 1) d /\
    oo_active r = true /\ oo_platform r = in_Platform i /\ oo_channel r = in_ChannelID i /\
    oo_batch r = Some b /\ oo_revoked_at r = None /\ id <= opt_seq d /\
    (forall r0, opt_outs d !! id = Some r0 -> oo_active r0 = true /\ oo_platform r0 = in_Platform i /\
       oo_channel r0 = in_ChannelID i) /\
    (forall j r0, opt_outs d !! j = Some r0 -> oo_active r0 = true -> oo_platform r0 = in_Platform i ->
       oo_channel r0 = in_ChannelID i -> j = id)) as (id & r & -> & -> & Ha & Hpl & Hch & Hba & Hrv & Hid & Hold & Huniq).
  { destruct (active_row _ _ d) as [[id r]|] eqn:E.
    - apply active_row_Some in E as (E1 & E2 & E3 & E4). injection H as <- <-. exists id, (updated_optout b i cb now r).
      destruct (I3 _ _ E1) as (_ & _ & H3 & _). pose proof (I2 _ _ E1). split_and!; try done; try lia.
      + simpl. destruct (oo_revoked_at r); [|done]. exfalso. assert (oo_active r = false) by (by apply H3). congruence.
      + intros r0 Hr0. by simplify_eq.
      + intros j r0 Hj Haj Hpj Hcj. eapply I1; [exact Hj|exact E1|done|done|congruence|congruence].
    - injection H as <- <-. eexists _, _. split_and!; try done; try lia.
      + intros r0 Hr0. specialize (I2 _ _ Hr0). lia.
      + intros j r0 Hj Haj Hpj Hcj. exfalso. by eapply active_row_None. }
  cbn [fst snd]. split_and!; try done.
  - split; cbn [set_opt_outs opt_outs opt_seq batches].
    + intros j k r1 r2 [[<- <-]|[Hn1 H1]]%lookup_insert_Some [[<- <-]|[Hn2 H2]]%lookup_insert_Some A1 A2 P C; [done| | |].
      * symmetry. eapply Huniq; [exact H2|done|congruence|congruence].
      * eapply Huniq; [exact H1|done|congruence|congruence].
      * by eapply I1.
    + intros j r1 [[<- <-]|[_ H1]]%lookup_insert_Some; [lia|]. specialize (I2 _ _ H1). lia.
    + intros j r1 [[<- <-]|[_ H1]]%lookup_insert_Some; [|by eapply I3].
      rewrite Hpl, Hch, Ha, Hrv. split_and!; try done. by exists b.
  - cbn [set_opt_outs opt_outs]. by rewrite lookup_insert_eq.
  - intros j r0 Hj Hn. cbn [set_opt_outs opt_outs]. by rewrite lookup_insert_ne by done.
  - intros j r0 Hj Hn. cbn [set_opt_outs opt_outs] in Hj. by rewrite lookup_insert_ne in Hj by done.
Qed.

Lemma opted_out_true d p c : opted_out d p c = true <->
  exists id r, opt_outs d !! id = Some r /\ oo_active r = true /\ oo_platform r = p /\ oo_channel r = c.
Proof.
  unfold opted_out. rewrite exists_row_true. split.
  - intros (k & r & H & E). rewrite !andb_true_iff, !String.eqb_eq in E. naive_solver.
  - intros (k & r & H & H1 & H2 & H3). exists k, r. split; [done|].
    by rewrite !andb_true_iff, !String.eqb_eq.
Qed.

(** The names of a request as stored. *)
Definition names (i : CollectionOptOutInput) : string * string :=
  let n := normalizeCollectionOptOutInput i in (in_Platform n, in_ChannelID n).

(** What a list of requests changes: they are opted out, the rest is kept. *)
Record opted (l : list CollectionOptOutInput) (d d' : database) : Prop := {
  op_inv : opt_inv d';
  op_live : live d' = live d;
  op_in : forall i, i ∈ l -> opted_out d' (names i).1 (names i).2 = true;
  op_kept : forall p c, opted_out d p c = true -> opted_out d' p c = true;
  op_only : forall p c, opted_out d' p c = true -> opted_out d p c = true \/ exists i, i ∈ l /\ names i = (p, c);
  op_inactive : forall j r, opt_outs d !! j = Some r -> oo_active r = false -> opt_outs d' !! j = Some r
}.

Lemma opted_upsert b i cb now d o d' : upsert_optout b (normalizeCollectionOptOutInput i) cb now d = Ok (o, d') ->
  opt_inv d -> platform_is_valid (names i).1 = true -> (names i).2 <> EmptyString -> batches d !! b <> None ->
  opted [i] d d' /\ batches d' = batches d.
Proof.
  intros H I Hp Hc Hb.
  destruct (upsert_optout_spec _ _ _ _ _ _ _ H I Hp Hc Hb) as (I' & Hbt & Hl & Ho & Ha & Hpl & Hch & _ & Hk & Hold & Hn).
  split; [|done]. split; [done|done|..].
  - intros x ->%list_elem_of_singleton. apply opted_out_true. by exists o.1, o.2.
  - intros p c (id & r & H1 & H2 & H3 & H4)%opted_out_true. apply opted_out_true.
    destruct (decide (id = o.1)) as [->|Hne].
    2: { exists id, r. split_and!; [by apply Hk|done..]. }
    destruct (Hold _ H1) as (_ & E1 & E2). exists o.1, o.2. split_and!; congruence.
  - intros p c (id & r & H1 & H2 & H3 & H4)%opted_out_true. destruct (decide (id = o.1)) as [->|Hne].
    + right. exists i. split; [set_solver|]. unfold names. simplify_eq. congruence.
    + left. apply opted_out_true. exists id, r. split_and!; [by apply Hn|done..].
  - intros j r Hj Hr. apply Hk; [done|]. intros ->. destruct (Hold _ Hj) as (E & _). congruence.
Qed.

Lemma opted_nil d : opt_inv d -> opted [] d d.
Proof. intros I. split; auto. by intros i Hi%elem_of_nil. Qed.
Lemma opted_app l k d1 d2 d3 : opted l d1 d2 -> opted k d2 d3 -> opted (l ++ k) d1 d3.
Proof.
  intros [A1 A2 A3 A4 A5 A6] [B1 B2 B3 B4 B5 B6]. split; [done|congruence|..].
  - intros i [H|H]%elem_of_app; auto.
  - auto.
  - intros p c H. destruct (B5 _ _ H) as [H'|(i & H1 & H2)]; [|right; set_solver].
    destruct (A5 _ _ H') as [?|(i & H1 & H2)]; [by left|right; set_solver].
  - auto.
Qed.

Lemma opted_ext l d d0 d' : opt_outs d = opt_outs d0 -> live d = live d0 -> opted l d d' -> opted l d0 d'.
Proof.
  intros Ho Hl [A1 A2 A3 A4 A5 A6]. assert (forall p c, opted_out d p c = opted_out d0 p c) as E
    by (intros; unfold opted_out; by rewrite Ho).
  split; [done|congruence|done|..].
  - intros p c. rewrite <- E. apply A4.
  - intros p c. rewrite <- E. apply A5.
  - by rewrite <- Ho.
Qed.

Lemma create_items_run b cb l items e s out s' : opt_inv (wk s) -> batches (wk s) !! b <> None ->
  create_items b cb l items e s = (Ok out, s') ->
  opted l (wk s) (wk s') /\ db s' = db s /\ length out = (length items + length l)%nat.
Proof.
  revert items s. induction l as [|i l IH]; intros items s I Hb H; cbn [create_items] in H.
  { inv_run H. split_and!; [by apply opted_nil|done|simpl; lia]. }
  apply bind_ok in H as (u1 & s1 & [Hp <-]%guard_ok_ok & H).
  apply bind_ok in H as (u2 & s2 & [Hc <-]%guard_ok_ok & H).
  apply bind_ok in H as (o & s3 & (_ & d & Hx & ->)%tx_exec_ok & H).
  apply negb_true_iff, is_empty_false in Hc.
  destruct (opted_upsert _ _ _ _ _ _ _ Hx I Hp Hc Hb) as [O Hbt].
  apply IH in H as (O' & Hd & Hlen); cbn [wk db] in *; [|by eapply op_inv|by rewrite Hbt].
  split_and!; [by eapply (opted_app [i])|done|]. rewrite length_app in Hlen. simpl in *. lia.
Qed.

Lemma atomic_Create i : atomic (CreateCollectionOptOutBatch i).
Proof.
  unfold CreateCollectionOptOutBatch. apply atomic_bind; [frame_solve..|intros _].
  apply atomic_bind; [frame_solve..|intros _]. apply atomic_bind; [frame_solve..|intros b].
  apply atomic_bind; [| |intros items; apply atomic_bind_ret; frame_solve];
    generalize (bi_Items i) (@nil optout); intros l; induction l as [|y l IH]; intros items; simpl; frame_solve.
Qed.

Lemma Create_ok i e s b items s' : opt_inv (db s) ->
  CreateCollectionOptOutBatch i e s = (Ok (b, items), s') ->
  opted (bi_Items i) (db s) (db s') /\ length items = length (bi_Items i) /\
  bt_ItemCount b = Z.of_nat (length items) /\ bt_ActiveCount b = Z.of_nat (length items) /\ bi_Items i <> [].
Proof.
  intros I H. unfold CreateCollectionOptOutBatch in H.
  apply bind_ok in H as (u1 & s1 & [Hne <-]%guard_ok_ok & H).
  apply bind_ok in H as (u2 & s2 & (_ & ->)%tx_begin_ok & H).
  apply bind_ok in H as (b0 & s3 & (_ & d & Hb & ->)%tx_exec_ok & H). cbn [wk db tick] in *.
  apply insert_batch_inv in Hb as (I1 & Hb & Ho & Hl); [|done].
  apply bind_ok in H as (out & s4 & H1 & H). apply create_items_run in H1 as (O & Hd & Hlen); [|done..].
  apply bind_ok in H as (u5 & s5 & (_ & ->)%tx_commit_ok & H). apply ret_ok in H as [[= <- <-] <-].
  cbn [db wk] in *. split_and!; [|done..|by destruct (bi_Items i)].
  by eapply opted_ext.
Qed.

Lemma Create_run i e s r s' : opt_inv (db s) -> CreateCollectionOptOutBatch i e s = (r, s') ->
  db s' = db s \/ opted (bi_Items i) (db s) (db s').
Proof.
  intros I H. destruct (atomic_after _ _ _ _ _ (atomic_Create i) H)
    as [?|(e' & [b items] & s1 & _ & _ & _ & H1 & -> & _)]; [by left|right].
  by apply Create_ok in H1 as [? _].
Qed.

Lemma Revoke_inv p c b rs now d : opt_inv d -> 
  opt_inv (set_opt_outs (update_where (fun _ r => oo_active r && same_optout p c r) (revoked b rs now)) (opt_seq d) d).
Proof.
  intros [I1 I2 I3]. set (sel := fun (_ : Z) (r : opt_row) => _).
  assert (forall j r, update_where sel (revoked b rs now) (opt_outs d) !! j = Some r -> exists r0,
    opt_outs d !! j = Some r0 /\ (r = r0 \/ r = revoked b rs now r0 /\ oo_active r0 = true)) as Hr.
  { intros j r (r0 & H & ->)%lookup_update_where_Some. exists r0. split; [done|].
    unfold sel. destruct (oo_active r0); simpl; [|by left]. destruct (same_optout p c r0); auto. }
  split; cbn [set_opt_outs opt_outs opt_seq batches].
  - intros i j r1 r2 (x & Hx & [->|[-> _]])%Hr (y & Hy & [->|[-> _]])%Hr A1 A2 P C; [by eapply I1|done..].
  - intros i r (x & Hx & _)%Hr. by eapply I2.
  - intros i r (x & Hx & [->|[-> Ha]])%Hr; destruct (I3 _ _ Hx) as (H1 & H2 & H3 & H4); by split_and!.
Qed.

(** ** The claims *)

Inductive opt_op : Type :=
| OptCreate (i : CreateCollectionOptOutBatchInput)
| OptRevoke (p c : string) (by_ reason : option string)
| OptEnd (p c : string).
Definition opt_run (o : opt_op) (e : env) (s : world database) : world database :=
  match o with
  | OptCreate i => (CreateCollectionOptOutBatch i e s).2
  | OptRevoke p c b r => (RevokeCollectionOptOut p c b r e s).2
  | OptEnd p c => (EndCollectionOptedOutLiveChannel p c e s).2
  end.
Definition opt_runs (l : list opt_op) (e : env) (s : world database) : world database :=
  fold_left (fun s o => opt_run o e s) l s.

(** C29: after any batches, revocations and endings, whatever fails, a channel
    has at most one active opt-out; every opt-out names a known platform and
    a channel and belongs to a batch, and exactly the inactive ones tell when
    they were revoked. *)
Theorem optouts_always_consistent l e s : opt_inv (db s) -> opt_inv (db (opt_runs l e s)).
Proof.
  revert s. induction l as [|o l IH]; intros s I; [done|]. cbn [opt_runs fold_left]. apply IH.
  destruct o as [i|p c b r|p c]; cbn [opt_run].
  - destruct (CreateCollectionOptOutBatch i e s) as [r s'] eqn:E.
    apply Create_run in E as [E|[]]; [cbn; by rewrite E|done..].
  - destruct (RevokeCollectionOptOut p c b r e s) as [r0 s'] eqn:E.
    unfold RevokeCollectionOptOut in E. apply pool_exec_after in E as [_ [[E _]|(a & d & E & Ed & _)]]; cbn; [by rewrite E|].
    rewrite Ed. injection E as _ <-. by apply Revoke_inv.
  - destruct (EndCollectionOptedOutLiveChannel p c e s) as [r0 s'] eqn:E.
    unfold EndCollectionOptedOutLiveChannel in E. apply pool_exec_after in E as [_ [[E _]|(a & d & E & Ed & _)]]; cbn; [by rewrite E|].
    rewrite Ed. injection E as _ <-. destruct I as [I1 I2 I3]. by split.
Qed.

(** A batch that is reported done opts out exactly the channels it lists
    (names trimmed, the platform in lower case) besides those that were: each
    is opted out afterwards, no other channel becomes or stops being so, past
    opt-outs stay as they were, and the counts are the number of requests. One
    that fails has changed nothing, or done all that too and lost the reply. *)
Theorem batch_opts_out i e s r s' : opt_inv (db s) -> CreateCollectionOptOutBatch i e s = (r, s') ->
  let all_opted :=
    (forall p c, opted_out (db s') p c = true <->
       opted_out (db s) p c = true \/ exists x, x ∈ bi_Items i /\ names x = (p, c)) /\
    (forall id row, opt_outs (db s) !! id = Some row -> oo_active row = false ->
       opt_outs (db s') !! id = Some row) in
  match r with
  | Err x => db s' = db s \/ x = ErrDriver /\ ~ answered e /\ all_opted
  | Ok (b, items) =>
      bt_ItemCount b = Z.of_nat (length (bi_Items i)) /\ bt_ActiveCount b = Z.of_nat (length (bi_Items i)) /\
      all_opted
  end.
Proof.
  intros I H all_opted. assert (opted (bi_Items i) (db s) (db s') -> all_opted) as Hall.
  { intros [_ _ O3 O4 O5 O6]. subst all_opted. split; [|done].
    intros p c. split; [apply O5|]. intros [?|(x & Hx & Hn)]; [auto|]. specialize (O3 x Hx). by rewrite Hn in O3. }
  destruct r as [[b items]|x].
  - apply Create_ok in H as (O & Hlen & H1 & H2 & _); [|done]. rewrite H1, H2, Hlen. auto.
  - apply atomic_Create in H as [?|(-> & n & [b items] & s1 & _ & Hf & Ha & H & Ed & _)]; [by left|right].
    apply Create_ok in H as [O _]; [|done]. rewrite <- Ed in O. split_and!; auto.
    intros Han. by rewrite (Han _ Hf) in Ha.
Qed.

Lemma index_items_spec l p c : IsOptedOut (index_items l) p c = true <->
  exists o, o ∈ l /\ oo_platform o.2 = p /\ oo_channel o.2 = c.
Proof.
  unfold index_items. assert (forall m : cache, IsOptedOut (fold_left (fun (m : cache) o =>
    <[oo_platform o.2 := <[oo_channel o.2 := o]> (default ∅ (m !! oo_platform o.2))]> m) l m) p c = true <->
    IsOptedOut m p c = true \/ exists o : optout, o ∈ l /\ oo_platform o.2 = p /\ oo_channel o.2 = c) as H.
  { unfold cache in *. induction l as [|o l IH]; intros m; cbn [fold_left]; [set_solver|]. rewrite IH.
    assert (IsOptedOut (<[oo_platform o.2 := <[oo_channel o.2 := o]> (default ∅ (m !! oo_platform o.2))]> m) p c = true <->
      IsOptedOut m p c = true \/ (oo_platform o.2 = p /\ oo_channel o.2 = c)) as ->.
    { unfold IsOptedOut, cache in *. destruct (decide (oo_platform o.2 = p)) as [<-|Hp].
      - rewrite lookup_insert_eq. destruct (decide (oo_channel o.2 = c)) as [<-|Hc].
        + rewrite lookup_insert_eq. naive_solver.
        + rewrite lookup_insert_ne by done. destruct (m !! oo_platform o.2) as [mm|]; simpl.
          * destruct (mm !! c); naive_solver.
          * rewrite lookup_empty. naive_solver.
      - rewrite lookup_insert_ne by done. naive_solver. }
    split.
    - intros [[?|?]|(x & Hx & ?)]; [by left|right; exists o; split; [left|done]|right; exists x; split; [by right|done]].
    - intros [?|(x & [->|Hx]%elem_of_cons & ?)]; [by left; left|by left; right|right; eauto]. }
  rewrite H. unfold IsOptedOut at 1. set_solver.
Qed.

(** C31: a refresh whose list the database answers makes the cache answer as
    the database did at that moment, for every channel; one whose list fails
    leaves the cache as it was. Neither fails the loop, and the database stays
    as it was. *)
Theorem cache_agrees c e s r s' :
  refresh_tick (D := database) c e s = (r, s') ->
  db s' = db s /\ exists c', r = Ok c' /\
    if driver_fails e (tick s) then c' = c
    else forall p ch, IsOptedOut c' p ch = opted_out (db s) p ch.
Proof.
  unfold refresh_tick, Refresh, source_list, store_source, ListActiveCollectionOptOuts, mbind, M_bind, try, pool_query.
  destruct (driver_fails e (tick s)); intros [= <- <-]; cbn [db bump]; (split; [done|]); eexists; (split; [done|]); [done|].
  intros p ch. apply eq_bool_prop_intro. rewrite !Is_true_true, index_items_spec, opted_out_true. split.
  - intros ([id row] & Hin & H1 & H2). rewrite merge_sort_Permutation in Hin.
    apply list_elem_of_In, filter_In in Hin as [Hin Ha]. apply list_elem_of_In, elem_of_map_to_list in Hin. eauto 6.
  - intros (id & row & Hl & Ha & H1 & H2). exists (id, row). split_and!; try done.
    rewrite merge_sort_Permutation. apply list_elem_of_In, filter_In. split; [|done].
    by apply list_elem_of_In, elem_of_map_to_list.
Qed.

(** Ending the live channel of an opt-out leaves that channel ended and
    without a worker, reports the worker it had, and touches no other channel;
    and as long as the opt-out is active, whatever happens to the tables, the
    channel is never offered for assignment. *)
Theorem opted_out_channel_stops p c e s w s' : live_inv (db s) ->
  EndCollectionOptedOutLiveChannel p c e s = (Ok w, s') ->
  (forall id r, live (db s') !! id = Some r -> same_channel p c r = true ->
     is_ended r = true /\ lc_worker r = None) /\
  (forall id r, live (db s) !! id = Some r -> same_channel p c r = false -> live (db s') !! id = Some r) /\
  (forall id r, live (db s) !! id = Some r -> same_channel p c r = true -> is_ended r = false -> w = lc_worker r) /\
  (forall scope limit e2 s2 l s3, opted_out (db s2) p c = true ->
     ListPendingChannels scope limit e2 s2 = (Ok l, s3) ->
     forall id r, (id, r) ∈ l -> same_channel p c r = false).
Proof.
  intros I H. unfold EndCollectionOptedOutLiveChannel in H. apply pool_exec_ok in H as (_ & d & [= Hw <-] & ->).
  cbn [db set_live live]. split_and!.
  - intros id r (r0 & Hr & ->)%lookup_update_where_Some Hs.
    destruct (same_channel p c r0 && negb (is_ended r0)) eqn:E; [done|].
    rewrite Hs in E. apply negb_false_iff in E. split; [done|].
    destruct (lc_worker r0) as [v|] eqn:Ev; [|done]. destruct (li_rows _ I _ _ Hr) as [_ Hwk _].
    destruct (Hwk _ Ev) as [Hl _]. unfold is_live, is_ended in *. b2p. by rewrite E in Hl.
  - intros id r Hr Hs. rewrite lookup_update_where, Hr. simpl. by rewrite Hs.
  - intros id r Hr Hs He. rewrite <- Hw.
    assert ((id, r) ∈ List.filter (fun '(_, r) => same_channel p c r && negb (is_ended r)) (rows (live (db s)))) as Hin.
    { apply list_elem_of_In, filter_In. rewrite Hs, He. split; [|done]. by apply list_elem_of_In, elem_of_map_to_list. }
    destruct (List.filter _ _) as [|[i r'] l] eqn:E; [by apply elem_of_nil in Hin|].
    assert ((i, r') ∈ List.filter (fun '(_, r) => same_channel p c r && negb (is_ended r)) (rows (live (db s)))) as Hi
      by (rewrite E; left).
    apply list_elem_of_In, filter_In in Hi as [Hi1 Hi2]. apply list_elem_of_In, elem_of_map_to_list in Hi1.
    apply andb_true_iff in Hi2 as [Hi2 _]. apply same_channel_spec in Hi2 as [E1 E2]. apply same_channel_spec in Hs as [E3 E4].
    assert (i = id) as -> by (eapply (li_unique _ I); [exact Hi1|exact Hr|congruence|congruence]). congruence.
  - intros scope limit e2 s2 l s3 Ho HL id r Hin. apply ListPending_run in HL as (-> & _).
    destruct (proj2 (pending_channels_rows _ _ _) _ _ Hin) as (_ & _ & _ & Hc). apply not_true_iff_false. intros [<- <-]%same_channel_spec.
    unfold collectable in Hc. destruct scope as [ch|].
    + rewrite !andb_true_iff in Hc. destruct Hc as [[[Hc1 _] _] Hc2]. unfold on_platform in Hc1. b2p.
      rewrite Hc1 in Ho. by rewrite Ho in Hc2.
    + by rewrite Ho in Hc.
Qed.

(** ** Runs *)

Module OptDemo.
Definition e : env := Env (fun _ => false) (fun _ => false) (fun n => Z.of_nat n) (fun n => Z.of_nat n) (fun _ => EmptyString).
Definition row : live_row :=
  LiveRow PlatformChzzk "c1" "streamer" 5 ChannelStatusPending None 0 0 None None None None.
Definition start : database := set_live (fun _ => <[1 := row]> ∅) (set_live_seq 2 empty_db).
Definition s0 : world database := World start start 0.
Definition request : CreateCollectionOptOutBatchInput :=
  MkBatchInput "letter" None None None None
    [MkInput " CHZZK" "c1 " None None None; MkInput "soop" "c2" None None None; MkInput "chzzk" "c1" None None None].
Definition s1 : world database := (CreateCollectionOptOutBatch request e s0).2.

Lemma start_inv : opt_inv start.
Proof. split; intros *; cbn [start set_live set_live_seq empty_db opt_outs]; by rewrite lookup_empty. Qed.
Lemma start_live : live_inv start.
Proof.
  split; unfold start; cbn [set_live live set_live_seq live_seq].
  - intros i j r1 r2 H1 H2. apply lookup_insert_Some in H1 as [[<- <-]|[_ H1]]; [|done].
    by apply lookup_insert_Some in H2 as [[<- <-]|[_ H2]].
  - intros i r H. by apply lookup_insert_Some in H as [[<- <-]|[_ H]].
  - intros i r H. by apply lookup_insert_Some in H as [[<- <-]|[_ H]].
Qed.
End OptDemo.
Import OptDemo.

Lemma optouts_always_consistent_witness :
  opt_inv (db (opt_runs [OptCreate request; OptRevoke "chzzk" "c1" None None; OptEnd "soop" "c2"] e s0)).
Proof. apply (optouts_always_consistent _ e s0 start_inv). Defined.

Lemma batch_opts_out_witness :
  opted_out (db s1) "chzzk" "c1" = true /\ opted_out (db s1) "soop" "c2" = true /\
  opted_out (db s1) "soop" "c3" = false.
Proof.
  assert (is_ok (CreateCollectionOptOutBatch request e s0).1 = true) as Hok by (vm_compute; reflexivity).
  destruct (CreateCollectionOptOutBatch request e s0) as [[[b items]|x] s'] eqn:E; [|discriminate Hok].
  pose proof (batch_opts_out request e s0 _ s' start_inv E) as (_ & _ & H & _).
  unfold s1. rewrite E. cbn [snd].
  assert (forall x, x ∈ bi_Items request -> opted_out (db s') (names x).1 (names x).2 = true) as Hin.
  { intros x Hx. apply H. right. exists x. split; [exact Hx|]. by destruct (names x). }
  split; [|split].
  - apply (Hin (MkInput "chzzk" "c1" None None None)). right. right. left.
  - apply (Hin (MkInput "soop" "c2" None None None)). right. left.
  - apply not_true_iff_false. intros [Hx|(x & Hx & Hn)]%H.
    + discriminate Hx.
    + repeat (apply elem_of_cons in Hx as [->|Hx]; [discriminate Hn|]). by apply elem_of_nil in Hx.
Defined.

Lemma cache_agrees_witness : exists c' s',
  refresh_tick (D := database) ∅ e s1 = (Ok c', s') /\ IsOptedOut c' "chzzk" "c1" = true.
Proof.
  destruct (refresh_tick (D := database) ∅ e s1) as [r s'] eqn:E.
  destruct (cache_agrees ∅ e s1 r s' E) as (_ & c' & -> & H).
  exists c', s'. split; [reflexivity|]. rewrite H. vm_compute. reflexivity.
Defined.

Lemma opted_out_channel_stops_witness : exists w s',
  EndCollectionOptedOutLiveChannel "chzzk" "c1" e s0 = (Ok w, s') /\
  (forall r, live (db s') !! 1 = Some r -> same_channel "chzzk" "c1" r = true -> is_ended r = true).
Proof.
  assert (is_ok (EndCollectionOptedOutLiveChannel "chzzk" "c1" e s0).1 = true) as Hok by (vm_compute; reflexivity).
  destruct (EndCollectionOptedOutLiveChannel "chzzk" "c1" e s0) as [[w|x] s'] eqn:E; [|discriminate Hok].
  destruct (opted_out_channel_stops "chzzk" "c1" e s0 w s' start_live E) as (H & _).
  exists w, s'. split; [reflexivity|]. intros r Hr Hs. exact (proj1 (H 1 r Hr Hs)).
Defined.
