(* ===== verification/Discover.v ===== *)
(** The discover service (src/discover/internal/discover.go,
    discovery/registered.go): which channels are polled, one discovery cycle
    under the leader's fencing token, and the manual triggers. A platform
    client is an interface: what it fetches and whether a channel is live. *)
From S2P Require Import Prelude GoLib GoText Json Tx Model.
From S2P Require Import Db Ownership Journal Channels OptOut Redis.
From S2P Require Import Archive History Emitter.

(** PostgreSQL and Redis. *)
Record dsite := Site { pg : history; rd : redis }.
Notation Msite := (M dsite).
Definition on_history {A} : Mhist A -> Msite A := zoom pg (fun h s => Site h (rd s)).
Definition on_store {A} (m : Mdb A) : Msite A := on_history (zoom main set_main m).
Definition on_redis {A} : M redis A -> Msite A := zoom rd (fun r s => Site (pg s) r).

Record DiscoveryResult := MkResult { Channels_ : list DiscoveredChannel; Partial : bool }.

(** [PlatformDiscovery] *)
Class PlatformDiscovery := {
  platform_name : string;
  FetchLiveChannels : Msite DiscoveryResult;
  IsChannelLive : string -> Msite bool
}.

(** ** Approved channels *)

Record RegisteredDiscovery := MkRegistered { rg_ids : list string; rg_allowed : gset string }.

Definition NewRegisteredDiscovery (approved : gmap string bool) : RegisteredDiscovery :=
  let on := List.filter (fun '(id, enabled) => negb (is_empty id) && enabled) (rows approved) in
  MkRegistered (merge_sort String.le (map fst on)) (list_to_set (map fst on)).

Section Registered.
Context (base : PlatformDiscovery) (d : RegisteredDiscovery).
(** [Enabled] and [Observed], when set. *)
Context (Enabled : option (string -> Msite bool)) (Observed : string -> result bool -> Msite unit).
(** Whether the caller's context is done, at each point of time. *)
Context (ctx_done : nat -> bool).

Definition ctx_Err : Msite unit := fun _ s => if ctx_done (tick s) then (Err ErrContext, s) else (Ok tt, s).

Definition registered_live (id : string) : Msite bool :=
  if bool_decide (id ∈ rg_allowed d) then
    enabled ← match Enabled with Some f => f id | None => (mret true : Msite bool) end;
    if enabled : bool then
      res ← try (IsChannelLive id);
      ignored ← try (Observed id res);
      lift res
    else mret false
  else mret false.

(** The channels found live, how many were checked, the failures. *)
Fixpoint fetch_registered (ids : list string) (found : list DiscoveredChannel) (checked : Z) (failures : list error)
  : Msite (list DiscoveredChannel * Z * list error) :=
  match ids with
  | [] => mret (found, checked, failures)
  | id :: ids =>
      ctx_Err ;;
      res ← try (registered_live id);
      match res : result bool with
      | Err x => fetch_registered ids found checked (failures ++ [x])
      | Ok live =>
          let ch := MkDiscovered id EmptyString 0 EmptyString EmptyString EmptyString [] None EmptyString in
          fetch_registered ids (if live then found ++ [ch] else found) (checked + 1) failures
      end
  end.

Definition registered_fetch : Msite DiscoveryResult :=
  x ← fetch_registered (rg_ids d) [] 0 [];
  let '(found, checked, failures) := x in
  guard_ok (negb ((checked =? 0) && negb (length failures =? 0)%nat)) (ErrMsg "joined failures") ;;
  mret (MkResult found (negb (length failures =? 0)%nat)).

Definition registered : PlatformDiscovery :=
  {| platform_name := platform_name; FetchLiveChannels := registered_fetch; IsChannelLive := registered_live |}.
End Registered.

(** ** The allowlist *)

Definition allow : Type := gmap string (gset string).

Definition allow_entry (entry : string) (m : allow) : allow :=
  match str_index (trim_space entry) ":" with
  | None => m
  | Some n =>
      let p := str_take n (trim_space entry) in
      let c := str_drop (S n) (trim_space entry) in
      if is_empty p || is_empty c || negb (platform_is_valid p) then m
      else <[p := {[c]} ∪ default ∅ (m !! p)]> m
  end.
Definition parseAllowlist (raw : string) : allow :=
  fold_left (fun m entry => allow_entry entry m) (if is_empty (trim_space raw) then [] else split_on "," (trim_space raw)) ∅.

(** ** Triggers *)

Definition listed (allowlist : option allow) (p : string) : bool :=
  match allowlist with
  | None => true
  | Some a => match a !! p with Some s => negb (bool_decide (s = ∅)) | None => false end
  end.
(** The platforms whose loops [onBecomeLeader] starts, in the order of their trigger channels. *)
Definition loops (allowlist : option allow) (discoveries : list string) : list string :=
  List.filter (listed allowlist) discoveries.

Fixpoint index_of_platform (p : string) (l : list string) : option nat :=
  match l with
  | [] => None
  | x :: l => if String.eqb x p then Some O else S <$> index_of_platform p l
  end.
(** The loops a trigger reaches. *)
Definition TriggerDiscoveryForPlatform (discoveries started : list string) (p : string) : list string :=
  if is_empty p then started
  else match index_of_platform p discoveries with
       | Some i => match started !! i with Some q => [q] | None => [] end
       | None => []
       end.

(** ** One cycle *)

Section Cycle.
Context (disc : PlatformDiscovery) (instanceID : string) (allowlist : option allow).
(** The opt-out cache, when set, and the leader's token. *)
Context (collectionOptOuts : option cache) (cycleToken : Z).
Context (ctx_done : nat -> bool).

Definition leader_key : string := "discover:leader".
Definition requireLease : Msite bool :=
  res ← try (on_redis (ValidateLeaderLease leader_key cycleToken));
  mret (match res with Ok valid => valid | Err _ => false end).

(** What a cycle works on: the emitter when history is enabled, the fetch
    failures in a row, the ended channels reported upstream. *)
Record cycle_state := CycleState { cy_emitter : option emitter; cy_failures : Z; cy_notified : list string }.
Definition with_emitter (em : option emitter) (c : cycle_state) : cycle_state :=
  CycleState em (cy_failures c) (cy_notified c).

Definition cancelled : Msite bool := fun _ s => (Ok (ctx_done (tick s)), s).
(** How a step ends: [Some b] returns [b] from the cycle, [None] goes on with it. *)
Notation step_end := (option bool * cycle_state)%type.
(** After an error: the loop ends when the context is done. *)
Definition after_error (c : cycle_state) : Msite step_end := stop ← cancelled; mret (Some (negb stop), c).

Definition admitted (ch : DiscoveredChannel) : bool :=
  match allowlist with
  | None => true
  | Some a => match a !! platform_name with Some s => bool_decide (ch_ChannelID ch ∈ s) | None => false end
  end
  && match collectionOptOuts with None => true | Some c => negb (IsOptedOut c platform_name (ch_ChannelID ch)) end.

Definition to_live (ch : DiscoveredChannel) : discovered :=
  Discovered platform_name (ch_ChannelID ch) (ch_StreamerName ch) (ch_ViewerCount ch).
(** The last of the channels of an id. *)
Definition discovered_map (l : list DiscoveredChannel) : gmap string DiscoveredChannel :=
  fold_left (fun m ch => <[ch_ChannelID ch := ch]> m) l ∅.

Definition upsert_step (channels : list DiscoveredChannel) (c : cycle_state) : Msite step_end :=
  valid ← requireLease;
  if negb valid then mret (Some true, c)
  else match cy_emitter c with
  | Some em =>
      res ← try (on_history (UpsertLiveChannelsWithHistory (map to_live channels)));
      match res with
      | Err _ => after_error c
      | Ok results =>
          em ← on_history (ProcessDiscovered instanceID platform_name results (discovered_map channels) em);
          mret (None, with_emitter (Some em) c)
      end
  | None =>
      res ← try (on_store (UpsertLiveChannels (map to_live channels)));
      match res with Err _ => after_error c | Ok _ => mret (None, c) end
  end.

(** The ended_candidates the platform does not confirm stay active. *)
Fixpoint check_candidates (l : list EndedChannel) (kept verified : list string) (confirmed : list EndedChannel)
  : Msite (list string * list string * list EndedChannel) :=
  match l with
  | [] => mret (kept, verified, confirmed)
  | ec :: l =>
      res ← try (IsChannelLive (ec_ChannelID ec));
      match res with
      | Err _ => check_candidates l (kept ++ [ec_ChannelID ec]) verified confirmed
      | Ok true => check_candidates l (kept ++ [ec_ChannelID ec]) (verified ++ [ec_ChannelID ec]) confirmed
      | Ok false => check_candidates l kept verified (confirmed ++ [ec])
      end
  end.
Definition validateEndedCandidates (kept : list string) (ended : list EndedChannel) (em : emitter)
  : Msite (list string * list EndedChannel * emitter) :=
  x ← check_candidates ended kept [] [];
  let '(kept, verified, confirmed) := x in
  mret (kept, confirmed, ResetMissedPolls platform_name verified em).

(** What stays active and whom to end, by the emitter. *)
Definition ended_candidates (active : list string) (c : cycle_state) : Msite (list string * list EndedChannel * cycle_state) :=
  match cy_emitter c with
  | None => mret (active, [], c)
  | Some em =>
      let '(em, kept, ended) := DetectEndedChannels platform_name active false em in
      y ← validateEndedCandidates kept ended em;
      let '(kept, confirmed, em) := y in mret (kept, confirmed, with_emitter (Some em) c)
  end.

Definition end_step (active : list string) (c : cycle_state) : Msite step_end :=
  x ← ended_candidates active c;
  let '(kept, confirmed, c) := x in
  valid ← requireLease;
  if negb valid then mret (Some true, c)
  else
    res ← try (on_store (MarkEndedChannels platform_name kept));
    match res with
    | Err _ => after_error c
    | Ok ids =>
        let c := CycleState (cy_emitter c) (cy_failures c) (cy_notified c ++ ids) in
        match cy_emitter c with
        | Some em => em ← on_history (CommitEnded instanceID confirmed em); mret (None, with_emitter (Some em) c)
        | None => mret (None, c)
        end
    end.

(** The partial result: nothing is ended, the tracked channels are looked over. *)
Definition partial_step (active : list string) (c : cycle_state) : cycle_state :=
  match cy_emitter c with
  | Some em => with_emitter (Some (DetectEndedChannels platform_name active true em).1.1) c
  | None => c
  end.

(** Whether the loop goes on. *)
Definition runDiscoveryCycle (c : cycle_state) : Msite (bool * cycle_state) :=
  if cycleToken =? 0 then mret (true, c)
  else
    res ← try FetchLiveChannels;
    match res : result DiscoveryResult with
    | Err _ => stop ← cancelled;
        mret (if (stop : bool) then (false, c) else (true, CycleState (cy_emitter c) (cy_failures c + 1) (cy_notified c)))
    | Ok result =>
        let c := CycleState (cy_emitter c) 0 (cy_notified c) in
        let channels := List.filter admitted (Channels_ result) in
        let active := map ch_ChannelID channels in
        u ← upsert_step channels c;
        match (u : option bool * cycle_state) with
        | (Some b, c) => mret (b, c)
        | (None, c) =>
            if Partial result then mret (true, partial_step active c)
            else v ← end_step active c; mret (default true v.1, v.2)
        end
    end.
End Cycle.

(** ** The loop of a platform *)

Definition cycleTimeout (overrides : gmap string Z) (p : string) : Z := default (45 * second) (overrides !! p).
Definition discoverInterval (overrides : gmap string Z) (p : string) : Z :=
  match overrides !! p with
  | Some t => t
  | None => if String.eqb p PlatformChzzk || String.eqb p PlatformSoop then 180 * second else 120 * second
  end.

(** What wakes the loop up, with the leader's token at that time. *)
Inductive signal : Type := Ticked (token : Z) | Triggered (token : Z) | Cancelled.

Section Loop.
Context (disc : PlatformDiscovery) (instanceID : string) (allowlist : option allow).
Context (collectionOptOuts : option cache) (ctx_done : nat -> bool).

Fixpoint loop_on (l : list signal) (c : cycle_state) : Msite cycle_state :=
  match l with
  | [] | Cancelled :: _ => mret c
  | (Ticked token | Triggered token) :: l =>
      x ← runDiscoveryCycle disc instanceID allowlist collectionOptOuts token ctx_done c;
      let '(go, c) := x in if go : bool then loop_on l c else mret c
  end.
Definition discoveryLoop (token : Z) (l : list signal) (c : cycle_state) : Msite cycle_state :=
  loop_on (Ticked token :: l) c.
End Loop.
