(* ===== verification/DiscoverInv.v ===== *)
(** The discovery cycle: what its steps leave alone, and which channels and
    sessions a cycle can end. *)
From S2P Require Import Prelude GoLib GoText Tx Model Db.
From S2P Require Import Channels ChannelsInv OptOut Redis Archive History.
From S2P Require Import Emitter EmitterInv Discover.

(** ** A platform client that behaves *)

(** It leaves the live channels and the sessions alone, and takes time. *)
Definition undisturbed (s s' : dsite) : Prop :=
  live (main (pg s')) = live (main (pg s)) /\ b_sessions (pg s') = b_sessions (pg s).
#[export] Instance undisturbed_preorder : PreOrder undisturbed.
Proof. split; [by intros s|]. intros a b c [H1 H2] [H3 H4]. split; congruence. Qed.

Class LawfulDiscovery (disc : PlatformDiscovery) : Prop := {
  lawful_platform : platform_is_valid platform_name = true;
  fetch_forward : forward FetchLiveChannels;
  fetch_undisturbed : relates undisturbed FetchLiveChannels;
  live_forward c : forward (IsChannelLive c);
  live_undisturbed c : relates undisturbed (IsChannelLive c)
}.

Section RegisteredLaws.
Context (base : PlatformDiscovery) `{!LawfulDiscovery base} (d : RegisteredDiscovery).
Context (Enabled : option (string -> Msite bool)) (Observed : string -> result bool -> Msite unit) (ctx_done : nat -> bool).
Hypothesis enabled_forward : forall f c, Enabled = Some f -> forward (f c) /\ relates undisturbed (f c).
Hypothesis observed_forward : forall c r, forward (Observed c r) /\ relates undisturbed (Observed c r).

Lemma registered_live_laws c :
  forward (registered_live base d Enabled Observed c) /\ relates undisturbed (registered_live base d Enabled Observed c).
Proof.
  unfold registered_live. case_bool_decide; [|split; [frame_solve|by intros e s]].
  assert (forall f, Enabled = Some f -> forward (f c) /\ relates undisturbed (f c)) as He by auto.
  split.
  - apply forward_bind; [destruct Enabled; [by apply He|frame_solve]|]. intros [|]; [|frame_solve].
    apply forward_bind; [apply forward_try, live_forward|]. intros res.
    apply forward_bind; [apply forward_try, observed_forward|]. frame_solve.
  - apply relates_bind; [apply _|destruct Enabled; [by apply He|by intros e s]|]. intros [|]; [|by intros e s].
    apply relates_bind; [apply _|apply relates_try, live_undisturbed|]. intros res.
    apply relates_bind; [apply _|apply relates_try, observed_forward|]. intros _. apply relates_quiet; [apply _|frame_solve].
Qed.

Lemma ctx_Err_laws : forward (ctx_Err ctx_done) /\ relates undisturbed (ctx_Err ctx_done).
Proof. unfold ctx_Err. split; intros e s; by destruct (ctx_done _). Qed.

Lemma fetch_registered_laws ids found checked failures :
  forward (fetch_registered base d Enabled Observed ctx_done ids found checked failures) /\
  relates undisturbed (fetch_registered base d Enabled Observed ctx_done ids found checked failures).
Proof.
  revert found checked failures.
  induction ids as [|id ids IH]; intros found checked failures; cbn [fetch_registered]; [split; [frame_solve|by intros e s]|].
  split.
  - apply forward_bind; [apply ctx_Err_laws|]. intros _. apply forward_bind; [apply forward_try, registered_live_laws|].
    intros [a|x]; apply IH.
  - apply relates_bind; [apply _|apply ctx_Err_laws|]. intros _.
    apply relates_bind; [apply _|apply relates_try, registered_live_laws|]. intros [a|x]; apply IH.
Qed.

#[export] Instance registered_lawful : LawfulDiscovery (registered base d Enabled Observed ctx_done).
Proof.
  split; try apply registered_live_laws; simpl; [apply lawful_platform| |];
    unfold registered_fetch.
  - apply forward_bind; [apply fetch_registered_laws|]. intros [[? ?] ?]. frame_solve.
  - apply relates_bind; [apply _|apply fetch_registered_laws|]. intros [[? ?] ?].
    apply relates_quiet; [apply _|frame_solve].
Qed.
End RegisteredLaws.

(** ** The history's statements *)

(** The live channels stay, and the sessions; the keys in [Q] may be ended. *)
Definition closes (Q : broadcast_key -> Prop) (h h' : history) : Prop :=
  main h' = main h /\
  forall k x, b_sessions h !! k = Some x ->
    exists x', b_sessions h' !! k = Some x' /\ (hs_ended_at x' = hs_ended_at x \/ Q k).
#[export] Instance closes_preorder Q : PreOrder (closes Q).
Proof.
  split; [split; eauto|]. intros a b c [E1 H1] [E2 H2]. split; [congruence|]. intros k x Hk.
  destruct (H1 k x Hk) as (y & Hy & Ey). destruct (H2 k y Hy) as (z & Hz & Ez). exists z. split; [done|].
  destruct Ey, Ez; auto. left. congruence.
Qed.
Definition nothing (_ : broadcast_key) : Prop := False.
Definition of_number (p c : string) (seq : Z) (k : broadcast_key) : Prop := exists t, k = (t, p, c, seq).

Lemma closes_insert Q k x h : b_sessions h !! k = None -> closes Q h (set_b_sessions (insert k x) h).
Proof.
  intros Hk. split; [done|]. intros k' x' H. exists x'. simpl. rewrite lookup_insert_ne by congruence. auto.
Qed.
Lemma closes_update Q p f h : (forall k x, p k x = true -> hs_ended_at (f x) = hs_ended_at x \/ Q k) ->
  closes Q h (set_b_sessions (update_where p f) h).
Proof.
  intros Hf. split; [done|]. intros k x H. simpl. rewrite lookup_update_where, H. eexists. split; [done|].
  destruct (p k x) eqn:E; auto.
Qed.

Lemma InsertSession_closes Q b : relates (closes Q) (InsertSession b).
Proof.
  apply relates_pool_exec; [apply _|]. intros t d a d' H. cbv zeta in H. match type of H with (if ?b then _ else _) = _ => destruct b eqn:E end; [done|]. simplify_eq.
  apply closes_insert. apply orb_false_iff in E as [_ E]. b2p. by apply eq_None_not_Some.
Qed.
Lemma InsertMetadata_closes Q b : relates (closes Q) (InsertMetadata b).
Proof. apply relates_pool_exec; [apply _|]. intros t d a d' H. cbv zeta in H. match type of H with (if ?b then _ else _) = _ => destruct b end; [done|]. simplify_eq. split; eauto. Qed.
Lemma CloseMetadata_closes Q p c n t : relates (closes Q) (CloseMetadata p c n t).
Proof. apply relates_pool_exec; [apply _|]. intros t' d a d' H. destruct (exists_row _ _); [done|]. simplify_eq. split; eauto. Qed.
Lemma UpdateSessionLastSeen_closes Q p c n t v : relates (closes Q) (UpdateSessionLastSeen p c n t v).
Proof.
  apply relates_pool_exec; [apply _|]. intros t' d a d' H. destruct (int4 _); [|done]. simplify_eq.
  apply closes_update. by left.
Qed.
Lemma CloseSession_closes p c n t o r : relates (closes (of_number p c n)) (CloseSession p c n t o r).
Proof.
  apply relates_pool_exec; [apply _|]. intros t' d a d' H. destruct (exists_row _ _); [done|]. simplify_eq.
  apply closes_update. intros [[[st p'] c'] n'] x Hx. right. unfold open_session in Hx. b2p. subst. by exists st.
Qed.
Lemma closes_weaken {A} Q Q' (m : Mhist A) : (forall k, Q k -> Q' k) -> relates (closes Q) m -> relates (closes Q') m.
Proof. intros HQ H e s. destruct (H e s) as [E Hk]. split; [done|]. intros k x Hx. destruct (Hk k x Hx) as (y & ? & []); eauto. Qed.

#[export] Hint Resolve InsertSession_closes InsertMetadata_closes CloseMetadata_closes UpdateSessionLastSeen_closes : collector.

(** The rest is bookkeeping of the emitter. *)
Ltac closes_solve :=
  repeat first
    [ apply relates_ret; apply _
    | apply relates_try; auto with collector
    | apply relates_bind; [apply _| |intros ?]
    | match goal with |- relates _ (match ?x with _ => _ end) => destruct x end
    | progress auto with collector ].

Section History.
Context (instanceID : string).

Lemma process_closes Q p disc t l em : relates (closes Q) (process_all instanceID p disc t l em).
Proof.
  revert em. induction l as [|r l IH]; intros em; cbn [process_all]; [closes_solve|].
  apply relates_bind; [apply _| |auto].
  unfold process_one, start_tracking, keep_tracking, renew_metadata. closes_solve.
Qed.

(** The sessions that a commit closes. *)
Definition committed (l : list EndedChannel) (em : emitter) (k : broadcast_key) : Prop :=
  exists ec s, ec ∈ l /\ states em !! ec_StateKey ec = Some s /\
    of_number (ec_Platform ec) (ec_ChannelID ec) (st_sessionSeq s) k.

Lemma flush_states p c s t em : states (flushViewerInterval instanceID p c s t em).2 = states em.
Proof. unfold flushViewerInterval. destruct (st_lastInterval s); [|done]. by destruct (has_writer em). Qed.

Lemma commit_closes Q t l em : (forall k, committed l em k -> Q k) -> relates (closes Q) (commit_all instanceID t l em).
Proof.
  revert em. induction l as [|ec l IH]; intros em HQ; cbn [commit_all]; [closes_solve|].
  assert (forall em', (forall k s, states em' !! k = Some s -> states em !! k = Some s) ->
    forall k, committed l em' k -> Q k) as Hsub.
  { intros em' Hs k (ec' & s & Hin & Hk & Hn). apply HQ. exists ec', s. split_and!; [by right|auto|done]. }
  destruct (states em !! ec_StateKey ec) as [s|] eqn:Es; [|apply IH; eauto].
  apply relates_bind; [apply _| |].
  { apply relates_try. eapply closes_weaken; [|apply CloseSession_closes].
    intros k Hk. apply HQ. exists ec, s. split_and!; [left|done|done]. }
  intros [?|?]; [|apply IH; eauto].
  destruct (flushViewerInterval _ _ _ _ _ _) as [s' em'] eqn:Ef. apply IH, Hsub.
  intros k s1. simpl. intros [_ H]%lookup_delete_Some. pose proof (flush_states (ec_Platform ec) (ec_ChannelID ec) s t em) as E.
  rewrite Ef in E. simpl in E. by rewrite E in H.
Qed.

(** A poll leaves the state of a channel it did not find. *)
Lemma process_other p disc t l em k :
  (forall r ch, r ∈ l -> disc !! ur_ChannelID r = Some ch -> k <> stateKey (ur_Platform r) (ur_ChannelID r)) ->
  yields (fun em' => states em' !! k = states em !! k) (process_all instanceID p disc t l em).
Proof.
  revert em. induction l as [|r l IH]; intros em Hk; cbn [process_all]; [by apply yields_ret|].
  apply (yields_bind (fun em' => states em' !! k = states em !! k)).
  2:{ intros em' E. rewrite <- E. apply IH. intros r' ch Hr. apply Hk. by right. }
  unfold process_one. destruct (disc !! ur_ChannelID r) as [ch|] eqn:Ech; [|by apply yields_ret].
  assert (k <> stateKey (ur_Platform r) (ur_ChannelID r)) as Hne by (eapply Hk; [left|done]).
  assert (forall h, yields (fun em' => states em' !! k = states em !! k)
    (start_tracking instanceID p (stateKey (ur_Platform r) (ur_ChannelID r)) r ch h t em)) as Hst.
  { intros h. unfold start_tracking. apply yields_any. intros [?|?]; [|by apply yields_ret].
    apply yields_any. intros [?|?]; apply yields_ret; [|done]. simpl. by rewrite lookup_insert_ne. }
  destruct (states em !! stateKey _ _) as [s|]; [|apply Hst]. destruct (ur_IsInsert r); [apply Hst|].
  unfold keep_tracking. apply yields_any. intros h.
  destruct (count_viewers _ _ _ _ _ _ _) as [s' em'] eqn:Ec. apply yields_any. intros _. apply yields_ret.
  simpl. rewrite lookup_insert_ne by done.
  enough (states em' = states em) by congruence.
  revert Ec. unfold count_viewers.
  repeat (case_match; try (intros [= <- <-])); simplify_eq; try done;
    match goal with H : flushViewerInterval ?i ?p ?c ?s ?t ?em = (_, ?em') |- states ?em' = _ =>
      pose proof (flush_states p c s t em) as E; rewrite H in E; exact E end.
Qed.
End History.

(** ** Steps before the end of a cycle *)

Definition unended (id : Z) (d : database) : Prop := forall r, live d !! id = Some r -> is_ended r = false.

(** No live channel is ended, no session closed. *)
Definition mild (s s' : dsite) : Prop :=
  (forall id, unended id (main (pg s)) -> unended id (main (pg s'))) /\
  forall k x, b_sessions (pg s) !! k = Some x ->
    exists x', b_sessions (pg s') !! k = Some x' /\ hs_ended_at x' = hs_ended_at x.
#[export] Instance mild_preorder : PreOrder mild.
Proof.
  split; [split; eauto|]. intros a b c [E1 H1] [E2 H2]. split; [auto|]. intros k x Hk.
  destruct (H1 k x Hk) as (y & Hy & Ey). destruct (H2 k y Hy) as (z & Hz & Ez). exists z. split; congruence.
Qed.

Lemma undisturbed_mild s s' : undisturbed s s' -> mild s s'.
Proof. intros [E1 E2]. unfold mild, unended. rewrite E1, E2. eauto. Qed.
Lemma relates_mild {A} (m : Msite A) : relates undisturbed m -> relates mild m.
Proof. intros H e s. apply undisturbed_mild, H. Qed.

Lemma on_redis_undisturbed {A} (m : M redis A) : relates undisturbed (on_redis m).
Proof. unfold on_redis. eapply (zoom_relates _ _ (fun _ _ => True)); [by intros e s|]. by intros s t _. Qed.
Lemma requireLease_undisturbed token : relates undisturbed (requireLease token).
Proof.
  unfold requireLease. apply relates_bind; [apply _|apply relates_try, on_redis_undisturbed|].
  intros res. by apply relates_ret, _.
Qed.
Lemma on_history_mild {A} (m : Mhist A) : relates (closes nothing) m -> relates mild (on_history m).
Proof.
  intros H. eapply zoom_relates; [exact H|]. intros s h [E Hk]. split; simpl.
  - unfold unended. by rewrite E.
  - intros k x Hx. destruct (Hk k x Hx) as (y & ? & [?|[]]). eauto.
Qed.

(** The upsert ends nothing. *)
Lemma unended_upsert now c id d : unended id d -> unended id (upsert_row now d c).
Proof.
  intros H r. unfold upsert_row. destruct (find_channel _ _ _) as [[i x]|] eqn:Ef; simpl.
  - intros [[_ <-]|[_ Hr]]%lookup_insert_Some; [|by apply H].
    unfold is_ended. simpl. destruct (is_ended x) eqn:Ex; [done|exact Ex].
  - intros [[_ <-]|[_ Hr]]%lookup_insert_Some; [done|by apply H].
Qed.
Lemma unended_upserts now l id d : unended id d -> unended id (fold_left (upsert_row now) l d).
Proof. revert d. induction l; intros d H; simpl; [done|]. auto using unended_upsert. Qed.

Lemma upsert_numbered_main now l acc : main (fold_left (upsert_numbered now) l acc).2 = fold_left (upsert_row now) l (main acc.2).
Proof.
  revert acc. induction l as [|c l IH]; intros [rs h]; [done|]. cbn [fold_left]. rewrite IH. f_equal.
  unfold upsert_numbered. by destruct (find_channel _ _ _) as [[? ?]|].
Qed.
Lemma upsert_numbered_sessions now l acc : b_sessions (fold_left (upsert_numbered now) l acc).2 = b_sessions acc.2.
Proof.
  revert acc. induction l as [|c l IH]; intros [rs h]; [done|]. cbn [fold_left]. rewrite IH.
  unfold upsert_numbered. by destruct (find_channel _ _ _) as [[? ?]|].
Qed.

Lemma upsert_history_mild cs : relates mild (on_history (UpsertLiveChannelsWithHistory cs)).
Proof.
  eapply (zoom_relates _ _ (fun h h' => (forall id, unended id (main h) -> unended id (main h')) /\
    b_sessions h' = b_sessions h)).
  - unfold UpsertLiveChannelsWithHistory. destruct cs as [|c cs]; [by intros e s|].
    apply relates_pool_exec; [split; [by intros ?|]|].
    { intros x y z [H1 E1] [H2 E2]. split; [auto|congruence]. }
    intros t d a d' E. injection E as E. apply (f_equal snd) in E. cbn [snd] in E. subst d'.
    rewrite upsert_numbered_main, upsert_numbered_sessions. split; [|done]. intros id. apply unended_upserts.
  - intros s h [H E]. split; simpl; [done|]. rewrite E. eauto.
Qed.
Lemma upsert_store_mild cs : relates mild (on_store (UpsertLiveChannels cs)).
Proof.
  eapply (zoom_relates _ _ (fun h h' => (forall id, unended id (main h) -> unended id (main h')) /\
    b_sessions h' = b_sessions h)).
  - eapply (zoom_relates _ _ (fun d d' => forall id, unended id d -> unended id d')).
    + unfold UpsertLiveChannels. destruct cs as [|c cs]; [by intros e s|].
      apply relates_pool_exec; [split; [by intros ?|intros x y z ? ?; auto]|].
      intros t d a d' [= <- <-]. intros id. apply unended_upserts.
    + intros h d H. done.
  - intros s h [H E]. split; simpl; [done|]. rewrite E. eauto.
Qed.

(** The numbers come back for the platform of the batch. *)
Lemma upsert_numbered_platform p now l acc : Forall (fun c => dc_Platform c = p) l ->
  Forall (fun r => ur_Platform r = p) acc.1 ->
  Forall (fun r => ur_Platform r = p) (fold_left (upsert_numbered now) l acc).1.
Proof.
  intros Hl. revert acc. induction Hl as [|c l Hc Hl IH]; intros [rs h] Hacc; [done|]. cbn [fold_left]. apply IH.
  unfold upsert_numbered. destruct (find_channel _ _ _) as [[? ?]|]; simpl; by apply Forall_app_2, Forall_singleton.
Qed.
Lemma upsert_history_platform p cs : Forall (fun c => dc_Platform c = p) cs ->
  yields (Forall (fun r => ur_Platform r = p)) (UpsertLiveChannelsWithHistory cs).
Proof.
  intros Hcs e s a s'. unfold UpsertLiveChannelsWithHistory. destruct cs as [|c cs].
  { intros [<- _]%ret_ok. done. }
  intros (now & d' & E & _)%pool_exec_ok. injection E as E. apply (f_equal fst) in E. cbn [fst] in E. subst a.
  apply upsert_numbered_platform; [|done]. apply Forall_forall. intros x Hx.
  apply dedup_spec in Hx as (pre & post & E' & _). rewrite E', Forall_app, Forall_cons in Hcs. tauto.
Qed.
