(* ===== verification/DiscoverRun.v ===== *)
(** One discovery cycle, step by step: it always returns, it ends only
    channels that are gone, and the emitter's invariant survives it. *)
From S2P Require Import Prelude GoLib GoText Tx Model Db.
From S2P Require Import Ownership Channels OptOut Redis ElectionInv Archive.
From S2P Require Import History Emitter EmitterInv Discover DiscoverInv.

Section Cycle.
Context (disc : PlatformDiscovery) `{!LawfulDiscovery disc} (instanceID : string) (allowlist : option allow).
Context (optouts : option cache) (token : Z) (ctx_done : nat -> bool).

Notation P := (@platform_name disc).
Notation active_of result := (map ch_ChannelID (List.filter (admitted disc allowlist optouts) (Channels_ result))).

Lemma has_prefix_split s p : has_prefix s p = true -> s = p +:+ str_drop (String.length p) s.
Proof.
  revert s. induction p as [|x p IH]; intros s; [done|]. destruct s as [|y s]; simpl; [done|].
  rewrite andb_true_iff. intros [->%Ascii.eqb_eq H]. by rewrite (IH s H) at 1.
Qed.

(** A tracked channel of the platform by the key of its state. *)
Lemma verdict_candidate active k s ec : ec ∈ (poll_verdict P active false (k, s)).2 ->
  k = stateKey P (ec_ChannelID ec) /\ ec_Platform ec = P /\ ec_StateKey ec = k /\
  ec_ChannelID ec ∉ active /\ 1 <= st_missedPolls s.
Proof.
  unfold poll_verdict. destruct (negb _) eqn:E1; [by intros ?%elem_of_nil|].
  destruct (existsb _ _) eqn:E2; [by intros ?%elem_of_nil|].
  destruct (_ <? 2) eqn:E3; [by intros ?%elem_of_nil|]. intros ->%list_elem_of_singleton. b2p. cbn.
  split_and!; try done; try lia.
  - apply has_prefix_split in E1. rewrite E1 at 1. unfold stateKey. by rewrite app_assoc_str.
  - intros Hin. apply not_true_iff_false in E2. apply E2, existsb_exists. eexists.
    split; [by apply list_elem_of_In|by apply String.eqb_eq].
Qed.

Lemma stateKey_has p c : has_prefix (stateKey p c) (p +:+ ":") = true.
Proof. unfold stateKey. rewrite <- app_assoc_str. apply has_prefix_app. Qed.
Lemma verdict_tracked active c s : c ∉ active ->
  c ∈ (poll_verdict P active false (stateKey P c, s)).1.2 \/
  (1 <= st_missedPolls s /\ MkEnded P c (stateKey P c) ∈ (poll_verdict P active false (stateKey P c, s)).2).
Proof.
  intros Hc. unfold poll_verdict. rewrite stateKey_rest, stateKey_has. cbn [negb].
  destruct (existsb _ _) eqn:E.
  { apply existsb_exists in E as (y & Hy & ->%String.eqb_eq). by apply list_elem_of_In in Hy. }
  destruct (_ <? 2) eqn:E3; cbn [fst snd]; [left|right]; [by apply list_elem_of_singleton|]. b2p. split; [lia|]. by apply list_elem_of_singleton.
Qed.

(** ** The candidates *)

(** Asked between two points of a run, the platform said it is over. *)
Definition denied (e : env) (from to_ : world dsite) (c : string) : Prop :=
  exists s2 s3, undisturbed (db from) (db s2) /\ (tick from <= tick s2)%nat /\ (tick s3 <= tick to_)%nat /\
    IsChannelLive c e s2 = (Ok false, s3).
Lemma denied_later e s s1 s' c : undisturbed (db s) (db s1) -> (tick s <= tick s1)%nat ->
  denied e s1 s' c -> denied e s s' c.
Proof. intros Hu Ht (s2 & s3 & ? & ? & ? & ?). exists s2, s3. split_and!; [by etrans|lia|done|done]. Qed.

Lemma check_run l kept verified confirmed e s r s' :
  check_candidates disc l kept verified confirmed e s = (r, s') ->
  exists kept' verified' confirmed', r = Ok (kept ++ kept', verified', confirmed ++ confirmed') /\ undisturbed (db s) (db s') /\
  (tick s <= tick s')%nat /\
  (forall ec, ec ∈ confirmed' -> ec ∈ l /\ denied e s s' (ec_ChannelID ec)) /\
  (forall ec, ec ∈ l -> ec ∈ confirmed' \/ ec_ChannelID ec ∈ kept').
Proof.
  revert kept verified confirmed s. induction l as [|ec l IH]; intros kept verified confirmed s H; cbn [check_candidates] in H.
  { injection H as <- <-. exists [], verified, []. rewrite !app_nil_r. split_and!; try done; set_solver. }
  unfold mbind, M_bind, try in H.
  pose proof (live_undisturbed (ec_ChannelID ec) e s) as Hu. pose proof (live_forward (ec_ChannelID ec) e s) as Hf.
  destruct (IsChannelLive (ec_ChannelID ec) e s) as [[[|]|x] s1] eqn:El; cbn [snd] in Hu, Hf;
    apply IH in H as (k' & v' & c' & -> & Hu' & Hf' & H1 & H2);
    assert (forall ec', ec' ∈ c' -> ec' ∈ ec :: l /\ denied e s s' (ec_ChannelID ec')) as H1'
      by (intros ec' Hin; destruct (H1 _ Hin); split; [by right|by eapply denied_later]).
  - exists (ec_ChannelID ec :: k'), v', c'. rewrite <- app_assoc. split_and!; [done|by etrans|lia|done|].
    intros ec' [->|Hin]%elem_of_cons; [set_solver|]. destruct (H2 _ Hin); set_solver.
  - exists k', v', (ec :: c'). rewrite <- app_assoc. split_and!; [done|by etrans|lia| |].
    + intros ec' [->|Hin]%elem_of_cons; [|by apply H1']. split; [left|]. by exists s, s1.
    + intros ec' [->|Hin]%elem_of_cons; [set_solver|]. destruct (H2 _ Hin); set_solver.
  - exists (ec_ChannelID ec :: k'), v', c'. rewrite <- app_assoc. split_and!; [done|by etrans|lia|done|].
    intros ec' [->|Hin]%elem_of_cons; [set_solver|]. destruct (H2 _ Hin); set_solver.
Qed.

(** A tracked channel was missed before, and the platform denies it. *)
Definition lapsed (over : string -> Prop) (em : emitter) (c : string) (s : channelState) : Prop :=
  states em !! stateKey P c = Some s /\ 1 <= st_missedPolls s /\ over c.

(** The emitters of two cycle states track the same sessions. *)
Definition same_tracked (em em' : emitter) : Prop :=
  forall k s', states em' !! k = Some s' -> exists s, states em !! k = Some s /\ st_sessionSeq s' = st_sessionSeq s.

Lemma verdict_seq p active partial k s : st_sessionSeq (poll_verdict p active partial (k, s)).1.1 = st_sessionSeq s.
Proof. unfold poll_verdict. repeat case_match; done. Qed.

Lemma validate_run em active e s :
  exists em' kept confirmed s', (let '(em, kept, ended) := DetectEndedChannels P active false em in
    validateEndedCandidates disc kept ended em) e s = (Ok (kept, confirmed, em'), s') /\
  undisturbed (db s) (db s') /\ (tick s <= tick s')%nat /\ (forall c, c ∈ active -> c ∈ kept) /\ same_tracked em em' /\
  (forall t, em_ok t None em -> em_ok t None em') /\
  (forall ec, ec ∈ confirmed -> ec_Platform ec = P /\ ec_StateKey ec = stateKey P (ec_ChannelID ec) /\
     ec_ChannelID ec ∉ active /\ exists st, lapsed (denied e s s') em (ec_ChannelID ec) st) /\
  (forall c st, states em !! stateKey P c = Some st -> c ∉ kept -> lapsed (denied e s s') em c st).
Proof.
  destruct (detect_spec P active false em) as (em1 & keptD & ended & ED & _ & _ & Hst & Hkept & Hended).
  assert (forall t, em_ok t None em -> em_ok t None em1) as Hok.
  { intros t Hem. pose proof (detect_ok t P active false em Hem) as H. by rewrite ED in H. }
  rewrite ED. unfold validateEndedCandidates.
  destruct (check_candidates disc ended (active ++ keptD) [] [] e s) as [r s'] eqn:Ec.
  apply check_run in Ec as Hc. destruct Hc as (k' & v' & c' & -> & Hu & Hf & H1 & H2).
  eexists (ResetMissedPolls P v' em1), _, c', s'. unfold mbind, M_bind. rewrite Ec. cbn [app]. split; [done|].
  assert (same_tracked em (ResetMissedPolls P v' em1)) as Hsame.
  { intros k s1. destruct (reset_states P v' em1 k) as (f & Hff & -> & _). rewrite Hst.
    intros (y & (x & -> & ->)%fmap_Some & ->)%fmap_Some. exists x. split; [done|].
    destruct (Hff (poll_verdict P active false (k, x)).1.1) as [-> | ->]; cbn [set_missed st_sessionSeq]; apply verdict_seq. }
  split_and!; [done|done| |done| | |].
  - intros c Hc. rewrite !elem_of_app. auto.
  - intros t Hem. apply reset_ok; auto.
  - intros ec Hin. destruct (H1 _ Hin) as (Hin' & Hdeny). apply Hended in Hin' as (k & st & Hk & Hv).
    apply verdict_candidate in Hv as (-> & Hp & Hkey & Hna & Hm). split_and!; [done|done|done|].
    exists st. by split_and!.
  - intros c st Hk Hc. rewrite !elem_of_app in Hc.
    destruct (verdict_tracked active c st) as [Hin|[Hm Hin]]; [set_solver| |].
    { exfalso. apply Hc. left. right. apply Hkept. eauto. }
    assert (MkEnded P c (stateKey P c) ∈ ended) as He by (apply Hended; eauto).
    destruct (H2 _ He) as [Hin'|Hin']; [|exfalso; apply Hc; by right].
    destruct (H1 _ Hin') as (_ & Hd). by split_and!.
Qed.

(** ** The steps of a cycle *)

Definition clock_forward (e : env) : Prop := forall n m, (n <= m)%nat -> wall e n <= wall e m.

(** The emitter of a cycle goes through a step with its invariant. *)
Definition carries (e : env) (s s' : world dsite) (c c' : cycle_state) : Prop :=
  (cy_emitter c = None -> cy_emitter c' = None) /\
  forall em, cy_emitter c = Some em -> exists em', cy_emitter c' = Some em' /\
    (clock_forward e -> em_ok (wall e (tick s)) None em -> em_ok (wall e (tick s')) None em').

Lemma carries_refl e s s' c : (tick s <= tick s')%nat -> carries e s s' c c.
Proof. intros Ht. split; [done|]. intros em Hem. exists em. split; [done|]. intros Hc. apply em_later, Hc, Ht. Qed.
Lemma carries_trans e s1 s2 s3 c1 c2 c3 : carries e s1 s2 c1 c2 -> carries e s2 s3 c2 c3 -> carries e s1 s3 c1 c3.
Proof.
  intros [N1 S1] [N2 S2]. split; [auto|]. intros em Hem. destruct (S1 em Hem) as (em2 & E2 & H2).
  destruct (S2 em2 E2) as (em3 & E3 & H3). eauto.
Qed.

(** At this point of the run Redis answers that the leader's token holds. *)
Definition validated (e : env) (s s' : world dsite) : Prop :=
  on_redis (ValidateLeaderLease leader_key token) e s = (Ok true, s').

Lemma lease_run e s r s' : requireLease token e s = (r, s') ->
  exists b, r = Ok b /\ undisturbed (db s) (db s') /\ (tick s <= tick s')%nat /\
    (b = true -> validated e s s').
Proof.
  intros H. pose proof (requireLease_undisturbed token e s) as Hu.
  assert (forward (requireLease token)) as Hf.
  { unfold requireLease. apply forward_bind; [|intros; frame_solve]. apply forward_try, zoom_forward.
    unfold ValidateLeaderLease. apply forward_bind; [apply forward_eval|]. intros [[]|]; frame_solve. }
  assert (never_fails (requireLease token)) as Hn by (unfold requireLease; auto with collector).
  specialize (Hf e s). destruct (Hn e s) as (b & s1 & E). rewrite H in Hf, Hu, E. simplify_eq.
  exists b. split_and!; [done|done|done|]. intros ->. revert H. unfold validated, requireLease, mbind, M_bind, try.
  destruct (on_redis _ e s) as [[[|]|x] s2]; intros [= <-]; done.
Qed.

Lemma after_error_run c e s r s' : after_error ctx_done c e s = (r, s') -> exists b, r = Ok (Some b, c) /\ s' = s.
Proof. unfold after_error, cancelled, mbind, M_bind. intros [= <- <-]. eauto. Qed.

Lemma process_forward disc' t l em : forward (process_all instanceID P disc' t l em).
Proof.
  revert em. induction l as [|r l IH]; intros em; cbn [process_all]; [frame_solve|].
  apply forward_bind; [|done]. unfold process_one, start_tracking, keep_tracking, renew_metadata,
    InsertSession, InsertMetadata, CloseMetadata, UpdateSessionLastSeen. frame_solve.
Qed.
Lemma process_fails disc' t l em : never_fails (process_all instanceID P disc' t l em).
Proof.
  revert em. induction l as [|r l IH]; intros em; cbn [process_all]; [auto with collector|].
  apply never_fails_bind; [|done]. unfold process_one, start_tracking, keep_tracking, renew_metadata.
  repeat (case_match || apply never_fails_ret || (apply never_fails_bind; [|intros]) || apply never_fails_try).
Qed.
Lemma commit_forward t l em : forward (commit_all instanceID t l em).
Proof.
  revert em. induction l as [|ec l IH]; intros em; cbn [commit_all]; [frame_solve|].
  case_match; [|done]. apply forward_bind; [unfold CloseSession; frame_solve|]. intros [?|?]; [|done].
  case_match. apply IH.
Qed.
Lemma commit_fails t l em : never_fails (commit_all instanceID t l em).
Proof.
  revert em. induction l as [|ec l IH]; intros em; cbn [commit_all]; [auto with collector|].
  case_match; [|done]. apply never_fails_bind; [apply never_fails_try|]. intros [?|?]; [|done].
  case_match. apply IH.
Qed.

Lemma discovered_map_in l c ch : discovered_map l !! c = Some ch -> c ∈ map ch_ChannelID l.
Proof.
  assert (forall m : gmap string DiscoveredChannel, fold_left (fun m ch => <[ch_ChannelID ch := ch]> m) l m !! c = Some ch ->
    c ∈ map ch_ChannelID l \/ m !! c = Some ch) as H.
  { induction l as [|x l IH]; intros m; cbn [fold_left map]; [by right|].
    intros [Hin|Hm]%IH; [left; by right|]. apply lookup_insert_Some in Hm as [[<- _]|[_ Hm]]; [left; left|by right]. }
  intros [Hin|Hm]%H; [done|]. by apply lookup_empty_Some in Hm.
Qed.

Lemma history_forward {A} (m : Mhist A) : forward m -> forward (on_history m).
Proof. apply zoom_forward. Qed.
Lemma store_forward {A} (m : Mdb A) : forward m -> forward (on_store m).
Proof. intros H. apply history_forward, zoom_forward, H. Qed.

(** The emitter takes in the channels of a poll. *)
Lemma poll_run results channels em e s r s' : Forall (fun r => ur_Platform r = P) results ->
  on_history (ProcessDiscovered instanceID P results (discovered_map channels) em) e s = (r, s') ->
  exists em', r = Ok em' /\ mild (db s) (db s') /\ (tick s <= tick s')%nat /\
    (forall c, c ∉ map ch_ChannelID channels -> states em' !! stateKey P c = states em !! stateKey P c) /\
    (clock_forward e -> em_ok (wall e (tick s)) None em -> em_ok (wall e (tick s')) None em').
Proof.
  intros Hp H.
  assert (mild (db s) (db s')) as Hm.
  { pose proof (on_history_mild (ProcessDiscovered instanceID P results (discovered_map channels) em)) as Hm.
    specialize (Hm (relates_bind _ _ _ (relates_quiet _ _ quiet_now) (fun t => process_closes _ _ _ _ t _ _)) e s).
    by rewrite H in Hm. }
  apply zoom_run in H as (w & H & Et & Ed). unfold ProcessDiscovered, mbind, M_bind in H. cbn [time_now] in H.
  set (s0 := bump _) in H. set (now := wall e _) in H.
  pose proof (process_forward (discovered_map channels) now results em e s0) as Hf.
  destruct (process_fails (discovered_map channels) now results em e s0) as (em' & w' & E).
  rewrite E in Hf, H. injection H as <- <-. subst s0 now. cbn [tick bump snd] in *.
  exists em'. split_and!; [done|done|lia| |].
  - intros c Hc. eapply (process_other _ _ _ _ _ _ (stateKey P c)); [|exact E].
    intros r1 ch Hr Hd Heq. rewrite Forall_forall in Hp. rewrite (Hp r1 Hr) in Heq.
    apply stateKey_same in Heq as ->. by apply discovered_map_in in Hd.
  - intros Hc Hem. eapply em_later; [apply Hc|]; [|eapply process_ok; [apply lawful_platform|exact Hp|exact Hem|exact E]]. lia.
Qed.

Lemma upsert_step_run channels c e s r s' :
  upsert_step disc instanceID token ctx_done channels c e s = (r, s') ->
  exists stop c', r = Ok (stop, c') /\ mild (db s) (db s') /\ (tick s <= tick s')%nat /\ carries e s s' c c' /\
    forall em em' ch, cy_emitter c = Some em -> cy_emitter c' = Some em' -> ch ∉ map ch_ChannelID channels ->
      states em' !! stateKey P ch = states em !! stateKey P ch.
Proof.
  unfold upsert_step. unfold mbind at 1, M_bind at 1. destruct (requireLease token e s) as [r1 s1] eqn:E1.
  apply lease_run in E1 as (b & -> & Hu%undisturbed_mild & Ht & _). destruct b; cbn [negb].
  2:{ intros [= <- <-]. eexists _, c. split_and!; [done|done|done|by apply carries_refl|]. intros. congruence. }
  destruct (cy_emitter c) as [em|] eqn:Ec; unfold mbind at 1, M_bind at 1, try.
  - pose proof (upsert_history_mild (map (to_live disc) channels) e s1) as Hm.
    assert (forward (on_history (UpsertLiveChannelsWithHistory (map (to_live disc) channels)))) as Hf.
    { apply history_forward. unfold UpsertLiveChannelsWithHistory. frame_solve. }
    assert (yields (Forall (fun r => ur_Platform r = P))
      (on_history (UpsertLiveChannelsWithHistory (map (to_live disc) channels)))) as Hy.
    { apply zoom_yields, upsert_history_platform. by apply Forall_map, Forall_true. }
    specialize (Hf e s1). specialize (Hy e s1).
    destruct (on_history _ e s1) as [[results|x] s2] eqn:E2; cbn [snd] in *.
    + unfold mbind, M_bind. destruct (on_history _ e s2) as [r3 s3] eqn:E3. intros H.
      apply poll_run in E3 as (em' & -> & Hm3 & Ht3 & Hs3 & Hok3); [|by eapply Hy].
      injection H as <- <-. eexists None, _. split_and!; [done| |lia| |].
      * by etrans; [exact Hu|etrans].
      * split; [congruence|]. intros em0 Hem0. rewrite Ec in Hem0. injection Hem0 as <-. exists em'. split; [done|]. intros Hc Hem. apply Hok3; [done|].
        eapply em_later; [|exact Hem]. apply Hc. lia.
      * intros em0 em1 ch He0 He1. simplify_eq/=. apply Hs3.
    + intros (b & -> & ->)%after_error_run. eexists _, c. split_and!; [done|by etrans|lia|apply carries_refl; lia|]. congruence.
  - pose proof (upsert_store_mild (map (to_live disc) channels) e s1) as Hm.
    assert (forward (on_store (UpsertLiveChannels (map (to_live disc) channels)))) as Hf.
    { apply store_forward. unfold UpsertLiveChannels. frame_solve. }
    specialize (Hf e s1).
    destruct (on_store _ e s1) as [[u|x] s2] eqn:E2; cbn [snd] in *.
    + intros [= <- <-]. eexists None, c. split_and!; [done|by etrans|lia|apply carries_refl; lia|]. congruence.
    + intros (b & -> & ->)%after_error_run. eexists _, c. split_and!; [done|by etrans|lia|apply carries_refl; lia|]. congruence.
Qed.

(** ** The end of a cycle *)

(** What the cycle may end: channels of the platform outside [active]; a
    tracked one only when it lapsed. *)
Definition endable (over : string -> Prop) (active : list string) (o : option emitter) (c : string) : Prop :=
  c ∉ active /\ forall em st, o = Some em -> states em !! stateKey P c = Some st -> lapsed over em c st.
Definition ends_only (over : string -> Prop) (active : list string) (o : option emitter) (s s' : dsite) : Prop :=
  (forall id r, unended id (main (pg s)) -> live (main (pg s')) !! id = Some r -> is_ended r = true ->
     lc_platform r = P /\ endable over active o (lc_channel r)) /\
  (forall k x, b_sessions (pg s) !! k = Some x -> exists x', b_sessions (pg s') !! k = Some x' /\
     (hs_ended_at x' = hs_ended_at x \/
      exists em c st, o = Some em /\ c ∉ active /\ lapsed over em c st /\ of_number P c (st_sessionSeq st) k)).

Lemma mild_ends_only e active o s s' : mild s s' -> ends_only e active o s s'.
Proof.
  intros [H1 H2]. split.
  - intros id r Hun Hr He. apply H1 in Hun. rewrite (Hun r Hr) in He. done.
  - intros k x Hk. destruct (H2 k x Hk) as (x' & ? & ?). eauto.
Qed.
Lemma ends_only_after e active o s1 s2 s3 : mild s1 s2 -> ends_only e active o s2 s3 -> ends_only e active o s1 s3.
Proof.
  intros [H1 H2] [H3 H4]. split; [eauto|]. intros k x Hk. destruct (H2 k x Hk) as (y & Hy & Ey).
  destruct (H4 k y Hy) as (z & Hz & Ez). rewrite Ey in Ez. eauto.
Qed.
Lemma ends_only_before e active o s1 s2 s3 : ends_only e active o s1 s2 -> closes nothing (pg s2) (pg s3) ->
  ends_only e active o s1 s3.
Proof.
  intros [H1 H2] [E H3]. split; [by rewrite E|]. intros k x Hk. destruct (H2 k x Hk) as (y & Hy & Ey).
  destruct (H3 k y Hy) as (z & Hz & [Ez|[]]). exists z. by rewrite Ez.
Qed.

Lemma candidates_run active c e s r s' : ended_candidates disc active c e s = (r, s') ->
  exists kept confirmed c', r = Ok (kept, confirmed, c') /\ undisturbed (db s) (db s') /\ (tick s <= tick s')%nat /\
    carries e s s' c c' /\ (forall ch, ch ∉ kept -> endable (denied e s s') active (cy_emitter c) ch) /\
    (forall em em' ec st', cy_emitter c = Some em -> cy_emitter c' = Some em' -> ec ∈ confirmed ->
       states em' !! ec_StateKey ec = Some st' -> exists st, ec_Platform ec = P /\ ec_ChannelID ec ∉ active /\
         lapsed (denied e s s') em (ec_ChannelID ec) st /\ st_sessionSeq st' = st_sessionSeq st) /\
    (forall em', cy_emitter c' = Some em' -> Forall (fun ec => platform_is_valid (ec_Platform ec) = true /\
       ec_StateKey ec = stateKey (ec_Platform ec) (ec_ChannelID ec)) confirmed).
Proof.
  unfold ended_candidates. destruct (cy_emitter c) as [em|] eqn:Ec.
  2:{ intros [= <- <-]. exists active, [], c. split_and!; [done|done|done|by apply carries_refl|by split|by intros|].
      intros em' He. congruence. }
  intros H. destruct (validate_run em active e s) as (em' & kept & confirmed & s1 & E & Hu & Ht & Ha & Hs & Hok & Hconf & Hl).
  destruct (DetectEndedChannels P active false em) as [[em1 kd] ended] eqn:ED.
  unfold mbind, M_bind in H. rewrite E in H. injection H as <- <-.
  eexists kept, confirmed, _. split_and!; [done|done|done| | | |].
  - split; [congruence|]. intros em0 He0. rewrite Ec in He0. injection He0 as <-. exists em'. split; [done|].
    intros Hc Hem. eapply em_later; [|by apply Hok]. by apply Hc.
  - intros ch Hch. split; [auto|]. intros em0 st [= <-] Hst. by apply Hl.
  - intros em0 em2 ec st' [= <-] [= <-] Hin Hst'. destruct (Hconf ec Hin) as (Hp & Hk & Hna & st & Hlap).
    exists st. split_and!; try done. destruct (Hs _ _ Hst') as (st2 & Hst2 & ->).
    destruct Hlap as (Hst & _ & _). rewrite Hk in Hst2. congruence.
  - intros em2 _. apply Forall_forall. intros ec Hin. destruct (Hconf ec Hin) as (Hp & Hk & _).
    rewrite Hp. split; [apply lawful_platform|done].
Qed.

Lemma mark_run kept e s r s' : on_store (MarkEndedChannels P kept) e s = (r, s') ->
  (tick s <= tick s')%nat /\ b_sessions (pg (db s')) = b_sessions (pg (db s)) /\
  forall id x, unended id (main (pg (db s))) -> live (main (pg (db s'))) !! id = Some x -> is_ended x = true ->
    lc_platform x = P /\ lc_channel x ∉ kept.
Proof.
  intros H. assert (forward (on_store (MarkEndedChannels P kept))) as Hf.
  { apply store_forward. unfold MarkEndedChannels. frame_solve. }
  specialize (Hf e s). rewrite H in Hf. split; [done|].
  apply zoom_run in H as (w & H & _ & ->). apply zoom_run in H as (w' & H & _ & Ew). rewrite Ew. cbn.
  split; [done|]. unfold MarkEndedChannels in H. apply pool_exec_after in H as [_ [[-> _]|(a & d & [= _ <-] & -> & _)]]; cbn.
  - intros id x Hun Hx He. by rewrite (Hun x Hx) in He.
  - intros id x Hun Hx He. rewrite lookup_update_where in Hx.
    apply fmap_Some in Hx as (y & Hy & ->). destruct (ends P kept y) eqn:Ey.
    + unfold ends, on_platform in Ey. b2p. cbn. split; [done|]. intros Hin.
      apply not_true_iff_false in H0. apply H0, existsb_exists. eexists.
      split; [by apply list_elem_of_In|by apply String.eqb_eq].
    + by rewrite (Hun y Hy) in He.
Qed.

Lemma end_step_run active c e s r s' :
  end_step disc instanceID token ctx_done active c e s = (r, s') ->
  exists stop c', r = Ok (stop, c') /\ (tick s <= tick s')%nat /\ carries e s s' c c' /\
    (mild (db s) (db s') \/ exists x s2 s3,
       ended_candidates disc active c e s = (Ok x, s2) /\ validated e s2 s3 /\ (tick s3 <= tick s')%nat /\
       mild (db s) (db s3) /\ ends_only (denied e s s2) active (cy_emitter c) (db s) (db s')).
Proof.
  unfold end_step. unfold mbind at 1, M_bind at 1. destruct (ended_candidates disc active c e s) as [r1 s1] eqn:E1.
  apply candidates_run in E1 as (kept & confirmed & c1 & -> & Hu1 & Ht1 & Hc1 & Hkept & Hconf & Hval).
  unfold mbind at 1, M_bind at 1. destruct (requireLease token e s1) as [r2 s2] eqn:E2.
  apply lease_run in E2 as (b & -> & Hu2 & Ht2 & Hv2).
  assert (mild (db s) (db s2)) as Hm2 by (etrans; by apply undisturbed_mild).
  assert (carries e s s2 c c1) as Hc2 by (eapply carries_trans; [done|by apply carries_refl]).
  destruct b; cbn [negb].
  2:{ intros [= <- <-]. eexists _, c1. split_and!; [done|lia|done|by left]. }
  specialize (Hv2 eq_refl).
  assert (forall s', (tick s2 <= tick s')%nat -> ends_only (denied e s s1) active (cy_emitter c) (db s) (db s') ->
    exists x s2 s3, (Ok (kept, confirmed, c1), s1) = (Ok x, s2) /\ validated e s2 s3 /\ (tick s3 <= tick s')%nat /\
      mild (db s) (db s3) /\ ends_only (denied e s s2) active (cy_emitter c) (db s) (db s')) as Hval2.
  { intros s5 Hn Hends. exists (kept, confirmed, c1), s1, s2. by split_and!. }
  unfold mbind at 1, M_bind at 1, try. destruct (on_store _ e s2) as [r3 s3] eqn:E3.
  apply mark_run in E3 as (Ht3 & Hb3 & Hl3).
  assert (ends_only (denied e s s1) active (cy_emitter c) (db s) (db s3)) as Hends.
  { eapply ends_only_after; [done|]. split.
    - intros id x Hun Hx He. destruct (Hl3 id x Hun Hx He) as [? ?]. auto.
    - intros k x Hk. exists x. rewrite Hb3. auto. }
  assert (carries e s s3 c c1) as Hc3 by (eapply carries_trans; [done|by apply carries_refl]).
  destruct r3 as [ids|x].
  2:{ intros (b & -> & ->)%after_error_run. eexists _, c1. split_and!; [done|lia|done|]. right. apply Hval2; [lia|done]. }
  cbn [cy_emitter]. destruct (cy_emitter c1) as [em1|] eqn:Ec1.
  2:{ intros [= <- <-]. eexists _, _. split_and!; [done|lia| |right; apply Hval2; [lia|done]].
      destruct Hc3 as [N S]. split; [done|]. intros em Hem. destruct (S em Hem) as (em' & He' & _). congruence. }
  unfold mbind, M_bind. destruct (on_history _ e s3) as [r4 s4] eqn:E4.
  apply zoom_run in E4 as (w & H & Et & Ed). unfold CommitEnded, mbind, M_bind in H. cbn [time_now] in H.
  set (s0 := bump _) in H. set (now := wall e _) in H.
  pose proof (commit_forward now confirmed em1 e s0) as Hf.
  pose proof (commit_closes instanceID _ now confirmed em1 (fun k Hk => Hk) e s0) as Hcl.
  destruct (commit_fails now confirmed em1 e s0) as (em' & w' & E).
  rewrite E in Hf, Hcl, H. injection H as <- <-. subst s0 now. cbn [tick bump snd db] in *.
  intros [= <- <-]. eexists _, _. split_and!; [done|lia| |].
  - destruct Hc3 as [N S]. split; [intros He; by apply N in He; congruence|].
    intros em Hem. destruct (S em Hem) as (em2 & He2 & Hok). simplify_eq. exists em'. split; [done|].
    intros Hc Hem0. eapply em_later; [apply Hc|eapply commit_ok; [by eapply Hval|by apply Hok|exact E]]. lia.
  - right. apply Hval2; [lia|]. destruct Hends as [H1 H2]. destruct Hcl as [Hmain Hcl]. rewrite Ed. split; cbn [pg].
    + rewrite Hmain. done.
    + intros k x Hk. destruct (H2 k x Hk) as (y & Hy & Ey). destruct (Hcl k y Hy) as (z & Hz & [Ez|Hz']).
      { exists z. by rewrite Ez. }
      exists z. split; [done|]. right. destruct Hz' as (ec & st' & Hin & Hst' & Hn).
      destruct (cy_emitter c) as [em|] eqn:Ec.
      2:{ destruct Hc3 as [N _]. rewrite N in Ec1; done. }
      destruct (Hconf em em1 ec st') as (st & Hp & Hna & Hlap & Hseq); [done..|].
      exists em, (ec_ChannelID ec), st. rewrite <- Hseq, <- Hp. by split_and!.
Qed.

(** ** The cycle *)

Lemma partial_carries e s s' active c : (tick s <= tick s')%nat -> carries e s s' c (partial_step disc active c).
Proof.
  intros Ht. unfold partial_step. destruct (cy_emitter c) as [em|] eqn:Ec.
  - split; [congruence|]. intros em0 He0. rewrite Ec in He0. injection He0 as <-. eexists. split; [done|].
    intros Hc Hem. eapply em_later; [apply Hc, Ht|by apply detect_ok].
  - by apply carries_refl.
Qed.

Lemma cycle_run c e s r s' :
  runDiscoveryCycle disc instanceID allowlist optouts token ctx_done c e s = (r, s') ->
  exists b c', r = Ok (b, c') /\ carries e s s' c c' /\ (tick s <= tick s')%nat /\
    (mild (db s) (db s') \/
     exists result s1 c2 s2 x s3 s4, FetchLiveChannels e s = (Ok result, s1) /\ Partial result = false /\ token <> 0 /\
       upsert_step disc instanceID token ctx_done (List.filter (admitted disc allowlist optouts) (Channels_ result))
         (CycleState (cy_emitter c) 0 (cy_notified c)) e s1 = (Ok (None, c2), s2) /\
       ended_candidates disc (active_of result) c2 e s2 = (Ok x, s3) /\ validated e s3 s4 /\ (tick s4 <= tick s')%nat /\
       mild (db s) (db s4) /\ ends_only (denied e s2 s3) (active_of result) (cy_emitter c) (db s) (db s')).
Proof.
  unfold runDiscoveryCycle. destruct (token =? 0) eqn:Etok; b2p.
  { intros [= <- <-]. eexists _, _. split_and!; [done|by apply carries_refl|done|by left]. }
  unfold mbind at 1, M_bind at 1, try. pose proof (fetch_undisturbed e s) as Hu. pose proof (fetch_forward e s) as Hf.
  destruct (FetchLiveChannels e s) as [[result|x] s1]; cbn [snd] in *.
  2:{ unfold cancelled, mbind, M_bind. intros [= <- <-].
      exists (negb (ctx_done (tick s1))), (if ctx_done (tick s1) then c else CycleState (cy_emitter c) (cy_failures c + 1) (cy_notified c)).
      split_and!; [by destruct (ctx_done _)|destruct (ctx_done _); exact (carries_refl e s s1 c Hf)|done|left; by apply undisturbed_mild]. }
  set (c0 := CycleState _ _ _). assert (cy_emitter c0 = cy_emitter c) as Ec0 by done.
  unfold mbind at 1, M_bind at 1. destruct (upsert_step _ _ _ _ _ _ e s1) as [r2 s2] eqn:E2.
  pose proof E2 as Eup. apply upsert_step_run in E2 as (stop & c2 & -> & Hm2 & Ht2 & Hc2 & Hother).
  assert (mild (db s) (db s2)) as Hm by (etrans; [by apply undisturbed_mild|done]).
  assert (carries e s s2 c c2) as Hc by (eapply (carries_trans _ s s1 s2 c c0); [exact (carries_refl e s s1 c Hf)|done]).
  destruct stop as [b|].
  { intros [= <- <-]. eexists _, _. split_and!; [done|done|lia|by left]. }
  destruct (Partial result) eqn:Ep.
  { intros [= <- <-]. eexists _, _. split_and!; [done| |lia|by left].
    eapply carries_trans; [done|by apply partial_carries]. }
  unfold mbind, M_bind. destruct (end_step _ _ _ _ _ _ e s2) as [r3 s3] eqn:E3.
  apply end_step_run in E3 as (stop & c3 & -> & Ht3 & Hc3 & Hend). intros [= <- <-].
  eexists _, _. split_and!; [done|by eapply carries_trans|lia|].
  destruct Hend as [Hend|(cand & s4 & s5 & Hcand & Hv & Ht5 & Hm5 & Hend)]; [left; by etrans|right].
  exists result, s1, c2, s2, cand, s4, s5. split_and!; [done|done|done|exact Eup|done|done|done|by etrans|].
  assert (forall em2 ch st, cy_emitter c2 = Some em2 -> ch ∉ active_of result -> lapsed (denied e s2 s4) em2 ch st ->
    exists em, cy_emitter c = Some em /\ lapsed (denied e s2 s4) em ch st) as Hback.
  { intros em2 ch st He2 Hch (Hst & Hm' & Hd). destruct (cy_emitter c) as [em|] eqn:Ec.
    - exists em. split; [done|]. split_and!; try done. rewrite <- Hst. symmetry. by apply (Hother em em2).
    - destruct Hc2 as [N _]. rewrite N in He2; done. }
  eapply ends_only_after; [exact Hm|]. destruct Hend as [H1 H2]. split.
  - intros id x Hun Hx He. destruct (H1 id x Hun Hx He) as (Hp & Hna & Hl). split; [done|]. split; [done|].
    intros em st Hem Hst. destruct Hc2 as [_ S]. rewrite <- Ec0 in Hem. destruct (S em Hem) as (em2 & He2 & _).
    rewrite <- (Hother em em2 _ Hem He2 Hna) in Hst.
    destruct (Hback em2 _ st He2 Hna (Hl em2 st He2 Hst)) as (em' & He' & Hlap). congruence.
  - intros k x Hk. destruct (H2 k x Hk) as (y & Hy & [Ey|(em2 & ch & st & He2 & Hna & Hlap & Hn)]); [eauto|].
    exists y. split; [done|]. right. destruct (Hback em2 ch st He2 Hna Hlap) as (em & He & Hlap').
    exists em, ch, st. by split_and!.
Qed.
End Cycle.
