(* ===== verification/DiscoverProps.v ===== *)
(** What the discover service guarantees: a cycle ends only what is gone, and
    the viewer history it hands over is well formed. *)
From S2P Require Import Prelude GoLib GoText Tx Model Db.
From S2P Require Import Ownership Channels OptOut Redis Archive.
From S2P Require Import History Emitter EmitterInv Discover DiscoverInv DiscoverRun.

(** ** Ending channels *)

Definition active_ids (disc : PlatformDiscovery) (allowlist : option allow) (optouts : option cache)
    (result : DiscoveryResult) : list string :=
  map ch_ChannelID (List.filter (admitted disc allowlist optouts) (Channels_ result)).

(** C6: a discovery cycle always returns, and it ends live channels and closes
    sessions only at the end of a complete poll, after the emitter took the
    poll in and the platform was asked about the candidates, and after Redis
    then confirmed the leader's token: up to there nothing was ended. What is
    ended are channels of the platform that are not among those the poll found
    and the allowlist and the opt-outs admit; when the emitter tracks such a
    channel, an earlier poll missed it too and the platform, asked about the
    candidates in this cycle, denied that it is live. Sessions are closed under
    the tracked number of such a channel only. *)
Theorem cycle_ends_only_gone (disc : PlatformDiscovery) `{!LawfulDiscovery disc} id allowlist optouts token ctx c e s r s' :
  runDiscoveryCycle disc id allowlist optouts token ctx c e s = (r, s') ->
  (exists b c', r = Ok (b, c')) /\
  (mild (db s) (db s') \/
   exists result s1 c2 s2 x s3 s4,
     FetchLiveChannels e s = (Ok result, s1) /\ Partial result = false /\ token <> 0 /\
     let active := active_ids disc allowlist optouts result in
     upsert_step disc id token ctx (List.filter (admitted disc allowlist optouts) (Channels_ result))
       (CycleState (cy_emitter c) 0 (cy_notified c)) e s1 = (Ok (None, c2), s2) /\
     ended_candidates disc active c2 e s2 = (Ok x, s3) /\
     validated token e s3 s4 /\ (tick s4 <= tick s')%nat /\ mild (db s) (db s4) /\
     ends_only disc (denied disc e s2 s3) active (cy_emitter c) (db s) (db s')).
Proof.
  intros H. apply cycle_run in H as (b & c' & -> & _ & _ & [?|Hend]); [by eauto| |done].
  split; [eauto|]. right. destruct Hend as (result & s1 & c2 & s2 & x & s3 & s4 & Hend).
  by exists result, s1, c2, s2, x, s3, s4.
Qed.

(** ** The viewer history *)

Section Runs.
Context (e : env).

(** The emitter's life beside the database: cycles, taking over and losing
    the leadership, a ClickHouse writer coming and going, everything the other
    processes do. *)
Inductive dstep : world dsite * emitter -> world dsite * emitter -> Prop :=
| d_cycle disc id allowlist optouts token ctx c s em b c' s' em' : LawfulDiscovery disc ->
    cy_emitter c = Some em ->
    runDiscoveryCycle disc id allowlist optouts token ctx c e s = (Ok (b, c'), s') ->
    cy_emitter c' = Some em' -> dstep (s, em) (s', em')
| d_recover s em r s' : on_history (RecoverState em) e s = (r, s') ->
    dstep (s, em) (s', match r with Ok em' => em' | Err _ => em end)
| d_flush id s em em' s' : on_history (FlushAll id em) e s = (Ok em', s') -> dstep (s, em) (s', em')
| d_writer w s em : dstep (s, em) (s, SetCHWriter w em)
| d_other s s' em : (tick s <= tick s')%nat -> dstep (s, em) (s', em).

Hypothesis clocks : clock_forward e.

Lemma recover_keeps em s r s' : RecoverState em e s = (r, s') -> em_ok (wall e (tick s)) None em ->
  em_ok (wall e (tick s')) None (match r with Ok em' => em' | Err _ => em end).
Proof.
  intros H Hem. assert (forall n l em, forward (recover_all n l em)) as Hfa.
  { intros n l. induction l as [|x l IH]; intros em0; cbn [recover_all]; [frame_solve|].
    apply forward_bind; [|done]. unfold recover_one, CloseSession, GetCurrentMetadataHash, GetChannelViewerCount,
      MarkSessionGap. case_match; [frame_solve|]. apply forward_bind; [frame_solve|]. intros h.
    apply forward_bind; [frame_solve|]. intros v. case_match; frame_solve. }
  assert (forward (RecoverState em)) as Hf.
  { unfold RecoverState, CloseOrphanedSessions, ListOpenSessions. frame_solve. }
  assert ((tick s <= tick s')%nat) as Ht by (specialize (Hf e s); by rewrite H in Hf).
  destruct r as [em'|x]; [|by eapply em_later; [apply clocks|]].
  unfold RecoverState in H. apply bind_ok in H as (n & s1 & H1 & H). apply bind_ok in H as (l & s2 & H2 & H).
  apply bind_ok in H as (now & s3 & H3 & H). unfold time_now in H3. injection H3 as <- <-.
  assert (tick s <= tick s2)%nat as Ht2.
  { assert (forward CloseOrphanedSessions /\ forward ListOpenSessions) as [F1 F2] by (split; frame_solve).
    specialize (F1 e s). specialize (F2 e s1). rewrite H1 in F1. rewrite H2 in F2. simpl in *. lia. }
  pose proof (Hfa (wall e (tick s2)) l (Emitter ∅ (has_writer em) (enqueued em)) e (bump s2)) as Ht3.
  rewrite H in Ht3. cbn [snd tick bump] in Ht3.
  eapply em_later; [apply (clocks (tick s2)); lia|].
  eapply recover_ok; [|exact H]. eapply em_later; [by apply clocks|].
  destruct Hem as [_ ? ? ?]. split; try done.
Qed.

Lemma dstep_keeps s em s' em' : dstep (s, em) (s', em') ->
  em_ok (wall e (tick s)) None em -> em_ok (wall e (tick s')) None em'.
Proof.
  inversion 1; subst; intros Hem.
  - match goal with H : runDiscoveryCycle _ _ _ _ _ _ _ _ _ = _ |- _ =>
      apply cycle_run in H as (b1 & c1 & [= -> ->] & [_ S] & _); [|done] end.
    edestruct S as (em2 & He2 & Hok); [eassumption|]. simplify_eq. auto.
  - match goal with H : on_history _ _ _ = _ |- _ => apply zoom_run in H as (w & H & Et & _) end.
    rewrite Et. by eapply recover_keeps.
  - match goal with H : on_history _ _ _ = _ |- _ => apply zoom_run in H as (w & H & Et & _) end.
    unfold FlushAll in *. match goal with H : (_ ≫= _) _ _ = _ |- _ => injection H as <- <- end.
    rewrite Et. cbn. eapply em_later; [apply (clocks (tick s)); cbn; lia|].
    apply flush_all_ok; [done|apply NoDup_fst_map_to_list|]. intros k x Hk. by apply in_keys in Hk.
  - destruct Hem. by split.
  - eapply em_later; [by apply clocks|done].
Qed.
End Runs.

(** C10: at any time of a discover process the viewer intervals it has handed
    to ClickHouse fit the columns (a known platform, unsigned 32-bit counts, an
    unsigned 16-bit number of samples, no negative session number), end where or
    after they start and not in the future, and those of one channel follow
    each other without overlap; their minimum and maximum are their count. *)
Theorem viewer_history_typed e w s0 s em : clock_forward e ->
  rtc (dstep e) (s0, NewEmitter w) (s, em) ->
  Forall row_typed (enqueued em) /\ StronglySorted later_row (enqueued em) /\
  Forall (fun r => vr_ValidTo r <= wall e (tick s)) (enqueued em).
Proof.
  intros Hc Hr.
  assert (forall a b, rtc (dstep e) a b -> em_ok (wall e (tick a.1)) None a.2 -> em_ok (wall e (tick b.1)) None b.2) as H.
  { induction 1 as [|[] [] [] Hs _ IH]; [done|]. intros Hem. by eapply IH, dstep_keeps. }
  destruct (H _ _ Hr) as [_ ? ? ?]; [|done]. cbn. split; [intros k x Hx; discriminate Hx|constructor..].
Qed.

(** ** A run *)

Module Demo.
Definition t0 : Z := 1700000000 * second.
Definition at_ (n : nat) : Z := t0 + Z.of_nat n * second.
Definition e (fails : nat -> bool) : env := Env fails (fun _ => false) at_ at_ (fun _ => EmptyString).

(** A client that finds [found], and says of each channel what [says] does. *)
Definition client (found : list DiscoveredChannel) (says : string -> result bool) : PlatformDiscovery :=
  {| platform_name := PlatformSoop; FetchLiveChannels := mret (MkResult found false); IsChannelLive c := lift (says c) |}.
Lemma client_lawful found says : LawfulDiscovery (client found says).
Proof.
  split; [done|intros e s; done|intros e s; done|intros c e s; cbn; by destruct (says c)..].
Qed.

Definition leading : redis := Redis {["discover:leader:fence" := (RString "7", None)]} [].
Definition start : world dsite := let d := Site (History empty_db ∅ ∅ ∅) leading in World d d 0.
Definition found (viewers : Z) : DiscoveredChannel := MkDiscovered "bj1" "BJ" viewers "" "" "" [] None "".

Definition state : Type := result (bool * cycle_state) * world dsite.
(** One cycle after another; a result that is not [Ok] ends the run. *)
Definition poll (fails : nat -> bool) (l : list DiscoveredChannel) (says : string -> result bool) (x : state) : state :=
  match x with
  | (Ok (_, c), s) => runDiscoveryCycle (client l says) "d1" None None 7 (fun _ => false) c (e fails) s
  | x => x
  end.
Definition fresh_cycle (writer : bool) : state := (Ok (true, CycleState (Some (NewEmitter writer)) 0 []), start).
Definition dead (_ : string) : result bool := Ok false.
Definition fine (_ : nat) : bool := false.

Definition statuses (x : state) : list string := map (fun '(_, r) => lc_status r) (rows (live (main (pg (db x.2))))).
Definition open_sessions (x : state) : nat :=
  length (List.filter (fun '(_, s) => still_open s) (rows (b_sessions (pg (db x.2))))).

(** Found, missed once, missed twice and denied: only then is it ended. *)
Definition first := poll fine [found 5] dead (fresh_cycle true).
Definition missed := poll fine [] dead first.
Example one_miss : statuses missed = [ChannelStatusPending] /\ open_sessions missed = 1%nat.
Proof. by vm_compute. Qed.
Example two_misses : let x := poll fine [] dead missed in statuses x = [ChannelStatusEnded] /\ open_sessions x = 0%nat.
Proof. by vm_compute. Qed.
Example two_misses_alive : let x := poll fine [] (fun _ => Ok true) missed in
  statuses x = [ChannelStatusPending] /\ open_sessions x = 1%nat.
Proof. by vm_compute. Qed.

Definition cycle_of (x : state) : cycle_state := match x with (Ok (_, c), _) => c | _ => CycleState None 0 [] end.
Definition em_of (x : state) : emitter := default (NewEmitter false) (cy_emitter (cycle_of x)).

(** The metadata of the first poll cannot be stored: the second poll opens a
    second session of the number, and a chat of the broadcast finds two. *)
Definition metadata_fails (n : nat) : bool := (n =? 5)%nat.
Definition twice := poll metadata_fails [found 5] dead (poll metadata_fails [found 5] dead (fresh_cycle true)).
Definition chat : ArchiveChatRecord := MkRecord "spool" "event" PlatformSoop "bj1" (t0 + 20 * second) 1 "user" "name" "hi".
Example two_open_sessions : open_sessions twice = 2%nat /\
  length (matching chat (set_broadcasts (fun _ => archive_broadcasts (pg (db twice.2))) empty_archive)) = 2%nat.
Proof. by vm_compute. Qed.
(** A new leader closes both and tracks neither as open. *)
Example recovery_closes_both :
  let x := on_history (RecoverState (NewEmitter true)) (e fine) twice.2 in
  (exists em, x.1 = Ok em /\ is_Some (states em !! stateKey PlatformSoop "bj1")) /\
  open_sessions (Ok (true, cycle_of twice), x.2) = 0%nat.
Proof. vm_compute. split; [eexists; split; [reflexivity|eexists; reflexivity]|reflexivity]. Qed.

(** The loop of a platform polls every two or three minutes, but a new leader
    marks a gap after one and a half or three minutes. *)
Example poll_longer_than_gap : poll_interval PlatformCime * 3 < discoverInterval ∅ PlatformCime.
Proof. reflexivity. Qed.
(** A trigger for the only platform with a loop reaches none. *)
Example trigger_lost : let all := [PlatformChzzk; PlatformSoop] in
  let started := loops (Some {[PlatformSoop := {["bj1"]}]}) all in
  started = [PlatformSoop] /\ TriggerDiscoveryForPlatform all started PlatformSoop = [].
Proof. by vm_compute. Qed.
End Demo.

Lemma cycle_ends_only_gone_witness :
  let x := @runDiscoveryCycle (Demo.client [] Demo.dead) "d1" None None 7 (fun _ => false)
    (Demo.cycle_of Demo.missed) (Demo.e Demo.fine) Demo.missed.2 in
  Demo.statuses Demo.missed = [ChannelStatusPending] /\ Demo.statuses x = [ChannelStatusEnded] /\
  (exists b c', x.1 = Ok (b, c')) /\ exists s3 s4, validated 7 (Demo.e Demo.fine) s3 s4.
Proof.
  intros x. split; [vm_compute; reflexivity|]. split; [vm_compute; reflexivity|].
  destruct (@cycle_ends_only_gone (Demo.client [] Demo.dead) (Demo.client_lawful _ _) "d1" None None 7 (fun _ => false)
    (Demo.cycle_of Demo.missed) (Demo.e Demo.fine) Demo.missed.2 x.1 x.2 (surjective_pairing x)) as [H1 H2].
  split; [exact H1|]. destruct H2 as [[Hm _]|(result & s1 & c2 & s2 & y & s3 & s4 & _ & _ & _ & _ & _ & Hv & _)].
  - exfalso. assert (forall r, live (main (pg (db x.2))) !! 1 = Some r -> is_ended r = false) as Hr.
    { apply (Hm 1). intros r. vm_compute. intros [= <-]. reflexivity. }
    vm_compute in Hr. specialize (Hr _ eq_refl). discriminate Hr.
  - by exists s3, s4.
Defined.

Lemma demo_clocks f : clock_forward (Demo.e f).
Proof. intros n m H. cbn. unfold Demo.at_, second. lia. Qed.

(** A cycle that went on with its emitter, as a step. *)
Definition went_on (x : Demo.state) : bool := match x.1 with Ok (b, c) => b && (if cy_emitter c then true else false) | Err _ => false end.
Lemma went_on_shape x : went_on x = true ->
  x = (Ok (true, Demo.cycle_of x), x.2) /\ cy_emitter (Demo.cycle_of x) = Some (Demo.em_of x).
Proof.
  destruct x as [[[b c]|] s]; [|done]. unfold went_on, Demo.em_of. cbn. intros [Hb Hc]%andb_prop. subst b.
  by destruct (cy_emitter c).
Qed.
Lemma demo_step l x : went_on x = true -> went_on (Demo.poll Demo.fine l Demo.dead x) = true ->
  dstep (Demo.e Demo.fine) (x.2, Demo.em_of x)
    ((Demo.poll Demo.fine l Demo.dead x).2, Demo.em_of (Demo.poll Demo.fine l Demo.dead x)).
Proof.
  intros [Hx Ex]%went_on_shape [Hy Ey]%went_on_shape. revert Hy Ey. set (y := Demo.poll _ _ _ _). intros Hy Ey.
  refine (d_cycle _ (Demo.client l Demo.dead) "d1" None None 7 (fun _ => false) _ _ _ true (Demo.cycle_of y) _ _
    (Demo.client_lawful _ _) Ex _ Ey).
  rewrite <- Hy. subst y. rewrite Hx at 3. done.
Qed.

Lemma viewer_history_typed_witness :
  let x := Demo.poll Demo.fine [Demo.found 9] Demo.dead Demo.first in
  length (enqueued (Demo.em_of x)) = 1%nat /\ Forall row_typed (enqueued (Demo.em_of x)).
Proof.
  intros x. split; [vm_compute; reflexivity|].
  refine (proj1 (viewer_history_typed (Demo.e Demo.fine) true Demo.start x.2 _ (demo_clocks _) _)).
  eapply (rtc_l _ _ (Demo.first.2, Demo.em_of Demo.first)); [|eapply rtc_l; [|apply rtc_refl]].
  - refine (demo_step [Demo.found 5] (Demo.fresh_cycle true) _ _); [reflexivity|vm_compute; reflexivity].
  - apply demo_step; vm_compute; reflexivity.
Defined.
