(* ===== verification/PublicCursor.v ===== *)
(** The cursors of the public HTTP API (src/query/publicapi/history_cursor.go,
    and the chat cursor of server.go): JSON in unpadded URL base64, the ones of
    the archive signed with HMAC-SHA256. [encoding/base64] is modelled with its
    decoder's liberties: line breaks are skipped, the unused bits of the last
    digit are not looked at. *)
From S2P Require Import Prelude GoLib GoText Sha256 Json JsonText.
From S2P Require Import JsonRound.

(** ** [base64.RawURLEncoding] *)

Module Base64.
Definition alphabet : string := "ABCDEFGHIJKLMNOPQRSTUVWXYZabcdefghijklmnopqrstuvwxyz0123456789-_".
Definition char (d : Z) : Ascii.ascii := default "A"%char (String.get (Z.to_nat d) alphabet).
Fixpoint index_of (c : Ascii.ascii) (s : string) (n : Z) : option Z :=
  match s with
  | EmptyString => None
  | String x s => if Ascii.eqb c x then Some n else index_of c s (n + 1)
  end.
Definition value (c : Ascii.ascii) : option Z := index_of c alphabet 0.

Fixpoint digits (l : list Z) : list Z :=
  match l with
  | a :: b :: c :: l => a / 4 :: a mod 4 * 16 + b / 16 :: b mod 16 * 4 + c / 64 :: c mod 64 :: digits l
  | [a; b] => [a / 4; a mod 4 * 16 + b / 16; b mod 16 * 4]
  | [a] => [a / 4; a mod 4 * 16]
  | [] => []
  end.
Definition encode (s : string) : string := String.string_of_list_ascii (map char (digits (Sha256.bytes_of s))).

Fixpoint bytes (l : list Z) : option (list Z) :=
  match l with
  | a :: b :: c :: d :: l => cons (a * 4 + b / 16) <$> (cons (b mod 16 * 16 + c / 4) <$> (cons (c mod 4 * 64 + d) <$> bytes l))
  | [a; b; c] => Some [a * 4 + b / 16; b mod 16 * 16 + c / 4]
  | [a; b] => Some [a * 4 + b / 16]
  | [_] => None
  | [] => Some []
  end.
Definition line_break (c : Ascii.ascii) : bool := Ascii.eqb c "010" || Ascii.eqb c "013".
Definition decode (s : string) : option string :=
  ds ← mapM value (List.filter (fun c => negb (line_break c)) (String.list_ascii_of_string s));
  Sha256.string_of <$> bytes ds.

Lemma char_value d : 0 <= d < 64 -> value (char d) = Some d /\ line_break (char d) = false /\ Ascii.eqb (char d) "." = false.
Proof.
  intros H. assert (forallb (fun d => bool_decide (value (char d) = Some d) && negb (line_break (char d))
    && negb (Ascii.eqb (char d) ".")) (zseq 0 64) = true) as Hall by (vm_compute; reflexivity).
  rewrite forallb_forall in Hall. specialize (Hall d). rewrite !andb_true_iff, !negb_true_iff, bool_decide_eq_true in Hall.
  destruct Hall as [[? ?] ?]; [|done]. apply list_elem_of_In, elem_of_zseq. lia.
Qed.

Definition small (l : list Z) : Prop := Forall (fun d => 0 <= d < 64) l.

(** Three bytes at a time. *)
Lemma triple_ind (P : list Z -> Prop) : P [] -> (forall a, P [a]) -> (forall a b, P [a; b]) ->
  (forall a b c l, P l -> P (a :: b :: c :: l)) -> forall l, P l.
Proof.
  intros H0 H1 H2 H3. fix IH 1. intros [|a [|b [|c l]]]; [done|apply H1|apply H2|apply H3, IH].
Qed.

Lemma digits_small l : byte_list l -> small (digits l).
Proof.
  induction l as [|a|a b|a b c l IH] using triple_ind; unfold byte_list, small; rewrite ?Forall_cons; cbn [digits].
  - constructor.
  - intros [Ha _]. repeat constructor; Z.to_euclidean_division_equations; lia.
  - intros (Ha & Hb & _). repeat constructor; Z.to_euclidean_division_equations; lia.
  - intros (Ha & Hb & Hc & Hl). repeat constructor; try (Z.to_euclidean_division_equations; lia). by apply IH.
Qed.

Lemma bytes_digits l : byte_list l -> bytes (digits l) = Some l.
Proof.
  induction l as [|a|a b|a b c l IH] using triple_ind; unfold byte_list; rewrite ?Forall_cons; cbn [digits bytes].
  - done.
  - intros [Ha _]. do 2 f_equal. Z.to_euclidean_division_equations; lia.
  - intros (Ha & Hb & _). do 3 f_equal; [|f_equal]; Z.to_euclidean_division_equations; lia.
  - intros (Ha & Hb & Hc & Hl). rewrite IH by done. cbn [fmap option_fmap option_map].
    do 2 f_equal; [|f_equal; [|f_equal]]; Z.to_euclidean_division_equations; lia.
Qed.

Lemma values_chars l : small l ->
  mapM value (List.filter (fun c => negb (line_break c)) (map char l)) = Some l.
Proof.
  induction 1 as [|d l Hd Hl IH]; [done|]. destruct (char_value d Hd) as (Hv & Hb & _).
  cbn [map List.filter]. rewrite Hb. cbn [negb mapM]. by rewrite Hv, IH.
Qed.

Lemma decode_encode s : decode (encode s) = Some s.
Proof.
  unfold decode, encode. rewrite String.list_ascii_of_string_of_list_ascii.
  rewrite values_chars by apply digits_small, bytes_of_range. cbn [mbind option_bind].
  rewrite bytes_digits by apply bytes_of_range. cbn. by rewrite bytes_of_string_of_id.
Qed.

Lemma encode_plain s : all_chars (fun c => negb (Ascii.eqb c ".")) (encode s) = true.
Proof.
  unfold encode. pose proof (digits_small _ (bytes_of_range s)) as H. revert H.
  induction 1 as [|d l Hd Hl IH]; [done|]. destruct (char_value d Hd) as (_ & _ & Hp).
  cbn [digits map String.string_of_list_ascii all_chars]. by rewrite Hp, IH.
Qed.

Lemma digits_length l : (3 * length (digits l) <= 4 * length l + 4)%nat.
Proof. induction l using triple_ind; cbn [digits length]; lia. Qed.
Lemma encode_length s : 3 * lenZ (encode s) <= 4 * lenZ s + 4.
Proof.
  unfold encode, lenZ.
  pose proof (digits_length (Sha256.bytes_of s)) as H. rewrite length_bytes_of in H.
  assert (forall l, String.length (String.string_of_list_ascii l) = length l) as -> by (induction l; simpl; lia).
  rewrite length_map. lia.
Qed.
End Base64.

Example base64_example : Base64.encode "any carnal pleas" = "YW55IGNhcm5hbCBwbGVhcw"%string /\
  Base64.decode "YW55IGNhcm5hbCBwbGVhcx" = Some "any carnal pleas"%string /\ Base64.decode "YW55I" = None.
Proof. vm_compute. done. Qed.

(** ** The cursors of the archive *)

Record historyCursor := MkHistoryCursor {
  hc_Version : Z; hc_Kind : string; hc_SessionID : string; hc_Position : Z; hc_StartedAt : Z
}.
Definition no_cursor : historyCursor := MkHistoryCursor 0 EmptyString EmptyString 0 zero_time.

(** [omitempty] leaves out an empty string and a zero, not a time. *)
Definition cursor_json (c : historyCursor) : json :=
  JObj (("v"%string, JNum (hc_Version c)) :: ("k"%string, JStr (hc_Kind c)) ::
    (if is_empty (hc_SessionID c) then [] else [("s"%string, JStr (hc_SessionID c))]) ++
    (if hc_Position c =? 0 then [] else [("p"%string, JNum (hc_Position c))]) ++ [("t"%string, JTime (hc_StartedAt c))]).
(** [json.Marshal] with its error dropped. *)
Definition marshal_cursor (c : historyCursor) : string :=
  if marshalable_time (hc_StartedAt c) then render (cursor_json c) else EmptyString.

Definition cursor_fields : list (string * decoder historyCursor) :=
  [member "v" hc_Version (fun x c => MkHistoryCursor x (hc_Kind c) (hc_SessionID c) (hc_Position c) (hc_StartedAt c)) d_int;
   member "k" hc_Kind (fun x c => MkHistoryCursor (hc_Version c) x (hc_SessionID c) (hc_Position c) (hc_StartedAt c)) d_string;
   member "s" hc_SessionID (fun x c => MkHistoryCursor (hc_Version c) (hc_Kind c) x (hc_Position c) (hc_StartedAt c)) d_string;
   member "p" hc_Position (fun x c => MkHistoryCursor (hc_Version c) (hc_Kind c) (hc_SessionID c) x (hc_StartedAt c)) d_int;
   member "t" hc_StartedAt (fun x c => MkHistoryCursor (hc_Version c) (hc_Kind c) (hc_SessionID c) (hc_Position c) x) d_time]%string.

Definition signHistoryCursor (key : string) (value : historyCursor) : string :=
  let value := MkHistoryCursor 1 (hc_Kind value) (hc_SessionID value) (hc_Position value) (hc_StartedAt value) in
  let body := marshal_cursor value in
  Base64.encode body +:+ "." +:+ Base64.encode (Sha256.hmac256 key body).

Definition parseHistoryCursor (key raw kind : string) : result historyCursor :=
  if is_empty raw then Ok no_cursor
  else if 1024 <? lenZ raw then Err (ErrMsg "history cursor too long")
  else match split_on "." raw with
  | [a; b] =>
      body ← of_option (ErrMsg "invalid history cursor") (Base64.decode a);
      signature ← of_option (ErrMsg "invalid history cursor") (Base64.decode b);
      if negb (String.eqb (Sha256.hmac256 key body) signature) then Err (ErrMsg "invalid history cursor signature")
      else
        let '(value, ok) := unmarshal_text (d_struct cursor_fields) body no_cursor in
        if negb ok || negb (hc_Version value =? 1) || negb (String.eqb (hc_Kind value) kind)
        then Err (ErrMsg "invalid history cursor payload") else Ok value
  | _ => Err (ErrMsg "invalid history cursor")
  end.

(** ** The cursor of the live chat *)

Record chatCursor := MkChatCursor { cc_Generation : string; cc_ID : string }.
Definition no_chat_cursor : chatCursor := MkChatCursor EmptyString EmptyString.
Definition chat_cursor_json (c : chatCursor) : json := JObj [("g", JStr (cc_Generation c)); ("i", JStr (cc_ID c))]%string.
Definition chat_cursor_fields : list (string * decoder chatCursor) :=
  [member "g" cc_Generation (fun x c => MkChatCursor x (cc_ID c)) d_string;
   member "i" cc_ID (fun x c => MkChatCursor (cc_Generation c) x) d_string]%string.

Definition encodeCursor (c : chatCursor) : string := Base64.encode (render (chat_cursor_json c)).

(** ** Round trips *)

(** A cursor the API issues: Go's integers, valid text, a time JSON can show. *)
Definition cursor_ok (c : historyCursor) : bool :=
  valid_utf8 (hc_Kind c) && valid_utf8 (hc_SessionID c) && marshalable_time (hc_StartedAt c)
  && (-9223372036854775808 <=? hc_Position c) && (hc_Position c <=? 9223372036854775807).

Lemma cursor_decoded c : cursor_ok c = true -> hc_Version c = 1 ->
  d_struct cursor_fields (text_of (cursor_json c)) no_cursor = (c, true).
Proof.
  unfold cursor_ok. intros H Hv. b2p. destruct c as [v k s p t]. cbn in *. subst v.
  unfold cursor_json. cbn [hc_Version hc_Kind hc_SessionID hc_Position hc_StartedAt].
  set (rest := (if is_empty s then [] else _) ++ _ ++ _).
  change (struct_fold cursor_fields
    ((literal "v", TNum (format_int 1)) :: (literal "k", TStr (literal k)) ::
      map (fun '(k, v) => (literal k, text_of v)) rest) (no_cursor, true) = (MkHistoryCursor 1 k s p t, true)).
  do 2 (erewrite struct_member; [|reflexivity|vm_compute; reflexivity]; cbn [member snd];
    rewrite ?d_string_text, ?d_int_text by lia).
  rewrite coerce_valid by done. subst rest. cbn [hc_Version hc_Kind hc_SessionID hc_Position hc_StartedAt no_cursor].
  assert (forall t0 p0 s0, struct_fold cursor_fields [(literal "t", TStr (rfc3339 t))]
    (MkHistoryCursor 1 k s0 p0 t0, true) = (MkHistoryCursor 1 k s0 p0 t, true)) as Ht.
  { intros. erewrite struct_member; [|reflexivity|vm_compute; reflexivity]. cbn [member snd].
    by rewrite d_time_text. }
  assert (forall s0, struct_fold cursor_fields (map (fun '(k, v) => (literal k, text_of v))
      ((if p =? 0 then [] else [("p"%string, JNum p)]) ++ [("t"%string, JTime t)]))
    (MkHistoryCursor 1 k s0 0 zero_time, true) = (MkHistoryCursor 1 k s0 p t, true)) as Hp.
  { intros s0. destruct (p =? 0) eqn:E; b2p; [subst; apply Ht|]. cbn [app map].
    change (text_of (JNum p)) with (TNum (format_int p)).
    erewrite struct_member; [|reflexivity|vm_compute; reflexivity]. cbn [member snd].
    rewrite d_int_text by lia. apply Ht. }
  destruct (is_empty s) eqn:E; [apply is_empty_true in E; subst; apply Hp|]. cbn [app map].
  change (text_of (JStr s)) with (TStr (literal s)).
  erewrite struct_member; [|reflexivity|vm_compute; reflexivity]. cbn [member snd].
  rewrite d_string_text, coerce_valid by done. apply Hp.
Qed.

Lemma cursor_printable c : cursor_ok c = true -> hc_Version c = 1 ->
  printable (cursor_json c) = true /\ nesting (cursor_json c) <= 10000.
Proof.
  unfold cursor_ok. intros H Hv. b2p. unfold cursor_json. rewrite Hv.
  assert (small_number (hc_Position c) = true) as Hp by (unfold small_number; apply andb_true_iff; split; apply Z.ltb_lt; lia).
  destruct (is_empty _), (_ =? 0); cbn -[small_number]; rewrite ?Hp, ?H2; split; try done; vm_compute; discriminate.
Qed.

Lemma split_plain a b : all_chars (fun c => negb (Ascii.eqb c ".")) a = true ->
  all_chars (fun c => negb (Ascii.eqb c ".")) b = true -> split_on "." (a +:+ "." +:+ b) = [a; b].
Proof.
  intros Ha Hb. assert (split_on "." b = [b]) as Eb.
  { induction b as [|x b IH]; [done|]. cbn [all_chars] in Hb. apply andb_true_iff in Hb as [Hx%negb_true_iff Hb].
    cbn [split_on]. by rewrite Hx, (IH Hb). }
  induction a as [|x a IH].
  - change (EmptyString +:+ "." +:+ b) with (String "." b). cbn [split_on]. by rewrite Eb.
  - cbn [all_chars] in Ha. apply andb_true_iff in Ha as [Hx%negb_true_iff Ha].
    change (String x a +:+ "." +:+ b) with (String x (a +:+ "." +:+ b)). cbn [split_on]. by rewrite Hx, (IH Ha).
Qed.

Lemma sign_nonempty key c : is_empty (signHistoryCursor key c) = false.
Proof. unfold signHistoryCursor. by destruct (Base64.encode _). Qed.

(** What is signed is read back, when it is not too long. *)
Lemma parse_sign key c : cursor_ok c = true -> lenZ (signHistoryCursor key c) <= 1024 ->
  parseHistoryCursor key (signHistoryCursor key c) (hc_Kind c)
  = Ok (MkHistoryCursor 1 (hc_Kind c) (hc_SessionID c) (hc_Position c) (hc_StartedAt c)).
Proof.
  intros Hok Hl. unfold parseHistoryCursor. rewrite sign_nonempty.
  replace (1024 <? _) with false by (symmetry; apply Z.ltb_ge; lia). unfold signHistoryCursor.
  set (value := MkHistoryCursor 1 _ _ _ _). set (body := marshal_cursor value).
  rewrite split_plain by apply Base64.encode_plain. rewrite !Base64.decode_encode.
  cbn [of_option mbind result_bind]. rewrite String.eqb_refl. cbn [negb].
  destruct (cursor_printable value) as [Hp Hn]; [done..|].
  assert (body = render (cursor_json value)) as ->.
  { subst body. unfold marshal_cursor. unfold cursor_ok in Hok. b2p. cbn [hc_StartedAt value]. by rewrite H2. }
  unfold unmarshal_text. rewrite parse_text_render, cursor_decoded by done. cbn [negb orb hc_Version hc_Kind value].
  by rewrite String.eqb_refl.
Qed.

(** Nothing else is read: a cursor that is accepted was signed with the key. *)
Lemma parse_signed key raw kind c : parseHistoryCursor key raw kind = Ok c -> raw <> EmptyString ->
  exists a b body, split_on "." raw = [a; b] /\ Base64.decode a = Some body /\
    Base64.decode b = Some (Sha256.hmac256 key body) /\ hc_Version c = 1 /\ hc_Kind c = kind /\
    unmarshal_text (d_struct cursor_fields) body no_cursor = (c, true).
Proof.
  unfold parseHistoryCursor. intros H Hne%is_empty_false. rewrite Hne in H. destruct (_ <? _); [done|].
  destruct (split_on "." raw) as [|a [|b [|]]]; try done.
  destruct (Base64.decode a) as [body|] eqn:Ea; [|done]. destruct (Base64.decode b) as [sig|] eqn:Eb; [|done].
  cbn [of_option mbind result_bind] in H. destruct (negb (String.eqb _ sig)) eqn:Es; [done|].
  destruct (unmarshal_text _ _ _) as [value ok] eqn:Ev. destruct (_ || _) eqn:E; [done|]. injection H as ->.
  b2p. subst sig. exists a, b, body. split_and!; try done. destruct ok; done.
Qed.

(** ** How long a cursor is *)

Lemma blocks_length f h l : length h = 8%nat -> length (Sha256.blocks f h l) = 8%nat.
Proof.
  assert (forall ws st, length st = 8%nat -> length (fold_left Sha256.round ws st) = 8%nat) as Hr.
  { induction ws as [|w ws IH]; intros st Hs; [done|]. cbn [fold_left]. apply IH.
    destruct st as [|? [|? [|? [|? [|? [|? [|? [|? [|]]]]]]]]]; done. }
  revert h l. induction f as [|f IH]; intros h [|b l] Hh; try done. cbn [Sha256.blocks]. apply IH.
  unfold Sha256.compress. rewrite length_zip_with, Hr; lia.
Qed.
Lemma hmac_length key m : lenZ (Sha256.hmac256 key m) = 32.
Proof.
  unfold Sha256.hmac256, lenZ, Sha256.string_of.
  assert (forall l, String.length (String.string_of_list_ascii l) = length l) as -> by (induction l; simpl; lia).
  rewrite length_map. unfold Sha256.sum256_bytes.
  match goal with |- context [flat_map _ ?l] => assert (length l = 8%nat) as H by by apply blocks_length end.
  destruct (Sha256.blocks _ _ _) as [|? [|? [|? [|? [|? [|? [|? [|? [|]]]]]]]]]; try discriminate H. done.
Qed.

Lemma escape_length l : (String.length (escape_bytes l) <= 6 * length l)%nat.
Proof.
  assert (forall n l, (length l <= n)%nat -> (String.length (escape_bytes l) <= 6 * length l)%nat) as H.
  { induction n as [|n IH]; intros m Hm; [destruct m; [done|simpl in Hm; lia]|].
    destruct m as [|b m]; [done|].
    assert (forall x, (String.length (escape_byte x) <= 6)%nat) as Hb.
    { intros x. unfold escape_byte, u_escape. repeat case_match; rewrite ?app_length_str; cbn; lia. }
    assert (String.length (escape_byte b +:+ escape_bytes m) <= 6 * S (length m))%nat as Hplain.
    { rewrite app_length_str. specialize (Hb b). specialize (IH m). simpl in Hm. lia. }
    cbn [escape_bytes length]. repeat (case_match; try exact Hplain); subst;
      rewrite !app_length_str; cbn [length] in *;
      match goal with |- context [escape_bytes ?r] => specialize (IH r) end; cbn; lia. }
  by apply (H (length l)).
Qed.

Lemma num_fuel_bound f n acc : (String.length (num_fuel f n acc) <= f + String.length acc)%nat.
Proof.
  revert n acc. induction f as [|f IH]; intros n acc; cbn [num_fuel]; [done|].
  destruct (n <? 10); [simpl; lia|]. etrans; [apply IH|]. simpl. lia.
Qed.
Lemma format_int_length n : (String.length (format_int n) <= 21)%nat.
Proof.
  unfold format_int, format_uint. destruct (n <? 0); [|pose proof (num_fuel_bound 20 n ""); cbn in *; lia].
  pose proof (num_fuel_bound 20 (- n) ""). cbn [String.length] in *. lia.
Qed.
Lemma padn_bound w n : (String.length (padn w n) <= w + 20)%nat.
Proof.
  unfold padn, format_uint. rewrite app_length_str. pose proof (num_fuel_bound 20 n "") as H. cbn [String.length] in H.
  assert (forall k, String.length (zeros k) = k) as -> by (induction k; simpl; congruence). lia.
Qed.
Lemma strip_length s : (String.length (strip_zeros s) <= String.length s)%nat.
Proof. induction s as [|c s IH]; [done|]. cbn [strip_zeros]. destruct (_ && _); simpl; lia. Qed.
Lemma rfc3339_length t : (String.length (rfc3339 t) <= 200)%nat.
Proof.
  unfold rfc3339. destruct (civil _) as [[y m] d]. cbv zeta. rewrite !app_length_str.
  pose proof (strip_length (padn 9 (t mod second))) as Hs. pose proof (padn_bound 9 (t mod second)).
  set (f := strip_zeros _) in *.
  assert (String.length (if is_empty f then EmptyString else "." +:+ f) <= 30)%nat
    by (destruct (is_empty f); rewrite ?app_length_str; cbn [String.length]; lia).
  pose proof (padn_bound 4 y). pose proof (padn_bound 2 m). pose proof (padn_bound 2 d).
  pose proof (padn_bound 2 (t / second mod 86400 / 3600)).
  pose proof (padn_bound 2 (t / second mod 86400 / 60 mod 60)). pose proof (padn_bound 2 (t / second mod 86400 mod 60)).
  cbn [String.length] in *. lia.
Qed.

(** A cursor the API issues: of one of the two kinds, for a session id of at
    most 36 bytes. *)
Definition issued (c : historyCursor) : Prop :=
  cursor_ok c = true /\ (hc_Kind c = "chats" \/ hc_Kind c = "broadcasts")%string /\ lenZ (hc_SessionID c) <= 36.

Lemma json_string_length s : valid_utf8 s = true -> (String.length (json_string s) <= 6 * String.length s + 2)%nat.
Proof.
  intros H. unfold json_string. rewrite coerce_valid, !app_length_str by done.
  pose proof (escape_length (Sha256.bytes_of s)) as He. rewrite length_bytes_of in He. cbn [String.length quote]. lia.
Qed.

Lemma marshal_length c : issued c -> hc_Version c = 1 -> lenZ (marshal_cursor c) <= 700.
Proof.
  intros (Hok & Hk & Hs) Hv. unfold cursor_ok in Hok. b2p. unfold marshal_cursor. rewrite H2.
  unfold cursor_json. rewrite Hv. unfold lenZ in *. destruct c as [v k s p t]. cbn in Hk, Hs, H3, Hv. subst v.
  pose proof (json_string_length s H3). pose proof (format_int_length p). pose proof (rfc3339_length t).
  assert (String.length (json_string k) <= 12)%nat by (destruct Hk as [-> | ->]; apply Nat.leb_le; vm_compute; reflexivity).
  cbn [hc_Kind hc_SessionID hc_Position hc_StartedAt].
  destruct (is_empty s), (p =? 0); cbn [app render map join]; rewrite !app_length_str;
    change (String.length (json_string "v")) with 3%nat; change (String.length (json_string "k")) with 3%nat;
    change (String.length (json_string "s")) with 3%nat; change (String.length (json_string "p")) with 3%nat;
    change (String.length (json_string "t")) with 3%nat; change (String.length (format_int 1)) with 1%nat;
    cbn [String.length quote]; lia.
Qed.

Lemma sign_length key c : issued c -> lenZ (signHistoryCursor key c) <= 1024.
Proof.
  intros Hi. unfold signHistoryCursor. set (value := MkHistoryCursor 1 _ _ _ _).
  assert (lenZ (marshal_cursor value) <= 700) as Hl by (apply marshal_length; [exact Hi|done]).
  rewrite !lenZ_app. change (lenZ ".") with 1.
  pose proof (Base64.encode_length (marshal_cursor value)). pose proof (Base64.encode_length (Sha256.hmac256 key (marshal_cursor value))) as Hm.
  rewrite hmac_length in Hm. lia.
Qed.

(** Whatever the API issues, it accepts. *)
Lemma issued_parses key c : issued c ->
  parseHistoryCursor key (signHistoryCursor key c) (hc_Kind c)
  = Ok (MkHistoryCursor 1 (hc_Kind c) (hc_SessionID c) (hc_Position c) (hc_StartedAt c)).
Proof. intros Hi. apply parse_sign; [apply Hi|by apply sign_length]. Qed.
