(* ===== verification/PublicHistory.v ===== *)
(** The archive over the public HTTP API (src/query/publicapi/history.go): the
    list of broadcasts and the chats of one, page by page, under signed
    cursors. A handler reads the request's parameters as text and answers with
    a status and a body. *)
From S2P Require Import Prelude GoLib Json JsonText Tx Model.
From S2P Require Import Ownership Segment Archive PublicCursor.

(** An answer: a code under a status, or what the body of a 200 is made of. *)
Inductive reply (A : Type) : Type := Refused (status : Z) (code : string) | Served (a : A).
Arguments Refused {A} status code.
Arguments Served {A} a.

Definition pageLimit (raw : string) (defaultValue maxValue : Z) : result Z :=
  if is_empty raw then Ok defaultValue
  else match parse_int raw with
       | Some n => if (n <? 1) || (maxValue <? n) then Err (ErrMsg "invalid page limit") else Ok n
       | None => Err (ErrMsg "invalid page limit")
       end.

(** ** The bodies *)

Definition opt_json {A} (f : A -> json) (o : option A) : json := match o with Some a => f a | None => JNull end.

Definition session_json (s : Session) : json :=
  JObj [("sessionId", JStr (ss_SessionID s)); ("startedAt", JTime (ss_StartedAt s));
        ("endedAt", opt_json JTime (ss_EndedAt s)); ("title", opt_json JStr (ss_Title s));
        ("recordingStartedAt", opt_json JTime (ss_RecordingStartedAt s));
        ("sourceGapDetected", JBool (ss_SourceGapDetected s)); ("knownArchiveGap", JBool (ss_KnownArchiveGap s));
        ("complete", JBool (ss_Complete s))]%string.
(** A map is encoded in the order of its keys. *)
Definition broadcasts_json (x : list Session * option string) : json :=
  JObj [("broadcasts", JArr (map session_json x.1)); ("nextCursor", opt_json JStr x.2)]%string.

Definition chat_json (r : ChatRow) : json :=
  JObj [("eventId", JStr (EventID r)); ("message", JStr (Message r)); ("position", JNum (Position r));
        ("receivedAt", JTime (ReceivedAt r)); ("sessionId", JStr (SessionID r));
        ("user", JObj [("displayName", JStr (DisplayName r)); ("id", JStr (PublicUserID r));
                       ("idVersion", JNum (UserIDVersion r))])]%string.
Definition chats_json (session : string) (x : list ChatRow * option string) : json :=
  JObj [("chats", JArr (map chat_json x.1)); ("complete", JBool false);
        ("nextCursor", opt_json JStr x.2); ("sessionId", JStr session)]%string.
Definition reply_json {A} (f : A -> json) (r : reply A) : Z * json :=
  match r with
  | Refused status code => (status, JObj [("code"%string, JStr code)])
  | Served a => (200, f a)
  end.

Section Handlers.
(** [uuid.Parse] without an error, [gzip.NewReader]; the channel and bucket
    of the archive; the key of the cursors, [None] before [EnableHistory]. *)
Context (uuid_ok : string -> bool) (gunzip : string -> option (string * bool)).
Context (channel bucketName : string) (history : option string).

Definition EnableHistory (cursorKey : string) : result (option string) :=
  if lenZ cursorKey <? 32 then Err (ErrMsg "history database, object store and cursor key required")
  else Ok (Some cursorKey).

(** ** GET /v1/broadcasts *)

Definition broadcasts_page (key : string) (limit : Z) (items : list Session) : list Session * option string :=
  if limit <? Z.of_nat (length items) then
    let items := take (Z.to_nat limit) items in
    (items, match last items with
            | Some s => Some (signHistoryCursor key
                (MkHistoryCursor 0 "broadcasts" (ss_SessionID s) 0 (ss_StartedAt s)))
            | None => None
            end)
  else (items, None).

Definition broadcasts (limitParam cursorParam : string) : Marc (reply (list Session * option string)) :=
  match history with
  | None => mret (Refused 503 "archive_unavailable")
  | Some key =>
      match pageLimit limitParam 20 100 with
      | Err _ => mret (Refused 400 "invalid_limit")
      | Ok limit =>
          match parseHistoryCursor key cursorParam "broadcasts" with
          | Err _ => mret (Refused 400 "invalid_cursor")
          | Ok cursor =>
              if negb (hc_Version cursor =? 0)
                 && (is_zero_time (hc_StartedAt cursor) || is_empty (hc_SessionID cursor) || negb (hc_Position cursor =? 0))
              then mret (Refused 400 "invalid_cursor")
              else
                let before := if hc_Version cursor =? 0 then None else Some (hc_StartedAt cursor) in
                res ← try (ListSessions uuid_ok channel before (hc_SessionID cursor) (limit + 1));
                match res with
                | Err _ => mret (Refused 503 "archive_unavailable")
                | Ok items => mret (Served (broadcasts_page key limit items))
                end
          end
      end
  end.

(** ** GET /v1/broadcasts/{sessionId}/chats *)

(** What the request asks for, after its checks: a position and a limit. *)
Definition chats_request (key sessionID limitParam cursorParam : string) : reply (Z * Z) :=
  if negb (uuid_ok sessionID) then Refused 404 "broadcast_not_found"
  else match pageLimit limitParam 50 200 with
  | Err _ => Refused 400 "invalid_limit"
  | Ok limit =>
      match parseHistoryCursor key cursorParam "chats" with
      | Err _ => Refused 400 "invalid_cursor"
      | Ok cursor =>
          if negb (hc_Version cursor =? 0)
             && (negb (String.eqb (hc_SessionID cursor) sessionID) || (hc_Position cursor <=? 0)
                 || negb (is_zero_time (hc_StartedAt cursor)))
          then Refused 400 "invalid_cursor" else Served (hc_Position cursor, limit)
      end
  end.

Definition chats_reply (key sessionID : string) (res : result ChatPage) : reply (list ChatRow * option string) :=
  match res with
  | Err x => if decide (x = ErrSessionNotFound) then Refused 404 "broadcast_not_found"
             else Refused 503 "archive_unavailable"
  | Ok page =>
      Served (pg_Rows page, (fun p => signHistoryCursor key (MkHistoryCursor 0 "chats" sessionID p zero_time))
                              <$> pg_NextPosition page)
  end.

(** [busy]: another read of the archive holds the only place. *)
Definition broadcastChats (busy : bool) (sessionID limitParam cursorParam : string)
  : Marc (reply (list ChatRow * option string)) :=
  match history with
  | None => mret (Refused 503 "archive_unavailable")
  | Some key =>
      match chats_request key sessionID limitParam cursorParam with
      | Refused status code => mret (Refused status code)
      | Served (position, limit) =>
          if busy then mret (Refused 429 "rate_limited")
          else
            res ← try (ReadChatsPage uuid_ok gunzip channel bucketName sessionID position limit);
            mret (chats_reply key sessionID res)
      end
  end.
End Handlers.
