(* ===== verification/PublicHistoryProps.v ===== *)
(** A reader of the public history: following the cursors from the first page
    to the last gives every chat of the session once, in order, whatever
    workers and exporters do meanwhile. *)
From S2P Require Import Prelude GoLib Sha256 Json GoText JsonText.
From S2P Require Import JsonRound Tx Model Db Ownership Segment.
From S2P Require Import Archive ArchiveInv ArchivePage ArchiveProps.
From S2P Require Import PublicCursor PublicHistory.

Lemma rows_in_append L session a m b l1 l2 : rows_in L session a m l1 -> rows_in L session (m + 1) b l2 ->
  a - 1 <= m -> m <= b -> rows_in L session a b (l1 ++ l2).
Proof.
  intros [H1 E1] [H2 E2] Ha Hb. split.
  - apply ascending_app. split; [done|].
    assert (last_position (a - 1) l1 <= m) as Hl by (apply last_position_bound; [lia|]; intros r Hr%E1; lia).
    destruct l2 as [|y l2]; [done|]. cbn [ascending] in *. split; [lia|tauto].
  - intros r. rewrite elem_of_app, E1, E2. split; [intros [(? & ? & ?)|(? & ? & ?)]; split_and!; (done || lia)|].
    intros (? & ? & ?). destruct (decide (Position r <= m)); [left|right]; split_and!; (done || lia).
Qed.

Section Browse.
Context (uuid_ok : string -> bool) (gzip : string -> string) (gunzip : string -> option (string * bool)).
Context (collectionChannel : option string) (channel bucketName key : string).
Hypothesis laws : gzip_laws gzip gunzip.

Notation runs := (runs uuid_ok gzip gunzip collectionChannel channel bucketName).
Notation reach := (reach uuid_ok gzip gunzip collectionChannel channel bucketName).

(** A request for the chats of a session, its snapshot taken in [x] and its
    objects read in [y], answered with [rep]. *)
Definition answers (session limitParam cursorParam : string) (x y : sys) (rep : reply (list ChatRow * option string)) : Prop :=
  match chats_request uuid_ok key session limitParam cursorParam with
  | Refused status code => rep = Refused status code
  | Served (position, limit) => runs x y /\
      exists e n, match page_snapshot uuid_ok channel session position limit e (start (arch x) n) with
      | (Err z, _) => rep = chats_reply key session (Err z)
      | (Ok s, w) => exists e' n',
          rep = chats_reply key session
            (page_assemble uuid_ok gunzip bucketName session position limit s e' (start (arch y) n')).1
      end
  end.

(** Following the cursors of the answers until there is none; [z] is the last
    snapshot. *)
Inductive browsing (session : string) : string -> sys -> list ChatRow -> sys -> Prop :=
| browse_last limit cursor x y rows : answers session limit cursor x y (Served (rows, None)) ->
    browsing session cursor x rows x
| browse_more limit cursor x y rows next x' rows' z :
    answers session limit cursor x y (Served (rows, Some next)) -> runs y x' ->
    browsing session next x' rows' z -> browsing session cursor x (rows ++ rows') z.

Lemma canonical_36 s : canonical s = true -> lenZ s <= 36.
Proof. intros H%canonical_length. unfold lenZ. lia. Qed.

Lemma chat_cursor_issued session p : canonical session = true -> 0 < p <= 9223372036854775807 ->
  issued (MkHistoryCursor 0 "chats" session p zero_time).
Proof.
  intros Hc Hp. split; [|split; [by left|by apply canonical_36]]. unfold cursor_ok. cbn [hc_Kind hc_SessionID hc_StartedAt hc_Position].
  rewrite (canonical_valid session) by done. change (valid_utf8 "chats") with true. change (marshalable_time zero_time) with true.
  cbn [andb]. apply andb_true_iff. split; apply Z.leb_le; lia.
Qed.

(** A cursor an answer carries asks for what comes after that answer. *)
Lemma next_request session limitParam limit p : canonical session = true -> uuid_ok session = true ->
  0 < p <= 9223372036854775807 -> pageLimit limitParam 50 200 = Ok limit ->
  chats_request uuid_ok key session limitParam (signHistoryCursor key (MkHistoryCursor 0 "chats" session p zero_time))
  = Served (p, limit).
Proof.
  intros Hc Hu Hp Hl. unfold chats_request. rewrite Hu, Hl. cbn [negb].
  pose proof (issued_parses key _ (chat_cursor_issued session p Hc Hp)) as E. cbn [hc_Kind] in E. rewrite E.
  cbn [hc_Version hc_Kind hc_SessionID hc_Position hc_StartedAt]. rewrite String.eqb_refl. unfold is_zero_time. rewrite Z.eqb_refl.
  replace (p <=? 0) with false by (symmetry; apply Z.leb_gt; lia). done.
Qed.
Lemma first_request session limitParam limit : uuid_ok session = true -> pageLimit limitParam 50 200 = Ok limit ->
  chats_request uuid_ok key session limitParam EmptyString = Served (0, limit).
Proof. intros Hu Hl. unfold chats_request. by rewrite Hu, Hl. Qed.

(** The positions of the log are Go's, its sessions canonical. *)
Lemma log_row x p r : inv uuid_ok gzip bucketName x -> log x !! p = Some r ->
  Position r = p /\ 0 < p < position_seq (arch x) /\ p <= 9223372036854775807 /\ canonical (SessionID r) = true.
Proof.
  intros [H _ _] Hr. destruct (sound_row _ _ _ _ _ H _ _ Hr) as (Ep & Hp & Hok & Hc). split_and!; try done; try lia.
  unfold row_ok in Hok. b2p. lia.
Qed.

(** One page: the next chats of the session as of its snapshot. *)
Lemma answer_page session limitParam cursorParam position limit x y rows next : reach x ->
  chats_request uuid_ok key session limitParam cursorParam = Served (position, limit) ->
  answers session limitParam cursorParam x y (Served (rows, next)) ->
  exists page, next_part (arch x) (log x) session position limit page /\ pg_Rows page = rows /\
    next = (fun p => signHistoryCursor key (MkHistoryCursor 0 "chats" session p zero_time)) <$> pg_NextPosition page /\
    runs x y.
Proof.
  intros Hx Hreq Ha. unfold answers in Ha. rewrite Hreq in Ha. destruct Ha as (Hr & e & n & Ha).
  destruct (page_snapshot _ _ _ _ _ _ _) as [[s|z] w] eqn:Es.
  2:{ unfold chats_reply in Ha. by case_decide. }
  destruct Ha as (e' & n' & Ha).
  pose proof (page_exact uuid_ok gzip gunzip collectionChannel channel bucketName x y session position limit s e n w e' n'
    laws Hx Hr Es) as Hp.
  destruct (page_assemble _ _ _ _ _ _ _ _ _) as [[page|z] w']; cbn [fst] in Ha.
  - injection Ha as -> ->. eauto.
  - unfold chats_reply in Ha. by case_decide.
Qed.

Lemma limit_ok raw limit : pageLimit raw 50 200 = Ok limit -> 1 <= limit <= 200.
Proof.
  unfold pageLimit. destruct (is_empty raw); [intros [= <-]; lia|]. destruct (parse_int raw) as [n|]; [|done].
  destruct (_ || _) eqn:E; [done|]. b2p. intros [= <-]. lia.
Qed.

Lemma request_limit session limitParam cursorParam position limit :
  chats_request uuid_ok key session limitParam cursorParam = Served (position, limit) ->
  uuid_ok session = true /\ pageLimit limitParam 50 200 = Ok limit.
Proof.
  unfold chats_request. destruct (uuid_ok session); [|done]. cbn [negb].
  destruct (pageLimit limitParam 50 200); [|done]. destruct (parseHistoryCursor _ _ _); [|done].
  destruct (_ && _); [done|]. intros [= _ ->]. done.
Qed.

Lemma browsing_rows session cursor x rows z : browsing session cursor x rows z -> reach x ->
  forall position, 0 <= position < position_seq (arch x) ->
  (forall limitParam p limit, chats_request uuid_ok key session limitParam cursor = Served (p, limit) -> p = position) ->
  reach z /\ runs x z /\ rows_in (log z) session (position + 1) (position_seq (arch z)) rows.
Proof.
  induction 1 as [limit cursor x y rows Ha|limit cursor x y rows next x' rows' z Ha Hrun Hb IH]; intros Hx position Hpos Hreq.
  all: destruct (chats_request uuid_ok key session limit cursor) as [st code|[p n]] eqn:Er;
    [unfold answers in Ha; rewrite Er in Ha; discriminate Ha|].
  all: pose proof (Hreq _ _ _ Er); subst p.
  all: destruct (answer_page _ _ _ _ _ _ _ _ _ Hx Er Ha) as (page & (Hin & Hlen & Hnext) & <- & En & Hxy).
  - destruct (pg_HasMore page); [destruct Hnext as (_ & E & _); rewrite E in En; done|].
    split; [done|]. split; [apply runs_none|]. apply Hnext.
  - destruct (pg_HasMore page); [|destruct Hnext as [E _]; rewrite E in En; done].
    destruct Hnext as (Hl & E & r & Hr & Hsess & Hpr). rewrite E in En. cbn in En. injection En as ->.
    set (l := last_position position (pg_Rows page)) in *.
    pose proof (reach_inv _ _ _ _ _ _ _ Hx) as Ix.
    destruct (log_row _ _ _ Ix Hr) as (_ & Hrp & Hr64 & Hcan). rewrite Hsess in Hcan.
    destruct (request_limit _ _ _ _ _ Er) as [Hu _].
    pose proof (runs_trans _ _ _ _ _ _ _ _ _ Hxy Hrun) as Hxx'.
    destruct (runs_later _ _ _ _ _ _ _ _ Ix Hxx') as [_ [Hseq Hgrow]].
    destruct (IH (runs_trans _ _ _ _ _ _ _ _ _ Hx Hxx') l) as (Hz & Hxz & Hrest); [lia| |].
    { intros limitParam p n' Hq. pose proof (request_limit _ _ _ _ _ Hq) as [_ Hn'].
      rewrite (next_request session limitParam n' l Hcan Hu) in Hq; [by injection Hq|lia|done]. }
    pose proof (runs_trans _ _ _ _ _ _ _ _ _ Hxx' Hxz) as Hxz'.
    split; [done|]. split; [done|].
    destruct (runs_later _ _ _ _ _ _ _ _ Ix Hxz') as [_ [Hseqz Hgrowz]].
    eapply rows_in_append; [|exact Hrest|lia|lia].
    eapply rows_in_grows; [exact Hgrowz| |exact Hin]. lia.
Qed.

(** An answer that carries a cursor has rows, and its cursor, with any limit,
    asks for what comes after them. *)
Lemma answer_next session limitParam cursorParam x y rows next : reach x ->
  answers session limitParam cursorParam x y (Served (rows, Some next)) ->
  rows <> [] /\ forall limitParam' limit', pageLimit limitParam' 50 200 = Ok limit' ->
    chats_request uuid_ok key session limitParam' next = Served (last_position 0 rows, limit').
Proof.
  intros Hx Ha. destruct (chats_request uuid_ok key session limitParam cursorParam) as [st code|[p n]] eqn:Er.
  { unfold answers in Ha. rewrite Er in Ha. discriminate Ha. }
  destruct (answer_page _ _ _ _ _ _ _ _ _ Hx Er Ha) as (page & (Hin & Hlen & Hnext) & <- & En & _).
  destruct (pg_HasMore page); [|destruct Hnext as [E _]; rewrite E in En; done].
  destruct Hnext as (Hl & E & r & Hr & Hsess & Hpr). rewrite E in En. cbn in En. injection En as ->.
  assert (pg_Rows page <> []) as Hne by (intros E0; rewrite E0 in Hl; cbn in Hl; lia).
  pose proof (reach_inv _ _ _ _ _ _ _ Hx) as Ix.
  destruct (log_row _ _ _ Ix Hr) as (_ & Hrp & Hr64 & Hcan). rewrite Hsess in Hcan.
  destruct (last_position_elem p (pg_Rows page) Hne) as (q & Hq & Eq).
  apply Hin in Hq as (Hq & _). destruct (log_row _ _ _ Ix Hq) as (_ & Hqp & _).
  split; [done|]. intros limitParam' limit' Hlim. rewrite (last_position_any p 0) by done.
  destruct (request_limit _ _ _ _ _ Er) as [Hu _]. apply next_request; [done|done| |done].
  rewrite <- (last_position_any p 0) by done. lia.
Qed.

(** C18: whoever reads the public history of a session page by page, with any
    limits and at any pace, while workers append and exporters move chats
    into segments, ends up with every chat of the session as of the last
    page's snapshot, each once and in order; and the cursor of every answer
    that has one is accepted and asks for what comes after that answer. *)
Theorem history_read_exact session x : reach x ->
  (forall rows z, browsing session EmptyString x rows z ->
     runs x z /\ rows_in (log z) session 1 (position_seq (arch z)) rows) /\
  (forall limitParam cursorParam y rows next, answers session limitParam cursorParam x y (Served (rows, Some next)) ->
     forall limitParam' limit', pageLimit limitParam' 50 200 = Ok limit' ->
     chats_request uuid_ok key session limitParam' next = Served (last_position 0 rows, limit')).
Proof.
  intros Hx. split.
  - intros rows z Hb. pose proof (inv_sound _ _ _ _ (reach_inv _ _ _ _ _ _ _ Hx)) as Hs.
    destruct (browsing_rows _ _ _ _ _ Hb Hx 0) as (_ & Hr & Hin); [pose proof (sound_seq _ _ _ _ _ Hs); lia| |done].
    intros limitParam p limit. unfold chats_request. destruct (uuid_ok session); [|done]. cbn [negb].
    destruct (pageLimit limitParam 50 200); [|done]. cbn. by intros [= <-].
  - intros limitParam cursorParam y rows next Ha. by eapply answer_next.
Qed.
End Browse.

(** ** A concrete reader *)

Import Sample.
Module Reader.
Definition key : string := "0123456789abcdef0123456789abcdef".
Definition at_ : world archive := start (arch second_chat) 0.
Definition snap (p : Z) : snapshot :=
  match (page_snapshot uuid_ok "ch" id p 1 quiet_env at_).1 with Ok s => s | Err _ => ([], None, []) end.
Definition answer (p : Z) : reply (list ChatRow * option string) :=
  chats_reply key id (page_assemble uuid_ok gunzip "bucket" id p 1 (snap p) quiet_env at_).1.
Definition page (p : Z) : list ChatRow * option string :=
  match answer p with Served x => x | Refused _ _ => ([], None) end.
Definition cursor (p : Z) : string := default EmptyString (page p).2.

Notation sample_answers := (answers uuid_ok gzip gunzip (Some "ch"%string) "ch" "bucket" key).
Lemma answered raw p rep : chats_request uuid_ok key id "1" raw = Served (p, 1) ->
  is_ok (page_snapshot uuid_ok "ch" id p 1 quiet_env at_).1 = true -> rep = answer p ->
  sample_answers id "1" raw second_chat second_chat rep.
Proof.
  intros Hreq Hok ->. unfold answers. rewrite Hreq. split; [apply runs_none|]. exists quiet_env, 0%nat.
  unfold answer, snap. fold at_. destruct (page_snapshot _ _ _ _ _ _ _) as [[s|z] w]; [|done].
  exists quiet_env, 0%nat. done.
Qed.
Definition served (p : Z) (more : bool) : bool :=
  match answer p with Served (_, o) => if o then more else negb more | Refused _ _ => false end.
Lemma served_more p : served p true = true -> Served ((page p).1, Some (cursor p)) = answer p.
Proof. unfold served, cursor, page. by destruct (answer p) as [|[rows [c|]]]. Qed.
Lemma served_last p : served p false = true -> Served ((page p).1, None) = answer p.
Proof. unfold served, page. by destruct (answer p) as [|[rows [c|]]]. Qed.
(** The computations of the two pages, together. *)
Definition snapped (p : Z) : bool := is_ok (page_snapshot uuid_ok "ch" id p 1 quiet_env at_).1.
Definition resumed : bool := match chats_request uuid_ok key id "1" (cursor 0) with Served (p, n) => (p =? 1) && (n =? 1) | _ => false end.
Lemma computed : (snapped 0 && served 0 true) && (snapped 1 && served 1 false) && resumed = true.
Proof. vm_compute. reflexivity. Qed.
Lemma resumes : chats_request uuid_ok key id "1" (cursor 0) = Served (1, 1).
Proof.
  pose proof computed as [_ H]%andb_prop. revert H. unfold resumed.
  destruct (chats_request _ _ _ _ _) as [|[p n]]; [done|]. by intros [->%Z.eqb_eq ->%Z.eqb_eq]%andb_prop.
Qed.
Lemma first_page : sample_answers id "1" EmptyString second_chat second_chat (Served ((page 0).1, Some (cursor 0))).
Proof. pose proof computed as [[[H1 H2]%andb_prop _]%andb_prop _]%andb_prop. apply (answered _ 0); [done|exact H1|by apply served_more]. Qed.
Lemma second_page : sample_answers id "1" (cursor 0) second_chat second_chat (Served ((page 1).1, None)).
Proof. pose proof computed as [[_ [H1 H2]%andb_prop]%andb_prop _]%andb_prop. apply (answered _ 1); [exact resumes|exact H1|by apply served_last]. Qed.
Lemma read : browsing uuid_ok gzip gunzip (Some "ch"%string) "ch" "bucket" key id EmptyString second_chat
  ((page 0).1 ++ (page 1).1) second_chat.
Proof.
  eapply browse_more; [exact first_page|apply runs_none|]. eapply browse_last. exact second_page.
Qed.
End Reader.

Lemma history_read_exact_witness : length ((Reader.page 0).1 ++ (Reader.page 1).1) = 2%nat /\
  rows_in (log second_chat) id 1 (position_seq (arch second_chat)) ((Reader.page 0).1 ++ (Reader.page 1).1) /\
  chats_request uuid_ok Reader.key id "7" (Reader.cursor 0) = Served (last_position 0 (Reader.page 0).1, 7).
Proof.
  split; [vm_compute; reflexivity|].
  destruct (history_read_exact uuid_ok gzip gunzip (Some "ch"%string) "ch" "bucket" Reader.key laws id second_chat
    second_chat_reached) as [H1 H2].
  split; [exact (proj2 (H1 _ _ Reader.read))|exact (H2 _ _ _ _ _ Reader.first_page "7"%string 7 eq_refl)].
Defined.
