(* ===== verification/ChatInv.v ===== *)
(** The chat buffer over time: how a stream grows and is trimmed under one
    generation, and what a reader that has reached an id has seen of it. *)
From S2P Require Import Prelude GoLib Json GoText GoTime Tx.
From S2P Require Import Model Channels Message Redis ChatStream.

(** ** Ids and their text *)

Definition id_lt (a b : stream_id) : Prop := id_ltb a b = true.
Definition id_ok (i : stream_id) : Prop := 0 <= i.1 <= u64_max /\ 0 <= i.2 <= u64_max.

Lemma id_lt_spec a b : id_lt a b <-> a.1 < b.1 \/ (a.1 = b.1 /\ a.2 < b.2).
Proof. unfold id_lt, id_ltb. rewrite orb_true_iff, andb_true_iff. lia. Qed.

#[export] Instance id_lt_trans : Transitive id_lt.
Proof. intros a b c. rewrite !id_lt_spec. lia. Qed.
#[export] Instance id_lt_irrefl : Irreflexive id_lt.
Proof. intros a. unfold complement. rewrite id_lt_spec. lia. Qed.
Lemma id_lt_total a b : id_lt a b \/ a = b \/ id_lt b a.
Proof.
  rewrite !id_lt_spec. destruct a as [a1 a2], b as [b1 b2]; simpl.
  destruct (Z.lt_trichotomy a1 b1) as [|[->|]]; [auto| |auto].
  destruct (Z.lt_trichotomy a2 b2) as [|[->|]]; auto.
Qed.
Lemma id_lt_asym a b : id_lt a b -> id_lt b a -> False.
Proof. rewrite !id_lt_spec. lia. Qed.

(** The two numbers of an id text, as the service reads them. *)
Definition id_of (s : string) : option stream_id :=
  match split_on "-" s with [a; b] => Some (uint_or a, uint_or b) | _ => None end.

Lemma before_spec a b i j : id_of a = Some i -> id_of b = Some j ->
  StreamIDBefore a b = id_ltb i j.
Proof.
  unfold id_of, StreamIDBefore, id_ltb.
  destruct (split_on _ a) as [|a1 [|a2 [|]]]; try done. intros [= <-].
  destruct (split_on _ b) as [|b1 [|b2 [|]]]; try done. intros [= <-]. simpl.
  destruct (uint_or a1 =? uint_or b1) eqn:E1; b2p.
  - rewrite E1, Z.ltb_irrefl. simpl. destruct (uint_or a2 =? uint_or b2) eqn:E2; b2p; [|done].
    by rewrite E2, Z.ltb_irrefl.
  - by rewrite orb_false_r.
Qed.

Lemma split_one c s x : split_on c s = [x] -> s = x.
Proof.
  revert x; induction s as [|y s IH]; intros x; simpl; [by intros [= <-]|].
  destruct (Ascii.eqb y c); [intros [= _ H]; by apply split_on_nonempty in H|].
  destruct (split_on c s) as [|q l] eqn:E; [by apply split_on_nonempty in E|].
  intros [= <- ->]. f_equal. by apply IH.
Qed.

Lemma split_two c s a b : split_on c s = [a; b] -> cut_on c s = Some (a, b).
Proof.
  revert a; induction s as [|x s IH]; intros a; simpl; [done|].
  destruct (Ascii.eqb x c) eqn:E.
  - intros [= <- H]. by rewrite (split_one _ _ _ H).
  - destruct (split_on c s) as [|z l] eqn:Es; [by apply split_on_nonempty in Es|].
    intros [= <- ->]. by rewrite (IH z eq_refl).
Qed.

Lemma valid_part_uint q : valid_part q = true -> exists n, parse_uint q = Some n /\ uint_or q = n.
Proof.
  unfold valid_part, uint_or. rewrite !andb_true_iff. intros [_ H].
  destruct (parse_uint q) as [n|]; [by exists n|done].
Qed.

Lemma valid_id s : ValidStreamID s = true ->
  exists i, parse_id s = Some i /\ id_of s = Some i /\ id_ok i.
Proof.
  unfold ValidStreamID, parse_id, id_of.
  destruct (split_on _ s) as [|a [|b [|]]] eqn:E; try done. intros H. b2p.
  destruct (valid_part_uint a) as (n & Ha & ->); [done|].
  destruct (valid_part_uint b) as (m & Hb & ->); [done|].
  exists (n, m). rewrite (split_two _ _ _ _ E), Ha. simpl. rewrite Hb.
  split; [done|]. split; [done|]. split; by eapply parse_uint_range.
Qed.

Lemma format_uint_lacks n : 0 <= n -> lacks "-" (format_uint n) = true.
Proof.
  intros Hn. pose proof (format_uint_digits n Hn) as H. unfold lacks, all_digits in *.
  revert H. generalize (format_uint n). intros s. induction s as [|c s IH]; simpl; [done|].
  intros H. b2p. rewrite IH by done. destruct (Ascii.eqb c "-") eqn:E; [|done].
  apply Ascii.eqb_eq in E as ->. done.
Qed.

Lemma split_format i : id_ok i -> split_on "-" (format_id i) = [format_uint i.1; format_uint i.2].
Proof.
  intros [H1 H2].
  change (format_id i) with (format_uint i.1 +:+ String "-"%char (format_uint i.2)).
  rewrite split_on_app by (apply format_uint_lacks; lia).
  by rewrite split_on_lacks by (apply format_uint_lacks; lia).
Qed.

Lemma valid_part_format n : 0 <= n <= u64_max -> valid_part (format_uint n) = true.
Proof.
  intros Hn. unfold valid_part. rewrite parse_format_uint by done.
  pose proof (format_uint_digits n ltac:(lia)) as Hd. unfold all_digits in Hd. rewrite Hd.
  destruct (format_uint n) eqn:E; [|done].
  pose proof (parse_format_uint n Hn) as H. by rewrite E in H.
Qed.

Lemma format_valid i : id_ok i -> ValidStreamID (format_id i) = true.
Proof.
  intros Hi. unfold ValidStreamID. rewrite split_format by done. destruct Hi.
  by rewrite !valid_part_format.
Qed.

Lemma format_id_of i : id_ok i -> id_of (format_id i) = Some i.
Proof.
  intros Hi. unfold id_of, uint_or. rewrite split_format by done. destruct i, Hi.
  by rewrite !parse_format_uint.
Qed.

Lemma format_parse i : id_ok i -> parse_id (format_id i) = Some i.
Proof.
  intros Hi. destruct (valid_id _ (format_valid i Hi)) as (j & Hj & Hk & _).
  rewrite (format_id_of i Hi) in Hk. congruence.
Qed.

(** ** How a stream changes *)

Definition sorted (l : list entry) : Prop := StronglySorted id_lt (map en_id l).

Record stream_wf (l : list entry) (last : stream_id) : Prop := {
  wf_sorted : sorted l;
  wf_ids : Forall (fun x => id_ok (en_id x)) l;
  wf_last : id_ok last;
  wf_below : Forall (fun x => ~ id_lt last (en_id x)) l
}.

Lemma sorted_app l m : sorted (l ++ m) <->
  sorted l /\ sorted m /\ (forall x y, x ∈ l -> y ∈ m -> id_lt (en_id x) (en_id y)).
Proof.
  unfold sorted. induction l as [|z l IH]; simpl.
  - split; [|tauto]. intros H. split; [constructor|]. split; [done|]. by intros x y ?%elem_of_nil.
  - split.
    + inversion 1 as [|? ? Hs Hz]; subst. apply IH in Hs as (H1 & H2 & H3).
      rewrite map_app, Forall_app in Hz. destruct Hz as [Hz1 Hz2].
      split; [by constructor|]. split; [done|]. intros x y [->|Hx]%elem_of_cons Hy; [|by apply H3].
      rewrite Forall_forall in Hz2. apply Hz2. by apply list_elem_of_fmap_2.
    + intros (H1 & H2 & H3). inversion H1 as [|? ? Hs Hz]; subst. constructor.
      * apply IH. split; [done|]. split; [done|]. intros x y Hx. apply H3. by right.
      * rewrite map_app. apply Forall_app. split; [done|]. apply Forall_forall.
        intros i (y & -> & Hy)%list_elem_of_fmap. apply H3; [left|done].
Qed.

Lemma sorted_unique l x y : sorted l -> x ∈ l -> y ∈ l -> en_id x = en_id y -> x = y.
Proof.
  intros Hs. induction l as [|z l IH]; [by intros ?%elem_of_nil|].
  apply (sorted_app [z] l) in Hs as (_ & Hs & Hz).
  intros [->|Hx]%elem_of_cons [->|Hy]%elem_of_cons E; [done| | |by apply IH].
  - exfalso. apply (irreflexivity id_lt (en_id y)). rewrite <- E at 1. apply Hz; [left|done].
  - exfalso. apply (irreflexivity id_lt (en_id x)). rewrite E at 1. apply Hz; [left|done].
Qed.

(** Dropping what is before an id drops a beginning. *)
Lemma filter_suffix i l : sorted l ->
  exists p, l = p ++ List.filter (fun y => negb (id_ltb (en_id y) i)) l.
Proof.
  induction l as [|x l IH]; intros Hs; [by exists []|].
  apply (sorted_app [x] l) in Hs as (_ & Hs & Hx). simpl.
  destruct (id_ltb (en_id x) i) eqn:E; simpl.
  - destruct (IH Hs) as [p Hp]. exists (x :: p). simpl. by rewrite <- Hp.
  - exists []. simpl. f_equal. symmetry. assert (forall y, In y l -> id_ltb (en_id y) i = false) as H.
    { intros y Hy. apply not_true_iff_false. intros Hlt. apply not_true_iff_false in E. apply E.
      apply (id_lt_trans _ (en_id y)); [|done]. apply Hx; [left|by apply list_elem_of_In]. }
    clear -H. induction l as [|y l IH]; simpl; [done|].
    rewrite (H y) by by left. simpl. f_equal. apply IH. intros; apply H; by right.
Qed.

Lemma filter_after_suffix i l : sorted l -> exists p, l = p ++ List.filter (fun y => id_ltb i (en_id y)) l
  /\ Forall (fun y => ~ id_lt i (en_id y)) p.
Proof.
  induction l as [|x l IH]; intros Hs; [by exists []|].
  apply (sorted_app [x] l) in Hs as (_ & Hs & Hx). simpl.
  destruct (id_ltb i (en_id x)) eqn:E.
  - exists []. simpl. split; [|constructor]. f_equal. symmetry.
    assert (forall y, In y l -> id_ltb i (en_id y) = true) as H.
    { intros y Hy. apply (id_lt_trans _ (en_id x)); [done|]. apply Hx; [left|by apply list_elem_of_In]. }
    clear -H. induction l as [|y l IH]; simpl; [done|].
    rewrite (H y) by by left. f_equal. apply IH. intros; apply H; by right.
  - destruct (IH Hs) as (p & Hp & Hf). exists (x :: p). simpl. split; [by rewrite <- Hp|].
    constructor; [|done]. unfold id_lt. by rewrite E.
Qed.

Lemma wf_suffix l last p l' : stream_wf l last -> l = p ++ l' -> stream_wf l' last.
Proof.
  intros [H1 H2 H3 H4] ->. apply sorted_app in H1 as (_ & H1 & _).
  rewrite Forall_app in H2, H4. destruct H2, H4. by split.
Qed.

Lemma next_id_ok t last i : 0 <= t <= u64_max -> id_ok last -> next_id t last = Some i ->
  id_lt last i /\ id_ok i.
Proof.
  intros Ht [H1 H2]. unfold next_id. destruct (last.1 <? t) eqn:E1; b2p.
  { intros [= <-]. rewrite id_lt_spec. unfold id_ok, u64_max in *. simpl. lia. }
  destruct (last.2 =? u64_max) eqn:E2; b2p.
  - destruct (last.1 =? u64_max) eqn:E3; b2p; [done|].
    intros [= <-]. rewrite id_lt_spec. unfold id_ok, u64_max in *. simpl. lia.
  - intros [= <-]. rewrite id_lt_spec. unfold id_ok, u64_max in *. simpl. lia.
Qed.

Lemma wf_add l last i f : stream_wf l last -> id_lt last i -> id_ok i ->
  stream_wf (l ++ [Entry i f]) i.
Proof.
  intros [H1 H2 H3 H4] Hl Hi. rewrite Forall_forall in H4. split.
  - apply sorted_app. split; [done|]. split; [repeat constructor|].
    intros x y Hx ->%list_elem_of_singleton. simpl.
    destruct (id_lt_total (en_id x) i) as [|[E|Hlt]]; [done| |].
    + exfalso. apply (H4 _ Hx). by rewrite E.
    + exfalso. apply (H4 _ Hx). by etrans.
  - apply Forall_app. split; [done|]. by apply Forall_singleton.
  - done.
  - apply Forall_app. split; [|repeat constructor; simpl; apply irreflexivity, _].
    apply Forall_forall. intros x Hx Hlt. apply (H4 _ Hx). by etrans.
Qed.

Section Growth.
(** The stream's key, the key of its generation, and a generation. *)
Context (k gk G : string) (Hk : k <> gk).

Definition wf (d : redis) : Prop :=
  forall l last ex, keys d !! k = Some (RStream l last, ex) -> stream_wf l last.
Definition gen_is (d : redis) : Prop := exists ex, keys d !! gk = Some (RString G, ex).

(** Under the generation entries are only added after the last id and
    removed from the front. *)
Record grows (d d' : redis) : Prop := {
  gr_wf : wf d -> wf d';
  gr_gen : wf d -> gen_is d' -> gen_is d /\
    forall l' last' ex', keys d' !! k = Some (RStream l' last', ex') ->
    exists l last ex m p, keys d !! k = Some (RStream l last, ex) /\ ~ id_lt last' last /\
      l ++ m = p ++ l' /\ sorted (l ++ m) /\
      Forall (fun y => id_lt last (en_id y) /\ ~ id_lt last' (en_id y)) m
}.

Lemma grows_same d d' : keys d' !! k = keys d !! k -> keys d' !! gk = keys d !! gk -> grows d d'.
Proof.
  intros H1 H2. split.
  - intros W l last ex. rewrite H1. apply W.
  - intros W [ex Hg]. rewrite H2 in Hg. split; [by exists ex|]. intros l last ex'. rewrite H1. intros H.
    exists l, last, ex', [], []. rewrite app_nil_r. split; [done|].
    split; [apply irreflexivity, _|]. split; [done|]. split; [by eapply W|constructor].
Qed.
Lemma grows_refl d : grows d d.
Proof. by apply grows_same. Qed.

Lemma grows_trans d1 d2 d3 : grows d1 d2 -> grows d2 d3 -> grows d1 d3.
Proof.
  intros [W1 A] [W2 B]. split; [auto|]. intros Hw Hg3.
  destruct (B (W1 Hw) Hg3) as [Hg2 B']. destruct (A Hw Hg2) as [Hg1 A']. split; [done|].
  intros l3 last3 ex3 H3.
  destruct (B' _ _ _ H3) as (l2 & last2 & ex2 & m2 & p2 & H2 & L2 & E2 & S2 & F2).
  destruct (A' _ _ _ H2) as (l1 & last1 & ex1 & m1 & p1 & H1 & L1 & E1 & S1 & F1).
  exists l1, last1, ex1, (m1 ++ m2), (p1 ++ p2). split; [done|].
  rewrite Forall_forall in F1, F2.
  split; [revert L1 L2; rewrite !id_lt_spec; lia|].
  split; [by rewrite app_assoc, E1, <- !app_assoc, E2|]. split.
  - rewrite app_assoc. apply sorted_app. split; [done|].
    apply sorted_app in S2 as (_ & S2 & _). split; [done|].
    intros x y Hx Hy. destruct (F2 _ Hy) as [Hy2 _]. apply elem_of_app in Hx as [Hx|Hx].
    + destruct (Hw _ _ _ H1) as [_ _ _ Hb]. rewrite Forall_forall in Hb. specialize (Hb _ Hx).
      revert Hb L1 Hy2. rewrite !id_lt_spec. lia.
    + destruct (F1 _ Hx) as [_ Hx2]. revert Hx2 Hy2. rewrite !id_lt_spec. lia.
  - apply Forall_forall. intros y [Hy|Hy]%elem_of_app.
    + destruct (F1 _ Hy) as [Y1 Y2]. split; [done|]. revert Y2 L2. rewrite !id_lt_spec. lia.
    + destruct (F2 _ Hy) as [Y1 Y2]. split; [|done]. revert Y1 L1. rewrite !id_lt_spec. lia.
Qed.

Lemma grows_shrink d d' :
  (forall l' last' ex', keys d' !! k = Some (RStream l' last', ex') ->
     exists l ex, keys d !! k = Some (RStream l last', ex) /\ (sorted l -> exists p, l = p ++ l')) ->
  (gen_is d' -> gen_is d) -> grows d d'.
Proof.
  intros H Hg. split.
  - intros W l' last' ex' (l & ex & Hl & Hp)%H. specialize (W _ _ _ Hl).
    destruct (Hp (wf_sorted _ _ W)) as [p E]. by eapply wf_suffix.
  - intros W Hg'. split; [by apply Hg|]. intros l' last' ex' (l & ex & Hl & Hp)%H.
    specialize (W _ _ _ Hl). destruct (Hp (wf_sorted _ _ W)) as [p E].
    exists l, last', ex, [], p. rewrite app_nil_r.
    split; [done|]. split; [apply irreflexivity, _|]. split; [done|]. split; [apply W|constructor].
Qed.

Lemma peek_raw t x d v : peek t x d = Some v -> keys d !! x = Some v.
Proof. unfold peek. destruct (keys d !! x) as [[v' [at_|]]|]; [|done..]. by destruct (at_ <? t). Qed.

(** ** The commands *)

Lemma grows_insert_other x v d : x <> k -> x <> gk -> grows d (set_keys (insert x v) d).
Proof. intros. apply grows_same; simpl; by rewrite lookup_insert_ne. Qed.

Lemma grows_delete x d : grows d (set_keys (delete x) d).
Proof.
  apply grows_shrink; unfold gen_is; simpl.
  - intros l' last' ex' [_ H]%lookup_delete_Some. exists l', ex'. split; [done|]. by exists [].
  - intros [ex [_ H]%lookup_delete_Some]. by exists ex.
Qed.

(** A new value that keeps the text of a string and a stream's contents. *)
Lemma grows_expiry x v e1 e2 d : keys d !! x = Some (v, e1) ->
  grows d (set_keys (insert x (v, e2)) d).
Proof.
  intros Hx. apply grows_shrink; unfold gen_is; simpl.
  - intros l' last' ex' [[-> [= -> <-]]|[Hne H]]%lookup_insert_Some.
    + exists l', e1. split; [done|]. by exists [].
    + exists l', ex'. split; [done|]. by exists [].
  - intros [ex [[-> [= -> <-]]|[Hne H]]%lookup_insert_Some]; [by exists e1|by exists ex].
Qed.

Lemma grows_pexpire x ms t d : grows d (cmd_pexpire x ms t d).2.
Proof.
  unfold cmd_pexpire. destruct (peek t x d) as [[v ex]|] eqn:E; [|apply grows_refl].
  simpl. destruct (ms <=? 0); [apply grows_delete|]. eapply grows_expiry. by apply peek_raw in E.
Qed.

Lemma grows_xtrim x minid t d : grows d (cmd_xtrim x minid t d).2.
Proof.
  unfold cmd_xtrim. destruct (parse_id minid) as [i|]; [|apply grows_refl].
  destruct (peek t x d) as [[v ex]|] eqn:E; [|apply grows_refl]. apply peek_raw in E.
  destruct v as [u|ld|l last]; [apply grows_refl..|]. apply grows_shrink; unfold gen_is; simpl.
  - intros l' last' ex' [[-> [= <- <- <-]]|[Hne H]]%lookup_insert_Some.
    + exists l, ex. split; [done|]. apply filter_suffix.
    + exists l', ex'. split; [done|]. by exists [].
  - intros [ex' [[-> [=]]|[Hne H]]%lookup_insert_Some]. by exists ex'.
Qed.

Lemma grows_unlink ks t d : grows d (cmd_unlink ks t d).2.
Proof.
  unfold cmd_unlink. cut (forall r : result Z, grows d (fold_left (fun '(r, d) x =>
    ((n ← r; Ok (n + match peek t x d with Some _ => 1 | None => 0 end)), set_keys (delete x) d))
    ks (r, d)).2); [intros H; apply H|].
  revert d; induction ks as [|x ks IH]; intros d r; [apply grows_refl|]. simpl.
  eapply grows_trans; [apply (grows_delete x)|apply IH].
Qed.

Lemma gen_set v t d : v <> G -> ~ gen_is (cmd_set gk v t d).2.
Proof. intros Hv [ex H]. simpl in H. rewrite lookup_insert_eq in H. congruence. Qed.

Lemma grows_set v t d : v <> G -> grows d (cmd_set gk v t d).2.
Proof.
  intros Hv. apply grows_shrink.
  - simpl. intros l' last' ex'. rewrite lookup_insert_ne by done. intros H.
    exists l', ex'. split; [done|]. by exists [].
  - intros H. by apply gen_set in H.
Qed.

Lemma suffix_keep_last n (l : list entry) : exists p, l = p ++ keep_last n l.
Proof. exists (take (length l - n) l). unfold keep_last. by rewrite take_drop. Qed.

(** An addition: to a stream that is there, or under another generation. *)
Lemma grows_xadd n f t d : 0 <= t <= u64_max ->
  (peek t k d <> None \/ ~ gen_is d) -> grows d (cmd_xadd k (keep_last n) f t d).2.
Proof.
  intros Ht Hp. unfold cmd_xadd, stream_at.
  destruct (peek t k d) as [[v ex]|] eqn:E.
  - apply peek_raw in E. destruct v as [u|ld|l last]; [apply grows_refl..|].
    destruct (next_id t last) as [i|] eqn:Ei; [|apply grows_refl]. simpl.
    destruct (suffix_keep_last n (l ++ [Entry i f])) as [p Hsuf]. split.
    + intros W l' last' ex'. simpl. rewrite lookup_insert_eq. intros [= <- <- <-].
      specialize (W _ _ _ E). destruct (next_id_ok t last i Ht (wf_last _ _ W) Ei) as [H1 H2].
      eapply wf_suffix; [by apply (wf_add l last i f)|done].
    + intros W [ex' Hg]. simpl in *. rewrite lookup_insert_ne in Hg by done. split; [by exists ex'|].
      intros l' last' ex''. rewrite lookup_insert_eq. intros [= <- <- <-].
      specialize (W _ _ _ E). destruct (next_id_ok t last i Ht (wf_last _ _ W) Ei) as [H1 H2].
      exists l, last, ex, [Entry i f], p. split; [done|].
      split; [intros ?; by apply (id_lt_asym last i)|]. split; [done|].
      split; [by apply (wf_add l last i f)|]. apply Forall_singleton.
      split; [done|apply irreflexivity, _].
  - destruct Hp as [|Hp]; [done|]. destruct (next_id t (0, 0)) as [i|] eqn:Ei; [|apply grows_refl].
    simpl. destruct (suffix_keep_last n ([] ++ [Entry i f])) as [p Hsuf]. split.
    + intros W l' last' ex'. simpl. rewrite lookup_insert_eq. intros [= <- <- <-].
      assert (id_ok (0, 0)) as H0 by (unfold id_ok, u64_max; simpl; lia).
      destruct (next_id_ok t (0, 0) i Ht H0 Ei) as [H1 H2].
      eapply wf_suffix; [|exact Hsuf]. apply (wf_add [] (0, 0) i f); [|done..].
      split; [constructor|constructor|done|constructor].
    + intros W [ex' Hg]. simpl in Hg. rewrite lookup_insert_ne in Hg by done. destruct Hp. by exists ex'.
Qed.

Lemma gen_xadd tr f t d : gen_is (cmd_xadd k tr f t d).2 -> gen_is d.
Proof.
  unfold cmd_xadd. destruct (stream_at t k d) as [[[l last] x]|]; [|done].
  destruct (next_id t last); [|done]. intros [ex H]. simpl in H. rewrite lookup_insert_ne in H by done.
  by exists ex.
Qed.

Lemma grows_bind {A B} (m : script A) (f : A -> script B) t d :
  grows d (m t d).2 -> (forall a d1, m t d = (Ok a, d1) -> grows d1 (f a t d1).2) ->
  grows d ((m ≫= f) t d).2.
Proof.
  intros Hm Hf. unfold mbind, script_bind. destruct (m t d) as [[a|x] d1] eqn:E; [|exact Hm].
  eapply grows_trans; [exact Hm|by apply Hf].
Qed.

(** The publication. *)
Lemma grows_productChat v minid f t d : 0 <= t <= u64_max -> v <> G ->
  grows d (productChat k gk v minid f t d).2.
Proof.
  intros Ht Hv. unfold productChat.
  apply grows_bind; [apply grows_refl|]. intros a d1 E. unfold cmd_exists in E. injection E as <- <-.
  apply grows_bind; [apply grows_refl|]. intros b d1 E. unfold cmd_exists in E. injection E as <- <-.
  set (A := match peek t k d with Some _ => true | None => false end).
  set (B := match peek t gk d with Some _ => true | None => false end).
  apply grows_bind.
  { destruct (negb A || negb B); [by apply grows_set|apply grows_refl]. }
  intros [] d1 E1.
  assert (peek t k d1 <> None \/ ~ gen_is d1) as Hp.
  { destruct (negb A || negb B) eqn:Eab.
    - right. pose proof (gen_set v t d Hv) as Hg. by rewrite E1 in Hg.
    - left. injection E1 as <-. apply orb_false_iff in Eab as [Ea _]. unfold A in Ea.
      destruct (peek t k d); [done|discriminate Ea]. }
  apply grows_bind; [by apply grows_xadd|]. intros i d2 _.
  apply grows_bind; [apply grows_xtrim|]. intros [] d3 _.
  apply grows_bind; [apply grows_pexpire|]. intros [] d4 _.
  apply grows_bind; [apply grows_pexpire|]. intros [] d5 _. apply grows_refl.
Qed.
End Growth.
