(* ===== verification/ChatHeld.v ===== *)
(** What the chat buffer has held, for its readers: the operations over Redis
    only add to a generation of the stream, and a read returns what comes next
    or shows that entries were lost. *)
From S2P Require Import Prelude GoLib Json GoText GoTime Tx.
From S2P Require Import Model Channels Message Redis ChatStream ChatInv.

(** ** The operations over Redis *)

Section Commands.
Context (channel G : string).
Notation k := (ChatStreamKey PlatformSoop channel).
Notation gk := (generation_key k).
Notation grows := (grows k gk G).

Lemma key_ne : k <> gk.
Proof.
  intros H. apply (f_equal String.length) in H. unfold generation_key in H.
  rewrite app_length_str in H. simpl in H. lia.
Qed.

Definition clock_ok (e : env) : Prop := forall n, 0 <= unix_milli (clock e n) <= u64_max.
Definition fresh_ok (e : env) : Prop := forall n, fresh e n <> G.

Definition m_grows (e : env) {A} (m : M redis A) : Prop := forall s, grows (db s) (db (m e s).2).

Lemma eval_db {A} (c : script A) e s :
  db (eval_ c e s).2 = db s \/
  db (eval_ c e s).2 = (c (unix_milli (clock e (tick s))) (db s)).2.
Proof.
  unfold eval_. destruct (driver_fails e (tick s)); [by left|right].
  destruct (c _ _) as [r d]. unfold reply, mbind, M_bind, lift. simpl.
  destruct (driver_fails e _); [done|]. by destruct r.
Qed.

Lemma m_grows_eval e {A} (c : script A) : clock_ok e ->
  (forall t d, 0 <= t <= u64_max -> grows d (c t d).2) -> m_grows e (eval_ c).
Proof.
  intros He Hc s. destruct (eval_db c e s) as [-> | ->]; [apply grows_refl|by apply Hc].
Qed.

Lemma m_grows_bind e {A B} (m : M redis A) (f : A -> M redis B) :
  m_grows e m -> (forall a, m_grows e (f a)) -> m_grows e (m ≫= f).
Proof.
  intros Hm Hf s. unfold mbind, M_bind. specialize (Hm s).
  destruct (m e s) as [[a|x] s']; [|exact Hm]. eapply grows_trans; [exact Hm|apply Hf].
Qed.
Lemma m_grows_quiet e {A} (m : M redis A) : quiet m -> m_grows e m.
Proof. intros Hq s. rewrite (Hq e s). apply grows_refl. Qed.

Lemma m_grows_product e msg : clock_ok e -> fresh_ok e ->
  m_Platform msg = PlatformSoop -> m_ChannelID msg = channel -> m_grows e (product_script msg).
Proof.
  intros He Hf Hp Hc. intros s. unfold product_script, mbind, M_bind, new_uuid, time_now.
  rewrite Hp, Hc. cbn [db bump tick].
  apply (m_grows_eval e (productChat k gk (fresh e (tick s)) _ _) He
           (fun t d Ht => grows_productChat k gk G key_ne _ _ _ t d Ht (Hf _))
           (bump (bump s))).
Qed.

Lemma m_grows_trim e : clock_ok e -> m_grows e (TrimProductChat channel).
Proof.
  intros He. apply m_grows_bind; [apply m_grows_quiet, quiet_now|]. intros now.
  apply m_grows_eval; [done|]. intros t d _. apply grows_xtrim.
Qed.

Lemma m_grows_delete e ks : clock_ok e -> m_grows e (DeleteChatStreams ks).
Proof.
  intros He. unfold DeleteChatStreams. generalize (length ks) as fuel, 0.
  intros fuel. revert ks. induction fuel as [|f IH]; intros ks n; destruct ks as [|x ks];
    try (apply m_grows_quiet, quiet_ret).
  cbn [delete_batches]. apply m_grows_bind; [|intros ?; apply IH].
  apply m_grows_eval; [done|]. intros t d _. apply grows_unlink.
Qed.

Lemma script_bind_ok {A B} (m : script A) (f : A -> script B) t d b d' :
  (m ≫= f) t d = (Ok b, d') -> exists a d1, m t d = (Ok a, d1) /\ f a t d1 = (Ok b, d').
Proof. unfold mbind, script_bind. destruct (m t d) as [[a|x] d1]; [eauto|done]. Qed.

Lemma filter_all {A} (l : list A) : List.filter (fun _ => true) l = l.
Proof. induction l as [|a l IH]; simpl; [done|by rewrite IH]. Qed.

Lemma xrange_first n t d r d' : cmd_xrange k None n t d = (Ok r, d') ->
  d' = d /\ exists l last ex, stream_at t k d = Ok (l, last, ex) /\ r = take n l.
Proof.
  unfold cmd_xrange. simpl. destruct (stream_at t k d) as [[[l last] ex]|]; [|done].
  simpl. intros [= <- <-]. rewrite filter_all. eauto 10.
Qed.

Lemma xrange_after s n t d r d' : cmd_xrange k (Some s) n t d = (Ok r, d') ->
  d' = d /\ exists i l last ex, parse_id s = Some i /\ stream_at t k d = Ok (l, last, ex) /\
    r = take n (List.filter (fun x => id_ltb i (en_id x)) l).
Proof.
  unfold cmd_xrange. destruct (parse_id s) as [i|]; [|done]. destruct (_ && _); [done|]. simpl.
  destruct (stream_at t k d) as [[[l last] ex]|]; [|done]. simpl. intros [= <- <-]. eauto 10.
Qed.

Lemma xrevrange_first t d r d' : cmd_xrevrange k EmptyString 1 t d = (Ok r, d') ->
  d' = d /\ exists l last ex, stream_at t k d = Ok (l, last, ex) /\ r = take 1 (rev l).
Proof.
  unfold cmd_xrevrange, stream_at. simpl.
  destruct (peek t k d) as [[v ex]|]; [|intros [= <- <-]; eauto 10].
  destruct v as [|?|l last]; [done..|]. intros [= <- <-]. rewrite filter_all. eauto 10.
Qed.

Lemma generation_read t d v : cmd_get gk t d = (Ok v, d) -> forall g, generation_text v = Ok g ->
  g <> EmptyString -> exists x, keys d !! gk = Some (RString g, x).
Proof.
  unfold cmd_get. destruct (peek t gk d) as [[u x]|] eqn:E.
  - apply peek_raw in E. destruct u as [str|ld|l last]; simpl; [..|done]; intros [= <-] g; simpl;
      [intros [= <-]; by exists x|done].
  - intros [= <-] g [= <-]. done.
Qed.

Lemma chatRead_ok after t d r d' : chatRead k gk after t d = (Ok r, d') -> exists i l last ex,
  d' = d /\ parse_id after = Some i /\ stream_at t k d = Ok (l, last, ex) /\
  (cr_gen r <> EmptyString -> exists x, keys d !! gk = Some (RString (cr_gen r), x)) /\
  cr_first r = take 1 l /\ cr_last r = take 1 (rev l) /\
  cr_rows r = take 100 (List.filter (fun x => id_ltb i (en_id x)) l).
Proof.
  unfold chatRead. intros H.
  apply script_bind_ok in H as (v & d1 & Hv & H).
  assert (d1 = d) as -> by (unfold cmd_get in Hv; congruence).
  apply script_bind_ok in H as (g & d1 & Hg & H). injection Hg as Hg <-.
  apply script_bind_ok in H as (fst_ & d1 & H1 & H).
  apply xrange_first in H1 as (-> & l & last & ex & Hl & ->).
  apply script_bind_ok in H as (lst_ & d1 & H1 & H).
  apply xrevrange_first in H1 as (-> & l1 & last1 & ex1 & Hl1 & ->).
  apply script_bind_ok in H as (rows & d1 & H1 & H).
  apply xrange_after in H1 as (-> & i & l2 & last2 & ex2 & Hi & Hl2 & ->).
  injection H as <- <-. rewrite Hl in Hl1, Hl2. simplify_eq.
  eexists i, _, _, _. split; [done|]. split; [done|]. split; [exact Hl|].
  split; [intros Hne; by eapply generation_read|done].
Qed.

Lemma read_ok after e s b s' : ReadProductChat channel after e s = (Ok b, s') ->
  ValidStreamID after = true /\ exists i l last ex t r,
  db s' = db s /\ parse_id after = Some i /\ stream_at t k (db s) = Ok (l, last, ex) /\
  (cr_gen r <> EmptyString -> exists x, keys (db s) !! gk = Some (RString (cr_gen r), x)) /\
  cr_first r = take 1 l /\ cr_last r = take 1 (rev l) /\
  cr_rows r = take 100 (List.filter (fun x => id_ltb i (en_id x)) l) /\ b = parseChatBatch r.
Proof.
  unfold ReadProductChat. intros H. apply bind_ok in H as (u & s1 & Hv & H).
  apply guard_ok_ok in Hv as [Hv ->]. split; [done|].
  apply bind_ok in H as (r & s2 & H & Hr). apply ret_ok in Hr as [<- <-].
  unfold eval_ in H. destruct (driver_fails e (tick s1)); [done|].
  destruct (chatRead _ _ _ _ _) as [[r'|] d] eqn:E; unfold reply, mbind, M_bind, lift in H; simpl in H;
    (destruct (driver_fails e _); [done|]); [|done].
  injection H as <- <-. destruct (chatRead_ok _ _ _ _ _ E) as (i & l & last & ex & -> & H).
  exists i, l, last, ex, (unix_milli (clock e (tick s1))), r'. simpl. tauto.
Qed.

Lemma read_db after e s : db (ReadProductChat channel after e s).2 = db s.
Proof.
  unfold ReadProductChat. destruct (ValidStreamID after); [|done].
  unfold guard_ok, mbind, M_bind, mret, M_ret.
  destruct (eval_ (chatRead k gk after) e s) as [r s'] eqn:E.
  assert (db s' = db s) as H.
  { destruct (eval_db (chatRead k gk after) e s) as [H|H]; rewrite E in H; simpl in H; [done|].
    rewrite H. unfold chatRead, mbind, script_bind, cmd_get, cmd_xrange, cmd_xrevrange.
    repeat match goal with
    | |- context [match ?x with Ok _ => _ | Err _ => _ end] => destruct x
    end; done. }
  by destruct r.
Qed.
End Commands.

(** ** What the stream has held *)

Section Held.
Context (channel G : string).
Notation k := (ChatStreamKey PlatformSoop channel).
Notation gk := (generation_key k).
(** The stream has the entry, under the generation. *)
Definition holds (d : redis) (x : entry) : Prop :=
  gen_is gk G d /\ exists l last ex, keys d !! k = Some (RStream l last, ex) /\ x ∈ l.

(** Of the entries ever held: what is not there any more precedes what is. *)
Definition front (H : entry -> Prop) (d : redis) : Prop :=
  gen_is gk G d -> forall l last ex, keys d !! k = Some (RStream l last, ex) ->
  forall x, H x -> ~ id_lt last (en_id x) /\
    (x ∈ l \/ Forall (fun y => id_lt (en_id x) (en_id y)) l).

Lemma front_start d : wf k d -> front (holds d) d.
Proof.
  intros W Hg l last ex Hl x (_ & l' & last' & ex' & Hl' & Hx).
  rewrite Hl in Hl'. injection Hl' as <- <- <-. split; [|by left].
  destruct (W _ _ _ Hl) as [_ _ _ Hb]. rewrite Forall_forall in Hb. by apply Hb.
Qed.

Lemma front_grows H d d' : wf k d -> grows k gk G d d' -> front H d ->
  front (fun x => H x \/ holds d' x) d'.
Proof.
  intros W Hgr F Hg' l' last' ex' Hl' x Hx.
  destruct (gr_gen _ _ _ _ _ Hgr W Hg') as [Hg HS].
  destruct (HS _ _ _ Hl') as (l & last & ex & m & p & Hl & L & E & S & Fm).
  destruct Hx as [Hx|Hx].
  - destruct (F Hg _ _ _ Hl x Hx) as [B HF]. split; [revert B L; rewrite !id_lt_spec; lia|].
    rewrite Forall_forall in Fm. destruct HF as [Hin|HF].
    + assert (x ∈ p ++ l') as Hx' by (rewrite <- E; apply elem_of_app; by left).
      apply elem_of_app in Hx' as [Hp|Hp]; [right|by left].
      rewrite E in S. apply sorted_app in S as (_ & _ & S). apply Forall_forall. intros y Hy. by apply S.
    + right. apply Forall_forall. intros y Hy. rewrite Forall_forall in HF.
      assert (y ∈ l ++ m) as Hy' by (rewrite E; apply elem_of_app; by right).
      apply elem_of_app in Hy' as [Hy'|Hy']; [by apply HF|].
      destruct (Fm _ Hy') as [Hy2 _]. revert B Hy2. rewrite !id_lt_spec. lia.
  - exact (front_start d' (gr_wf _ _ _ _ _ Hgr W) Hg' l' last' ex' Hl' x Hx).
Qed.

(** Held entries the step added come after every entry held before. *)
Lemma newly_held H d d' x : wf k d -> front H d -> (forall y, holds d y -> H y) ->
  grows k gk G d d' -> holds d' x ->
  H x \/ forall y, H y -> id_lt (en_id y) (en_id x).
Proof.
  intros W F Hh Hgr (Hg' & l' & last' & ex' & Hl' & Hx).
  destruct (gr_gen _ _ _ _ _ Hgr W Hg') as [Hg HS].
  destruct (HS _ _ _ Hl') as (l & last & ex & m & q & Hl & L & E & S & Fm).
  assert (x ∈ l ++ m) as Hx' by (rewrite E; apply elem_of_app; by right).
  apply elem_of_app in Hx' as [Hx'|Hx'].
  - left. apply Hh. split; [done|]. by exists l, last, ex.
  - right. intros y Hy. destruct (F Hg _ _ _ Hl y Hy) as [B _].
    rewrite Forall_forall in Fm. destruct (Fm _ Hx') as [Hlt _].
    revert B Hlt. rewrite !id_lt_spec. lia.
Qed.

(** An entry as a reading returns it. *)
Definition message (x : entry) : StreamMessage := MkStreamMessage (format_id (en_id x)) (en_values x).

Lemma take_filter_elem n (q : entry -> bool) l x : x ∈ take n (List.filter q l) -> x ∈ l /\ q x = true.
Proof.
  intros (i & Hi & _)%elem_of_take. apply list_elem_of_lookup_2, list_elem_of_In, filter_In in Hi.
  by rewrite list_elem_of_In.
Qed.

Lemma stream_raw t x d l last ex : stream_at t x d = Ok (l, last, ex) ->
  l = [] \/ exists ex', keys d !! x = Some (RStream l last, ex').
Proof.
  unfold stream_at. destruct (peek t x d) as [[v y]|] eqn:E; [|intros [= <- _ _]; by left].
  destruct v as [|?|l' last']; [done..|]. intros [= <- <- <-]. right. apply peek_raw in E. by exists y.
Qed.

Lemma format_nonempty i : id_ok i -> is_empty (format_id i) = false.
Proof. intros Hi. pose proof (format_valid i Hi) as Hv. by destruct (format_id i). Qed.

(** An entry of the stream is in the batch or after it. *)
Lemma batch_or_after a l x : sorted l -> x ∈ l -> id_lt a (en_id x) ->
  let rows := take 100 (List.filter (fun x => id_ltb a (en_id x)) l) in
  x ∈ rows \/ Forall (fun r => id_lt (en_id r) (en_id x)) rows.
Proof.
  intros Ws Hin Ha. set (f := List.filter _ l). assert (x ∈ f) as Hf.
  { apply list_elem_of_In, filter_In. by split; [apply list_elem_of_In|]. }
  destruct (filter_after_suffix a l Ws) as (p & Hp & _). fold f in Hp.
  assert (sorted f) as Hs by (rewrite Hp in Ws; apply sorted_app in Ws as (_ & Ws & _); exact Ws).
  rewrite <- (take_drop 100 f) in Hf, Hs. apply elem_of_app in Hf as [Hf|Hf]; [by left|].
  right. apply Forall_forall. intros r Hr. apply sorted_app in Hs as (_ & _ & Hs). by apply Hs.
Qed.

Section Batch.
Context (HG : G <> EmptyString) (H : entry -> Prop).

(** What remains of a batch, against all that was ever held after [a]. *)
Definition pending (rows : list entry) (gap : bool) (a : stream_id) : Prop :=
  forall x, H x -> id_lt a (en_id x) ->
    x ∈ rows \/ (gap = true /\ Forall (fun r => id_lt (en_id x) (en_id r)) rows) \/
    Forall (fun r => id_lt (en_id r) (en_id x)) rows.

(** The step over a row: the row is the only entry between. *)
Lemma pending_step r rows gap a x : pending (r :: rows) gap a -> sorted (r :: rows) ->
  H x -> H r -> id_lt a (en_id x) ->
  (~ id_lt (en_id r) (en_id x) -> x = r \/ (gap = true /\ id_lt (en_id x) (en_id r))) /\
  (id_lt (en_id r) (en_id x) -> x ∈ rows \/ Forall (fun y => id_lt (en_id y) (en_id x)) rows).
Proof.
  intros P S Hx Hr Ha. apply (sorted_app [r] rows) in S as (_ & _ & S).
  destruct (P x Hx Ha) as [Hin|[[Hg F]|F]].
  - apply elem_of_cons in Hin as [->|Hin].
    + split; [by left|]. intros Hlt. by apply (irreflexivity id_lt) in Hlt.
    + split; [|by left]. intros Hn. destruct Hn. apply S; [left|done].
  - apply Forall_cons in F as [F _]. split; [by right|]. intros Hlt. exfalso. by eapply id_lt_asym.
  - apply Forall_cons in F as [F F2]. split; [|by right]. intros Hn. done.
Qed.

Lemma pending_next r rows gap gap' a : pending (r :: rows) gap a -> sorted (r :: rows) -> H r ->
  id_lt a (en_id r) -> pending rows gap' (en_id r).
Proof.
  intros P S Hr Ha x Hx Hlt.
  destruct (pending_step r rows gap a x P S Hx Hr) as [_ Hs]; [by etrans|].
  destruct (Hs Hlt); auto.
Qed.

(** The test of the readers: [after] is before the oldest entry. *)
Definition overtaken (after : string) (b : ChatBatch) : bool :=
  negb (String.eqb after "0-0") && negb (is_empty (b_Earliest b)) && StreamIDBefore after (b_Earliest b).

(** What a read returned, against all that was ever held. *)
Lemma read_batch after e s b s' a :
  ReadProductChat channel after e s = (Ok b, s') -> id_of after = Some a ->
  wf k (db s) -> front H (db s) -> (forall x, holds (db s) x -> H x) -> b_Generation b = G ->
  exists rows, b_Messages b = map message rows /\ sorted rows /\
    Forall (fun x => H x /\ id_ok (en_id x) /\ id_lt a (en_id x)) rows /\
    forall gap, after <> "0-0"%string \/ gap = true ->
      pending rows (if overtaken after b then true else gap) a.
Proof.
  intros E Ha W F Hh Hb.
  apply read_ok in E as (Hv & i & l & last & ex & t & r & _ & Hi & Hl & Hgen & Hfirst & Hlast & Hrows & ->).
  destruct (valid_id _ Hv) as (i' & Hi' & Hi'' & _). assert (i = a) as -> by congruence.
  assert (gen_is gk G (db s)) as Hg.
  { destruct Hgen as [x Hx]; [simpl in Hb; congruence|]. exists x. by rewrite <- Hb. }
  exists (cr_rows r). split; [done|]. rewrite Hrows. unfold overtaken. cbn [b_Earliest parseChatBatch]. rewrite Hfirst.
  apply stream_raw in Hl as [-> |[ex' Hl]].
  { split; [constructor|]. split; [constructor|]. intros gap _ x Hx _. right. right. constructor. }
  destruct (W _ _ _ Hl) as [Ws Wi _ _]. split; [|split].
  - destruct (filter_after_suffix a l Ws) as (p & Hp & _). rewrite Hp in Ws.
    apply sorted_app in Ws as (_ & Ws & _).
    rewrite <- (take_drop 100 (List.filter _ l)) in Ws. apply sorted_app in Ws as (Ws & _). exact Ws.
  - apply Forall_forall. intros x [Hx Hlt]%take_filter_elem.
    split; [apply Hh; split; [done|]; by exists l, last, ex'|].
    rewrite Forall_forall in Wi. by split; [apply Wi|].
  - intros gap Hgap x Hx Hax. destruct (F Hg _ _ _ Hl x Hx) as [_ [Hin|Hall]].
    + destruct (batch_or_after a l x Ws Hin Hax); auto.
    + destruct l as [|y l]; [right; right; constructor|]. right. left.
      apply Forall_cons in Hall as [Hy Hall]. apply Forall_cons in Wi as [Hyo _]. split.
      * simpl. rewrite format_nonempty by done.
        rewrite (before_spec _ _ a (en_id y) Ha (format_id_of _ Hyo)).
        assert (id_ltb a (en_id y) = true) as -> by (by apply (id_lt_trans _ (en_id x))).
        destruct Hgap as [Hne| ->]; [by rewrite (proj2 (String.eqb_neq _ _) Hne)|by case_match].
      * apply Forall_forall. intros z Hz.
        apply take_filter_elem in Hz as [[-> |Hz]%elem_of_cons _]; [done|].
        rewrite Forall_forall in Hall. by apply Hall.
Qed.
End Batch.

(** ** Over a run *)

Definition extends (H H' : entry -> Prop) : Prop :=
  (forall x, H x -> H' x) /\ (forall x, H' x -> H x \/ forall y, H y -> id_lt (en_id y) (en_id x)).

Section Run.
(** A system with Redis in its state, and its steps. *)
Context {X St : Type} (do_step : X -> St -> St) (red : St -> redis) (ok : X -> Prop).
Definition run_of (l : list X) (st : St) : St := fold_left (fun st x => do_step x st) l st.

(** Everything the stream has held so far. *)
Definition held_since (l : list X) (st : St) (x : entry) : Prop :=
  exists l1 l2, l = l1 ++ l2 /\ holds (red (run_of l1 st)) x.

Lemma held_since_snoc l z st x : held_since (l ++ [z]) st x <->
  held_since l st x \/ holds (red (run_of (l ++ [z]) st)) x.
Proof.
  split.
  - intros (l1 & l2 & E & Hx). destruct l2 as [|y l2] using rev_ind.
    + rewrite app_nil_r in E. subst l1. by right.
    + rewrite app_assoc in E. apply app_inj_tail in E as [-> ->]. left. by exists l1, l2.
  - intros [(l1 & l2 & -> & Hx)|Hx].
    + exists l1, (l2 ++ [z]). by rewrite app_assoc.
    + exists (l ++ [z]), []. by rewrite app_nil_r.
Qed.

(** What holds at the start against what is held, survives entries added at
    the end and is kept by every step, holds along the run. *)
Lemma held_run (P : (entry -> Prop) -> St -> Prop) l st :
  (forall H H' st, extends H H' -> P H st -> P H' st) ->
  (forall H z st, ok z -> wf k (red st) -> front H (red st) -> (forall x, holds (red st) x -> H x) -> P H st ->
     grows k gk G (red st) (red (do_step z st)) /\ P H (do_step z st)) ->
  Forall ok l -> wf k (red st) -> P (holds (red st)) st ->
  let st' := run_of l st in
  wf k (red st') /\ front (held_since l st) (red st') /\
  (forall x, holds (red st') x -> held_since l st x) /\ P (held_since l st) st'.
Proof.
  intros Hext Hstep Hl W HP. induction l as [|z l IH] using rev_ind.
  - assert (forall x, held_since [] st x <-> holds (red st) x) as Hheld.
    { intros x. split; [intros (l1 & l2 & E & Hx); by destruct l1|intros Hx; by exists [], []]. }
    simpl. split; [done|]. split; [|split].
    + intros Hg l0 last ex Hl0 x Hx. apply (front_start (red st) W Hg _ _ _ Hl0). by apply Hheld.
    + intros x. apply Hheld.
    + eapply Hext; [|exact HP]. split; intros x Hx; [by apply Hheld|left; by apply Hheld].
  - apply Forall_app in Hl as [Hl [Hz _]%Forall_cons]. destruct (IH Hl) as (W1 & F1 & H1 & P1).
    destruct (Hstep _ z _ Hz W1 F1 H1 P1) as [Hgr P2].
    pose proof (held_since_snoc l z st) as Hh. unfold run_of in *. rewrite fold_left_app in *. cbn [fold_left] in *.
    split; [by apply (gr_wf _ _ _ _ _ Hgr)|]. split; [|split].
    + intros Hg l0 last ex Hl0 x Hx. apply Hh in Hx. exact (front_grows _ _ _ W1 Hgr F1 Hg _ _ _ Hl0 x Hx).
    + intros x Hx. apply Hh. by right.
    + eapply Hext; [|exact P2]. split; intros x Hx; [apply Hh; by left|].
      apply Hh in Hx as [Hx|Hx]; [by left|]. by eapply newly_held.
Qed.
End Run.
End Held.
