(* ===== verification/ChatWatch.v ===== *)
(** The chat stream of the product service
    (src/query/internal/collector_chat.go): one iteration per read of the
    buffer, a position in the stream and the announcement of lost entries. *)
From S2P Require Import Prelude GoLib Json GoTime Tx Model.
From S2P Require Import Channels Message Redis ChatStream Query.

Record ChatCursor := MkChatCursor { StreamGeneration : string; StreamId : string; GapBefore : bool }.

(** [pb.ChatEvent]; the members every event sets alike are left out: schema
    version, platform, and the platform's channel id, which repeats
    [ChannelId]. *)
Record ChatEvent := MkChatEvent {
  ch_EventId : string;
  ch_ChannelId : string;
  ch_UserId : string;
  ch_Message : string;
  ch_EmotesJson : string;
  ch_Cursor : ChatCursor;
  ch_ObservedAt : Z;
  ch_UserDisplayName : string
}.

(** The variables of the loop, the events sent, whether it waits for the
    timer, and how the call ended. *)
Record chat_watch := ChatWatch {
  cw_after : string;
  cw_generation : string;
  cw_gap : bool;
  cw_sent : list ChatEvent;
  cw_waiting : bool;
  cw_end : option status
}.

(** What an entry becomes. *)
Inductive chat_verdict := NotChat | BadTime | Event (at_ : Z).

Definition verdict (m : StreamMessage) : chat_verdict :=
  if negb (String.eqb (value m "type") "chat") || is_empty (value m "userId") then NotChat
  else match parse_rfc3339 (value m "timestamp") with
       | None => BadTime
       | Some at_ => Event at_
       end.

Definition chat_event (channel generation : string) (gap : bool) (m : StreamMessage) (at_ : Z)
  : ChatEvent :=
  MkChatEvent (value m "id") channel (value m "userId") (value m "message") (value m "emotes")
    (MkChatCursor generation (StreamID m) gap) at_ (value m "nickname").

Section Watch.
Context (access : ProductAccess) (FromContextError : error -> status) (p : option peer).
(** [stream.Send], per event sent before: a status when the stream is broken. *)
Context (Send : nat -> option status).
Context (channel : string).

Definition set_watch (after : string) (gap : bool) (sent : list ChatEvent) (w : chat_watch) : chat_watch :=
  ChatWatch after (cw_generation w) gap sent (cw_waiting w) (cw_end w).
Definition ended (st : status) (w : chat_watch) : chat_watch :=
  ChatWatch (cw_after w) (cw_generation w) (cw_gap w) (cw_sent w) false (Some st).

Fixpoint send_messages (l : list StreamMessage) (w : chat_watch) : chat_watch :=
  match l with
  | [] => w
  | m :: l =>
      match verdict m with
      | NotChat => send_messages l (set_watch (StreamID m) (cw_gap w) (cw_sent w) w)
      | BadTime => send_messages l (set_watch (StreamID m) true (cw_sent w) w)
      | Event at_ =>
          match Send (length (cw_sent w)) with
          | Some st => ended st (set_watch (StreamID m) (cw_gap w) (cw_sent w) w)
          | None =>
              send_messages l (set_watch (StreamID m) false
                (cw_sent w ++ [chat_event channel (cw_generation w) (cw_gap w) m at_]) w)
          end
      end
  end.

(** The checks of an iteration on what it read, then the messages. *)
Definition take_batch (b : ChatBatch) (w : chat_watch) : chat_watch :=
  if is_empty (b_Generation b) && negb (length (b_Messages b) =? 0)%nat
  then ended (plain FailedPrecondition "chat generation unavailable; explicit resubscription required") w
  else if negb (is_empty (cw_generation w)) && negb (String.eqb (cw_generation w) (b_Generation b))
  then ended (plain FailedPrecondition "chat stream reset; explicit resubscription required") w
  else
    let generation := if is_empty (cw_generation w) then b_Generation b else cw_generation w in
    let gap := if negb (String.eqb (cw_after w) "0-0") && negb (is_empty (b_Earliest b))
                  && StreamIDBefore (cw_after w) (b_Earliest b)
               then true else cw_gap w in
    let w := ChatWatch (cw_after w) generation gap (cw_sent w) false (cw_end w) in
    if negb (is_empty (b_Latest b)) && StreamIDBefore (b_Latest b) (cw_after w)
    then ended (plain InvalidArgument "chat cursor beyond stream") w
    else
      let w := send_messages (b_Messages b) w in
      ChatWatch (cw_after w) (cw_generation w) (cw_gap w) (cw_sent w)
        (if cw_end w then false else negb (length (b_Messages b) =? 100)%nat) (cw_end w).

Definition chat_round (w : chat_watch) : M redis chat_watch :=
  r ← try (ReadProductChat channel (cw_after w));
  match r with
  | Err _ => mret (ended (plain Unavailable "chat buffer unavailable") w)
  | Ok b => mret (take_batch b w)
  end.

(** The call up to the loop; [gap_before] of a cursor given is not looked at. *)
Definition chat_start (consumer : string) (after : option ChatCursor) : chat_watch :=
  let w := ChatWatch "0-0" EmptyString false [] false None in
  match authorize access p consumer channel "events:read" with
  | Some st => ended st w
  | None =>
      match after with
      | None => w
      | Some c =>
          if negb (ValidStreamID (StreamId c)) || is_empty (StreamGeneration c)
          then ended (plain InvalidArgument "invalid chat cursor") w
          else ChatWatch (StreamId c) (StreamGeneration c) false [] false None
      end
  end.

(** What happens during the call: an iteration, the end of its context while
    it waits, a publication or a trim of the channel's stream, keys deleted
    by the clean-up, any other command. *)
Inductive chat_step :=
| CRound
| CDone
| CPublish (msg : ChatMessage)
| CTrim
| CDelete (ks : list string)
| COther (m : M redis unit).

Definition on_watch {A} (m : M redis A) (e : env) (s : world redis) (w : chat_watch)
  : world redis * chat_watch := ((m e s).2, w).

Definition chat_do (x : chat_step) (e : env) (s : world redis) (w : chat_watch)
  : world redis * chat_watch :=
  match x with
  | CRound =>
      match cw_end w with
      | Some _ => (s, w)
      | None => match chat_round w e s with
                | (Ok w', s') => (s', w')
                | (Err _, s') => (s', w)
                end
      end
  | CDone =>
      match cw_end w with
      | None => (s, if cw_waiting w then ended (FromContextError ErrContext) w else w)
      | Some _ => (s, w)
      end
  | CPublish msg => on_watch (product_script msg) e s w
  | CTrim => on_watch (TrimProductChat channel) e s w
  | CDelete ks => on_watch (DeleteChatStreams ks) e s w
  | COther m => on_watch m e s w
  end.

Fixpoint chat_run (l : list chat_step) (e : env) (s : world redis) (w : chat_watch)
  : world redis * chat_watch :=
  match l with
  | [] => (s, w)
  | x :: l => let '(s, w) := chat_do x e s w in chat_run l e s w
  end.
End Watch.
