(* ===== verification/ChatProps.v ===== *)
(** What a consumer of the chat stream can rely on: in whatever order reads,
    publications, trims, deletions and other commands happen, it receives the
    entries of its generation in order, and an entry it did not receive is
    announced by a gap. *)
From S2P Require Import Prelude GoLib Json GoText GoTime Tx.
From S2P Require Import Model Channels Message Redis ChatStream ChatInv.
From S2P Require Import ChatHeld Query ChatWatch.
From Stdlib Require Import SpecFloat.

(** ** What the reader has received *)

Section Reader.
Context (channel G : string).
Notation k := (ChatStreamKey PlatformSoop channel).
Notation gk := (generation_key k).
Notation holds := (holds channel G).
Notation front := (front channel G).
Context (HG : G <> EmptyString).

Definition position (v : ChatEvent) : stream_id := default (0, 0) (id_of (StreamId (ch_Cursor v))).

(** A chat entry with a user and a time is received; others are not for it. *)
Definition delivered (sent : list ChatEvent) (x : entry) : Prop :=
  match verdict (message x) with
  | Event at_ => exists gap, chat_event channel G gap (message x) at_ ∈ sent
  | NotChat => True
  | BadTime => False
  end.

(** A gap is announced after the entry, up to [i]. *)
Definition announced (sent : list ChatEvent) (x : entry) (i : stream_id) : Prop :=
  exists u, u ∈ sent /\ GapBefore (ch_Cursor u) = true /\ id_lt (en_id x) (position u) /\
    ~ id_lt i (position u).

Section From.
Context (from : stream_id) (H : entry -> Prop).
Notation pending := (pending H).

Record received (sent : list ChatEvent) : Prop := {
  rc_order : StronglySorted id_lt (map position sent);
  rc_after : Forall (fun v => id_lt from (position v)) sent;
  rc_origin : Forall (fun v => exists x at_ gap, H x /\ id_ok (en_id x) /\
    verdict (message x) = Event at_ /\ v = chat_event channel G gap (message x) at_) sent;
  rc_complete : forall v x, v ∈ sent -> H x -> id_lt from (en_id x) -> id_lt (en_id x) (position v) ->
    delivered sent x \/ announced sent x (position v)
}.

Record reading (w : chat_watch) (a : stream_id) : Prop := {
  rd_running : cw_end w = None;
  rd_generation : cw_generation w = G;
  rd_after : id_of (cw_after w) = Some a;
  rd_valid : ValidStreamID (cw_after w) = true;
  rd_nonzero : cw_after w <> "0-0"%string;
  rd_ok : id_ok a;
  rd_from : ~ id_lt a from;
  rd_origin : a = from \/ exists y, H y /\ en_id y = a;
  rd_below : Forall (fun v => ~ id_lt a (position v)) (cw_sent w);
  rd_seen : forall x, H x -> id_lt from (en_id x) -> ~ id_lt a (en_id x) ->
    delivered (cw_sent w) x \/ cw_gap w = true \/ announced (cw_sent w) x a
}.

Lemma delivered_mono sent m x : delivered sent x -> delivered (sent ++ m) x.
Proof.
  unfold delivered. destruct (verdict _); [done..|]. intros [g Hg]. exists g.
  apply elem_of_app. by left.
Qed.
Lemma announced_mono sent m x i j : ~ id_lt j i -> announced sent x i -> announced (sent ++ m) x j.
Proof.
  intros Hij (u & Hu & Hg & Hx & Hi). exists u. split; [apply elem_of_app; by left|].
  split; [done|]. split; [done|]. revert Hi Hij. rewrite !id_lt_spec. lia.
Qed.

Lemma position_event gap x at_ : id_ok (en_id x) ->
  position (chat_event channel G gap (message x) at_) = en_id x.
Proof. intros Hx. unfold position. simpl. by rewrite format_id_of. Qed.

Lemma after_text x a : id_ok a -> id_lt a (en_id x) -> id_ok (en_id x) ->
  id_of (format_id (en_id x)) = Some (en_id x) /\ ValidStreamID (format_id (en_id x)) = true /\
  format_id (en_id x) <> "0-0"%string.
Proof.
  intros Ha Hlt Hx. split; [by apply format_id_of|]. split; [by apply format_valid|].
  intros E. pose proof (format_id_of _ Hx) as E2. rewrite E in E2.
  change (id_of "0-0") with (Some (0, 0)) in E2. assert (en_id x = (0, 0)) as E3 by congruence.
  rewrite E3, id_lt_spec in Hlt. destruct Ha. simpl in *. lia.
Qed.

Lemma received_snoc sent x at_ gap a :
  received sent -> Forall (fun v => ~ id_lt a (position v)) sent ->
  H x -> id_ok (en_id x) -> id_lt from (en_id x) -> id_lt a (en_id x) ->
  verdict (message x) = Event at_ ->
  (forall y, H y -> id_lt from (en_id y) -> id_lt (en_id y) (en_id x) ->
     delivered sent y \/ gap = true \/ announced sent y a) ->
  received (sent ++ [chat_event channel G gap (message x) at_]).
Proof.
  intros [O A R C] B Hx Hok Hf Ha Hv Hall.
  pose proof (position_event gap x at_ Hok) as Hpos.
  rewrite Forall_forall in B. split.
  - rewrite map_app. simpl. rewrite Hpos. clear C Hall.
    assert (forall v, v ∈ sent -> id_lt (position v) (en_id x)) as Hlt.
    { intros v Hin. specialize (B v Hin). revert B Ha. rewrite !id_lt_spec. lia. }
    clear B. induction sent as [|v sent IH]; simpl; [repeat constructor|].
    inversion O as [|? ? O1 O2]; subst. inversion A; subst. inversion R; subst. constructor.
    + apply IH; try done. intros; apply Hlt; by right.
    + apply Forall_app. split; [done|]. apply Forall_singleton. apply Hlt. left.
  - apply Forall_app. split; [done|]. apply Forall_singleton. by rewrite Hpos.
  - apply Forall_app. split; [done|]. apply Forall_singleton. by exists x, at_, gap.
  - intros v y [Hin|Hin]%elem_of_app Hy Hfy Hlt.
    + destruct (C v y Hin Hy Hfy Hlt) as [D|D]; [left; by apply delivered_mono|right].
      eapply announced_mono; [|exact D]. apply irreflexivity, _.
    + apply list_elem_of_singleton in Hin as ->. rewrite Hpos in *.
      destruct (Hall y Hy Hfy Hlt) as [D|[-> |D]].
      * left. by apply delivered_mono.
      * right. eexists. split; [apply elem_of_app; right; by left|]. rewrite Hpos.
        split; [done|]. split; [done|apply irreflexivity, _].
      * right. eapply announced_mono; [|exact D]. intros ?. by eapply id_lt_asym.
Qed.

(** The row that has been passed: everything up to it is accounted for. *)
Lemma reading_next w a r rows after gap sent :
  reading w a -> received (cw_sent w) -> pending (r :: rows) (cw_gap w) a ->
  sorted (r :: rows) -> H r -> id_ok (en_id r) -> id_lt a (en_id r) ->
  after = format_id (en_id r) -> (exists m, sent = cw_sent w ++ m) ->
  Forall (fun v => ~ id_lt (en_id r) (position v)) sent ->
  delivered sent r \/ gap = true ->
  (forall x, H x -> id_lt from (en_id x) -> id_lt (en_id x) (en_id r) -> cw_gap w = true ->
     gap = true \/ announced sent x (en_id r)) ->
  reading (set_watch after gap sent w) (en_id r).
Proof.
  intros [R1 R2 R3 R4 R5 R6 R7 R10 R8 R9] _ P S Hr Hok Ha -> [m ->] Hb Hd Hg.
  destruct (after_text r a R6 Ha Hok) as (T1 & T2 & T3).
  split; simpl; try done.
  - revert R7 Ha. rewrite !id_lt_spec. lia.
  - right. by exists r.
  - intros x Hx Hf Hn.
    destruct (id_lt_total (en_id x) a) as [Hxa|Hxa]; [|destruct Hxa as [Hxa|Hxa]].
    3:{ destruct (pending_step H r rows _ a x P S Hx Hr Hxa) as [Hs _].
        destruct (Hs Hn) as [-> |[Eg Hlt]]; [tauto|].
        destruct (Hg x Hx Hf Hlt Eg); auto. }
    all: assert (id_lt (en_id x) (en_id r)) as Hlt by
      (first [by (etrans; [exact Hxa|]) | by rewrite Hxa]).
    all: assert (~ id_lt a (en_id x)) as Hna by (intros ?; first
      [by eapply id_lt_asym | rewrite Hxa in *; by apply (irreflexivity id_lt a)]).
    all: destruct (R9 x Hx Hf Hna) as [D|[Eg|D]];
      [left; by apply delivered_mono
      |destruct (Hg x Hx Hf Hlt Eg); auto
      |right; right; eapply announced_mono; [|exact D]; intros ?; by eapply id_lt_asym].
Qed.

Lemma chat_send_run Send rows : forall w a,
  reading w a -> received (cw_sent w) -> pending rows (cw_gap w) a -> sorted rows ->
  Forall (fun r => H r /\ id_ok (en_id r) /\ id_lt a (en_id r)) rows ->
  let w' := send_messages Send channel (map message rows) w in
  received (cw_sent w') /\ (cw_end w' = None -> exists a', reading w' a').
Proof.
  induction rows as [|r rows IH]; intros w a R RC P S F; [simpl; eauto|].
  apply Forall_cons in F as [(Hr & Hok & Ha) F].
  pose proof S as S'. apply (sorted_app [r] rows) in S' as (_ & S' & Slt).
  assert (forall w', reading w' (en_id r) -> received (cw_sent w') ->
    let w'' := send_messages Send channel (map message rows) w' in
    received (cw_sent w'') /\ (cw_end w'' = None -> exists a', reading w'' a')) as Hnext.
  { intros w' R' RC'. apply (IH w' (en_id r)); try done.
    - by eapply (pending_next H).
    - rewrite Forall_forall in F. apply Forall_forall. intros y Hy.
      destruct (F y Hy) as (? & ? & ?). split; [done|]. split; [done|]. apply Slt; [left|done]. }
  assert (Forall (fun v => ~ id_lt (en_id r) (position v)) (cw_sent w)) as Hb.
  { eapply Forall_impl; [apply R|]. intros v Hv. revert Hv Ha. rewrite !id_lt_spec. lia. }
  assert (exists m : list ChatEvent, cw_sent w = cw_sent w ++ m) as Hm
    by (exists []; by rewrite app_nil_r).
  cbn [map send_messages]. destruct (verdict (message r)) as [| |at_] eqn:Ev.
  - apply Hnext; [|done]. eapply reading_next; try done; [left|].
    + unfold delivered. by rewrite Ev.
    + auto.
  - apply Hnext; [|done]. eapply reading_next; try done; auto.
  - destruct (Send _) as [st|]; [simpl; split; [done|discriminate]|].
    rewrite (rd_generation _ _ R).
    assert (id_lt from (en_id r)) as Hfr
      by (pose proof (rd_from _ _ R) as Hx; revert Hx Ha; rewrite !id_lt_spec; lia).
    assert (received (cw_sent w ++ [chat_event channel G (cw_gap w) (message r) at_])) as RC'.
    { apply (received_snoc _ r at_ _ a); try done; [exact (rd_below _ _ R)|]. intros y Hy Hfy Hlt.
      destruct (id_lt_total a (en_id y)) as [Hay|Hay].
      - destruct (pending_step H r rows _ a y P S Hy Hr Hay) as [Hs _].
        destruct Hs as [-> |[Eg _]]; [intros ?; by eapply id_lt_asym| |auto].
        by apply (irreflexivity id_lt) in Hlt.
      - apply (rd_seen _ _ R); try done. intros Hc. destruct Hay as [E|E].
        + rewrite E in Hc. by apply (irreflexivity id_lt) in Hc.
        + by eapply id_lt_asym. }
    pose proof (position_event (cw_gap w) r at_ Hok) as Hpos.
    apply Hnext; [|done]. eapply reading_next; try done.
    + by exists [chat_event channel G (cw_gap w) (message r) at_].
    + apply Forall_app. split; [done|]. apply Forall_singleton. rewrite Hpos. apply irreflexivity, _.
    + left. unfold delivered. rewrite Ev. eexists. apply elem_of_app. right. by left.
    + intros x Hx Hf Hlt Eg. right. eexists. split; [apply elem_of_app; right; by left|].
      rewrite Hpos. split; [done|]. split; [done|apply irreflexivity, _].
Qed.

Lemma round_received Send w a e s :
  reading w a -> received (cw_sent w) -> wf k (db s) -> front H (db s) ->
  (forall x, holds (db s) x -> H x) ->
  let '(r, s') := chat_round Send channel w e s in
  db s' = db s /\ exists w', r = Ok w' /\ received (cw_sent w') /\
    (cw_end w' = None -> exists a', reading w' a').
Proof.
  intros R RC W F Hh. unfold chat_round, mbind, M_bind, try.
  pose proof (read_db channel (cw_after w) e s) as Hdb.
  destruct (ReadProductChat channel (cw_after w) e s) as [[b|x] s'] eqn:E; simpl in Hdb |- *.
  2:{ split; [done|]. eexists. split; [done|]. by split. }
  split; [done|]. eexists. split; [done|]. unfold take_batch. destruct (_ && _); [by split|].
  rewrite (rd_generation _ _ R).
  destruct (is_empty G) eqn:EG; [by destruct G|]. cbn [andb negb].
  destruct (String.eqb G (b_Generation b)) eqn:Eg; cbn [negb]; [|by split].
  apply String.eqb_eq in Eg. cbn [andb negb].
  destruct (read_batch channel G HG H _ e s b s' a E (rd_after _ _ R) W F Hh (eq_sym Eg)) as (rows & Hrows & S1 & F1 & P).
  specialize (P (cw_gap w) (or_introl (rd_nonzero _ _ R))). unfold overtaken in P.
  match type of P with ChatHeld.pending _ _ ?g _ => set (gap := g) in * end.
  set (w1 := ChatWatch (cw_after w) G gap (cw_sent w) false (cw_end w)).
  assert (reading w1 a) as R1.
  { destruct R as [R1 R2 R3 R4 R5 R6 R7 R10 R8 R9]. split; try done. intros x Hx Hf Hn.
    destruct (R9 x Hx Hf Hn) as [D|[D|D]]; auto. right. left. simpl. unfold gap. rewrite D.
    by case_match. }
  match goal with |- context [if ?b then ended _ _ else _] => destruct b end; [by split|].
  rewrite Hrows. destruct (chat_send_run Send rows w1 a R1 RC P S1 F1) as [RC' R'].
  split; [exact RC'|]. simpl. intros He. destruct (R' He) as [a' []].
  exists a'. by split.
Qed.
End From.
End Reader.

(** ** The stream over a call *)

Section Call.
Context (access : ProductAccess) (from_context : error -> status) (p : option peer).
Context (Send : nat -> option status) (channel : string).
Notation k := (ChatStreamKey PlatformSoop channel).
Notation gk := (generation_key k).
Notation do_step := (chat_do from_context Send channel).
Notation runs := (chat_run from_context Send channel).

(** Publications are of this channel; the other commands are about other keys. *)
Definition step_ok (x : chat_step) : Prop :=
  match x with
  | CPublish msg => m_Platform msg = PlatformSoop /\ m_ChannelID msg = channel
  | COther m => forall e s, keys (db (m e s).2) !! k = keys (db s) !! k /\
                            keys (db (m e s).2) !! gk = keys (db s) !! gk
  | _ => True
  end.


Context (G : string) (HG : G <> EmptyString) (e : env).
Context (Hclock : clock_ok e) (Hfresh : fresh_ok G e).

(** The state of the buffer and of the call, against all that was held. *)
Definition call_inv (from : stream_id) (H : entry -> Prop) (s : world redis) (w : chat_watch) : Prop :=
  wf k (db s) /\ front channel G H (db s) /\ (forall x, holds channel G (db s) x -> H x) /\
  received channel G from H (cw_sent w) /\
  (cw_end w = None -> exists a, reading channel G from H w a).

Lemma other_step {A} (m : M redis A) s : m_grows channel G e m -> wf k (db s) ->
  grows k gk G (db s) (db (m e s).2).
Proof. intros Hm _. apply Hm. Qed.

Lemma call_step from H x s w : step_ok x -> call_inv from H s w ->
  let '(s', w') := do_step x e s w in
  grows k gk G (db s) (db s') /\
  received channel G from H (cw_sent w') /\
  (cw_end w' = None -> exists a, reading channel G from H w' a).
Proof.
  intros Hx (W & F & Hh & RC & R).
  assert (forall A (m : M redis A), m_grows channel G e m ->
    let '(s', w') := on_watch m e s w in
    grows k gk G (db s) (db s') /\ received channel G from H (cw_sent w') /\
    (cw_end w' = None -> exists a, reading channel G from H w' a)) as Hm.
  { intros A m Hg. simpl. split; [apply Hg|by split]. }
  destruct x as [| |msg| |ks|m]; simpl in Hx.
  - simpl. destruct (cw_end w) eqn:Ee; [split; [apply grows_refl|]; rewrite Ee; by split|].
    destruct (R eq_refl) as [a Ra].
    pose proof (round_received channel G HG from H Send w a e s Ra RC W F Hh) as Hr.
    destruct (chat_round Send channel w e s) as [r s'].
    destruct Hr as (Hdb & w' & -> & RC' & R'). rewrite Hdb. split; [apply grows_refl|by split].
  - simpl. destruct (cw_end w) eqn:Ee; (split; [apply grows_refl|]).
    + rewrite Ee. by split.
    + destruct (cw_waiting w); [by split|]. rewrite Ee. by split.
  - destruct Hx. by apply Hm, m_grows_product.
  - by apply Hm, m_grows_trim.
  - by apply Hm, m_grows_delete.
  - apply Hm. intros s1. destruct (Hx e s1). by apply grows_same.
Qed.

Section Weaken.
Context (from : stream_id) (H H' : entry -> Prop).
Context (Hsub : forall x, H x -> H' x).
Context (Hnew : forall x, H' x -> H x \/ forall y, H y -> id_lt (en_id y) (en_id x)).

Lemma received_weaken sent : received channel G from H sent -> received channel G from H' sent.
Proof.
  intros [O A R C]. split; try done.
  - eapply Forall_impl; [exact R|]. intros v (x & at_ & g & Hx & ?). exists x, at_, g. auto.
  - intros v x Hv Hx Hf Hlt. destruct (Hnew x Hx) as [Hx'|Hall]; [by apply C|]. exfalso.
    rewrite Forall_forall in R. destruct (R v Hv) as (y & at_ & g & Hy & Hok & _ & ->).
    rewrite position_event in Hlt by done. specialize (Hall y Hy). by eapply id_lt_asym.
Qed.

Lemma reading_weaken w a : reading channel G from H w a -> reading channel G from H' w a.
Proof.
  intros [R1 R2 R3 R4 R5 R6 R7 R8 R9 R10]. split; try done.
  - destruct R8 as [->|(y & Hy & <-)]; [by left|right]. exists y. auto.
  - intros x Hx Hf Hn. destruct (Hnew x Hx) as [Hx'|Hall]; [by apply R10|]. exfalso.
    destruct R8 as [->|(y & Hy & <-)]; [done|]. by apply Hn, Hall.
Qed.
End Weaken.

(** Everything the stream has held so far, over the events of the call. *)
Definition on_call (x : chat_step) (st : world redis * chat_watch) : world redis * chat_watch := do_step x e st.1 st.2.
Definition held (l : list chat_step) (s : world redis) (w : chat_watch) : entry -> Prop :=
  held_since channel G on_call (fun st => db st.1) l (s, w).

Lemma runs_fold l s w : runs l e s w = run_of on_call l (s, w).
Proof.
  revert s w. induction l as [|x l IH]; intros s w; [done|]. cbn [chat_run run_of fold_left].
  unfold on_call at 2. cbn [fst snd]. destruct (do_step x e s w) as [s1 w1]. apply IH.
Qed.

Lemma call_run from l s w : Forall step_ok l -> wf k (db s) ->
  received channel G from (holds channel G (db s)) (cw_sent w) ->
  (cw_end w = None -> exists a, reading channel G from (holds channel G (db s)) w a) ->
  received channel G from (held l s w) (cw_sent (runs l e s w).2).
Proof.
  intros Hl W RC R. rewrite runs_fold.
  destruct (held_run channel G on_call (fun st => db st.1) step_ok (fun H st =>
    received channel G from H (cw_sent st.2) /\
    (cw_end st.2 = None -> exists a, reading channel G from H st.2 a)) l (s, w)) as (_ & _ & _ & HR & _); try done.
  - intros H H' st [Hsub Hnew] [RC1 R1]. split; [by eapply received_weaken|].
    intros He. destruct (R1 He) as [a Ra]. exists a. by eapply reading_weaken.
  - intros H z [s1 w1] Hz W1 F1 H1 [RC1 R1]. pose proof (call_step from H z s1 w1 Hz) as Hs.
    unfold on_call. cbn [fst snd] in *. destruct (do_step z e s1 w1) as [s2 w2]. apply Hs. by split_and!.
Qed.
End Call.

Section Claim.
Context (access : ProductAccess) (from_context : error -> status) (p : option peer).
Context (Send : nat -> option status) (channel : string).
Notation k := (ChatStreamKey PlatformSoop channel).
Notation runs := (chat_run from_context Send channel).
Notation start consumer c := (chat_start access p channel consumer (Some c)).

Lemma ended_stays l e s w : cw_end w <> None -> (runs l e s w).2 = w.
Proof.
  intros Hw. revert s; induction l as [|x l IH]; intros s; [done|]. cbn [chat_run].
  destruct x; simpl; try apply IH; destruct (cw_end w); try done; apply IH.
Qed.

(** C39: a consumer that resumes from a cursor receives, whatever reads,
    publications, trims, deletions and other commands happen meanwhile, events
    of its generation only, each of an entry the stream has held after the
    cursor, in strictly increasing order of their ids; and any entry of that
    generation the stream has held between the cursor and an event received
    was either received itself (or is not a chat message of a user) or is
    announced: an event after it, up to that one, has its gap mark. *)
Theorem chat_gaps_announced consumer c from l e s :
  id_of (StreamId c) = Some from -> StreamId c <> "0-0"%string ->
  clock_ok e -> fresh_ok (StreamGeneration c) e -> wf k (db s) -> Forall (step_ok channel) l ->
  let sent := cw_sent (runs l e s (start consumer c)).2 in
  let was_held := held from_context Send channel (StreamGeneration c) e l s (start consumer c) in
  StronglySorted id_lt (map position sent) /\
  (forall v, v ∈ sent -> id_lt from (position v) /\ exists x at_ gap, was_held x /\
     verdict (message x) = Event at_ /\
     v = chat_event channel (StreamGeneration c) gap (message x) at_) /\
  (forall v x, v ∈ sent -> was_held x -> id_lt from (en_id x) -> id_lt (en_id x) (position v) ->
     delivered channel (StreamGeneration c) sent x \/ announced sent x (position v)).
Proof.
  intros Hfrom Hne Hc Hf W Hl.
  assert (forall w, cw_end w <> None -> cw_sent w = [] -> cw_sent (runs l e s w).2 = []) as Hend
    by (intros w H1 H2; by rewrite ended_stays).
  cbv zeta. set (w0 := start consumer c) in *.
  assert (cw_sent (runs l e s w0).2 = [] \/
          (StreamGeneration c <> EmptyString /\ ValidStreamID (StreamId c) = true /\
           w0 = ChatWatch (StreamId c) (StreamGeneration c) false [] false None)) as [E|(HG & Hv & E)].
  { unfold w0, chat_start. destruct (authorize _ _ _ _ _); [left; by apply Hend|].
    destruct (ValidStreamID (StreamId c)) eqn:Ev; simpl; [|left; by apply Hend].
    destruct (is_empty (StreamGeneration c)) eqn:Eg; [left; by apply Hend|right].
    split; [by destruct (StreamGeneration c)|done]. }
  { rewrite E. split; [constructor|].
    split; intros u; [intros Hu|intros y Hu]; by apply elem_of_nil in Hu. }
  destruct (valid_id _ Hv) as (i & _ & Hi & Hok).
  assert (i = from) as -> by congruence.
  destruct (call_run from_context Send channel _ HG e Hc Hf from l s w0 Hl W) as [O A R C].
  - rewrite E. simpl. split; [constructor..|]. intros u y Hu. by apply elem_of_nil in Hu.
  - intros _. exists from. rewrite E. split; simpl;
      first [done | by left | apply Forall_nil_2 | apply irreflexivity, _ | idtac].
  - rewrite Forall_forall in A, R.
    split; [exact O|]. split; [|exact C].
    intros v Hin. split; [by apply A|]. destruct (R v Hin) as (x & at_ & g & Hx & _ & H).
    by exists x, at_, g.
Qed.
End Claim.

(** ** A buffer that loses an entry to its age *)

Module ChatDemo.
Definition generation : string := "generation-0".
(** Hours after the start: a publication takes four ticks. *)
Definition hours (n : nat) : Z :=
  if (n <? 4)%nat then 0 else if (n <? 8)%nat then 1 else if (n <? 12)%nat then 20 else 26.
Definition at_ (n : nat) : Z := 1700000000 * second + hours n * hour.
(** The process that published before the call, and the ones during it. *)
Definition e0 : env := Env (fun _ => false) (fun _ => false) at_ at_ (fun n => "generation-" +:+ format_uint (Z.of_nat n)).
Definition e : env := Env (fun _ => false) (fun _ => false) at_ at_ (fun n => "uuid-" +:+ format_uint (Z.of_nat n)).
Definition chat (id : string) : ChatMessage :=
  MkMessage id MessageTypeChat PlatformSoop "bj1" "streamer" "u1" "User" ("hello " +:+ id)
    (1700000000 * second) "raw" (S754_zero false) "" 0 [].
(** One message an hour after the cursor's, one nineteen hours later, and one
    six hours after that, which drops the first two. *)
Definition publish (id : string) : chat_step := CPublish (chat id).
Definition empty : world redis := World (Redis ∅ []) (Redis ∅ []) 0.
Definition before : world redis := (product_script (chat "m0") e0 empty).2.
Definition schedule : list chat_step := [publish "m1"; publish "m2"; publish "m3"; CRound].
Definition access : ProductAccess := MkAccess "game" "bj1" "spiffe://p/read" EmptyString EmptyString.
Definition reader : option peer := Some (MkPeer true 1 [["spiffe://p/read"]])%string.
Definition context_status (_ : error) : status := plain Canceled "context canceled".
Definition from : ChatCursor := MkChatCursor generation "1700000000000-0" false.
Definition result : world redis * chat_watch :=
  chat_run context_status (fun _ => None) "bj1" schedule e before
    (chat_start access reader "bj1" "game" (Some from)).

Lemma clock_in_range (e1 : env) : clock e1 = at_ -> clock_ok e1.
Proof.
  intros He n. rewrite He. unfold at_, hours, unix_milli, hour, minute, second, millisecond, u64_max.
  repeat case_match; vm_compute; split; discriminate.
Qed.

Lemma before_wf : wf (ChatStreamKey PlatformSoop "bj1") (db before).
Proof.
  assert (fresh_ok "other" e0) as Hf by (intros n; discriminate).
  apply (gr_wf _ _ _ _ _ (m_grows_product "bj1" "other" e0 (chat "m0") (clock_in_range e0 eq_refl) Hf
    eq_refl eq_refl empty)).
  intros l last ex H. cbn in H. by rewrite lookup_empty in H.
Qed.
End ChatDemo.

Lemma chat_gaps_announced_witness :
  map (fun v => (ch_EventId v, GapBefore (ch_Cursor v))) (cw_sent ChatDemo.result.2)
    = [("m2", true); ("m3", false)]%string /\
  StronglySorted id_lt (map position (cw_sent ChatDemo.result.2)).
Proof.
  split; [vm_compute; reflexivity|].
  exact (proj1 (chat_gaps_announced ChatDemo.access ChatDemo.context_status ChatDemo.reader
    (fun _ => None) "bj1" "game" ChatDemo.from (1700000000000, 0) ChatDemo.schedule ChatDemo.e
    ChatDemo.before ltac:(vm_compute; reflexivity) ltac:(discriminate)
    (ChatDemo.clock_in_range ChatDemo.e eq_refl) ltac:(intros n; discriminate) ChatDemo.before_wf
    ltac:(repeat constructor))).
Defined.
