(* ===== verification/BatchWriter.v ===== *)
(** The rows for ClickHouse (src/shared/store/clickhouse.go,
    chat_message_row.go) and the writer that batches them and retries
    (src/shared/store/ch_batch_writer.go). The writer's two locks cut its
    methods into sections; callers, the loop and [Close] interleave between
    them, and the insert runs with neither lock on the buffer. *)
From S2P Require Import Prelude GoLib Sha256 Json Model Message.
From S2P Require Import Redis ChatStream Emitter.
From Stdlib Require Import SpecFloat.

(** ** Rows *)

Record ChatMessageRow := MkChatMessageRow {
  cm_MessageID : string; cm_Timestamp : Z; cm_Platform : string; cm_ChannelID : string;
  cm_StreamerName : string; cm_UserID : string; cm_Nickname : string; cm_MessageType : string;
  cm_MessageText : string; cm_Amount : spec_float; cm_Currency : string; cm_AmountKRW : Z; cm_WorkerID : string
}.

(** [float32(x)] *)
Definition to_float32 (x : spec_float) : spec_float :=
  match x with
  | S754_finite s m e => binary_round 24 128 s m e
  | x => x
  end.

(** [Sum64String]: xxhash. *)
Definition ChatMessageRowFrom (Sum64String : string -> Z) (msg : ChatMessage) (workerID : string) : ChatMessageRow :=
  let hashInput := if is_empty (m_Raw msg) then m_ID msg else m_Raw msg in
  MkChatMessageRow (m_Platform msg +:+ "-" +:+ m_ChannelID msg +:+ "-" +:+ hex_digits 16 (Sum64String hashInput))
    (m_Timestamp msg) (m_Platform msg) (m_ChannelID msg) (m_StreamerName msg) (m_UserID msg) (m_Nickname msg)
    (message_type_name (m_Type msg)) (m_Message msg) (to_float32 (m_Amount msg)) (m_Currency msg) (m_AmountKRW msg) workerID.

(** The end of an interval that is still open. *)
Definition chOpenIntervalSentinel : Z := 4102444799999 * millisecond.
Definition inserted_valid_to (ValidTo : option Z) : Z := default chOpenIntervalSentinel ValidTo.
Example sentinel_text : rfc3339 chOpenIntervalSentinel = "2099-12-31T23:59:59.999Z"%string.
Proof. vm_compute. reflexivity. Qed.

(** What the driver answers: to preparing a batch, to a row, to sending. *)
Record ch_conn (R : Type) := ChConn { PrepareBatch : result unit; Append : R -> result unit; Send : result unit }.
Arguments PrepareBatch {R} c.
Arguments Append {R} c r.
Arguments Send {R} c.

Fixpoint append_rows {R} (c : ch_conn R) (rows : list R) : result unit :=
  match rows with
  | [] => Ok tt
  | r :: rows => Append c r ;; append_rows c rows
  end.
Definition batch_insert {R} (c : ch_conn R) (rows : list R) : result unit :=
  match rows with
  | [] => Ok tt
  | _ => PrepareBatch c ;; append_rows c rows ;; Send c
  end.
Definition BatchInsertChatMessages (c : ch_conn ChatMessageRow) (rows : list ChatMessageRow) : result unit :=
  batch_insert c rows.

(** A row of viewer counts whose [ValidTo] may be nil, as it is inserted. *)
Definition inserted_row (ValidTo : option Z) (r : ViewerCountRow) : ViewerCountRow :=
  MkViewerRow (vr_ValidFrom r) (inserted_valid_to ValidTo) (vr_Platform r) (vr_ChannelID r) (vr_SessionSeq r)
    (vr_ViewerCount r) (vr_MinCount r) (vr_MaxCount r) (vr_SampleCount r) (vr_InstanceID r).
Definition BatchInsertViewerCounts (c : ch_conn ViewerCountRow) (rows : list (option Z * ViewerCountRow)) : result unit :=
  batch_insert c (map (uncurry inserted_row) rows).

(** ** The writer *)

Section Writer.
Context {T : Type}.

(** [flushing]: the rows of the flush that holds [flushMu]; [dropped]: the
    rows counted as dropped. *)
Record writer := Writer {
  buffer : list T; inFlight : Z; closed : bool; flushCh : bool;
  retryDelay : Z; nextRetryAt : Z; flushing : option (list T); dropped : Z
}.
Definition NewBatchWriter : writer := Writer [] 0 false false 0 zero_time None 0.

Context (maxBatch maxPending : Z).

Definition full (w : writer) : bool :=
  (0 <? maxPending) && (maxPending <=? Z.of_nat (length (buffer w)) + inFlight w).

(** The row is refused when the writer is closed, or full and then counted. *)
Definition Enqueue (row : T) (w : writer) : bool * writer :=
  if closed w then (false, w)
  else if full w then
    (false, Writer (buffer w) (inFlight w) (closed w) (flushCh w) (retryDelay w) (nextRetryAt w) (flushing w) (dropped w + 1))
  else
    let rows := buffer w ++ [row] in
    (true, Writer rows (inFlight w) (closed w) (flushCh w || (maxBatch <=? Z.of_nat (length rows)))
             (retryDelay w) (nextRetryAt w) (flushing w) (dropped w)).

(** [flush] up to the insert, once it has [flushMu]: it returns at once, or
    has rows to insert. *)
Definition take_rows (force : bool) (now : Z) (w : writer) : writer :=
  if negb force && (now <? nextRetryAt w) then w
  else match buffer w with
  | [] => Writer [] 0 (closed w) (flushCh w) (retryDelay w) (nextRetryAt w) None (dropped w)
  | rows => Writer [] (Z.of_nat (length rows)) (closed w) (flushCh w) (retryDelay w) (nextRetryAt w) (Some rows) (dropped w)
  end.

Definition next_delay (d : Z) : Z :=
  if d =? 0 then second else let d := d * 2 in if 30 * second <? d then 30 * second else d.

(** [flush] after the insert of [rows] answered. *)
Definition settle (rows : list T) (answer : result unit) (now : Z) (w : writer) : writer :=
  match answer with
  | Err _ =>
      let delay := next_delay (retryDelay w) in
      Writer (rows ++ buffer w) 0 (closed w) (flushCh w) delay (now + delay) None (dropped w)
  | Ok _ => Writer (buffer w) 0 (closed w) (flushCh w) 0 zero_time None (dropped w)
  end.

(** [flush] when nothing else runs; the answer is to a [flushFn] of the rows. *)
Definition flush (force : bool) (flushFn : list T -> result unit) (now later : Z) (w : writer) : result unit * writer :=
  let w := take_rows force now w in
  match flushing w with
  | None => (Ok tt, w)
  | Some rows => let answer := flushFn rows in (answer, settle rows answer later w)
  end.

Definition close_begin (w : writer) : writer :=
  Writer (buffer w) (inFlight w) true (flushCh w) (retryDelay w) (nextRetryAt w) (flushing w) (dropped w).
(** [Close] gives up: the rows it had counted before its last flush. *)
Definition abandon (pending : Z) (w : writer) : writer :=
  Writer (buffer w) (inFlight w) (closed w) (flushCh w) (retryDelay w) (nextRetryAt w) (flushing w) (dropped w + pending).
(** How long [Close] sleeps before it tries again. *)
Definition close_delay (deadline now : Z) (w : writer) : Z :=
  let delay := if retryDelay w <=? 0 then second else retryDelay w in Z.min delay (deadline - now).

(** ** Interleavings *)

(** Where [Close] is: not called, waiting for the loop or asleep, about to
    flush having counted [pending] rows, in its flush, or returned. *)
Inductive closer :=
| Open | Waiting (deadline : option Z) | Counted (deadline pending : Z) | Flushing (deadline pending : Z)
| Returned (gaveUp : bool).

(** Who holds [flushMu]: the goroutine of the loop, another caller of [Flush],
    or [Close]. *)
Inductive flusher := ByLoop | ByCaller | ByClose.

(** The writer, whether the goroutine of the loop has returned, whose flush
    was the last, [Close], the rows accepted and the rows inserted, in order. *)
Record system := System {
  wr : writer; loop_stopped : bool; own : flusher; cl : closer; accepted : list T; inserted : list T
}.
Definition initially : system := System NewBatchWriter false ByLoop Open [] [].
(** The loop is inside its own flush. *)
Definition in_flush (s : system) : bool :=
  match flushing (wr s), own s with Some _, ByLoop => true | _, _ => false end.

Inductive event :=
| EEnqueue (row : T)
| EFlush (by_loop : bool) (now : Z)              (* the loop, or another caller of Flush *)
| EInserted (answer : result unit) (now : Z)     (* the answer to the rows under way *)
| EClose
| ELoopStops
| ECloseCounts (now : Z)
| ECloseFlushes (now : Z).

Definition set_wr (w : writer) (s : system) : system :=
  System w (loop_stopped s) (own s) (cl s) (accepted s) (inserted s).
Definition set_cl (c : closer) (s : system) : system :=
  System (wr s) (loop_stopped s) (own s) c (accepted s) (inserted s).

(** [Close] after its flush. *)
Definition close_flushed (ok : bool) (now : Z) (s : system) : system :=
  match cl s with
  | Flushing deadline pending =>
      if negb ok && (deadline <? now) then set_cl (Returned true) (set_wr (abandon pending (wr s)) s)
      else set_cl (Waiting (Some deadline)) s
  | _ => s
  end.

Definition handle (x : event) (s : system) : system :=
  let w := wr s in
  match x with
  | EEnqueue row =>
      let '(ok, w') := Enqueue row w in
      System w' (loop_stopped s) (own s) (cl s) (if ok then accepted s ++ [row] else accepted s) (inserted s)
  | EFlush by_loop now =>
      match flushing w with
      | Some _ => s
      | None =>
          if by_loop && loop_stopped s then s
          else System (take_rows false now w) (loop_stopped s) (if by_loop then ByLoop else ByCaller)
                 (cl s) (accepted s) (inserted s)
      end
  | EInserted answer now =>
      match flushing w with
      | None => s
      | Some rows =>
          let ok := match answer with Ok _ => true | Err _ => false end in
          let s' := System (settle rows answer now w) (loop_stopped s) (own s) (cl s) (accepted s)
                      (if ok then inserted s ++ rows else inserted s) in
          match own s with ByClose => close_flushed ok now s' | _ => s' end
      end
  | EClose => if closed w then s else set_cl (Waiting None) (set_wr (close_begin w) s)
  | ELoopStops =>
      if closed w && negb (in_flush s) then System w true (own s) (cl s) (accepted s) (inserted s) else s
  | ECloseCounts now =>
      match cl s with
      | Waiting d =>
          if loop_stopped s then
            match buffer w with
            | [] => set_cl (Returned false) s
            | rows => set_cl (Counted (default (now + 60 * second) d) (Z.of_nat (length rows))) s
            end
          else s
      | _ => s
      end
  | ECloseFlushes now =>
      match cl s, flushing w with
      | Counted deadline pending, None =>
          let w' := take_rows true now w in
          match flushing w' with
          | None => set_cl (Waiting (Some deadline)) (set_wr w' s)   (* nothing was left *)
          | Some _ => System w' (loop_stopped s) ByClose (Flushing deadline pending) (accepted s) (inserted s)
          end
      | _, _ => s
      end
  end.
Definition run (l : list event) (s : system) : system := fold_left (fun s x => handle x s) l s.

(** ** What is accounted for *)

Definition under_way (w : writer) : list T := default [] (flushing w).

Record accounted (s : system) : Prop := {
  ac_rows : accepted s = inserted s ++ under_way (wr s) ++ buffer (wr s);
  ac_flight : inFlight (wr s) = Z.of_nat (length (under_way (wr s)));
  ac_bound : 0 < maxPending -> Z.of_nat (length (buffer (wr s))) + inFlight (wr s) <= maxPending;
  ac_delay : retryDelay (wr s) = 0 \/ second <= retryDelay (wr s) <= 30 * second;
  ac_closed : cl s <> Open -> closed (wr s) = true
}.

Lemma next_delay_range d : d = 0 \/ second <= d <= 30 * second -> second <= next_delay d <= 30 * second.
Proof.
  unfold next_delay, second. intros Hd. destruct (d =? 0) eqn:E; b2p; [lia|].
  cbv zeta. destruct (_ <? d * 2) eqn:E2; b2p; lia.
Qed.

Lemma accounted_enqueue row s : accounted s -> accounted (handle (EEnqueue row) s).
Proof.
  intros [R F B D C]. cbn [handle]. unfold Enqueue. destruct (closed (wr s)) eqn:Ec; [by split|].
  destruct (full (wr s)) eqn:Ef; [by split|]. unfold full in Ef.
  split; cbn; rewrite ?length_app; cbn [length]; try done.
  - rewrite R. by rewrite <- !app_assoc.
  - intros Hm. assert (0 <? maxPending = true) as Em by by apply Z.ltb_lt. rewrite Em in Ef. cbn in Ef. b2p. lia.
Qed.

Lemma accounted_take force now b c s : accounted s -> flushing (wr s) = None ->
  (c <> Open -> closed (wr s) = true) ->
  accounted (System (take_rows force now (wr s)) (loop_stopped s) b c (accepted s) (inserted s)).
Proof.
  intros [R F B D C] Hn Hc. unfold under_way in *. rewrite Hn in R, F. cbn in R, F. unfold take_rows.
  destruct (negb force && _); [split; cbn; unfold under_way; rewrite ?Hn; done|].
  destruct (buffer (wr s)) as [|r rows] eqn:Eb.
  - split; cbn in *; try done. intros Hm. specialize (B Hm). rewrite F in B. exact B.
  - split; cbn [wr cl accepted inserted flushing buffer inFlight retryDelay closed]; unfold under_way; cbn [flushing default]; try done.
    + by rewrite R, app_nil_r.
    + intros Hm. specialize (B Hm). rewrite F in B. cbn [length] in *. lia.
Qed.

Lemma accounted_settle rows answer now s : accounted s -> flushing (wr s) = Some rows ->
  accounted (System (settle rows answer now (wr s)) (loop_stopped s) (own s) (cl s) (accepted s)
    (if match answer with Ok _ => true | Err _ => false end then inserted s ++ rows else inserted s)).
Proof.
  intros [R F B D C] Hf. unfold under_way in *. rewrite Hf in R, F. cbn in R, F.
  destruct answer as [[]|x]; split; cbn [settle wr cl accepted inserted flushing buffer inFlight retryDelay closed]; unfold under_way; cbn; try done.
  - by rewrite R, <- app_assoc.
  - intros Hm. specialize (B Hm). lia.
  - by left.
  - intros Hm. specialize (B Hm). rewrite length_app. lia.
  - right. by apply next_delay_range.
Qed.

Lemma accounted_close c w s : accounted s -> flushing w = flushing (wr s) -> buffer w = buffer (wr s) ->
  inFlight w = inFlight (wr s) -> retryDelay w = retryDelay (wr s) -> (c <> Open -> closed w = true) ->
  accounted (set_cl c (set_wr w s)).
Proof. intros [R F B D C] E1 E2 E3 E4 Hc. split; cbn; unfold under_way in *; rewrite ?E1, ?E2, ?E3, ?E4; done. Qed.

Lemma accounted_flushed ok now s : accounted s -> accounted (close_flushed ok now s).
Proof.
  intros H. unfold close_flushed. destruct (cl s) eqn:Ec; try done.
  assert (closed (wr s) = true) as Hc by (apply (ac_closed _ H); by rewrite Ec).
  destruct (_ && _); by apply (accounted_close _ _ s H).
Qed.

Lemma accounted_handle x s : accounted s -> accounted (handle x s).
Proof.
  intros H. pose proof (ac_closed _ H) as Hc. destruct x as [row|by_loop now|answer now| | |now|now].
  - by apply accounted_enqueue.
  - cbn [handle]. destruct (flushing (wr s)) eqn:Ef; [done|]. destruct (_ && _); [done|]. by apply accounted_take.
  - cbn [handle]. destruct (flushing (wr s)) as [rows|] eqn:Ef; [|done].
    pose proof (accounted_settle rows answer now s H Ef) as Hs. destruct (own s); [done|done|by apply accounted_flushed].
  - cbn [handle]. destruct (closed (wr s)) eqn:Ec; [done|]. by apply (accounted_close _ _ s H).
  - cbn [handle]. destruct (_ && _); [|done]. by destruct H.
  - cbn [handle]. destruct (cl s) eqn:Ec; try done. destruct (loop_stopped s); [|done].
    destruct (buffer (wr s)) eqn:Eb; by apply (accounted_close _ (wr s) s H); try (intros _; apply Hc).
  - cbn [handle]. destruct (cl s) eqn:Ec; try done. destruct (flushing (wr s)) eqn:Ef; [done|]. cbv zeta.
    assert (closed (wr s) = true) as Hw by by apply Hc.
    destruct (flushing (take_rows true now (wr s))) eqn:Et.
    + by apply accounted_take.
    + exact (accounted_take true now (own s) (Waiting (Some deadline)) s H Ef (fun _ => Hw)).
Qed.

Lemma accounted_run l : accounted (run l initially).
Proof.
  unfold run. induction l as [|x l IH] using rev_ind; [|rewrite fold_left_app; by apply accounted_handle].
  split; cbn; try done; [lia|by left].
Qed.

(** [flush] is its two sections with nothing in between. *)
Lemma flush_runs flushFn now later s : flushing (wr s) = None ->
  let '(answer, w) := flush false flushFn now later (wr s) in
  wr (run (EFlush false now :: match flushing (take_rows false now (wr s)) with
                         | Some rows => [EInserted (flushFn rows) later]
                         | None => []
                         end) s) = w.
Proof.
  intros Hf. unfold flush. destruct (flushing (take_rows false now (wr s))) as [rows|] eqn:E.
  - cbn [run fold_left handle wr]. rewrite Hf. cbn [wr handle andb]. by rewrite E.
  - cbn [run fold_left handle wr]. by rewrite Hf.
Qed.

(** The answer to a flush that starts when it may. *)
Lemma flushed_all now later s : accounted s -> flushing (wr s) = None -> nextRetryAt (wr s) <= now ->
  inserted (run [EFlush false now; EInserted (Ok tt) later] s) = accepted s.
Proof.
  intros [R _ _ _ _] Hf Hn. unfold under_way in R. rewrite Hf in R. cbn in R. cbn [run fold_left handle]. rewrite Hf.
  unfold take_rows. replace (now <? nextRetryAt (wr s)) with false by (symmetry; apply Z.ltb_ge; lia). cbn [negb andb].
  destruct (buffer (wr s)) as [|r rows]; cbn; rewrite R; [by rewrite app_nil_r|done].
Qed.

(** Who may be in a flush: not a loop that has stopped; [Close] exactly while
    it waits for its answer, which it does after the loop has stopped. *)
Record placed (s : system) : Prop := {
  pl_loop : loop_stopped s = true -> in_flush s = false;
  pl_close : flushing (wr s) <> None -> own s = ByClose -> exists d n, cl s = Flushing d n;
  pl_after : match cl s with Open | Waiting None => True | _ => loop_stopped s = true end
}.

Lemma take_flushing force now w : flushing w = None ->
  flushing (take_rows force now w) = None \/ exists r rows, buffer w = r :: rows /\
    flushing (take_rows force now w) = Some (r :: rows).
Proof.
  intros H. unfold take_rows. destruct (_ && _); [by left|]. destruct (buffer w); [by left|right; eauto].
Qed.

Lemma placed_handle x s : accounted s -> placed s -> placed (handle x s).
Proof.
  intros Hacc Hp. pose proof Hp as [L C A]. destruct x as [row|by_loop now|answer now| | |now|now]; cbn [handle].
  - assert (flushing (Enqueue row (wr s)).2 = flushing (wr s)) as E
      by (unfold Enqueue; repeat case_match; done).
    destruct (Enqueue _ _) as [ok w']. cbn in E. split; unfold in_flush in *; cbn; rewrite ?E; done.
  - destruct (flushing (wr s)) eqn:Ef; [done|]. destruct (_ && _) eqn:Eb; [done|].
    split; cbn; [|intros _; by destruct by_loop|done]. intros Hl. unfold in_flush. cbn.
    destruct by_loop; [by rewrite Hl in Eb|by destruct (flushing (take_rows false now (wr s)))].
  - destruct (flushing (wr s)) as [rows|] eqn:Ef; [|done]. 
    assert (forall ins, placed (System (settle rows answer now (wr s)) (loop_stopped s) (own s) (cl s) (accepted s) ins)) as P.
    { intros ins. split; unfold in_flush; cbn; try done; destruct answer; cbn; done. }
    destruct (own s) eqn:Eo; [done|done|]. destruct (C ltac:(done) eq_refl) as (d & n & Ec).
    unfold close_flushed. cbn [cl]. rewrite Ec in *. destruct (_ && _).
    + split; unfold in_flush; cbn; try done; destruct answer; cbn; done.
    + split; unfold in_flush; cbn; try done; destruct answer; cbn; done.
  - destruct (closed (wr s)) eqn:Ec; [done|]. split; unfold in_flush in *; cbn; try done.
    intros Hf Ho. destruct (C Hf Ho) as (d & n & E).
    rewrite (ac_closed _ Hacc) in Ec; [done|]. by rewrite E.
  - destruct (_ && _) eqn:E; [|done]. b2p. split; cbn; [done|done|]. by repeat case_match.
  - destruct (cl s) eqn:Ec; try done. destruct (loop_stopped s) eqn:El; [|done].
    destruct (buffer (wr s)); split; unfold in_flush in *; cbn; auto; intros Hf Ho; by destruct (C Hf Ho) as (? & ? & ?).
  - destruct (cl s) eqn:Ec; try done. destruct (flushing (wr s)) eqn:Ef; [done|]. cbv zeta.
    destruct (flushing (take_rows true now (wr s))) eqn:Et; split; unfold in_flush;
      cbn [wr loop_stopped own cl set_wr set_cl]; rewrite ?Et; eauto; done.
Qed.
(** Nobody but the loop and [Close] flushes. *)
Definition no_caller (x : event) : bool := match x with EFlush false _ => false | _ => true end.

(** Then a [Close] that has returned without giving up left nothing behind. *)
Record drained (s : system) : Prop := {
  dr_own : own s <> ByCaller;
  dr_left : cl s = Returned false -> flushing (wr s) = None /\ buffer (wr s) = []
}.

Lemma drained_handle x s : no_caller x = true -> accounted s -> placed s -> drained s -> drained (handle x s).
Proof.
  intros Hx Hacc [L C A] Hd. pose proof Hd as [O D]. pose proof (ac_closed _ Hacc) as Hc.
  destruct x as [row|[] now|answer now| | |now|now]; try done; cbn [handle].
  - unfold Enqueue. destruct (closed (wr s)) eqn:Ec; [by split|].
    assert (cl s = Open) as Eo by (destruct (cl s); try done; by specialize (Hc ltac:(done))).
    destruct (full _); split; cbn; try done; congruence.
  - destruct (flushing (wr s)) eqn:Ef; [done|]. destruct (loop_stopped s) eqn:El; [done|]. cbn.
    split; cbn; [done|]. intros E. by rewrite E in A.
  - destruct (flushing (wr s)) as [rows|] eqn:Ef; [|done].
    assert (cl s <> Returned false) as Hn by (intros E; by destruct (D E)).
    destruct (own s) eqn:Eo; [by split|done|]. destruct (C ltac:(done) eq_refl) as (d & n & Ec).
    unfold close_flushed. cbn [cl]. rewrite Ec. by destruct (_ && _); split.
  - by destruct (closed (wr s)); split.
  - by destruct (_ && _); split.
  - destruct (cl s) eqn:Ec; try (split; [done|]; by rewrite Ec). destruct (loop_stopped s) eqn:El; [|split; [done|by rewrite Ec]].
    destruct (buffer (wr s)) eqn:Eb; split; cbn; try done. intros _. split; [|done].
    destruct (flushing (wr s)) as [rows|] eqn:Ef; [|done]. exfalso. specialize (L eq_refl). unfold in_flush in L.
    rewrite Ef in L. destruct (own s) eqn:Eo; [done|done|]. by destruct (C ltac:(done) eq_refl) as (? & ? & ?).
  - destruct (cl s) eqn:Ec; try (split; [done|]; by rewrite Ec). destruct (flushing (wr s)) eqn:Ef; [split; [done|by rewrite Ec]|].
    cbv zeta. by destruct (flushing (take_rows true now (wr s))); split.
Qed.

Lemma placed_run l : placed (run l initially).
Proof.
  unfold run. induction l as [|x l IH] using rev_ind; [by split|]. rewrite fold_left_app.
  apply placed_handle; [apply (accounted_run l)|done].
Qed.
Lemma drained_run l : forallb no_caller l = true -> drained (run l initially).
Proof.
  unfold run. induction l as [|x l IH] using rev_ind; [by split|]. rewrite forallb_app, fold_left_app. cbn.
  intros [Hl Hx]%andb_true_iff. rewrite andb_true_r in Hx.
  apply drained_handle; [done|apply (accounted_run l)|apply (placed_run l)|by apply IH].
Qed.

(** C17: whatever enqueues, flushes, answers of ClickHouse, timers and [Close]
    interleave: the rows accepted are, in order and each once, those inserted,
    those of the flush under way and those of the buffer; a bounded writer
    never holds more than its bound, however long ClickHouse fails; the delay
    of a retry is between a second and thirty; when [Close] returns without
    giving up, every accepted row is inserted but those that another caller
    of [Flush] is inserting, and when nobody but the loop and [Close] flushes,
    every accepted row is inserted from then on; and a flush that may start
    and is answered leaves every accepted row inserted. *)
Theorem batch_writer_accounts l :
  let s := run l initially in
  accepted s = inserted s ++ under_way (wr s) ++ buffer (wr s) /\
  (maxPending <= 0 \/ Z.of_nat (length (under_way (wr s)) + length (buffer (wr s))) <= maxPending) /\
  (retryDelay (wr s) = 0 \/ second <= retryDelay (wr s) <= 30 * second) /\
  (forall d now, cl s = Waiting d -> cl (handle (ECloseCounts now) s) = Returned false ->
     accepted s = inserted s ++ under_way (wr s) /\ (own s = ByCaller \/ under_way (wr s) = [])) /\
  (forallb no_caller l = true -> cl s = Returned false ->
     under_way (wr s) = [] /\ buffer (wr s) = [] /\ inserted s = accepted s) /\
  (forall now later, flushing (wr s) = None -> nextRetryAt (wr s) <= now ->
     inserted (run [EFlush false now; EInserted (Ok tt) later] s) = accepted s).
Proof.
  intros s. pose proof (accounted_run l : accounted s) as H. destruct H as [R F B D C] eqn:E. clear E.
  destruct (placed_run l) as [L K _]. fold s in L, K.
  split; [done|]. split; [destruct (decide (0 < maxPending)) as [Hm|]; [right; specialize (B Hm); lia|left; lia]|].
  split; [done|]. split_and!.
  - intros d now Hd. cbn [handle]. rewrite Hd. destruct (loop_stopped s) eqn:El; [|by rewrite Hd].
    destruct (buffer (wr s)); [|done]. intros _. split; [by rewrite R, app_nil_r|].
    specialize (L eq_refl). unfold in_flush, under_way in *. destruct (flushing (wr s)) eqn:Ef; [|by right].
    destruct (own s) eqn:Eo; [done|by left|]. destruct (K ltac:(done) eq_refl) as (? & ? & ?). congruence.
  - intros Hl Hcl. destruct (drained_run l Hl) as [_ Dr]. fold s in Dr. destruct (Dr Hcl) as [Hf Hb].
    unfold under_way in *. rewrite Hf, Hb in R |- *. by rewrite R, app_nil_r.
  - intros now later. by apply flushed_all.
Qed.
End Writer.
Arguments writer T : clear implicits.
Arguments system T : clear implicits.
Arguments event T : clear implicits.

(** ** A writer of at most three rows whose first insert fails *)

Module WriterDemo.
Definition at_ (n : Z) : Z := (1700000000 + n) * second.
Definition schedule : list (event Z) :=
  [EEnqueue 1; EEnqueue 2; EFlush true (at_ 0); EEnqueue 3; EEnqueue 4; EInserted (Err ErrDriver) (at_ 1);
   EFlush true (at_ 1); EFlush true (at_ 2); EInserted (Ok tt) (at_ 2); EEnqueue 5; EClose; EEnqueue 6; ELoopStops;
   ECloseCounts (at_ 3); ECloseFlushes (at_ 3); EInserted (Ok tt) (at_ 4); ECloseCounts (at_ 4)].
Definition result : system Z := run 2 3 schedule initially.
End WriterDemo.
Example writer_retries : let s := WriterDemo.result in
  inserted s = [1; 2; 3; 5] /\ dropped (wr s) = 1 /\ cl s = Returned false.
Proof. vm_compute. done. Qed.

(** A flush of the loop is under way when the writer is closed and its insert
    fails: [Close] waits for it and inserts its rows. *)
Definition closing : list (event Z) :=
  [EEnqueue 1; EFlush true (WriterDemo.at_ 0); EClose; ELoopStops; ECloseCounts (WriterDemo.at_ 0);
   EInserted (Err ErrDriver) (WriterDemo.at_ 1); ELoopStops; ECloseCounts (WriterDemo.at_ 1);
   ECloseFlushes (WriterDemo.at_ 1); EInserted (Ok tt) (WriterDemo.at_ 2); ECloseCounts (WriterDemo.at_ 2)].

Lemma batch_writer_accounts_witness :
  let s := run 2 3 closing initially in cl s = Returned false /\ inserted s = accepted s /\ accepted s = [1].
Proof.
  intros s. assert (cl s = Returned false) as Hc by (vm_compute; reflexivity).
  destruct (batch_writer_accounts 2 3 closing) as (_ & _ & _ & _ & H & _).
  split; [exact Hc|]. split; [apply H; [reflexivity|exact Hc]|vm_compute; reflexivity].
Defined.
