(* ===== verification/ChatSpool.v ===== *)
(** The worker's durable spool of public chats
    (src/worker/internal/pipeline/chat_archive.go): a chat is accepted once a
    file with its record and a checksum is synced under its name, and the
    drain hands the files to the archive. The bytes of the files are those of
    the code; the directory is modelled twice, as processes see it and as a
    power loss would leave it. *)
From S2P Require Import Prelude GoLib Sha256 Json GoText JsonText.
From S2P Require Import JsonRound Tx Model Message Segment Archive.

(** The archive as the spool sees it. *)
Class ChatArchiveJournal (J : Type) := archive_append : ArchiveChatRecord -> M J bool.

(** ** Records and envelopes *)

Definition record_json (r : ArchiveChatRecord) : json :=
  JObj [("spoolId", JStr (ar_SpoolID r)); ("eventId", JStr (ar_EventID r)); ("platform", JStr (ar_Platform r));
        ("channelId", JStr (ar_ChannelID r)); ("receivedAt", JTime (ar_ReceivedAt r));
        ("userIdVersion", JNum (ar_UserIDVersion r)); ("publicUserId", JStr (ar_PublicUserID r));
        ("displayName", JStr (ar_DisplayName r)); ("message", JStr (ar_Message r))]%string.
(** [json.Marshal(record)] *)
Definition marshal_chat (r : ArchiveChatRecord) : result string :=
  if marshalable_time (ar_ReceivedAt r) then Ok (render (record_json r)) else Err (ErrMsg "json: time").

Record chatArchiveEnvelope := ChatEnvelope { ce_Version : Z; ce_SHA256 : string; ce_Record : ArchiveChatRecord }.
Definition envelope_json (e : chatArchiveEnvelope) : json :=
  JObj [("version", JNum (ce_Version e)); ("sha256", JStr (ce_SHA256 e)); ("record", record_json (ce_Record e))]%string.
(** The envelope [Save] writes: the checksum is of the record's text. *)
Definition sealed (r : ArchiveChatRecord) : chatArchiveEnvelope := ChatEnvelope 1 (sum_hex (render (record_json r))) r.
Definition chat_envelope_text (r : ArchiveChatRecord) : string := render (envelope_json (sealed r)).

Definition zero_chat : ArchiveChatRecord :=
  MkRecord EmptyString EmptyString EmptyString EmptyString zero_time 0 EmptyString EmptyString EmptyString.
Definition chat_fields : list (string * decoder ArchiveChatRecord) :=
  [member "spoolId" ar_SpoolID (fun x r => MkRecord x (ar_EventID r) (ar_Platform r) (ar_ChannelID r) (ar_ReceivedAt r)
     (ar_UserIDVersion r) (ar_PublicUserID r) (ar_DisplayName r) (ar_Message r)) d_string;
   member "eventId" ar_EventID (fun x r => MkRecord (ar_SpoolID r) x (ar_Platform r) (ar_ChannelID r) (ar_ReceivedAt r)
     (ar_UserIDVersion r) (ar_PublicUserID r) (ar_DisplayName r) (ar_Message r)) d_string;
   member "platform" ar_Platform (fun x r => MkRecord (ar_SpoolID r) (ar_EventID r) x (ar_ChannelID r) (ar_ReceivedAt r)
     (ar_UserIDVersion r) (ar_PublicUserID r) (ar_DisplayName r) (ar_Message r)) d_string;
   member "channelId" ar_ChannelID (fun x r => MkRecord (ar_SpoolID r) (ar_EventID r) (ar_Platform r) x (ar_ReceivedAt r)
     (ar_UserIDVersion r) (ar_PublicUserID r) (ar_DisplayName r) (ar_Message r)) d_string;
   member "receivedAt" ar_ReceivedAt (fun x r => MkRecord (ar_SpoolID r) (ar_EventID r) (ar_Platform r) (ar_ChannelID r) x
     (ar_UserIDVersion r) (ar_PublicUserID r) (ar_DisplayName r) (ar_Message r)) d_time;
   member "userIdVersion" ar_UserIDVersion (fun x r => MkRecord (ar_SpoolID r) (ar_EventID r) (ar_Platform r)
     (ar_ChannelID r) (ar_ReceivedAt r) x (ar_PublicUserID r) (ar_DisplayName r) (ar_Message r)) d_int16;
   member "publicUserId" ar_PublicUserID (fun x r => MkRecord (ar_SpoolID r) (ar_EventID r) (ar_Platform r)
     (ar_ChannelID r) (ar_ReceivedAt r) (ar_UserIDVersion r) x (ar_DisplayName r) (ar_Message r)) d_string;
   member "displayName" ar_DisplayName (fun x r => MkRecord (ar_SpoolID r) (ar_EventID r) (ar_Platform r)
     (ar_ChannelID r) (ar_ReceivedAt r) (ar_UserIDVersion r) (ar_PublicUserID r) x (ar_Message r)) d_string;
   member "message" ar_Message (fun x r => MkRecord (ar_SpoolID r) (ar_EventID r) (ar_Platform r)
     (ar_ChannelID r) (ar_ReceivedAt r) (ar_UserIDVersion r) (ar_PublicUserID r) (ar_DisplayName r) x) d_string]%string.
Definition envelope_fields : list (string * decoder chatArchiveEnvelope) :=
  [member "version" ce_Version (fun x e => ChatEnvelope x (ce_SHA256 e) (ce_Record e)) d_int;
   member "sha256" ce_SHA256 (fun x e => ChatEnvelope (ce_Version e) x (ce_Record e)) d_string;
   member "record" ce_Record (fun x e => ChatEnvelope (ce_Version e) (ce_SHA256 e) x) (d_struct chat_fields)]%string.

(** [publicUserID], with the spool's key. *)
Definition nul : string := String "000"%char EmptyString.
Definition publicUserID (key : string) (m : ChatMessage) : string :=
  Sha256.hex (Sha256.hmac256 key (m_Platform m +:+ nul +:+ m_ChannelID m +:+ nul +:+ m_UserID m)).

Definition archive_record (key id : string) (m : ChatMessage) (receivedAt : Z) : ArchiveChatRecord :=
  MkRecord id (m_ID m) (m_Platform m) (m_ChannelID m) receivedAt 1 (publicUserID key m) (m_Nickname m) (m_Message m).
(** [fmt.Sprintf("%020d-%s", ...)] of an instant past 1970. *)
Definition chat_name (receivedAt : Z) (id : string) : string := pad20 receivedAt +:+ "-" +:+ id.

(** ** The directory *)

(** A directory entry; [synced]: the contents survive a power loss.
    [private]: a directory nobody else can enter. *)
Inductive entry :=
| CFile (body : string) (synced : bool)
| CDir (private : bool)
| COther.

(** The fields of a [ChatArchiveSpool] that change; [cs_open]: it holds the lock. *)
Record chat_spool := ChatSpoolState { cs_usedBytes : Z; cs_files : Z; cs_open : bool; cs_broken : bool }.
Definition closed_spool : chat_spool := ChatSpoolState 0 0 false false.

(** [c_quarantined]: the files of the quarantine directory. *)
Record cdisk (J : Type) := CDisk {
  c_visible : gmap string entry; c_durable : gmap string entry; c_quarantined : gmap string string;
  c_jr : J; c_spool : chat_spool
}.
Arguments CDisk {J}.
Arguments c_visible {J} c.
Arguments c_durable {J} c.
Arguments c_quarantined {J} c.
Arguments c_jr {J} c.
Arguments c_spool {J} c.

Section ChatSpool.
Context {J : Type} `{ChatArchiveJournal J}.
(** [uuid.Parse] without an error; the spool's key and size limit. *)
Context (uuid_ok : string -> bool) (key : string) (maxBytes : Z).
(** [filepath.IsAbs(dir)]; the directory exists and is private. *)
Context (absolute dir_private : bool).
(** Whether the caller's context is done, at each point of time. *)
Context (ctx_done : nat -> bool).

Notation Mdisk := (M (cdisk J)).

Definition on_visible (f : gmap string entry -> gmap string entry) (x : cdisk J) : cdisk J :=
  CDisk (f (c_visible x)) (c_durable x) (c_quarantined x) (c_jr x) (c_spool x).
Definition with_spool (s : chat_spool) (x : cdisk J) : cdisk J :=
  CDisk (c_visible x) (c_durable x) (c_quarantined x) (c_jr x) s.
Definition with_journal (j : J) (x : cdisk J) : cdisk J :=
  CDisk (c_visible x) (c_durable x) (c_quarantined x) j (c_spool x).

(** The spool's own memory never fails. *)
Definition spool_get : Mdisk chat_spool := fun _ s => (Ok (c_spool (db s)), s).
Definition spool_put (f : chat_spool -> chat_spool) : Mdisk unit := fun _ s =>
  (Ok tt, World (with_spool (f (c_spool (db s))) (db s)) (wk s) (tick s)).
Definition set_broken (c : chat_spool) : chat_spool := ChatSpoolState (cs_usedBytes c) (cs_files c) (cs_open c) true.
(** An error after which the spool refuses to work. *)
Definition breaking (m : Mdisk unit) : Mdisk unit :=
  r ← try m; match r with Ok _ => mret tt | Err x => spool_put set_broken ;; fail x end.

(** System calls that change the directory. *)
Definition c_io (f : cdisk J -> result (cdisk J)) : Mdisk unit := sys_exec (fun _ x => y ← f x; Ok (tt, y)).
Definition c_create (name : string) : Mdisk unit := c_io (fun x =>
  match c_visible x !! name with
  | Some _ => Err ErrDriver   (* O_EXCL *)
  | None => Ok (on_visible (insert name (CFile EmptyString false)) x)
  end).
Definition c_write (name body : string) : Mdisk unit := c_io (fun x => Ok (on_visible (insert name (CFile body false)) x)).
Definition c_sync (name : string) : Mdisk unit := c_io (fun x =>
  Ok (on_visible (alter (fun f => match f with CFile b _ => CFile b true | f => f end) name) x)).
Definition c_close : Mdisk unit := c_io (fun x => Ok x).
Definition c_rename (a b : string) : Mdisk unit := c_io (fun x =>
  match c_visible x !! a with
  | Some f => Ok (on_visible (fun m => <[b := f]> (delete a m)) x)
  | None => Err ErrDriver
  end).
Definition c_remove (name : string) : Mdisk unit := c_io (fun x =>
  match c_visible x !! name with
  | Some _ => Ok (on_visible (delete name) x)
  | None => Err ErrDriver
  end).
Definition c_read (name : string) : Mdisk string := pool_query (fun _ x =>
  match c_visible x !! name with Some (CFile b _) => Ok b | _ => Err ErrDriver end).
(** [syncDir]: the names, and what was synced of the files, become durable. *)
Definition c_syncDir : Mdisk unit := c_io (fun x =>
  Ok (CDisk (c_visible x) (c_visible x) (c_quarantined x) (c_jr x) (c_spool x))).

Definition entry_by_name (a b : string * entry) : Prop := String.le a.1 b.1.
#[export] Instance entry_by_name_dec a b : Decision (entry_by_name a b).
Proof. unfold entry_by_name. apply _. Defined.
(** [os.ReadDir]: the entries, by name. *)
Definition entries (x : cdisk J) : list (string * entry) := merge_sort entry_by_name (map_to_list (c_visible x)).

(** ** Files *)

Definition validChatArchiveEnvelope (body : string) : result ArchiveChatRecord :=
  if is_empty body || (1048576 <? lenZ body) then Err (ErrMsg "invalid chat archive spool record size")
  else
    let '(envelope, ok) := unmarshal_text (d_struct envelope_fields) body (ChatEnvelope 0 EmptyString zero_chat) in
    if negb ok || negb (ce_Version envelope =? 1) then Err (ErrMsg "corrupt chat archive spool record")
    else
      raw ← marshal_chat (ce_Record envelope);
      if negb (String.eqb (ce_SHA256 envelope) (sum_hex raw)) then Err (ErrMsg "chat archive spool checksum mismatch")
      else Validate uuid_ok (ce_Record envelope) ;; Ok (ce_Record envelope).

(** [list]: the names and their sizes. *)
Fixpoint list_entries (l : list (string * entry)) (names : list string) (size : Z) : result (list string * Z) :=
  match l with
  | [] => Ok (names, size)
  | (name, f) :: l =>
      if String.eqb name ".writer.lock" || String.eqb name "quarantine" then list_entries l names size
      else match f with
      | CFile body _ =>
          if negb (has_suffix name ".json") then Err (ErrMsg "unexpected or incomplete chat spool entry")
          else list_entries l (names ++ [name]) (i64 (size + lenZ body))
      | _ => Err (ErrMsg "unexpected or incomplete chat spool entry")
      end
  end.
Definition list_files (x : cdisk J) : result (list string * Z) :=
  nz ← list_entries (entries x) [] 0; mret (merge_sort String.le nz.1, nz.2).
Definition c_list : Mdisk (list string * Z) := pool_query (fun _ x => list_files x).

(** ** Opening *)

(** An incomplete record goes to the private quarantine. *)
Definition quarantine (name body : string) : Mdisk unit :=
  c_io (fun x => Ok (match c_visible x !! "quarantine"%string with
                     | Some _ => x
                     | None => on_visible (insert "quarantine"%string (CDir true)) x end)) ;;
  private ← pool_query (fun _ x => Ok (match c_visible x !! "quarantine"%string with Some (CDir p) => p | _ => false end));
  guard_ok private (ErrMsg "unsafe chat archive quarantine directory") ;;
  c_io (fun x => match c_visible x !! name with
                 | Some _ => Ok (CDisk (delete name (c_visible x)) (c_durable x) (insert name body (c_quarantined x))
                                   (c_jr x) (c_spool x))
                 | None => Err ErrDriver
                 end) ;;
  c_io (fun x => Ok x).   (* the quarantine's own sync *)

Fixpoint recover_entries (l : list (string * entry)) : Mdisk unit :=
  match l with
  | [] => mret tt
  | (name, f) :: l =>
      if negb (has_suffix name ".pending") then recover_entries l
      else match f with
      | CFile _ _ =>
          body ← c_read name;
          match validChatArchiveEnvelope body with
          | Ok _ => c_rename name (trim_suffix name ".pending" +:+ ".json")
          | Err _ => quarantine name body
          end ;;
          c_syncDir ;;
          recover_entries l
      | _ => fail (ErrMsg "unexpected chat archive pending entry")
      end
  end.
Definition recoverPending : Mdisk unit := l ← pool_query (fun _ x => Ok (entries x)); recover_entries l.

Definition NewChatArchiveSpool : Mdisk unit :=
  guard_ok (absolute && (32 <=? lenZ key) && (1048576 <=? maxBytes))
    (ErrMsg "absolute chat archive path, 32-byte key, journal and spool limit required") ;;
  pool_query (fun _ _ => Ok tt) ;;
  guard_ok dir_private (ErrMsg "chat archive spool directory permissions too broad") ;;
  c_io (fun x => Ok (on_visible (fun m => match m !! ".writer.lock"%string with
                                          | Some _ => m
                                          | None => <[".writer.lock"%string := CFile EmptyString true]> m end) x)) ;;
  s ← spool_get;
  guard_ok (negb (cs_open s)) (ErrMsg "chat archive spool already owned") ;;
  recoverPending ;;
  nz ← c_list;
  spool_put (fun _ => ChatSpoolState nz.2 (Z.of_nat (length nz.1)) true false).

Definition Close : Mdisk unit :=
  spool_put (fun s => ChatSpoolState (cs_usedBytes s) (cs_files s) false (cs_broken s)).

(** ** Saving *)

Definition available (s : chat_spool) : bool := cs_open s && negb (cs_broken s).
Definition spool_full (s : chat_spool) (body : string) : bool :=
  (1048576 <? lenZ body) || (maxBytes <? i64 (cs_usedBytes s + lenZ body)) || (100000 <=? cs_files s).

(** The file of an accepted chat, from its creation to its name being durable. *)
Definition write_record (name body : string) : Mdisk unit :=
  c_create (name +:+ ".pending") ;;
  breaking (r ← try (c_write (name +:+ ".pending") body ;; c_sync (name +:+ ".pending"));
            c ← try c_close;
            lift r ;; lift c) ;;
  breaking (c_rename (name +:+ ".pending") (name +:+ ".json")) ;;
  breaking c_syncDir.

Definition Save (m : ChatMessage) (receivedAt : Z) : Mdisk unit :=
  if negb (bool_decide (m_Type m = MessageTypeChat)) then mret tt
  else
    s ← spool_get;
    guard_ok (available s) (ErrMsg "chat archive spool unavailable") ;;
    id ← new_uuid;
    let record := archive_record key id m receivedAt in
    lift (Validate uuid_ok record) ;;
    lift (marshal_chat record) ;;
    let body := chat_envelope_text record in
    guard_ok (negb (spool_full s body)) (ErrMsg "chat archive spool full") ;;
    write_record (chat_name receivedAt id) body ;;
    spool_put (fun s => ChatSpoolState (i64 (cs_usedBytes s + lenZ body)) (cs_files s + 1) (cs_open s) (cs_broken s)).

(** ** Draining *)

Definition c_ctx_err : Mdisk unit := fun _ s => if ctx_done (tick s) then (Err ErrContext, s) else (Ok tt, s).
Definition c_append (r : ArchiveChatRecord) : Mdisk bool := fun e s =>
  let '(res, w) := archive_append r e (World (c_jr (db s)) (c_jr (db s)) (tick s)) in
  (res, World (with_journal (db w) (db s)) (wk s) (tick w)).

(** [Drain] in its sections: the list, under the lock; a file handed to the
    archive, without it; the file removed, under the lock again. *)
Definition drain_list : Mdisk (list string) :=
  s ← spool_get;
  guard_ok (available s) (ErrMsg "chat archive spool unavailable") ;;
  nz ← c_list;
  mret nz.1.
Definition drain_load (name : string) : Mdisk string :=
  c_ctx_err ;;
  body ← c_read name;
  record ← lift (validChatArchiveEnvelope body);
  c_append record ;;
  mret body.
Definition drain_unlink (name body : string) : Mdisk unit :=
  breaking (c_remove name) ;;
  breaking c_syncDir ;;
  spool_put (fun s => ChatSpoolState (i64 (cs_usedBytes s - lenZ body)) (cs_files s - 1) (cs_open s) (cs_broken s)).
Fixpoint drain_files (l : list string) : Mdisk unit :=
  match l with
  | [] => mret tt
  | name :: l => body ← drain_load name; drain_unlink name body ;; drain_files l
  end.
Definition Drain : Mdisk unit := l ← drain_list; drain_files l.

Definition Backlog : Mdisk (Z * Z) := s ← spool_get; mret (cs_files s, cs_usedBytes s).

(** ** Kills and power losses *)

Definition killed (x : cdisk J) : cdisk J := with_spool closed_spool x.

(** What a power loss leaves of an entry: of a file that was not synced, all
    or something the checksum shows to be incomplete. *)
Inductive survives : entry -> entry -> Prop :=
| survives_synced b : survives (CFile b true) (CFile b true)
| survives_whole b : survives (CFile b false) (CFile b true)
| survives_torn b b' x : validChatArchiveEnvelope b' = Err x -> survives (CFile b false) (CFile b' true)
| survives_dir p : survives (CDir p) (CDir p)
| survives_other : survives COther COther.

(** Each name is what was durable or what was there. *)
Definition power_loss (x y : cdisk J) : Prop :=
  c_jr y = c_jr x /\ c_spool y = closed_spool /\ c_durable y = c_visible y /\
  forall name, option_relation survives (fun _ => False) (fun _ => False) (c_durable x !! name) (c_visible y !! name) \/
               option_relation survives (fun _ => False) (fun _ => False) (c_visible x !! name) (c_visible y !! name).
End ChatSpool.
