(* ===== verification/ChatSpoolInv.v ===== *)
(** The invariant of the chat spool: what its files hold reads back as it was
    written, and a chat it accepted is in its durable file or kept by the
    archive, whatever is saved, drained, killed or lost in between. Stated
    over any archive that keeps what it accepted ([ArchiveLaws]). *)
From S2P Require Import Prelude GoLib Sha256 Json GoText JsonText.
From S2P Require Import GoTime JsonRound Tx Model Message.
From S2P Require Import SoopParse Segment Archive ArchiveInv SpoolInv.
From S2P Require Import ChatSpool.

(** ** Texts *)

Lemma coerce_is_valid s : valid_utf8 (coerce s) = true.
Proof. exact (proj2 (coerced_bytes s)). Qed.
Lemma coerce_idem s : coerce (coerce s) = coerce s.
Proof. apply coerce_valid, coerce_is_valid. Qed.
Lemma json_string_coerce s : json_string (coerce s) = json_string s.
Proof. unfold json_string. by rewrite coerce_idem. Qed.

Lemma hex_ascii s : valid_utf8 (Sha256.hex s) = true.
Proof.
  apply ascii_valid. induction s as [|c s IH]; [done|].
  assert (forall b, 0 <= b < 256 -> Sha256.byte_of (Sha256.hex_digit (b / 16)) <? 128 = true /\
    Sha256.byte_of (Sha256.hex_digit (b mod 16)) <? 128 = true) as Hb by all_bytes.
  assert (0 <= Sha256.byte_of c < 256) as Hc.
  { pose proof (bytes_of_range (String c EmptyString)) as H. by apply Forall_inv in H. }
  destruct (Hb _ Hc) as [H1 H2]. cbn [Sha256.hex all_chars]. by rewrite H1, H2.
Qed.

(** What a decoder gives back of a record. *)
Definition coerced (r : ArchiveChatRecord) : ArchiveChatRecord :=
  MkRecord (coerce (ar_SpoolID r)) (coerce (ar_EventID r)) (coerce (ar_Platform r)) (coerce (ar_ChannelID r))
    (ar_ReceivedAt r) (ar_UserIDVersion r) (coerce (ar_PublicUserID r)) (coerce (ar_DisplayName r)) (coerce (ar_Message r)).

Lemma coerced_text r : render (record_json (coerced r)) = render (record_json r).
Proof. unfold record_json, coerced. cbn [render map join ar_SpoolID ar_EventID ar_Platform ar_ChannelID ar_ReceivedAt
  ar_UserIDVersion ar_PublicUserID ar_DisplayName ar_Message]. by rewrite !json_string_coerce. Qed.

(** ** Round trips *)

Lemma struct_obj {A} (fields : list (string * decoder A)) fs a :
  d_struct fields (text_of (JObj fs)) a = struct_fold fields (map (fun '(k, v) => (literal k, text_of v)) fs) (a, true).
Proof. done. Qed.

Lemma chat_decoded r : record_typed r = true -> marshalable_time (ar_ReceivedAt r) = true ->
  d_struct chat_fields (text_of (record_json r)) zero_chat = (coerced r, true).
Proof.
  unfold record_typed. intros Ht Hm. b2p. unfold record_json. rewrite struct_obj. cbn [map text_of].
  repeat (erewrite struct_member; [|reflexivity|vm_compute; reflexivity];
    cbn [member snd ar_SpoolID ar_EventID ar_Platform ar_ChannelID ar_ReceivedAt ar_UserIDVersion
      ar_PublicUserID ar_DisplayName ar_Message];
    rewrite ?d_string_text, ?d_time_text, ?d_int16_text by (done || lia)).
  unfold struct_fold. cbn [fold_left]. reflexivity.
Qed.

Lemma envelope_decoded r : record_typed r = true -> marshalable_time (ar_ReceivedAt r) = true ->
  d_struct envelope_fields (text_of (envelope_json (sealed r))) (ChatEnvelope 0 EmptyString zero_chat)
  = (ChatEnvelope 1 (sum_hex (render (record_json r))) (coerced r), true).
Proof.
  intros Ht Hm. unfold sealed, envelope_json. cbn [ce_Version ce_SHA256 ce_Record]. rewrite struct_obj.
  remember (record_json r) as j eqn:Ej. cbn [map text_of]. subst j.
  repeat (erewrite struct_member; [|reflexivity|vm_compute; reflexivity];
    cbn [member snd ce_Version ce_SHA256 ce_Record]; rewrite ?d_string_text, ?d_int_text, ?chat_decoded by (done || lia)).
  unfold struct_fold, sum_hex. cbn [fold_left]. by rewrite coerce_valid by apply hex_ascii.
Qed.

Lemma envelope_printable r : record_typed r = true -> marshalable_time (ar_ReceivedAt r) = true ->
  printable (envelope_json (sealed r)) = true.
Proof.
  unfold record_typed. intros Ht Hm. b2p. unfold envelope_json, record_json, sealed.
  cbn [printable forallb ce_Version ce_SHA256 ce_Record]. rewrite Hm. unfold small_number.
  repeat (apply andb_true_iff; split); try done; apply Z.ltb_lt; lia.
Qed.

Lemma envelope_nonempty r : is_empty (chat_envelope_text r) = false.
Proof. done. Qed.

(** A file [Save] wrote opens to the record, its texts valid UTF-8, when that
    is still a record the archive takes. *)
Lemma sealed_opens uuid_ok r : record_typed r = true -> marshalable_time (ar_ReceivedAt r) = true ->
  lenZ (chat_envelope_text r) <= 1048576 ->
  validChatArchiveEnvelope uuid_ok (chat_envelope_text r) = (Validate uuid_ok (coerced r) ;; Ok (coerced r)).
Proof.
  intros Ht Hm Hl. unfold validChatArchiveEnvelope. rewrite envelope_nonempty.
  replace (1048576 <? _) with false by (symmetry; apply Z.ltb_ge; lia). cbn [orb].
  unfold unmarshal_text, chat_envelope_text. rewrite parse_text_render by (by apply envelope_printable || done).
  rewrite envelope_decoded by done. cbn [negb orb ce_Version ce_SHA256 ce_Record]. unfold marshal_chat.
  cbn [coerced ar_ReceivedAt]. rewrite Hm. cbn [mbind result_bind]. by rewrite coerced_text, String.eqb_refl.
Qed.

Lemma sealed_opened uuid_ok r rc : record_typed r = true -> marshalable_time (ar_ReceivedAt r) = true ->
  validChatArchiveEnvelope uuid_ok (chat_envelope_text r) = Ok rc -> rc = coerced r.
Proof.
  intros Ht Hm. destruct (decide (lenZ (chat_envelope_text r) <= 1048576)) as [Hl|Hl].
  - rewrite sealed_opens by done. destruct (Validate _ _); [|done]. by intros [= <-].
  - unfold validChatArchiveEnvelope. rewrite envelope_nonempty.
    by replace (1048576 <? _) with true by (symmetry; apply Z.ltb_lt; lia).
Qed.

(** ** What the spool relies on *)

(** [ainv]: the archive's own invariant; [akept]: the chat is archived or
    waits for its broadcast; [aunused]: nothing has the spool id;
    [aclean]: nothing else has the record's spool id; [aother]: what else
    happens to the archive. *)
Class ArchiveLaws (J : Type) `{ChatArchiveJournal J} := {
  ainv : J -> Prop;
  akept : J -> ArchiveChatRecord -> Prop;
  aclean : J -> ArchiveChatRecord -> Prop;
  aunused : J -> string -> Prop;
  aother : J -> J -> Prop;
  aunused_clean : forall j r, aunused j (ar_SpoolID r) -> aclean j r;
  append_invariant : forall r e s res s', good_env e -> record_typed r = true -> ainv (db s) ->
    archive_append r e s = (res, s') -> ainv (db s');
  append_clean : forall r r' e s res s', good_env e -> record_typed r = true -> ainv (db s) ->
    archive_append r e s = (res, s') -> (ar_SpoolID r = ar_SpoolID r' -> r = r') ->
    aclean (db s) r' -> aclean (db s') r' /\ (akept (db s) r' -> akept (db s') r');
  append_keeps : forall r e s b s', good_env e -> record_typed r = true -> ainv (db s) -> aclean (db s) r ->
    archive_append r e s = (Ok b, s') -> akept (db s') r;
  other_invariant : forall j j', aother j j' -> ainv j -> ainv j';
  other_clean : forall j j' r, aother j j' -> ainv j -> aclean j r -> aclean j' r /\ (akept j r -> akept j' r)
}.

(** ** Names *)

Definition pending_of (n : string) : string := n +:+ ".pending".
Definition final_of (n : string) : string := n +:+ ".json".

Lemma final_inj a b : final_of a = final_of b -> a = b.
Proof. intros E. by apply (append_inj_suffix _ _ _ _ eq_refl) in E as [? _]. Qed.
Lemma pending_inj a b : pending_of a = pending_of b -> a = b.
Proof. intros E. by apply (append_inj_suffix _ _ _ _ eq_refl) in E as [? _]. Qed.
Lemma final_not_pending a b : final_of a <> pending_of b.
Proof. apply json_not_pending. Qed.
Lemma chat_name_id t t' id id' : chat_name t id = chat_name t' id' -> id = id'.
Proof.
  unfold chat_name. intros E. apply append_inj_prefix in E as [_ E]; [|by rewrite !pad20_length].
  by injection E.
Qed.

Section Inv.
Context {J : Type} `{ArchiveLaws J}.
Context (uuid_ok : string -> bool) (key : string) (maxBytes : Z).

Notation opens b r := (validChatArchiveEnvelope uuid_ok b = Ok r).
Notation table := (list (string * ArchiveChatRecord)).

(** A record as [Save] makes them. *)
Record record_saved (n : string) (r : ArchiveChatRecord) : Prop := {
  rs_name : exists t, n = chat_name t (ar_SpoolID r);
  rs_id : canonical (ar_SpoolID r) = true;
  rs_typed : record_typed r = true;
  rs_time : marshalable_time (ar_ReceivedAt r) = true
}.

(** Whatever opens in a directory is the file of a record that was written. *)
Definition from_saves (W : table) (m : gmap string entry) : Prop :=
  forall name b y rc, m !! name = Some (CFile b y) -> opens b rc ->
    exists n r, (n, r) ∈ W /\ (name = final_of n \/ name = pending_of n) /\ b = chat_envelope_text r.

(** Nothing but the record's own synced file is under its names. *)
Definition file_intact (m : gmap string entry) (n : string) (r : ArchiveChatRecord) : Prop :=
  m !! pending_of n = None /\ forall f, m !! final_of n = Some f -> f = CFile (chat_envelope_text r) true.

Definition gone (m : gmap string entry) (n : string) : Prop := m !! final_of n = None.

(** [W]: every record [Save] started to write, [A]: those it accepted. *)
Record chat_inv (W A : table) (x : cdisk J) : Prop := {
  ci_jr : ainv (c_jr x);
  ci_saved : forall n r, (n, r) ∈ W -> record_saved n r /\ aclean (c_jr x) (coerced r);
  ci_ids : forall n r n' r', (n, r) ∈ W -> (n', r') ∈ W -> ar_SpoolID r = ar_SpoolID r' -> n = n' /\ r = r';
  ci_visible : from_saves W (c_visible x);
  ci_durable : from_saves W (c_durable x);
  ci_accepted : forall n r, (n, r) ∈ A -> (n, r) ∈ W /\ file_intact (c_visible x) n r /\ file_intact (c_durable x) n r /\
    (gone (c_visible x) n \/ gone (c_durable x) n -> akept (c_jr x) (coerced r))
}.

Lemma saved_names W A x n r n' r' : chat_inv W A x -> (n, r) ∈ W -> (n', r') ∈ W -> n = n' -> r = r'.
Proof.
  intros I Hn Hn' E. destruct (ci_saved _ _ _ I _ _ Hn) as [[[t Ht] _ _ _] _].
  destruct (ci_saved _ _ _ I _ _ Hn') as [[[t' Ht'] _ _ _] _].
  eapply (ci_ids _ _ _ I); [done..|]. eapply chat_name_id. by rewrite <- Ht, <- Ht', E.
Qed.

Lemma coerced_id n r : record_saved n r -> ar_SpoolID (coerced r) = ar_SpoolID r.
Proof. intros Hr. cbn. by apply coerce_valid, canonical_valid, (rs_id _ _ Hr). Qed.

Lemma from_saves_weaken W W' m : (forall p, p ∈ W -> p ∈ W') -> from_saves W m -> from_saves W' m.
Proof. intros HW Hm name b y rc Hl Ho. destruct (Hm _ _ _ _ Hl Ho) as (n & r & ? & ?). eauto. Qed.

(** ** Changes of the directory *)

(** A name that no accepted record has. *)
Definition unowned (A : table) (name : string) : Prop :=
  forall n r, (n, r) ∈ A -> name <> final_of n /\ name <> pending_of n.

Lemma intact_insert m n r name f : name <> final_of n -> name <> pending_of n ->
  file_intact m n r -> file_intact (<[name := f]> m) n r.
Proof. intros H1 H2 [I1 I2]. split; [by rewrite lookup_insert_ne|]. by rewrite lookup_insert_ne. Qed.

Lemma intact_delete m n r name : file_intact m n r -> file_intact (delete name m) n r.
Proof.
  intros [I1 I2]. split; [apply lookup_delete_None; by right|].
  intros f [_ Hf]%lookup_delete_Some. by apply I2.
Qed.

Lemma inv_insert W A x name f : chat_inv W A x -> unowned A name ->
  (forall b y rc, f = CFile b y -> opens b rc ->
     exists n r, (n, r) ∈ W /\ (name = final_of n \/ name = pending_of n) /\ b = chat_envelope_text r) ->
  chat_inv W A (on_visible (insert name f) x).
Proof.
  intros [I1 I2 I3 I4 I5 I6] Hu Hf. split; cbn; try done.
  - intros nm b y rc [[<- ->]|[_ Hl]]%lookup_insert_Some Ho; [by eapply Hf|by eapply I4].
  - intros n r Hn. destruct (I6 _ _ Hn) as (HW & Hv & Hd & Hk), (Hu _ _ Hn) as [U1 U2].
    split; [done|]. split; [by apply intact_insert|]. split; [done|].
    unfold gone. by rewrite lookup_insert_ne by congruence.
Qed.

Lemma inv_delete W A x name : chat_inv W A x ->
  (forall n r, (n, r) ∈ A -> name = final_of n -> akept (c_jr x) (coerced r)) ->
  chat_inv W A (on_visible (delete name) x).
Proof.
  intros [I1 I2 I3 I4 I5 I6] Hk. split; cbn; try done.
  - intros nm b y rc [_ Hl]%lookup_delete_Some Ho. by eapply I4.
  - intros n r Hn. destruct (I6 _ _ Hn) as (HW & Hv & Hd & Hg). split; [done|].
    split; [by apply intact_delete|]. split; [done|]. unfold gone. intros [Hl|Hl]; [|auto].
    apply lookup_delete_None in Hl as [->|Hl]; eauto.
Qed.

Lemma inv_spool W A x s : chat_inv W A x -> chat_inv W A (with_spool s x).
Proof. by intros []. Qed.

Lemma inv_syncDir W A x : chat_inv W A x ->
  chat_inv W A (CDisk (c_visible x) (c_visible x) (c_quarantined x) (c_jr x) (c_spool x)).
Proof.
  intros [I1 I2 I3 I4 I5 I6]. split; cbn; try done. intros n r Hn.
  destruct (I6 _ _ Hn) as (HW & Hv & Hd & Hk). repeat (split; [done|]). intros [?|?]; auto.
Qed.

(** The archive moves on. *)
Lemma inv_journal W A x j : chat_inv W A x -> ainv j ->
  (forall n r, (n, r) ∈ W -> aclean (c_jr x) (coerced r) ->
     aclean j (coerced r) /\ (akept (c_jr x) (coerced r) -> akept j (coerced r))) ->
  chat_inv W A (with_journal j x).
Proof.
  intros [I1 I2 I3 I4 I5 I6] Hj Hk. split; cbn; try done.
  - intros n r Hn. destruct (I2 _ _ Hn) as [Hs Hc]. split; [done|]. by apply (Hk n).
  - intros n r Hn. destruct (I6 _ _ Hn) as (HW & Hv & Hd & Hg). destruct (I2 _ _ HW) as [_ Hc].
    repeat (split; [done|]). intros Hl. by apply (Hk n), Hg.
Qed.

(** ** Computations *)

Notation Mdisk := (M (cdisk J)).

Lemma hoare_attempt {X} (P : cdisk J -> Prop) (m : Mdisk X) (Q : X -> cdisk J -> Prop) E F :
  hoare P m Q E -> hoare P (try m) (fun r d => match r with Ok a => Q a d | Err _ => E d end) F.
Proof. intros Hm e s Hs. specialize (Hm e s Hs). unfold try. by destruct (m e s) as [[a|x] s']. Qed.

Lemma hoare_breaking (P : cdisk J -> Prop) (m : Mdisk unit) (Q E : cdisk J -> Prop) :
  (forall s x, E x -> E (with_spool s x)) -> hoare P m (fun _ => Q) E -> hoare P (breaking m) (fun _ => Q) E.
Proof.
  intros HE Hm e s Hs. specialize (Hm e s Hs). unfold breaking, mbind, M_bind, try.
  destruct (m e s) as [[a|x] s']; [done|]. cbn. by apply HE.
Qed.

Lemma hoare_io (P : cdisk J -> Prop) f (Q E : cdisk J -> Prop) :
  (forall x x', P x -> f x = Ok x' -> Q x') -> (forall x, P x -> E x) -> hoare P (c_io f) (fun _ => Q) E.
Proof.
  intros HQ HE. apply hoare_sys_exec; [|done]. intros t x u x' Hp Hx.
  destruct (f x) as [y|] eqn:E1; [|done]. injection Hx as _ <-. by eapply HQ.
Qed.

Lemma hoare_still {X} (P : cdisk J -> Prop) (m : Mdisk X) : quiet m -> hoare P m (fun _ d => P d) P.
Proof. intros Hq e s Hs. specialize (Hq e s). destruct (m e s) as [[a|x] s']; cbn in *; by rewrite Hq. Qed.

(** ** Writing a record *)

(** The archive is not touched by what changes files. *)
Definition same_journal (x y : cdisk J) : Prop := c_jr x = c_jr y.
#[local] Instance same_journal_preorder : PreOrder same_journal.
Proof. split; [by intros x|]. intros x y z Hx Hy. unfold same_journal in *. congruence. Qed.

Lemma relates_io f : (forall x y, f x = Ok y -> same_journal x y) -> relates same_journal (c_io f).
Proof.
  intros Hf. apply relates_sys_exec; [apply _|]. intros t d a d' E. destruct (f d) as [y|] eqn:Ey; [|done].
  injection E as _ <-. by apply Hf.
Qed.
Lemma relates_breaking m : relates same_journal m -> relates same_journal (breaking m).
Proof.
  intros Hm. unfold breaking. apply relates_bind; [apply _|by apply relates_try|]. intros [u|x]; by intros e s.
Qed.
Lemma write_record_journal n body e s : c_jr (db (write_record (J := J) n body e s).2) = c_jr (db s).
Proof.
  symmetry. assert (relates same_journal (write_record n body)) as Hr; [|exact (Hr e s)].
  assert (forall f, (forall x y, f x = Ok y -> same_journal x y) -> relates same_journal (breaking (c_io f))) as Hio
    by (intros f Hf; by apply relates_breaking, relates_io).
  unfold write_record. apply relates_bind; [apply _| |].
  { apply relates_io. intros x y E. destruct (c_visible x !! _); [done|]. by injection E as <-. }
  intros _. apply relates_bind; [apply _| |].
  { apply relates_breaking, relates_bind; [apply _|apply relates_try, relates_bind; [apply _| |]|].
    - apply relates_io. by intros x y [= <-].
    - intros _. apply relates_io. by intros x y [= <-].
    - intros r1. apply relates_bind; [apply _|apply relates_try, relates_io; by intros x y [= <-]|].
      intros r2. by intros e' s'; destruct r1, r2. }
  intros _. apply relates_bind; [apply _| |].
  - apply Hio. intros x y E. destruct (c_visible x !! _); [|done]. by injection E as <-.
  - intros _. apply Hio. by intros x y [= <-].
Qed.

Section Write.
Context (W A : table) (n : string) (r : ArchiveChatRecord).
Context (Hin : (n, r) ∈ W) (Hnew : unowned A (pending_of n)) (Hnew' : unowned A (final_of n)).
Let body := chat_envelope_text r.

(** The file is there, under its first name. *)
Definition holding (b : string) (y : bool) (x : cdisk J) : Prop :=
  chat_inv W A x /\ c_visible x !! pending_of n = Some (CFile b y).

Lemma holding_insert b y x : (b = EmptyString \/ b = body) -> chat_inv W A x ->
  holding b y (on_visible (insert (pending_of n) (CFile b y)) x).
Proof.
  intros Hb I. split; [|apply lookup_insert_eq]. apply inv_insert; [done..|].
  intros b' y' rc [= <- <-] Ho. destruct Hb as [-> | ->]; [done|]. exists n, r. auto.
Qed.

Lemma hoare_c_create : hoare (chat_inv W A) (c_create (pending_of n)) (fun _ => holding EmptyString false) (chat_inv W A).
Proof.
  apply hoare_io; [|done]. intros x x' I Hx. destruct (c_visible x !! _); [done|]. injection Hx as <-.
  by apply holding_insert; [left|].
Qed.
Lemma hoare_c_write : hoare (holding EmptyString false) (c_write (pending_of n) body) (fun _ => holding body false) (chat_inv W A).
Proof. apply hoare_io; [|by intros x []]. intros x x' [I _] [= <-]. by apply holding_insert; [right|]. Qed.
Lemma hoare_c_sync : hoare (holding body false) (c_sync (pending_of n)) (fun _ => holding body true) (chat_inv W A).
Proof.
  apply hoare_io; [|by intros x []]. intros x x' [I Hl] [= <-].
  assert (alter (fun f => match f with CFile b _ => CFile b true | f => f end) (pending_of n) (c_visible x)
    = <[pending_of n := CFile body true]> (c_visible x)) as E.
  { apply map_eq. intros nm. rewrite lookup_alter, lookup_insert. case_decide as E; [|done]. subst nm. by rewrite Hl. }
  unfold on_visible. rewrite E. by apply (holding_insert body true x); [right|].
Qed.

(** The file is there under its last name. *)
Definition renamed (x : cdisk J) : Prop :=
  chat_inv W A x /\ c_visible x !! final_of n = Some (CFile body true) /\ c_visible x !! pending_of n = None.

Lemma hoare_c_rename : hoare (holding body true) (c_rename (pending_of n) (final_of n)) (fun _ => renamed) (chat_inv W A).
Proof.
  apply hoare_io; [|by intros x []]. intros x x' [I Hl] Hx. rewrite Hl in Hx. injection Hx as <-.
  split; [|split; [apply lookup_insert_eq|]].
  - assert (chat_inv W A (on_visible (delete (pending_of n)) x)) as I'.
    { apply inv_delete; [done|]. intros n' r' Hn E. by destruct (Hnew _ _ Hn). }
    apply (inv_insert _ _ _ _ (CFile body true) I'); [done|]. intros b y rc [= <- <-] Ho. exists n, r. auto.
  - cbn. rewrite lookup_insert_ne by apply final_not_pending. apply lookup_delete_eq.
Qed.

Lemma hoare_publish : hoare renamed c_syncDir (fun _ => chat_inv W ((n, r) :: A)) (chat_inv W A).
Proof.
  apply hoare_io; [|by intros x []]. intros x x' (I & Hf & Hp) [= <-].
  assert (file_intact (c_visible x) n r) as Hi by (split; [done|]; intros f; rewrite Hf; by intros [= <-]).
  destruct (inv_syncDir _ _ _ I) as [I1 I2 I3 I4 I5 I6]. split; try done.
  intros n' r' [[= -> ->]|Hn]%elem_of_cons; [|by apply I6].
  repeat (split; [done|]). cbn. unfold gone. rewrite Hf. by intros [?|?].
Qed.

(** After the write and the sync, whatever came of them. *)
Definition stored_or_not (res : result unit) (x : cdisk J) : Prop :=
  match res with Ok _ => holding body true x | Err _ => chat_inv W A x end.

Lemma hoare_store F : hoare (holding EmptyString false)
  (try (c_write (pending_of n) body ;; c_sync (pending_of n))) stored_or_not F.
Proof.
  eapply hoare_post; [|apply (hoare_attempt _ _ (fun _ => holding body true) (chat_inv W A))].
  - intros res x Hx. unfold stored_or_not. destruct res; exact Hx.
  - eapply hoare_bind; [apply hoare_c_write|]. intros ?. apply hoare_c_sync.
Qed.

Lemma hoare_closing res F : hoare (stored_or_not res) (try (c_close (J := J))) (fun _ => stored_or_not res) F.
Proof.
  eapply hoare_post; [|apply (hoare_attempt _ _ (fun _ => stored_or_not res) (stored_or_not res))].
  - intros r' x Hx. destruct r'; exact Hx.
  - apply hoare_io; [|trivial]. intros x x' Hx Ex. injection Ex as <-. exact Hx.
Qed.

Lemma hoare_outcome (res res' : result unit) : hoare (stored_or_not res) (lift res ;; lift res' : Mdisk unit)
  (fun _ => holding body true) (chat_inv W A).
Proof.
  intros e s Hs. unfold stored_or_not in Hs.
  destruct res as [u|]; [|exact Hs]. destruct res' as [u'|]; [exact Hs|exact (proj1 Hs)].
Qed.

Lemma hoare_write_record : hoare (chat_inv W A) (write_record n body) (fun _ => chat_inv W ((n, r) :: A)) (chat_inv W A).
Proof.
  unfold write_record. eapply hoare_bind; [apply hoare_c_create|]. intros ?.
  eapply hoare_bind; [apply hoare_breaking; [intros; by apply inv_spool|]|].
  - eapply hoare_bind; [apply hoare_store|]. intros res. eapply hoare_bind; [apply hoare_closing|].
    intros res'. apply hoare_outcome.
  - intros ?. eapply hoare_bind; [apply hoare_breaking; [intros; by apply inv_spool|apply hoare_c_rename]|].
    intros ?. apply hoare_breaking; [intros; by apply inv_spool|apply hoare_publish].
Qed.
End Write.

(** ** Saving *)

Lemma inv_record W A x n r : chat_inv W A x -> record_saved n r -> aunused (c_jr x) (ar_SpoolID r) ->
  (forall n' r', (n', r') ∈ W -> ar_SpoolID r' <> ar_SpoolID r) -> chat_inv ((n, r) :: W) A x.
Proof.
  intros [I1 I2 I3 I4 I5 I6] Hr Hu Hn. split; [done| | | | |].
  - intros n' r' [[= -> ->]|Hw]%elem_of_cons; [|by apply I2]. split; [done|].
    apply aunused_clean. by rewrite (coerced_id n).
  - intros n1 r1 n2 r2 [[= -> ->]|H1]%elem_of_cons [[= -> ->]|H2]%elem_of_cons E; [done| | |by apply I3].
    + by destruct (Hn _ _ H2).
    + by destruct (Hn _ _ H1).
  - eapply from_saves_weaken; [|exact I4]. intros p Hp. by right.
  - eapply from_saves_weaken; [|exact I5]. intros p Hp. by right.
  - intros n' r' Ha. destruct (I6 _ _ Ha) as (HW & ?). split; [by right|done].
Qed.

Lemma unowned_new W A x n r : chat_inv W A x -> record_saved n r ->
  (forall n' r', (n', r') ∈ W -> ar_SpoolID r' <> ar_SpoolID r) ->
  unowned A (pending_of n) /\ unowned A (final_of n).
Proof.
  intros I Hr Hn. assert (forall n' r', (n', r') ∈ A -> n <> n') as Hne.
  { intros n' r' Ha ->. destruct (ci_accepted _ _ _ I _ _ Ha) as [HW _]. apply (Hn _ _ HW).
    destruct (rs_name _ _ Hr) as [t ->] eqn:E1. destruct (ci_saved _ _ _ I _ _ HW) as [[[t' E] _ _ _] _].
    symmetry. by eapply chat_name_id. }
  split; intros n' r' Ha; split.
  - apply not_eq_sym, final_not_pending.
  - intros E%pending_inj. by apply (Hne n' r').
  - intros E%final_inj. by apply (Hne n' r').
  - apply final_not_pending.
Qed.

(** What [Save] did: the record it wrote, if it came that far. *)
Lemma Save_run W A e s m t res s' : good_env e -> chat_inv W A (db s) ->
  let id := fresh e (tick s) in
  let n := chat_name t id in
  let r := archive_record key id m t in
  aunused (c_jr (db s)) id -> (forall n' r', (n', r') ∈ W -> ar_SpoolID r' <> id) ->
  Save uuid_ok key maxBytes m t e s = (res, s') ->
  exists W', chat_inv W' (if is_ok res && bool_decide (m_Type m = MessageTypeChat) then (n, r) :: A else A) (db s') /\
    (W' = W \/ W' = (n, r) :: W) /\ c_jr (db s') = c_jr (db s).
Proof.
  intros He I id n r Hu Hn E. unfold Save in E. destruct (bool_decide _) eqn:Em; cbn [negb] in E.
  2:{ injection E as <- <-. exists W. cbn. auto. }
  assert (forall x, res = Err x -> db s' = db s -> exists W',
    chat_inv W' (if is_ok res && true then (n, r) :: A else A) (db s') /\ (W' = W \/ W' = (n, r) :: W) /\
    c_jr (db s') = c_jr (db s)) as Hno.
  { intros x -> ->. exists W. auto. }
  apply bind_inv in E as [(c & s1 & H1 & E)|(x & H1 & ->)]; [injection H1 as <- <-|discriminate H1].
  apply bind_inv in E as [(u1 & s1 & H1 & E)|(x & H1 & ->)];
    [apply guard_ok_ok in H1 as [_ <-]|eapply Hno; [done|by eapply (quiet_run _ _ _ _ _ (quiet_guard _ _) H1)]].
  apply bind_inv in E as [(id' & s1 & H1 & E)|(x & H1 & ->)]; [injection H1 as <- <-|discriminate H1].
  cbv zeta in E. fold id n r in E.
  apply bind_inv in E as [(u2 & s1 & H1 & E)|(x & H1 & ->)];
    [apply lift_ok in H1 as [_ <-]|eapply Hno; [done|by eapply (quiet_run _ _ _ _ _ (quiet_lift _) H1)]].
  apply bind_inv in E as [(raw & s1 & H1 & E)|(x & H1 & ->)];
    [apply lift_ok in H1 as [Er <-]|eapply Hno; [done|by eapply (quiet_run _ _ _ _ _ (quiet_lift _) H1)]].
  apply bind_inv in E as [(u3 & s1 & H1 & E)|(x & H1 & ->)];
    [apply guard_ok_ok in H1 as [_ <-]|eapply Hno; [done|by eapply (quiet_run _ _ _ _ _ (quiet_guard _ _) H1)]].
  assert (record_saved n r) as Hr.
  { unfold marshal_chat in Er. destruct (marshalable_time _) eqn:Et; [|done]. split; [by exists t|apply He|done|done]. }
  destruct (unowned_new _ _ _ _ _ I Hr Hn) as [U1 U2].
  pose proof (inv_record _ _ _ _ _ I Hr Hu Hn) as I'.
  assert ((n, r) ∈ (n, r) :: W) as Hin by by left.
  pose proof (hoare_write_record ((n, r) :: W) A n r Hin U1 U2 e (bump s) I') as Hw.
  pose proof (write_record_journal n (chat_envelope_text r) e (bump s)) as Hj.
  exists ((n, r) :: W). apply bind_inv in E as [(u4 & s1 & H1 & E)|(x & H1 & ->)]; rewrite H1 in Hw, Hj.
  - injection E as <- <-. split; [exact (inv_spool _ _ _ _ Hw)|]. split; [by right|exact Hj].
  - split; [exact Hw|]. split; [by right|exact Hj].
Qed.

(** ** Draining *)

(** The file's record, if it is one of the spool's, is kept by the archive. *)
Definition loaded (W : table) (name : string) (x : cdisk J) : Prop :=
  exists n r, (n, r) ∈ W /\ (name = final_of n \/ name = pending_of n) /\ akept (c_jr x) (coerced r).

Lemma loaded_akept W A x name n r : chat_inv W A x -> loaded W name x -> (n, r) ∈ A -> name = final_of n ->
  akept (c_jr x) (coerced r).
Proof.
  intros I (n0 & r0 & HW & Hn & Hk) Ha ->. destruct Hn as [E%final_inj|E]; [|by apply final_not_pending in E].
  destruct (ci_accepted _ _ _ I _ _ Ha) as [HW' _]. by rewrite (saved_names _ _ _ _ _ _ _ I HW' HW E).
Qed.

(** An append keeps the records of the spool, whichever record it is. *)
Lemma append_chat_inv W A x n0 r0 e k res w : good_env e -> chat_inv W A x -> (n0, r0) ∈ W ->
  archive_append (coerced r0) e (World (c_jr x) (c_jr x) k) = (res, w) ->
  chat_inv W A (with_journal (db w) x) /\ (is_ok res = true -> akept (db w) (coerced r0)).
Proof.
  intros He I HW E. destruct (ci_saved _ _ _ I _ _ HW) as [Hs Hc].
  assert (record_typed (coerced r0) = true) as Ht by exact (rs_typed _ _ Hs).
  split.
  - apply inv_journal; [done|by eapply (append_invariant _ _ (World (c_jr x) (c_jr x) k)); [..|exact E]; [| |apply (ci_jr _ _ _ I)]|].
    intros n r Hin Hcl. destruct (ci_saved _ _ _ I _ _ Hin) as [Hs' _].
    eapply (append_clean _ _ _ (World (c_jr x) (c_jr x) k)); [exact He|exact Ht|apply (ci_jr _ _ _ I)|exact E| |exact Hcl].
    rewrite (coerced_id n0), (coerced_id n) by done. intros Eid.
    by destruct (ci_ids _ _ _ I _ _ _ _ HW Hin Eid) as [_ ->].
  - destruct res as [b|]; [|done]. intros _.
    by eapply (append_keeps _ _ (World (c_jr x) (c_jr x) k)); [| |apply (ci_jr _ _ _ I)|exact Hc|exact E].
Qed.

Lemma drain_load_run W A ctx name e s res s' : good_env e -> chat_inv W A (db s) ->
  drain_load uuid_ok ctx name e s = (res, s') ->
  chat_inv W A (db s') /\ (is_ok res = true -> loaded W name (db s')).
Proof.
  intros He I E. unfold drain_load in E.
  apply bind_inv in E as [(u & s1 & H1 & E)|(x & H1 & ->)].
  2:{ unfold c_ctx_err in H1. destruct (ctx _); [|done]. by injection H1 as _ <-. }
  assert (s1 = s) as -> by (unfold c_ctx_err in H1; destruct (ctx _); [done|by injection H1]).
  apply bind_inv in E as [(body & s1 & H2 & E)|(x & H2 & ->)];
    [|by rewrite (quiet_run _ _ _ _ _ (quiet_pool_query _) H2)].
  apply pool_query_ok in H2 as (_ & Hb & ->).
  destruct (c_visible (db s) !! name) as [[b y| |]|] eqn:Ev; try done. injection Hb as ->.
  apply bind_inv in E as [(rc & s1 & H3 & E)|(x & H3 & ->)];
    [|by rewrite (quiet_run _ _ _ _ _ (quiet_lift _) H3)].
  apply lift_ok in H3 as [Ho <-].
  destruct (ci_visible _ _ _ I _ _ _ _ Ev Ho) as (n0 & r0 & HW & Hn & ->).
  destruct (ci_saved _ _ _ I _ _ HW) as [Hs _].
  apply sealed_opened in Ho; [|apply (rs_typed _ _ Hs)|apply (rs_time _ _ Hs)]. subst rc.
  apply bind_inv in E as [(b & s1 & H4 & E)|(x & H4 & ->)]; unfold c_append in H4; cbn [db bump tick] in H4;
    destruct (archive_append _ e _) as [res0 w] eqn:Ea; injection H4 as -> <-;
    destruct (append_chat_inv _ _ _ _ _ _ _ _ _ He I HW Ea) as [I' Hk]; [|by split].
  injection E as <- <-. split; [exact I'|]. intros _. exists n0, r0. auto.
Qed.

Lemma hoare_unlink W A name body : hoare (fun x => chat_inv W A x /\ loaded W name x) (drain_unlink name body)
  (fun _ => chat_inv W A) (chat_inv W A).
Proof.
  unfold drain_unlink. eapply hoare_bind.
  { apply hoare_breaking; [intros; by apply inv_spool|]. apply (hoare_io _ _ (chat_inv W A)); [|by intros x []].
    intros x x' [I Hl] Ex. destruct (c_visible x !! name); [|done]. injection Ex as <-.
    apply inv_delete; [done|]. intros n r Ha En. by eapply loaded_akept. }
  intros ?. eapply hoare_bind.
  { apply hoare_breaking; [intros; by apply inv_spool|]. apply (hoare_io _ _ (chat_inv W A)); [|done].
    intros x x' I [= <-]. by apply inv_syncDir. }
  intros ? e s Hs. cbn. by apply inv_spool.
Qed.

(** ** Opening *)

Lemma substring_split s : forall k, (k <= String.length s)%nat ->
  s = String.substring 0 k s +:+ String.substring k (String.length s - k) s.
Proof.
  induction s as [|c s IH]; intros [|k] Hk; cbn in *; try lia; [done| |].
  - symmetry. exact (f_equal (String c) (substring_all s)).
  - exact (f_equal (String c) (IH k ltac:(lia))).
Qed.
Lemma suffix_split a p : has_suffix a p = true -> exists b, a = b +:+ p.
Proof.
  unfold has_suffix, drop_str. intros [Hl%Nat.leb_le He%String.eqb_eq]%andb_true_iff.
  exists (String.substring 0 (String.length a - String.length p) a).
  rewrite <- He at 2. apply substring_split. lia.
Qed.

Lemma hoare_read_body W A name : hoare (chat_inv W A) (c_read (J := J) name)
  (fun b x => chat_inv W A x /\ exists y, c_visible x !! name = Some (CFile b y)) (chat_inv W A).
Proof.
  apply hoare_pool_query; [|done]. intros t x b I Hb. split; [done|].
  destruct (c_visible x !! name) as [[b' y| |]|]; try done. injection Hb as ->. by exists y.
Qed.

(** A complete file takes its last name. *)
Lemma hoare_recover_rename W A p b y rc : opens b rc ->
  hoare (fun x => chat_inv W A x /\ c_visible x !! pending_of p = Some (CFile b y)) (c_rename (pending_of p) (final_of p))
    (fun _ => chat_inv W A) (chat_inv W A).
Proof.
  intros Ho. apply hoare_io; [|by intros x []]. intros x x' [I Hl] Ex. rewrite Hl in Ex. injection Ex as <-.
  destruct (ci_visible _ _ _ I _ _ _ _ Hl Ho) as (n & r & HW & [E|E%pending_inj] & ->);
    [by apply eq_sym, final_not_pending in E|subst n].
  assert (forall n' r', (n', r') ∈ A -> p <> n') as Hno.
  { intros n' r' Ha ->. destruct (ci_accepted _ _ _ I _ _ Ha) as (_ & [Hp _] & _). congruence. }
  assert (chat_inv W A (on_visible (delete (pending_of p)) x)) as I'.
  { apply inv_delete; [done|]. intros n' r' Hn E. by apply eq_sym, final_not_pending in E. }
  apply (inv_insert _ _ _ _ (CFile (chat_envelope_text r) y) I').
  - intros n' r' Ha. split; [intros E%final_inj; by eapply Hno|apply final_not_pending].
  - intros b' y' rc' [= <- <-] _. exists p, r. auto.
Qed.

Lemma short_unowned W A x name : chat_inv W A x -> (String.length name < 20)%nat -> unowned A name.
Proof.
  intros I Hl n r Ha. destruct (ci_accepted _ _ _ I _ _ Ha) as [HW _].
  destruct (ci_saved _ _ _ I _ _ HW) as [[[t ->] _ _ _] _].
  split; intros ->; revert Hl; unfold final_of, pending_of, chat_name; rewrite !append_length, pad20_length; lia.
Qed.

(** An incomplete file leaves the directory. *)
Lemma hoare_quarantine W A p b : hoare (chat_inv W A) (quarantine (pending_of p) b) (fun _ => chat_inv W A) (chat_inv W A).
Proof.
  unfold quarantine. eapply hoare_bind.
  { apply (hoare_io _ _ (chat_inv W A)); [|done]. intros x x' I Ex. injection Ex as <-.
    destruct (c_visible x !! _); [done|]. apply inv_insert; [done| |done].
    eapply short_unowned; [done|]. cbn. lia. }
  intros ?. eapply hoare_bind; [apply hoare_still, quiet_pool_query|]. intros private.
  eapply hoare_bind; [apply hoare_still, quiet_guard|]. intros ?. eapply hoare_bind.
  { apply (hoare_io _ _ (chat_inv W A)); [|done]. intros x x' I Ex.
    destruct (c_visible x !! pending_of p); [|done]. injection Ex as <-.
    assert (chat_inv W A (on_visible (delete (pending_of p)) x)) as I' by
      (apply inv_delete; [done|]; intros n r Ha E; by apply eq_sym, final_not_pending in E).
    by destruct I'. }
  intros ?. apply hoare_io; [|done]. by intros x x' I [= <-].
Qed.

Lemma hoare_recover W A l : hoare (chat_inv W A) (recover_entries (J := J) uuid_ok l) (fun _ => chat_inv W A) (chat_inv W A).
Proof.
  induction l as [|[name f] l IH]; [by apply hoare_ret|]. cbn [recover_entries].
  destruct (has_suffix name ".pending") eqn:Es; [|exact IH]. cbn [negb].
  apply suffix_split in Es as [p ->]. fold (pending_of p).
  destruct f as [b0 y0| |]; try by apply hoare_fail.
  eapply hoare_bind; [apply hoare_read_body|]. intros b.
  assert (hoare (fun x => chat_inv W A x /\ exists y, c_visible x !! pending_of p = Some (CFile b y))
    (match validChatArchiveEnvelope uuid_ok b with
     | Ok _ => c_rename (pending_of p) (trim_suffix (pending_of p) ".pending" +:+ ".json")
     | Err _ => quarantine (pending_of p) b
     end) (fun _ => chat_inv W A) (chat_inv W A)) as Hone.
  { unfold pending_of at 3 4. rewrite trim_suffix_app. fold (pending_of p) (final_of p).
    destruct (validChatArchiveEnvelope uuid_ok b) as [rc|x] eqn:Eo.
    - intros e s [I [y Hy]]. by apply (hoare_recover_rename W A p b y rc Eo e s).
    - eapply hoare_weaken; [|apply hoare_quarantine]. by intros d [I _]. }
  eapply hoare_bind; [exact Hone|]. intros ?. eapply hoare_bind; [|intros ?; exact IH].
  apply hoare_io; [|done]. intros x x' I [= <-]. by apply inv_syncDir.
Qed.

Lemma hoare_New W A absolute dir_private : hoare (chat_inv W A)
  (NewChatArchiveSpool (J := J) uuid_ok key maxBytes absolute dir_private) (fun _ => chat_inv W A) (chat_inv W A).
Proof.
  unfold NewChatArchiveSpool. eapply hoare_bind; [apply hoare_still, quiet_guard|]. intros ?.
  eapply hoare_bind; [apply hoare_still, quiet_pool_query|]. intros ?.
  eapply hoare_bind; [apply hoare_still, quiet_guard|]. intros ?. eapply hoare_bind.
  { apply (hoare_io _ _ (chat_inv W A)); [|done]. intros x x' I Ex. injection Ex as <-.
    destruct (c_visible x !! ".writer.lock"%string) eqn:E.
    - assert (on_visible (fun m => match m !! ".writer.lock"%string with
        | Some _ => m | None => <[".writer.lock"%string := CFile EmptyString true]> m end) x = x) as ->;
        [unfold on_visible; rewrite E; by destruct x|done].
    - assert (on_visible (fun m => match m !! ".writer.lock"%string with
        | Some _ => m | None => <[".writer.lock"%string := CFile EmptyString true]> m end) x
        = on_visible (insert ".writer.lock"%string (CFile EmptyString true)) x) as -> by (unfold on_visible; by rewrite E).
      apply inv_insert; [done| |by intros b y rc [= <- <-]].
      eapply short_unowned; [done|]. cbn. lia. }
  intros ?. eapply hoare_bind; [apply hoare_still; by intros e s|]. intros sp.
  eapply hoare_bind; [apply hoare_still, quiet_guard|]. intros ?. eapply hoare_bind.
  { unfold recoverPending. eapply hoare_bind; [apply hoare_still, quiet_pool_query|]. intros l. apply hoare_recover. }
  intros ?. eapply hoare_bind; [apply hoare_still, quiet_pool_query|]. intros nz e s I. by apply inv_spool.
Qed.

(** ** Power losses *)

Lemma survives_body f b y rc : survives uuid_ok f (CFile b y) -> opens b rc -> exists y', f = CFile b y'.
Proof. intros Hs Ho. inversion Hs; subst; eauto. congruence. Qed.

Lemma inv_power_loss W A x y : power_loss uuid_ok x y -> chat_inv W A x -> chat_inv W A y.
Proof.
  intros (Ej & Es & Ed & Hn) [I1 I2 I3 I4 I5 I6]. split; rewrite ?Ej, ?Ed; try done.
  1,2: intros name b z rc Hl Ho; destruct (Hn name) as [Hs|Hs]; rewrite Hl in Hs; cbn in Hs;
    [destruct (c_durable x !! name) as [f|] eqn:E|destruct (c_visible x !! name) as [f|] eqn:E]; try done;
    destruct (survives_body _ _ _ _ Hs Ho) as [y' ->]; [by eapply I5|by eapply I4].
  intros n r Ha. destruct (I6 _ _ Ha) as (HW & [V1 V2] & [D1 D2] & Hk).
  assert (file_intact (c_visible y) n r) as Hi.
  { split.
    - destruct (c_visible y !! pending_of n) eqn:E; [|done].
      destruct (Hn (pending_of n)) as [Hs|Hs]; rewrite ?D1, ?V1, E in Hs; done.
    - intros f Hf. destruct (Hn (final_of n)) as [Hs|Hs]; rewrite Hf in Hs; cbn in Hs.
      + destruct (c_durable x !! final_of n) eqn:E; [|done]. rewrite (D2 _ eq_refl) in Hs. by inversion Hs.
      + destruct (c_visible x !! final_of n) eqn:E; [|done]. rewrite (V2 _ eq_refl) in Hs. by inversion Hs. }
  split; [done|]. split; [done|]. split; [done|]. intros Hg. apply Hk.
  assert (gone (c_visible y) n) as Hg' by by destruct Hg. unfold gone in *.
  destruct (Hn (final_of n)) as [Hs|Hs]; rewrite Hg' in Hs.
  - right. by destruct (c_durable x !! final_of n).
  - left. by destruct (c_visible x !! final_of n).
Qed.
End Inv.
