(* ===== verification/ChatSpoolProps.v ===== *)
(** From the worker's spool to the archive: what the archive keeps of the chats
    it was handed, assigned to a broadcast or still waiting for one, and that
    a chat the spool accepted gets there, whatever is saved, drained, killed
    and lost in between and whatever exporters and the reconciliation do. *)
From S2P Require Import Prelude GoLib Sha256 Json GoText JsonText.
From S2P Require Import JsonRound Segment Tx Model Message.
From S2P Require Import Db Ownership Archive ArchiveInv ArchiveProps ChatSpool.
From S2P Require Import ChatSpoolInv.

(** The chat's event is recorded under a session of its channel. *)
Definition logged (d : archive) (r : ArchiveChatRecord) : Prop :=
  exists id a p, sessions d !! id = Some a /\ as_platform a = ar_Platform r /\ as_channel a = ar_ChannelID r /\
    event_ids d !! (id, ar_EventID r) = Some p.
(** It waits, without a broadcast. *)
Definition waiting (d : archive) (r : ArchiveChatRecord) : Prop :=
  exists u, unassigned d !! ar_SpoolID r = Some u /\ un_record u = r.
Definition kept (d : archive) (r : ArchiveChatRecord) : Prop := logged d r \/ waiting d r.

(** No other chat waits under its spool id. *)
Definition clean (d : archive) (r : ArchiveChatRecord) : Prop :=
  forall u, unassigned d !! ar_SpoolID r = Some u -> un_record u = r.
Definition keyed (d : archive) : Prop := forall k u, unassigned d !! k = Some u -> k = ar_SpoolID (un_record u).

(** Sessions and events stay, a chat stops waiting when it is recorded, and
    only chats of [N] start to wait. *)
Record retains (N : ArchiveChatRecord -> Prop) (d d' : archive) : Prop := {
  rt_sessions : forall id a, sessions d !! id = Some a -> exists a', sessions d' !! id = Some a' /\
    as_platform a' = as_platform a /\ as_channel a' = as_channel a;
  rt_events : event_ids d ⊆ event_ids d';
  rt_waiting : forall k u, unassigned d !! k = Some u ->
    (exists u', unassigned d' !! k = Some u' /\ un_record u' = un_record u) \/
    (exists r, N r /\ k = ar_SpoolID r /\ logged d' r);
  rt_new : forall k u, unassigned d' !! k = Some u ->
    (exists u', unassigned d !! k = Some u' /\ un_record u' = un_record u) \/
    (N (un_record u) /\ k = ar_SpoolID (un_record u))
}.

Lemma logged_retains N d d' r : retains N d d' -> logged d r -> logged d' r.
Proof.
  intros [S E _ _] (id & a & p & Ha & Hp & Hc & Hv). destruct (S _ _ Ha) as (a' & Ha' & Hp' & Hc').
  exists id, a', p. split; [done|]. split; [congruence|]. split; [congruence|]. by eapply lookup_weaken.
Qed.

Lemma retains_refl N d d' : sessions d' = sessions d -> event_ids d' = event_ids d -> unassigned d' = unassigned d ->
  retains N d d'.
Proof. intros E1 E2 E3. split; rewrite ?E1, ?E2, ?E3; eauto. Qed.

Lemma retains_more (N N' : ArchiveChatRecord -> Prop) d d' : (forall r, N r -> N' r) -> retains N d d' -> retains N' d d'.
Proof.
  intros HN [S E W X]. split; [done|done| |].
  - intros k u Hu. destruct (W _ _ Hu) as [?|(r & ? & ?)]; eauto.
  - intros k u Hu. destruct (X _ _ Hu) as [?|[? ?]]; auto.
Qed.

Lemma retains_trans N d1 d2 d3 : retains N d1 d2 -> retains N d2 d3 -> retains N d1 d3.
Proof.
  intros R1 R2. pose proof R1 as [S1 E1 W1 X1]. pose proof R2 as [S2 E2 W2 X2]. split.
  - intros id a Ha. destruct (S1 _ _ Ha) as (a' & Ha' & ? & ?). destruct (S2 _ _ Ha') as (a'' & ? & ? & ?).
    exists a''. split_and!; congruence.
  - by etrans.
  - intros k u Hu. destruct (W1 _ _ Hu) as [(u' & Hu' & E)|(r & Hn & -> & Hl)].
    + destruct (W2 _ _ Hu') as [(u'' & Hu'' & E')|?]; [left; exists u''; split; congruence|by right].
    + right. exists r. split; [done|]. split; [done|]. by eapply logged_retains.
  - intros k u Hu. destruct (X2 _ _ Hu) as [(u' & Hu' & E)|[Hn ->]]; [|by right].
    destruct (X1 _ _ Hu') as [(u'' & Hu'' & E')|[Hn Hk]]; [left; exists u''; split; congruence|].
    right. by rewrite <- E.
Qed.

(** Chats outside the steps' own, each under its own spool id. *)
Lemma retains_clean N d d' r : retains N d d' -> (forall r', N r' -> ar_SpoolID r' = ar_SpoolID r -> r' = r) ->
  clean d r -> clean d' r /\ (kept d r -> kept d' r).
Proof.
  intros R HN Hc. pose proof R as [S E W X]. split.
  - intros u Hu. destruct (X _ _ Hu) as [(u' & Hu' & <-)|[Hn Hk]]; [by apply Hc|by apply HN].
  - intros [Hl|(u & Hu & Eu)]; [left; by eapply logged_retains|].
    destruct (W _ _ Hu) as [(u' & Hu' & E')|(r' & Hn & Hk & Hl)]; [right; exists u'; split; congruence|].
    left. by rewrite <- (HN r').
Qed.

Lemma retains_keyed N d d' : retains N d d' -> keyed d -> keyed d'.
Proof.
  intros [_ _ _ X] K k u Hu. destruct (X _ _ Hu) as [(u' & Hu' & <-)|[_ Hk]]; [by apply K|done].
Qed.

Section Steps.
Context (uuid_ok : string -> bool) (gzip : string -> string) (gunzip : string -> option (string * bool)).
Context (collectionChannel : option string) (channel bucketName : string).

Lemma insert_session_kept id p c t q d u d' : insert_session id p c t q d = Ok (u, d') ->
  retains (fun _ => False) d d'.
Proof.
  unfold insert_session. intros E. destruct (session_of _ _ _ _ _); [injection E as _ <-; by apply retains_refl|].
  destruct (sessions d !! id) eqn:Es; [done|]. injection E as _ <-. split; cbn; eauto.
  intros i a Ha. rewrite lookup_insert_ne by congruence. eauto.
Qed.

(** The chat is recorded and stops waiting. *)
Lemma recorded_retains r d d' : (forall id a, sessions d !! id = Some a -> exists a', sessions d' !! id = Some a' /\
    as_platform a' = as_platform a /\ as_channel a' = as_channel a) -> event_ids d ⊆ event_ids d' ->
  unassigned d' = delete (ar_SpoolID r) (unassigned d) -> logged d' r -> retains (eq r) d d'.
Proof.
  intros HS HE HU HL. split; [done|done| |]; rewrite HU.
  - intros k u Hu. destruct (decide (k = ar_SpoolID r)) as [->|Hne]; [right; by exists r|].
    left. rewrite lookup_delete_ne by done. eauto.
  - intros k u [_ Hu]%lookup_delete_Some. eauto.
Qed.

Lemma waits_retains r reason now d u d' : insert_unassigned r reason now d = Ok (u, d') ->
  retains (eq r) d d' /\ (clean d r -> waiting d' r).
Proof.
  unfold insert_unassigned. destruct (_ || _); [done|]. intros [= _ <-].
  destruct (unassigned d !! ar_SpoolID r) as [u0|] eqn:Eu.
  - split; [by apply retains_refl|]. intros Hc. exists u0. split; [done|by apply Hc].
  - split; [|intros _; eexists; split; [apply lookup_insert_eq|done]]. split; cbn; eauto.
    + intros k x Hx. left. rewrite lookup_insert_ne by congruence. eauto.
    + intros k x [[<- <-]|[_ Hx]]%lookup_insert_Some; eauto.
Qed.

Lemma recording_kept s t (m : gmap string session_row) id a : m !! id = Some a ->
  exists a', alter (fun s => SessionRow (as_platform s) (as_channel s) (as_started_at s) (as_seq s)
      (Some (Z.min (default t (as_recording_started_at s)) t))) s m !! id = Some a' /\
    as_platform a' = as_platform a /\ as_channel a' = as_channel a.
Proof. intros Ha. rewrite lookup_alter. case_decide; subst; rewrite ?Ha; cbn; eauto. Qed.

(** The worker's transaction, and what it answers. *)
Lemma append_kept r e w b w' : AppendArchiveChat uuid_ok collectionChannel r e w = (Ok b, w') ->
  retains (eq r) (db w) (db w') /\ (clean (db w) r -> kept (db w') r).
Proof.
  destruct w as [d wk0 k0]. intros E.
  pose proof E as E0. unfold AppendArchiveChat, position_lock in E. inv_run E.
  match type of E with match ?l with _ => _ end _ _ = _ => destruct l as [|[[[st p] c] seq] [|]] end; inv_run E.
  1,3: match goal with H : insert_unassigned _ _ _ _ = Ok _ |- _ => apply waits_retains in H as [Hr Hw] end;
       (split; [exact Hr|]; intros Hc; right; by apply Hw).
  match goal with H : insert_session _ _ _ _ _ d = Ok _ |- _ =>
    apply insert_session_kept, (retains_more _ (eq r)) in H; [|done]; rename H into R1 end.
  match goal with H : insert_event _ _ _ = Ok _ |- _ => unfold insert_event in H; destruct (negb _ || _) eqn:Ep; [done|];
    destruct (event_ids _ !! _) as [q|] eqn:Ev; injection H as <- <- end; inv_run E.
  all: assert (logged _ r) as HL by exact (append_true _ _ _ _ _ _ E0); cbn [db] in HL.
  - split; [|intros _; by left]. eapply retains_trans; [exact R1|]. apply recorded_retains; cbn; eauto.
  - match goal with H : insert_hot _ _ _ _ = Ok _ |- _ =>
      unfold insert_hot in H; destruct (negb (forallb _ _)) eqn:Et; [done|]; injection H as <- <- end.
    split; [|intros _; by left]. eapply retains_trans; [exact R1|]. apply recorded_retains; [|by apply insert_subseteq|done|exact HL].
    intros i y Hy. cbn. by apply recording_kept.
Qed.

Lemma append_retains r e w res w' : AppendArchiveChat uuid_ok collectionChannel r e w = (res, w') ->
  retains (eq r) (db w) (db w') /\ (is_ok res = true -> clean (db w) r -> kept (db w') r).
Proof.
  intros E. split; [|destruct res; [intros _; by eapply append_kept|done]].
  assert (atomic (AppendArchiveChat uuid_ok collectionChannel r)) as Ha
    by (unfold AppendArchiveChat, position_lock; frame_solve).
  apply (atomic_after _ _ _ _ _ Ha) in E as [->|(e' & b & s1 & _ & _ & _ & E & -> & _)];
    [by apply retains_refl|]. by apply append_kept in E as [? _].
Qed.

(** Reconciliation appends chats that wait. *)
Lemma retry_retains N spool now d : retains N d (retry_later spool now d).
Proof.
  split; cbn; eauto.
  - intros k u Hu. left. rewrite lookup_alter. case_decide; subst; rewrite ?Hu; cbn; eauto.
  - intros k u. rewrite lookup_alter. case_decide as Ek; subst; [|eauto].
    destruct (unassigned d !! k) as [u0|]; [|done]. intros [= <-]. left. by exists u0.
Qed.

Lemma reconcile_retains (N : ArchiveChatRecord -> Prop) e l : Forall N l -> forall n s,
  retains N (db s) (db (reconcile_records uuid_ok collectionChannel l n e s).2).
Proof.
  induction 1 as [|r l Hr Hl IH]; intros n s; [by apply retains_refl|]. cbn [reconcile_records].
  unfold mbind at 1, M_bind at 1, try at 1.
  destruct (AppendArchiveChat _ _ _ _ _) as [res s1] eqn:E. apply append_retains in E as [R _].
  assert (retains N (db s) (db s1)) as R1 by (eapply retains_more; [|exact R]; by intros r' <-).
  destruct res as [[|]|x]; cbn [snd]; [by eapply retains_trans; [|apply IH]| |done].
  unfold mbind at 1, M_bind at 1, try at 1. destruct (pool_exec _ e s1) as [r2 s2] eqn:E2.
  assert (retains N (db s1) (db s2)) as R2.
  { apply pool_exec_after in E2 as [_ [[-> _]|(a & d & [= _ <-] & -> & _)]];
      [by apply retains_refl|apply retry_retains]. }
  destruct r2 as [u|x]; cbn; (eapply retains_trans; [exact R1|]); [|exact R2].
  eapply retains_trans; [exact R2|apply IH].
Qed.

Definition waits_in (d : archive) (r : ArchiveChatRecord) : Prop := exists k u, unassigned d !! k = Some u /\ un_record u = r.

Lemma due_wait c limit now d : Forall (waits_in d) (due_records c limit now d).
Proof.
  unfold due_records. apply Forall_forall. intros r Hr.
  apply list_elem_of_fmap in Hr as ([k u] & -> & Hr). apply elem_of_take in Hr as (j & Hr & _).
  apply list_elem_of_lookup_2 in Hr. rewrite merge_sort_Permutation in Hr.
  apply list_elem_of_In, filter_In in Hr as [Hr _].
  apply list_elem_of_In, elem_of_map_to_list in Hr. by exists k, u.
Qed.

Lemma reconcile_all limit e w :
  retains (waits_in (db w)) (db w) (db (ReconcileUnassignedArchiveChats uuid_ok collectionChannel limit e w).2).
Proof.
  unfold ReconcileUnassignedArchiveChats. destruct collectionChannel as [c|] eqn:Ec; [|by apply retains_refl].
  rewrite <- Ec. clear Ec. unfold mbind at 1, M_bind at 1, guard_ok. destruct (negb _); [|by apply retains_refl].
  unfold mret at 1, M_ret at 1, mbind at 1, M_bind at 1, pool_query.
  destruct (driver_fails e (tick w)); [by apply retains_refl|]. cbn [fst snd].
  unfold mbind at 1, M_bind at 1.
  pose proof (reconcile_retains _ e _ (due_wait c limit (clock e (tick w)) (db w)) 0 (bump w)) as Hr.
  by destruct (reconcile_records _ _ _ _ _ _) as [[?|] s'].
Qed.

(** ** Exporters *)

Definition same_chats (d d' : archive) : Prop :=
  sessions d' = sessions d /\ event_ids d' = event_ids d /\ unassigned d' = unassigned d.
Lemma same_retains N d d' : same_chats d d' -> retains N d d'.
Proof. intros (? & ? & ?). by apply retains_refl. Qed.
Lemma same_trans d1 d2 d3 : same_chats d1 d2 -> same_chats d2 d3 -> same_chats d1 d3.
Proof. intros (? & ? & ?) (? & ? & ?). split_and!; congruence. Qed.

Lemma commit_done v e w u w' : CommitSegment uuid_ok gunzip channel v e w = (Ok u, w') -> same_chats (db w) (db w').
Proof.
  destruct w as [d wk0 k0]. intros E. unfold CommitSegment, position_lock in E. inv_run E.
  match type of E with match ?l with _ => _ end _ _ = _ => destruct l as [y|] end.
  - destruct (same_segment v y); inv_run E; done.
  - inv_run E. unfold insert_segment, delete_hot in *. by simplify_eq/=.
Qed.

Lemma commit_same v e w : same_chats (db w) (db (CommitSegment uuid_ok gunzip channel v e w).2).
Proof.
  destruct (CommitSegment _ _ _ _ _ _) as [res w'] eqn:E; cbn.
  assert (atomic (CommitSegment uuid_ok gunzip channel v)) as Ha
    by (unfold CommitSegment, position_lock; frame_solve).
  apply (atomic_after _ _ _ _ _ Ha) in E as [->|(e' & b & s1 & _ & _ & _ & E & -> & _)]; [done|].
  by eapply commit_done.
Qed.

Lemma export_same rows e w : same_chats (db w) (db (export_rows uuid_ok gzip bucketName rows e w).2).
Proof.
  destruct (export_rows _ _ _ _ _ _) as [res w'] eqn:E. cbn.
  by destruct (export_run _ _ _ _ _ _ _ _ E) as [->|(s & _ & ->)].
Qed.

Lemma run_once_same age e w : same_chats (db w) (db (RunOnce uuid_ok gzip gunzip channel bucketName age e w).2).
Proof.
  unfold RunOnce. unfold mbind at 1, M_bind at 1, time_now at 1. cbn beta zeta.
  change (db w) with (db (bump w)). generalize (bump w). intros w1. unfold mbind at 1, M_bind at 1.
  pose proof (NextBatch_quiet channel (wall e (tick w) - age) MaxSegmentRows e w1) as Hq.
  destruct (NextBatch _ _ _ _ _) as [[rows|x] w2]; cbn [snd] in *; [|by rewrite Hq]. rewrite <- Hq.
  destruct rows as [|f rest]; [done|]. unfold mbind at 1, M_bind at 1.
  pose proof (export_same (f :: rest) e w2) as He. destruct (export_rows _ _ _ _ _ _) as [[v|x] w3]; [|done].
  cbn [snd] in He. unfold mbind at 1, M_bind at 1. pose proof (commit_same v e w3) as Hc.
  eapply same_trans; [exact He|]. by destruct (CommitSegment _ _ _ _ _ _) as [[?|?] w4].
Qed.

(** ** Every step *)

Definition appends (a : action) (r : ArchiveChatRecord) : Prop := a = AAppend r.

Lemma act_retains a e n x : (forall r, ~ appends a r) ->
  retains (waits_in (arch x)) (arch x) (arch (act uuid_ok gzip gunzip collectionChannel channel bucketName a e n x)).
Proof.
  intros Ha. destruct a as [r|limit|p c t|b|cutoff limit|rows|v|age|k [body|]]; cbn [act].
  - by destruct (Ha r).
  - exact (reconcile_all limit e (start (arch x) n)).
  - apply same_retains. cbn. unfold RecordArchiveSpoolFailure, mbind, M_bind, guard_ok, pool_exec.
    destruct (negb _ && _); [|done]. cbn. by repeat case_match.
  - by apply retains_refl.
  - apply same_retains. pose proof (NextBatch_quiet channel cutoff limit e (start (arch x) n)) as Hq.
    destruct (NextBatch _ _ _ _ _) as [[rows|y] w']; cbn in *; by rewrite Hq.
  - apply same_retains. pose proof (export_same rows e (start (arch x) n)) as Hs.
    by destruct (export_rows _ _ _ _ _ _) as [[v|y] w'].
  - apply same_retains. exact (commit_same v e (start (arch x) n)).
  - apply same_retains. exact (run_once_same age e (start (arch x) n)).
  - by apply retains_refl.
  - by apply retains_refl.
Qed.
End Steps.

(** ** Runs of the spool over any archive *)

Section Runs.
Context {J : Type} `{ArchiveLaws J}.
Context (uuid_ok : string -> bool) (key : string) (maxBytes : Z).

Notation table := (list (string * ArchiveChatRecord)).
Definition at_tick (x : cdisk J) (k : nat) : world (cdisk J) := World x x k.

(** The name and the record of the file of a chat saved with this id. *)
Definition saved_as (id : string) (m : ChatMessage) (t : Z) : string * ArchiveChatRecord :=
  (chat_name t id, archive_record key id m t).
Definition is_chat (m : ChatMessage) : bool := bool_decide (m_Type m = MessageTypeChat).

(** [A]: the chats accepted; [D]: the ids drawn, each of them new; [L]: the
    file a drain has handed over and will remove. A drain works one file at a
    time, anything may happen between its sections. *)
Inductive spool_run : cdisk J -> table -> list string -> option (string * string) -> Prop :=
| run_start j : ainv j -> spool_run (CDisk ∅ ∅ ∅ j closed_spool) [] [] None
| run_open x A D absolute dir_private e k res s' : spool_run x A D None ->
    NewChatArchiveSpool uuid_ok key maxBytes absolute dir_private e (at_tick x k) = (res, s') ->
    spool_run (db s') A D None
| run_save x A D L m t e k res s' : spool_run x A D L -> good_env e ->
    fresh e k ∉ D -> aunused (c_jr x) (fresh e k) ->
    Save uuid_ok key maxBytes m t e (at_tick x k) = (res, s') ->
    spool_run (db s') (if is_ok res && is_chat m then saved_as (fresh e k) m t :: A else A) (fresh e k :: D) L
| run_load x A D ctx name e k res s' : spool_run x A D None -> good_env e ->
    drain_load uuid_ok ctx name e (at_tick x k) = (res, s') ->
    spool_run (db s') A D (match res with Ok body => Some (name, body) | Err _ => None end)
| run_unlink x A D name body e k res s' : spool_run x A D (Some (name, body)) ->
    drain_unlink name body e (at_tick x k) = (res, s') -> spool_run (db s') A D None
| run_close x A D e k res s' : spool_run x A D None -> Close e (at_tick x k) = (res, s') -> spool_run (db s') A D None
| run_kill x A D L : spool_run x A D L -> spool_run (killed x) A D None
| run_power_loss x y A D L : spool_run x A D L -> power_loss uuid_ok x y -> spool_run y A D None
| run_archive x A D L j : spool_run x A D L -> aother (c_jr x) j -> spool_run (with_journal j x) A D L
| run_append x A D L r e k res w : spool_run x A D L -> good_env e -> record_typed r = true ->
    ar_SpoolID r ∉ D ->   (* another spool's chat *)
    archive_append r e (World (c_jr x) (c_jr x) k) = (res, w) -> spool_run (with_journal (db w) x) A D L.

Definition holds_run (x : cdisk J) (A : table) (D : list string) (L : option (string * string)) : Prop :=
  exists W, chat_inv uuid_ok W A x /\ (forall n r, (n, r) ∈ W -> ar_SpoolID r ∈ D) /\
    forall name body, L = Some (name, body) -> loaded W name x.

Lemma hoare_run {X} (I : cdisk J -> Prop) (m : M (cdisk J) X) e x k res s' :
  hoare I m (fun _ => I) I -> I x -> m e (at_tick x k) = (res, s') -> I (db s').
Proof. intros Hm Hx E. specialize (Hm e (at_tick x k) Hx). rewrite E in Hm. by destruct res. Qed.

Lemma loaded_keeps W W' name x y : loaded W name x -> (forall p, p ∈ W -> p ∈ W') ->
  (forall n r, (n, r) ∈ W -> akept (c_jr x) (coerced r) -> akept (c_jr y) (coerced r)) -> loaded W' name y.
Proof. intros (n & r & Hin & Hn & Hk) HW Hj. exists n, r. split; [by apply HW|]. split; [done|]. by eapply Hj. Qed.

Lemma spool_run_holds x A D L : spool_run x A D L -> holds_run x A D L.
Proof.
  induction 1 as [j Hj|x A D ab pr e k res s' _ (W & I & HD & HL) E|x A D L m t e k res s' _ (W & I & HD & HL) He Hf Hu E
    |x A D ctx name e k res s' _ (W & I & HD & HL) He E|x A D name body e k res s' _ (W & I & HD & HL) E
    |x A D e k res s' _ (W & I & HD & HL) E|x A D L _ (W & I & HD & HL)|x y A D L _ (W & I & HD & HL) Hp
    |x A D L j _ (W & I & HD & HL) Ho|x A D L r e k res w _ (W & I & HD & HL) He Ht Hf E].
  - exists []. split; [|split; [by intros ? ? ?%elem_of_nil|done]].
    split; cbn; [done|by intros ? ? ?%elem_of_nil|by intros ? ? ? ? ?%elem_of_nil|done|done|by intros ? ? ?%elem_of_nil].
  - exists W. split; [|done]. exact (hoare_run _ _ _ _ _ _ _ (hoare_New uuid_ok key maxBytes W A ab pr) I E).
  - assert (forall n r, (n, r) ∈ W -> ar_SpoolID r <> fresh e k) as Hn by (intros n r Hin Er; apply Hf; rewrite <- Er; by apply (HD n)).
    destruct (Save_run uuid_ok key maxBytes W A e (at_tick x k) m t res s' He I Hu Hn E) as (W' & I' & HW & Hj).
    exists W'. split; [exact I'|]. split.
    + intros n r Hin. destruct HW as [-> | ->]; [right; by apply (HD n)|].
      apply elem_of_cons in Hin as [[= -> ->]|Hin]; [by left|right; by apply (HD n)].
    + intros name body EL. eapply loaded_keeps; [by eapply HL| |].
      * intros p Hp. destruct HW as [-> | ->]; [done|by right].
      * intros n r _. by rewrite Hj.
  - destruct (drain_load_run uuid_ok W A ctx name e (at_tick x k) res s' He I E) as [I' Hl].
    exists W. split; [exact I'|]. split; [done|]. intros name' body EL.
    destruct res as [b|]; [|done]. injection EL as <- _. by apply Hl.
  - exists W. split; [|done].
    pose proof (hoare_unlink uuid_ok W A name body e (at_tick x k) (conj I (HL _ _ eq_refl))) as Hr.
    rewrite E in Hr. by destruct res.
  - exists W. split; [|done]. injection E as _ <-. by apply inv_spool.
  - exists W. split; [by apply inv_spool|done].
  - exists W. split; [by eapply inv_power_loss|done].
  - assert (forall n r, (n, r) ∈ W -> aclean (c_jr x) (coerced r) ->
      aclean j (coerced r) /\ (akept (c_jr x) (coerced r) -> akept j (coerced r))) as Hk.
    { intros n r Hin Hc. eapply other_clean; [done| |done]. apply (ci_jr _ _ _ _ I). }
    exists W. split; [|split; [done|]].
    + apply inv_journal; [done| |exact Hk]. eapply other_invariant; [done|]. apply (ci_jr _ _ _ _ I).
    + intros name body EL. eapply loaded_keeps; [by eapply HL|done|]. intros n r Hin.
      exact (proj2 (Hk n r Hin (proj2 (ci_saved _ _ _ _ I _ _ Hin)))).
  - assert (forall n r', (n, r') ∈ W -> aclean (c_jr x) (coerced r') ->
      aclean (db w) (coerced r') /\ (akept (c_jr x) (coerced r') -> akept (db w) (coerced r'))) as Hk.
    { intros n r' Hin Hc. destruct (ci_saved _ _ _ _ I _ _ Hin) as [Hs _].
      eapply (append_clean r _ e (World (c_jr x) (c_jr x) k)); [done|done|apply (ci_jr _ _ _ _ I)|exact E| |exact Hc].
      rewrite (coerced_id n) by done. intros Eid. destruct Hf. rewrite Eid. by apply (HD n). }
    exists W. split; [|split; [done|]].
    + apply inv_journal; [done| |exact Hk].
      eapply (append_invariant r e (World (c_jr x) (c_jr x) k)); [done|done|apply (ci_jr _ _ _ _ I)|exact E].
    + intros name body EL. eapply loaded_keeps; [by eapply HL|done|]. intros n r' Hin.
      exact (proj2 (Hk n r' Hin (proj2 (ci_saved _ _ _ _ I _ _ Hin)))).
Qed.

(** ** A drain that reports success *)

Lemma list_entries_names l : forall names size names' size', list_entries l names size = Ok (names', size') ->
  forall nm, nm ∈ names \/ (exists f, (nm, f) ∈ l) -> nm <> ".writer.lock"%string -> nm <> "quarantine"%string -> nm ∈ names'.
Proof.
  induction l as [|[n f] l IH]; intros names size names' size' E nm Hin H1 H2; cbn [list_entries] in E.
  { injection E as <- <-. destruct Hin as [?|[f Hf]]; [done|by apply elem_of_nil in Hf]. }
  destruct (String.eqb n ".writer.lock" || String.eqb n "quarantine") eqn:En.
  - eapply IH; [exact E| |done|done]. destruct Hin as [?|[g [[= -> ->]|Hg]%elem_of_cons]]; [by left| |right; by exists g].
    apply orb_true_iff in En as [En|En]; apply String.eqb_eq in En; congruence.
  - destruct f as [b y| |]; try done. destruct (negb _); [done|].
    eapply IH; [exact E| |done|done]. rewrite elem_of_app, list_elem_of_singleton.
    destruct Hin as [?|[g [[= -> ->]|Hg]%elem_of_cons]]; [by left; left|by left; right|right; by exists g].
Qed.

Lemma list_files_names (x : cdisk J) names size : list_files x = Ok (names, size) ->
  forall nm f, c_visible x !! nm = Some f -> nm <> ".writer.lock"%string -> nm <> "quarantine"%string -> nm ∈ names.
Proof.
  unfold list_files. intros E nm f Hf H1 H2. apply result_bind_ok in E as ([ns sz] & El & [= <- <-]). cbn.
  rewrite merge_sort_Permutation. eapply list_entries_names; [exact El| |done|done]. right. exists f.
  unfold entries. rewrite merge_sort_Permutation. by apply elem_of_map_to_list.
Qed.

Lemma drain_load_visible ctx name e (s : world (cdisk J)) body s' : drain_load uuid_ok ctx name e s = (Ok body, s') ->
  c_visible (db s') = c_visible (db s).
Proof.
  unfold drain_load. intros (u & s1 & H1 & E)%bind_ok.
  assert (s1 = s) as -> by (unfold c_ctx_err in H1; destruct (ctx _); [done|by injection H1]).
  apply bind_ok in E as (b & s1 & H2 & E). apply pool_query_ok in H2 as (_ & _ & ->).
  apply bind_ok in E as (rc & s1 & H3 & E). apply lift_ok in H3 as [_ <-].
  apply bind_ok in E as (ok & s1 & H4 & E). apply ret_ok in E as [_ <-].
  unfold c_append in H4. destruct (archive_append _ _ _) as [r w]. by injection H4 as _ <-.
Qed.

Lemma breaking_ok (m : M (cdisk J) unit) e s u s' : breaking m e s = (Ok u, s') -> m e s = (Ok tt, s').
Proof.
  unfold breaking. intros (r & s1 & H1 & E)%bind_ok. apply (proj1 (try_ok _ _ _ _ _)) in H1. destruct r as [[]|x]; [|done].
  apply ret_ok in E as [_ <-]. done.
Qed.

Lemma drain_unlink_visible name body e (s : world (cdisk J)) u s' : drain_unlink name body e s = (Ok u, s') ->
  c_visible (db s') = delete name (c_visible (db s)).
Proof.
  unfold drain_unlink. intros (u1 & s1 & H1 & E)%bind_ok. apply breaking_ok, sys_exec_ok in H1 as (_ & d1 & H1 & ->).
  apply bind_ok in E as (u2 & s2 & H2 & E). apply breaking_ok, sys_exec_ok in H2 as (_ & d2 & H2 & ->).
  injection E as _ <-. cbn in H2. injection H2 as <-. destruct (c_visible (db s) !! name); [|done].
  cbn in H1. by injection H1 as <-.
Qed.

(** Each section keeps the invariant, and a file it removed is gone. *)
Lemma drain_files_run W A ctx e l : good_env e -> forall s res s', chat_inv uuid_ok W A (db s) ->
  drain_files uuid_ok ctx l e s = (res, s') ->
  chat_inv uuid_ok W A (db s') /\
  (res = Ok tt -> forall nm f, c_visible (db s') !! nm = Some f -> c_visible (db s) !! nm = Some f /\ nm ∉ l).
Proof.
  intros He. induction l as [|name l IH]; intros s res s' I E; cbn [drain_files] in E.
  { injection E as <- <-. split; [done|]. intros _ nm f Hf. split; [done|apply not_elem_of_nil]. }
  apply bind_inv in E as [(body & s1 & H1 & E)|(x & H1 & ->)];
    destruct (drain_load_run _ _ _ _ _ _ _ _ _ He I H1) as [I1 Hl]; [|done].
  assert (c_visible (db s1) = c_visible (db s)) as V1 by (by eapply drain_load_visible).
  apply bind_inv in E as [(u & s2 & H2 & E)|(x & H2 & ->)];
    pose proof (hoare_unlink uuid_ok W A name body e s1 (conj I1 (Hl eq_refl))) as Hu; rewrite H2 in Hu; [|done].
  destruct (IH _ _ _ Hu E) as [I2 Hf]. split; [done|]. intros Hr nm f Hl'. destruct (Hf Hr _ _ Hl') as [Hv Hni].
  rewrite (drain_unlink_visible _ _ _ _ _ _ H2) in Hv.
  rewrite V1 in Hv. apply lookup_delete_Some in Hv as [Hne Hv]. split; [done|].
  intros [->|?]%elem_of_cons; done.
Qed.

Lemma Drain_empties W A ctx e s s' : good_env e -> chat_inv uuid_ok W A (db s) -> Drain uuid_ok ctx e s = (Ok tt, s') ->
  chat_inv uuid_ok W A (db s') /\
  forall nm, nm <> ".writer.lock"%string -> nm <> "quarantine"%string -> c_visible (db s') !! nm = None.
Proof.
  intros He I E. unfold Drain in E. apply bind_ok in E as (l & s1 & H1 & E).
  assert (exists size, list_files (db s) = Ok (l, size) /\ db s1 = db s) as (size & Hl & Es).
  { unfold drain_list, spool_get, c_list in H1.
    apply bind_ok in H1 as (c & s2 & [= <- <-] & H1). inv_run H1. destruct a0 as [ns sz]. by exists sz. }
  rewrite <- Es in I. destruct (drain_files_run W A ctx e l He s1 _ s' I E) as [I' Hf]. split; [done|].
  intros nm H2 H3. destruct (c_visible (db s') !! nm) as [f|] eqn:Ev; [|done].
  destruct (Hf eq_refl _ _ Ev) as [Hv Hn]. rewrite Es in Hv. destruct Hn. by eapply list_files_names.
Qed.
End Runs.

(** ** The archive of the repository *)

Section Archived.
Context (uuid_ok : string -> bool) (gzip : string -> string) (gunzip : string -> option (string * bool)).
Context (collectionChannel : option string) (channel bucketName : string).

Notation step := (act uuid_ok gzip gunzip collectionChannel channel bucketName).
Notation arch_inv := (ArchiveInv.inv uuid_ok gzip bucketName).

(** [AppendArchiveChat] on the archive with its log. *)
#[export] Instance sys_journal : ChatArchiveJournal sys := fun r =>
  zoom arch (fun d x => move x d) (AppendArchiveChat uuid_ok collectionChannel r).

Lemma sys_append r e s res s' : archive_append r e s = (res, s') ->
  exists w, AppendArchiveChat uuid_ok collectionChannel r e (start (arch (db s)) (tick s)) = (res, w) /\
    db s' = move (db s) (db w).
Proof. intros E. unfold archive_append, sys_journal in E. apply zoom_run in E as (w & E & _ & Hd). by exists w. Qed.

(** What else happens: every step of the archive but the worker's append. *)
Definition other_step (x y : sys) : Prop := exists a e n,
  good_env e /\ allowed a x /\ (forall r, ~ appends a r) /\ y = step a e n x.

#[export] Program Instance sys_laws : ArchiveLaws sys := {
  ainv x := arch_inv x /\ keyed (arch x);
  akept x r := kept (arch x) r;
  aclean x r := clean (arch x) r;
  aunused x id := unassigned (arch x) !! id = None;
  aother := other_step
}.
Next Obligation. intros j r Hu u Hl. cbn in Hu. by rewrite Hu in Hl. Qed.
Next Obligation.
  intros r e s res s' He Ht [Hi Hk] E. apply sys_append in E as (w & E & ->). split.
  - assert (move (db s) (db w) = step (AAppend r) e (tick s) (db s)) as -> by (cbn; by rewrite E).
    exact (proj1 (act_later _ _ _ _ _ _ (AAppend r) e (tick s) (db s) He Ht Hi)).
  - eapply retains_keyed; [exact (proj1 (append_retains _ _ _ _ _ _ _ E))|done].
Qed.
Next Obligation.
  intros r r' e s res s' He Ht [Hi Hk] E Hid Hc. apply sys_append in E as (w & E & ->).
  eapply retains_clean; [exact (proj1 (append_retains _ _ _ _ _ _ _ E))| |exact Hc].
  intros r2 <- E2. by apply Hid.
Qed.
Next Obligation.
  intros r e s b s' He Ht [Hi Hk] Hc E. apply sys_append in E as (w & E & ->).
  exact (proj2 (append_retains _ _ _ _ _ _ _ E) eq_refl Hc).
Qed.
Next Obligation.
  intros x y (a & e & n & He & Ha & Hn & ->) [Hi Hk]. split.
  - exact (proj1 (act_later _ _ _ _ _ _ a e n x He Ha Hi)).
  - eapply retains_keyed; [by apply act_retains|done].
Qed.
Next Obligation.
  intros x y r (a & e & n & He & Ha & Hn & ->) [Hi Hk] Hc.
  eapply retains_clean; [by apply act_retains| |exact Hc].
  intros r' (k & u & Hu & <-) Eid. apply Hc. rewrite <- Eid. by rewrite <- (Hk _ _ Hu).
Qed.

(** A row with the chat's event under a session of its channel, hot or in
    exactly one segment; or the chat itself waiting for its broadcast. *)
Definition chat_archived (x : sys) (r : ArchiveChatRecord) : Prop :=
  (exists row a, sessions (arch x) !! SessionID row = Some a /\
    as_platform a = ar_Platform r /\ as_channel a = ar_ChannelID r /\ EventID row = ar_EventID r /\
    log x !! Position row = Some row /\ one_place (arch x) row) \/
  waiting (arch x) r.

Lemma kept_archived x r : arch_inv x -> kept (arch x) r -> chat_archived x r.
Proof.
  intros [H _ _] [(id & a & p & Ha & Hp & Hc & Hv)|Hw]; [left|by right].
  apply (sound_event _ _ _ _ _ H) in Hv as (row & Hl & <- & Ev).
  destruct (sound_row _ _ _ _ _ H _ _ Hl) as [<- _]. exists row, a.
  repeat (split; [done|]). by eapply sound_one_place.
Qed.

(** C15: a chat that [Save] accepted is, whatever then fails, is killed or
    loses power, and whatever other spools, the reconciliation and exporters
    do to the archive, in the archive, or its record is still under its name
    in the directory, both as processes see it and as a power loss would
    leave it; and a drain that reports success leaves every accepted chat in
    the archive: a row of its channel in exactly one place, or the record
    waiting for its broadcast. *)
Theorem accepted_chat_archived key maxBytes x A D L : spool_run uuid_ok key maxBytes x A D L ->
  forall n r, (n, r) ∈ A ->
  (chat_archived (c_jr x) (coerced r) \/
    (c_visible x !! final_of n = Some (CFile (chat_envelope_text r) true) /\
     c_durable x !! final_of n = Some (CFile (chat_envelope_text r) true))) /\
  (forall ctx e k s', good_env e -> Drain uuid_ok ctx e (at_tick x k) = (Ok tt, s') ->
    chat_archived (c_jr (db s')) (coerced r)).
Proof.
  intros (W & I & _ & _)%spool_run_holds n r Ha. split.
  - destruct (ci_accepted _ _ _ _ I _ _ Ha) as (_ & [_ Hv] & [_ Hd] & Hk).
    destruct (c_visible x !! final_of n) as [f|] eqn:Ev.
    + destruct (c_durable x !! final_of n) as [g|] eqn:Ed.
      * right. by rewrite (Hv _ eq_refl), (Hd _ eq_refl).
      * left. apply kept_archived; [apply (ci_jr _ _ _ _ I)|]. apply Hk. by right.
    + left. apply kept_archived; [apply (ci_jr _ _ _ _ I)|]. apply Hk. by left.
  - intros ctx e k s' He E.
    destruct (Drain_empties uuid_ok W A ctx e (at_tick x k) s' He I E) as [I' Hn].
    apply kept_archived; [apply (ci_jr _ _ _ _ I')|].
    destruct (ci_accepted _ _ _ _ I' _ _ Ha) as (_ & _ & _ & Hk). apply Hk. left. unfold gone.
    apply Hn; intros En; apply (f_equal String.length) in En; revert En;
      destruct (ci_saved _ _ _ _ I' _ _ (proj1 (ci_accepted _ _ _ _ I' _ _ Ha))) as [[[t ->] _ _ _] _];
      unfold final_of, chat_name; rewrite !SpoolInv.append_length, SpoolInv.pad20_length; cbn; lia.
Qed.
End Archived.

(** ** A chat saved, the worker killed, and the spool drained by the next one *)

Module SpoolSample.
Import Sample.
#[export] Instance journal : ChatArchiveJournal sys := sys_journal uuid_ok (Some "ch"%string).
#[export] Instance laws_ : ArchiveLaws sys := sys_laws uuid_ok gzip gunzip (Some "ch"%string) "ch" "bucket".
Definition key : string := "0123456789abcdef0123456789abcdef".
Definition maxBytes : Z := 1048576.
Definition message : ChatMessage :=
  MkMessage "e1" MessageTypeChat PlatformSoop "ch" "streamer" "user" "name" "hello" now EmptyString
    (SpecFloat.S754_zero false) EmptyString 0 [].
Definition open_ (x : cdisk sys) : result unit * world (cdisk sys) :=
  NewChatArchiveSpool uuid_ok key maxBytes true true quiet_env (at_tick x 0).
Definition opened := open_ (CDisk ∅ ∅ ∅ live closed_spool).
Definition saved := Save uuid_ok key maxBytes message now quiet_env (at_tick (db opened.2) 0).
Definition reopened := open_ (killed (db saved.2)).
Definition drained := Drain uuid_ok (fun _ => false) quiet_env (at_tick (db reopened.2) 0).

Example sample_spool :
  is_ok saved.1 = true /\ is_ok drained.1 = true /\
  cs_files (c_spool (db reopened.2)) = 1 /\ size (c_durable (db reopened.2)) = 2%nat /\
  size (c_visible (db drained.2)) = 1%nat /\ size (hot (arch (c_jr (db drained.2)))) = 1%nat.
Proof. vm_compute. repeat split. Qed.

Lemma live_sound : ainv live.
Proof.
  split; [exact (reach_inv _ _ _ _ _ _ _ live_reached)|]. intros k u Hu.
  change ((∅ : gmap string unassigned_row) !! k = Some u) in Hu. by rewrite lookup_empty in Hu.
Qed.
End SpoolSample.
Import SpoolSample.

Lemma accepted_chat_archived_witness :
  chat_archived (c_jr (db drained.2)) (coerced (saved_as key Sample.id message Sample.now).2).
Proof.
  destruct sample_spool as (H2 & H4 & _).
  pose proof (run_open Sample.uuid_ok key maxBytes (CDisk ∅ ∅ ∅ Sample.live closed_spool) [] [] true true Sample.quiet_env 0
    opened.1 opened.2 (run_start _ _ _ Sample.live live_sound) (surjective_pairing opened)) as R1.
  pose proof (run_save Sample.uuid_ok key maxBytes (db opened.2) [] [] None message Sample.now Sample.quiet_env 0
    saved.1 saved.2 R1 Sample.good ltac:(apply not_elem_of_nil)) as R2.
  rewrite H2 in R2. specialize (R2 ltac:(vm_compute; reflexivity) (surjective_pairing saved)).
  pose proof (run_open Sample.uuid_ok key maxBytes (killed (db saved.2)) _ _ true true Sample.quiet_env 0
    reopened.1 reopened.2 (run_kill _ _ _ _ _ _ _ R2) (surjective_pairing reopened)) as R3.
  apply (proj2 (accepted_chat_archived Sample.uuid_ok Sample.gzip Sample.gunzip (Some "ch"%string) "ch" "bucket" key maxBytes
    _ _ _ _ R3 _ _ ltac:(by apply list_elem_of_singleton)) (fun _ => false) Sample.quiet_env 0%nat drained.2 Sample.good).
  transitivity (drained.1, drained.2); [exact (surjective_pairing drained)|].
  destruct drained.1 as [[]|x]; [reflexivity|discriminate H4].
Defined.
