(* ===== verification/PublicApi.v ===== *)
(** The anonymous HTTP surface (src/query/publicapi/server.go): the rate
    limit, readiness, the state of the broadcast, recent chats and the live
    stream over a websocket. Requests that wait for each other (the single
    call in flight of [checkBroadcast] and [ready]) run one after the other. *)
From S2P Require Import Prelude GoLib GoTime Json JsonText Tx.
From S2P Require Import JsonRound Model Db Ownership Channels Redis.
From S2P Require Import ChatStream ChatWatch PublicCursor PublicHistory.
From Stdlib Require Import SpecFloat.

(** [pb.BroadcastStatus], the fields the API reads. *)
Record BroadcastStatus := MkStatus {
  bc_State : string; bc_BroadcastId : string; bc_Title : string; bc_CheckedAt : option Z
}.

(** The server's variables; [connections] counts the places taken. *)
Record server := Server {
  sv_status : option BroadcastStatus; sv_statusUntil : Z;
  sv_connections : Z; sv_connectionsByIP : gmap string Z;
  sv_rateTokens : spec_float; sv_rateAt : Z;
  sv_readyUntil : Z; sv_readyStatus : Z
}.
(** Redis, PostgreSQL and the server. *)
Record api := Api { rds : redis; pgd : database; sv : server }.
Notation Mapi := (M api).

Definition on_redis {A} : M redis A -> Mapi A := zoom rds (fun r s => Api r (pgd s) (sv s)).
Definition on_pg {A} : Mdb A -> Mapi A := zoom pgd (fun d s => Api (rds s) d (sv s)).
(** Under a mutex of the server. *)
Definition get_server : Mapi server := fun _ s => (Ok (sv (db s)), s).
Definition put_server (v : server) : Mapi unit := fun _ s =>
  let d := Api (rds (db s)) (pgd (db s)) v in (Ok tt, World d (wk s) (tick s)).

(** ** The rate limit *)

Notation float_of n := (binary_normalize 53 1024 n 0 false).
(** [Duration.Seconds] *)
Definition seconds (d : Z) : spec_float :=
  SFadd 53 1024 (float_of (Z.quot d second)) (SFdiv 53 1024 (float_of (Z.rem d second)) (float_of 1000000000)).

(** The bucket after a request at [now], and whether it goes through. *)
Definition take_token (now : Z) (tokens : spec_float) (last : Z) : bool * spec_float :=
  let refilled := SFadd 53 1024 tokens (SFmul 53 1024 (seconds (time_sub now last)) (float_of 20)) in
  let refilled := if SFltb (float_of 60) refilled then float_of 60 else refilled in
  if SFltb refilled (float_of 1) then (false, refilled) else (true, SFsub 53 1024 refilled (float_of 1)).

Definition allowRequest : Mapi bool :=
  v ← get_server;
  now ← time_now;
  let '(ok, tokens) := take_token now (sv_rateTokens v) (sv_rateAt v) in
  put_server (Server (sv_status v) (sv_statusUntil v) (sv_connections v) (sv_connectionsByIP v) tokens now
    (sv_readyUntil v) (sv_readyStatus v)) ;;
  mret ok.

(** Before a request is routed: [healthPath] for the health routes, [internal]
    for a peer on the loopback. *)
Definition admit_request (healthPath internal : bool) : Mapi bool :=
  if healthPath && internal then mret true else allowRequest.

Section Handlers.
(** The channel served, the one of COLLECTION_CHANNEL_ID, and the call behind
    [checkBroadcast]. *)
Context (channel : string) (collectionChannel : option string).
Context (check : string -> Mapi (option BroadcastStatus)).

(** ** Readiness and the state of the broadcast *)

Definition ready : Mapi Z :=
  v ← get_server;
  now ← time_now;
  if now <? sv_readyUntil v then mret (sv_readyStatus v)
  else
    state ← try (on_pg (CollectionState_ channel));
    status ← (match state with
              | Err _ => mret 503
              | Ok _ => chat ← try (on_redis (ReadProductChat channel "0-0"));
                        mret (match chat with Err _ => 503 | Ok _ => 200 end)
              end : Mapi Z);
    now ← time_now;
    v ← get_server;
    put_server (Server (sv_status v) (sv_statusUntil v) (sv_connections v) (sv_connectionsByIP v)
      (sv_rateTokens v) (sv_rateAt v) (now + 2 * second) status) ;;
    mret status.

Definition checkBroadcast : Mapi (option BroadcastStatus) :=
  v ← get_server;
  now ← time_now;
  if (match sv_status v with Some _ => true | None => false end) && (now <? sv_statusUntil v)
  then mret (sv_status v)
  else
    value ← try (check channel);
    match value with
    | Ok (Some b) =>
        now ← time_now;
        v ← get_server;
        put_server (Server (Some b) (now + 10 * second) (sv_connections v) (sv_connectionsByIP v)
          (sv_rateTokens v) (sv_rateAt v) (sv_readyUntil v) (sv_readyStatus v)) ;;
        mret (Some b)
    | _ => lift value
    end.

(** The body of /v1/broadcasts/current. *)
Record current_body := CurrentBody {
  cu_live : option bool; cu_status : BroadcastStatus; cu_checkedAt : Z;
  cu_active : bool; cu_state : string; cu_lastReceivedAt : option Z
}.

Definition current : Mapi (reply current_body) :=
  broadcast ← try checkBroadcast;
  match broadcast with
  | Ok (Some b) =>
      match bc_CheckedAt b with
      | None => mret (Refused 503 "status_unavailable")
      | Some checkedAt =>
          collection ← try (on_pg (CollectionState_ channel));
          match collection with
          | Err _ => mret (Refused 503 "collection_unavailable")
          | Ok c =>
              enabled ← try (on_pg (CollectionEnabled collectionChannel channel));
              match enabled with
              | Err _ => mret (Refused 503 "collection_unavailable")
              | Ok enabled =>
                  let live := if String.eqb (bc_State b) "live" || String.eqb (bc_State b) "offline"
                              then Some (String.eqb (bc_State b) "live") else None in
                  now ← time_now;
                  mret (Served (CurrentBody live b checkedAt
                    (enabled && String.eqb (Runtime c) "connected" && (time_sub now (StateAt c) <=? 35 * second))
                    (Runtime c) (LastReceived c)))
              end
          end
      end
  | _ => mret (Refused 503 "status_unavailable")
  end.

(** ** Recent chats *)

Definition decodeCursor (raw : string) : result chatCursor :=
  if is_empty raw then Ok no_chat_cursor
  else if 512 <? lenZ raw then Err (ErrMsg "cursor too long")
  else
    let '(cursor, ok) := match Base64.decode raw with
                         | None => (no_chat_cursor, false)
                         | Some body => unmarshal_text (d_struct chat_cursor_fields) body no_chat_cursor
                         end in
    if negb ok || is_empty (cc_Generation cursor) || negb (ValidStreamID (cc_ID cursor))
    then Err (ErrMsg "invalid cursor") else Ok cursor.

(** A chat message as it is shown; the cursor is encoded with the rest. *)
Record chat_event := ChatShown {
  cv_eventId : string; cv_cursor : chatCursor; cv_receivedAt : Z; cv_displayName : string; cv_message : string
}.
Definition event_of (generation : string) (m : StreamMessage) (at_ : Z) : chat_event :=
  ChatShown (value m "id") (MkChatCursor generation (StreamID m)) at_ (value m "nickname") (value m "message").

Definition chatMessages (b : ChatBatch) (after : string) : list chat_event * string * bool :=
  fold_left (fun '(events, _, invalid) m =>
    match verdict m with
    | NotChat => (events, StreamID m, invalid)
    | BadTime => (events, StreamID m, true)
    | Event at_ => (events ++ [event_of (b_Generation b) m at_], StreamID m, invalid)
    end) (b_Messages b) ([], after, false).

Definition or_zero (id : string) : string := if is_empty id then "0-0"%string else id.
Definition no_generation (b : ChatBatch) : bool :=
  is_empty (b_Generation b) && negb (length (b_Messages b) =? 0)%nat.

Definition recent_reply (cursor : chatCursor) (limit : Z) (b : ChatBatch)
  : reply (list chat_event * option chatCursor) :=
  if no_generation b then Refused 503 "chat_generation_unavailable"
  else if negb (is_empty (cc_Generation cursor)) && negb (String.eqb (cc_Generation cursor) (b_Generation b))
  then Refused 409 "cursor_expired"
  else if negb (is_empty (cc_ID cursor)) && negb (is_empty (b_Earliest b))
          && StreamIDBefore (cc_ID cursor) (b_Earliest b)
  then Refused 409 "cursor_expired"
  else
    let '(events, nextRaw, invalid) := chatMessages b (or_zero (cc_ID cursor)) in
    if invalid then Refused 503 "chat_data_invalid"
    else
      let events := if limit <? Z.of_nat (length events)
                    then if is_empty (cc_ID cursor) then drop (length events - Z.to_nat limit) events
                         else take (Z.to_nat limit) events
                    else events in
      Served (events, match last events with
                      | Some v => Some (cv_cursor v)
                      | None => if negb (String.eqb nextRaw (or_zero (cc_ID cursor))) && negb (is_empty (b_Generation b))
                                then Some (MkChatCursor (b_Generation b) nextRaw) else None
                      end).

Definition recent (cursorParam limitParam : string) : Mapi (reply (list chat_event * option chatCursor)) :=
  match decodeCursor cursorParam with
  | Err _ => mret (Refused 400 "invalid_cursor")
  | Ok cursor =>
      match pageLimit limitParam 50 100 with
      | Err _ => mret (Refused 400 "invalid_limit")
      | Ok limit =>
          batch ← try (on_redis (if is_empty (cc_ID cursor) then ReadLatestProductChat channel
                                 else ReadProductChat channel (cc_ID cursor)));
          match batch with
          | Err _ => mret (Refused 503 "chat_unavailable")
          | Ok b => mret (recent_reply cursor limit b)
          end
      end
  end.

(** ** The live stream *)

Inductive frame :=
| FHello (serverTime : Z) (state id title : string) (current earliest : option chatCursor)
| FGap (reason : string)
| FError (code : string)
| FChat (v : chat_event)
| FHeartbeat (serverTime : Z)
| FStatus (b : BroadcastStatus) (checkedAt : Z).

(** The variables of a call, the frames written, and whether it has returned. *)
Record live := Live {
  lv_after : string; lv_generation : string; lv_sent : list frame;
  lv_heartbeat : Z; lv_statusAt : Z; lv_status : string * string * string; lv_over : bool
}.
Definition over (v : live) : live :=
  Live (lv_after v) (lv_generation v) (lv_sent v) (lv_heartbeat v) (lv_statusAt v) (lv_status v) true.
Definition at_id (after generation : string) (v : live) : live :=
  Live after generation (lv_sent v) (lv_heartbeat v) (lv_statusAt v) (lv_status v) (lv_over v).

(** The places: one of [maxConnections], and two for an address. *)
Context (maxConnections : Z).
Definition set_connections (n : Z) (byIP : gmap string Z) (v : server) : server :=
  Server (sv_status v) (sv_statusUntil v) n byIP (sv_rateTokens v) (sv_rateAt v) (sv_readyUntil v) (sv_readyStatus v).
Definition arrive (ip : string) : Mapi bool :=
  v ← get_server;
  if sv_connections v <? maxConnections then
    if 2 <=? default 0 (sv_connectionsByIP v !! ip) then mret false
    else put_server (set_connections (sv_connections v + 1)
           (<[ip := default 0 (sv_connectionsByIP v !! ip) + 1]> (sv_connectionsByIP v)) v) ;; mret true
  else mret false.
Definition leave (ip : string) : Mapi unit :=
  v ← get_server;
  let n := default 0 (sv_connectionsByIP v !! ip) - 1 in
  put_server (set_connections (sv_connections v - 1)
    (if n =? 0 then delete ip (sv_connectionsByIP v) else <[ip := n]> (sv_connectionsByIP v)) v).

(** [wsjson.Write], per frame written before: whether it succeeds. *)
Context (Write : nat -> bool).
(** A frame whose failure ends the call. *)
Definition push (f : frame) (v : live) : live :=
  if lv_over v then v
  else if Write (length (lv_sent v))
  then Live (lv_after v) (lv_generation v) (lv_sent v ++ [f]) (lv_heartbeat v) (lv_statusAt v) (lv_status v) false
  else over v.
Definition push_all (l : list frame) (v : live) : live := fold_left (fun v f => push f v) l v.

(** What an iteration does with what it read. *)
Definition take_live (b : ChatBatch) (v : live) : live :=
  if no_generation b then over (push (FError "chat_generation_unavailable") v)
  else if negb (is_empty (lv_generation v)) && negb (String.eqb (b_Generation b) (lv_generation v))
  then at_id (or_zero (b_Latest b)) (b_Generation b) (push (FGap "stream_reset") v)
  else if negb (String.eqb (lv_after v) "0-0") && negb (is_empty (b_Earliest b))
          && StreamIDBefore (lv_after v) (b_Earliest b)
  then at_id (or_zero (b_Latest b)) (lv_generation v) (push (FGap "cursor_expired") v)
  else
    let generation := if is_empty (lv_generation v) then b_Generation b else lv_generation v in
    let '(events, next, invalid) := chatMessages b (lv_after v) in
    let v := if invalid : bool then push (FGap "invalid_event") v else v in
    at_id next generation (push_all (map FChat events) v).

(** The rest of the call, unless it has returned. *)
Definition unless_over (v : live) (m : Mapi live) : Mapi live := if lv_over v then mret v else m.

Definition heartbeat (v : live) : Mapi live :=
  now ← time_now;
  if 20 * second <=? time_sub now (lv_heartbeat v) then
    serverTime ← time_now;
    let v := push (FHeartbeat serverTime) v in
    now ← time_now;
    mret (Live (lv_after v) (lv_generation v) (lv_sent v) now (lv_statusAt v) (lv_status v) (lv_over v))
  else mret v.

Definition shown (b : BroadcastStatus) : string * string * string := (bc_State b, bc_BroadcastId b, bc_Title b).

Definition status_check (v : live) : Mapi live :=
  now ← time_now;
  if 10 * second <=? time_sub now (lv_statusAt v) then
    value ← try checkBroadcast;
    let v := match value with
             | Ok (Some b) =>
                 match bc_CheckedAt b with
                 | Some checkedAt =>
                     if decide (shown b = lv_status v) then v
                     else let v := push (FStatus b checkedAt) v in
                          Live (lv_after v) (lv_generation v) (lv_sent v) (lv_heartbeat v) (lv_statusAt v) (shown b) (lv_over v)
                 | None => v
                 end
             | _ => v
             end in
    now ← time_now;
    mret (Live (lv_after v) (lv_generation v) (lv_sent v) (lv_heartbeat v) now (lv_status v) (lv_over v))
  else mret v.

(** An iteration of the loop, up to the wait. *)
Definition live_round (v : live) : Mapi live :=
  batch ← try (on_redis (ReadProductChat channel (lv_after v)));
  match batch with
  | Err _ => mret (over (push (FError "chat_unavailable") v))
  | Ok b =>
      let v := take_live b v in
      unless_over v (v ← heartbeat v; unless_over v (status_check v))
  end.

(** The call up to the loop, once the websocket is accepted. *)
Definition started (f : frame) : live := push f (Live EmptyString EmptyString [] 0 0 ("lookup_failed", "", "")%string false).

Definition cursor_of (generation id : string) : option chatCursor :=
  if is_empty generation || is_empty id then None else Some (MkChatCursor generation id).

Definition greet (cursor : chatCursor) : Mapi live :=
  initial ← try (on_redis (ReadProductChat channel (or_zero (cc_ID cursor))));
  match initial with
  | Err _ => mret (over (started (FError "chat_unavailable")))
  | Ok initial =>
      if no_generation initial then mret (over (started (FError "chat_generation_unavailable")))
      else
        let after := or_zero (if is_empty (cc_ID cursor) then b_Latest initial else cc_ID cursor) in
        let generation := b_Generation initial in
        broadcast ← try checkBroadcast;
        let status := match broadcast with Ok (Some b) => shown b | _ => ("lookup_failed", "", "")%string end in
        serverTime ← time_now;
        let v := started (FHello serverTime status.1.1 status.1.2 status.2
                   (cursor_of generation (b_Latest initial)) (cursor_of generation (b_Earliest initial))) in
        let v := if negb (is_empty (cc_ID cursor))
                    && (negb (String.eqb (cc_Generation cursor) generation)
                        || negb (is_empty (b_Earliest initial)) && StreamIDBefore (cc_ID cursor) (b_Earliest initial))
                 then at_id (or_zero (b_Latest initial)) generation (push (FGap "cursor_expired") v)
                 else at_id after generation v in
        lastHeartbeat ← time_now;
        lastStatus ← time_now;
        mret (Live (lv_after v) (lv_generation v) (lv_sent v) lastHeartbeat lastStatus status (lv_over v))
  end.

(** GET /v1/chat/stream up to the loop; [accepted]: the handshake succeeds. *)
Definition stream (ip cursorParam : string) (accepted : bool) : Mapi (reply (option live)) :=
  match decodeCursor cursorParam with
  | Err _ => mret (Refused 400 "invalid_cursor")
  | Ok cursor =>
      room ← arrive ip;
      if negb room then mret (Refused 503 "connection_limit")
      else if negb accepted then leave ip ;; mret (Served None)
      else v ← greet cursor; mret (Served (Some v))
  end.
End Handlers.

(** ** The bodies *)

Definition cursor_text (c : chatCursor) : json := JStr (encodeCursor c).
Definition retention : json := JStr "up to 24 hours and 10000 stream entries".

Definition ready_json (status : Z) : json :=
  JObj [("status"%string, JStr (if status =? 200 then "ready" else "not_ready"))].

Definition current_json (channel : string) (c : current_body) : json :=
  JObj [("broadcastId", JStr (bc_BroadcastId (cu_status c))); ("channelId", JStr channel);
        ("checkedAt", JTime (cu_checkedAt c));
        ("collection", JObj [("active", JBool (cu_active c)); ("lastReceivedAt", opt_json JTime (cu_lastReceivedAt c));
                             ("state", JStr (cu_state c))]);
        ("live", opt_json JBool (cu_live c)); ("state", JStr (bc_State (cu_status c)));
        ("title", JStr (bc_Title (cu_status c)))]%string.

Definition event_json (v : chat_event) : json :=
  JObj [("cursor", cursor_text (cv_cursor v)); ("eventId", JStr (cv_eventId v)); ("message", JStr (cv_message v));
        ("receivedAt", JTime (cv_receivedAt v)); ("type", JStr "chat.message");
        ("user", JObj [("displayName", JStr (cv_displayName v))])]%string.

Definition recent_json (x : list chat_event * option chatCursor) : json :=
  JObj [("messages", JArr (map event_json x.1)); ("nextCursor", opt_json cursor_text x.2); ("retention", retention)]%string.

Definition frame_json (f : frame) : json :=
  match f with
  | FHello serverTime state id title current earliest =>
      JObj [("broadcastId", JStr id); ("broadcastState", JStr state); ("currentCursor", opt_json cursor_text current);
            ("cursorRetention", retention); ("earliestCursor", opt_json cursor_text earliest);
            ("serverTime", JTime serverTime); ("title", JStr title); ("type", JStr "hello"); ("version", JStr "v1")]
  | FGap reason => JObj [("reason", JStr reason); ("type", JStr "chat.gap")]
  | FError code => JObj [("code", JStr code); ("type", JStr "error")]
  | FChat v => event_json v
  | FHeartbeat serverTime => JObj [("serverTime", JTime serverTime); ("type", JStr "heartbeat")]
  | FStatus b checkedAt =>
      JObj [("broadcastId", JStr (bc_BroadcastId b)); ("checkedAt", JTime checkedAt); ("state", JStr (bc_State b));
            ("title", JStr (bc_Title b)); ("type", JStr "broadcast.status")]
  end%string.

(** A cursor of the chat that is not too long is read back. *)
Lemma chat_cursor_decoded c : valid_utf8 (cc_Generation c) = true -> valid_utf8 (cc_ID c) = true ->
  d_struct chat_cursor_fields (text_of (chat_cursor_json c)) no_chat_cursor = (c, true).
Proof.
  intros Hg Hi. destruct c as [g i]. cbn in *.
  change (struct_fold chat_cursor_fields [(literal "g", TStr (literal g)); (literal "i", TStr (literal i))]
    (no_chat_cursor, true) = (MkChatCursor g i, true)).
  do 2 (erewrite struct_member; [|reflexivity|vm_compute; reflexivity]; cbn [member snd];
    rewrite d_string_text, coerce_valid by done). done.
Qed.

Lemma decode_encodeCursor c : valid_utf8 (cc_Generation c) = true -> valid_utf8 (cc_ID c) = true ->
  cc_Generation c <> EmptyString -> ValidStreamID (cc_ID c) = true -> lenZ (encodeCursor c) <= 512 ->
  decodeCursor (encodeCursor c) = Ok c.
Proof.
  intros Hg Hi Hne%is_empty_false Hv Hl. unfold decodeCursor.
  destruct (is_empty (encodeCursor c)) eqn:E.
  { apply is_empty_true in E. pose proof (Base64.decode_encode (render (chat_cursor_json c))) as Hd.
    unfold encodeCursor in E. rewrite E in Hd. discriminate Hd. }
  replace (512 <? _) with false by (symmetry; apply Z.ltb_ge; lia).
  unfold encodeCursor. rewrite Base64.decode_encode. unfold unmarshal_text.
  rewrite parse_text_render, chat_cursor_decoded by done. cbn [negb orb]. by rewrite Hne, Hv.
Qed.
