(* ===== verification/PublicStream.v ===== *)
(** What a subscriber of the public chat stream
    (src/query/publicapi/server.go) can rely on: between the position it has,
    by the cursor it came with or the last message, and the next message
    nothing that could be shown is missing, unless a gap frame said so. *)
From S2P Require Import Prelude GoLib GoText GoTime Json Tx.
From S2P Require Import Model Db Channels Message Redis ChatStream.
From S2P Require Import ChatInv ChatHeld ChatWatch.
From S2P Require Import PublicCursor PublicHistory PublicApi.
From Stdlib Require Import SpecFloat.

(** ** Frames *)

(** The frames that neither bring a message nor announce a gap. *)
Definition plain_frame (f : frame) : bool := match f with FChat _ | FGap _ => false | _ => true end.

(** The position of a subscriber that came with a cursor: the cursor of the
    last message, unless a gap was announced after it. *)
Definition anchor (from : chatCursor) (l : list frame) : option chatCursor :=
  fold_left (fun a f => match f with FChat z => Some (cv_cursor z) | FGap _ => None | _ => a end) l (Some from).

Lemma anchor_snoc from l f : anchor from (l ++ [f]) =
  match f with FChat z => Some (cv_cursor z) | FGap _ => None | _ => anchor from l end.
Proof. unfold anchor. by rewrite fold_left_app. Qed.
Lemma anchor_plain from l q : forallb plain_frame q = true -> anchor from (l ++ q) = anchor from l.
Proof.
  induction q as [|f q IH] using rev_ind; [by rewrite app_nil_r|].
  rewrite forallb_app, app_assoc, anchor_snoc. intros [Hq Hf]%andb_prop. rewrite <- IH by done.
  by destruct f.
Qed.

Section Stream.
Context (channel G : string) (HG : G <> EmptyString) (from : chatCursor).
Notation k := (ChatStreamKey PlatformSoop channel).
Notation holds := (holds channel G).
Notation front := (front channel G).

Definition shows (x : entry) (v : chat_event) : Prop :=
  exists at_, verdict (message x) = Event at_ /\ v = event_of G (message x) at_.
(** Not a chat message of a user, or one without a time, which a gap frame announced. *)
Definition accounted (sent : list frame) (x : entry) : Prop :=
  verdict (message x) = NotChat \/ (verdict (message x) = BadTime /\ FGap "invalid_event" ∈ sent).

Section Held.
Context (H : entry -> Prop).

(** [z] comes after [i], and nothing between them is missing. *)
Definition follows (sent : list frame) (i : stream_id) (z : chat_event) : Prop :=
  exists xz, H xz /\ shows xz z /\ id_lt i (en_id xz) /\
    forall x, H x -> id_lt i (en_id x) -> id_lt (en_id x) (en_id xz) -> accounted sent x.

(** The position after these frames is [i], in this generation. *)
Definition anchored (sent : list frame) (i : stream_id) : Prop :=
  exists c, anchor from sent = Some c /\ cc_Generation c = G /\ id_of (cc_ID c) = Some i /\ id_lt (0, 0) i.

Record told (sent : list frame) : Prop := {
  td_origin : forall z, FChat z ∈ sent -> cc_Generation (cv_cursor z) = G -> exists xz, H xz /\ shows xz z;
  td_follows : forall f1 z f3 i, sent = f1 ++ FChat z :: f3 -> anchored f1 i -> follows f1 i z
}.

(** The call has reached [a]; nothing between the position and [a] is missing. *)
Definition standing (sent : list frame) (generation : string) (a : stream_id) : Prop :=
  forall i, anchored sent i -> generation = G /\ ~ id_lt a i /\ (a = i \/ exists xa, H xa /\ en_id xa = a) /\
    forall x, H x -> id_lt i (en_id x) -> ~ id_lt a (en_id x) -> accounted sent x.

Lemma anchored_zero sent g a i : standing sent g a -> anchored sent i -> id_lt (0, 0) a.
Proof.
  intros St Hi. destruct (St i Hi) as (_ & Hn & _). destruct Hi as (c & _ & _ & _ & H0).
  revert Hn H0. rewrite !id_lt_spec. lia.
Qed.
Lemma anchored_plain sent q i : forallb plain_frame q = true -> anchored (sent ++ q) i -> anchored sent i.
Proof. intros Hq (c & Ha & Hc). rewrite anchor_plain in Ha by done. by exists c. Qed.
Lemma not_anchored_gap sent reason i : ~ anchored (sent ++ [FGap reason]) i.
Proof. intros (c & Ha & _). by rewrite anchor_snoc in Ha. Qed.

Lemma accounted_app sent m x : accounted sent x -> accounted (sent ++ m) x.
Proof. intros [Hx|[Hx Hg]]; [by left|right]. split; [done|]. apply elem_of_app. by left. Qed.

Lemma told_snoc sent f : told sent ->
  (forall z, f = FChat z -> cc_Generation (cv_cursor z) = G -> exists xz, H xz /\ shows xz z) ->
  (forall z i, f = FChat z -> anchored sent i -> follows sent i z) -> told (sent ++ [f]).
Proof.
  intros [O T] Ho Hf. split.
  - intros z [Hz|Hz]%elem_of_app; [by apply O|]. apply list_elem_of_singleton in Hz. by apply Ho.
  - intros f1 z f3 i E Hi. destruct f3 as [|g f3] using rev_ind.
    + apply app_inj_tail in E as [-> ->]. by apply Hf.
    + rewrite app_comm_cons, app_assoc in E. apply app_inj_tail in E as [-> _]. by eapply T.
Qed.
Lemma told_plain sent q : told sent -> forallb plain_frame q = true -> told (sent ++ q).
Proof.
  intros T. induction q as [|f q IH] using rev_ind; [by rewrite app_nil_r|].
  rewrite forallb_app, app_assoc. intros [Hq Hf]%andb_prop. by apply told_snoc; [by apply IH|intros; subst..].
Qed.
Lemma standing_plain sent q g a : standing sent g a -> forallb plain_frame q = true -> standing (sent ++ q) g a.
Proof.
  intros St Hq i Hi%anchored_plain; [|done]. destruct (St i Hi) as (? & ? & ? & Hall). split_and!; [done..|].
  intros x Hx ? ?. apply accounted_app. by apply Hall.
Qed.
End Held.

Lemma told_extends H H' sent : extends H H' -> told H sent -> told H' sent.
Proof.
  intros [Hsub Hnew] [O T]. split.
  - intros z Hz Hg. destruct (O z Hz Hg) as (xz & ? & ?). exists xz. auto.
  - intros f1 z f3 i E Hi. destruct (T f1 z f3 i E Hi) as (xz & Hz & ? & ? & Hall).
    exists xz. split_and!; auto. intros x Hx Hl Hr. destruct (Hnew x Hx) as [Hx'|Hlt]; [by apply Hall|].
    exfalso. by apply (id_lt_asym (en_id x) (en_id xz)), Hlt.
Qed.

Lemma standing_extends H H' sent g a : extends H H' -> standing H sent g a -> standing H' sent g a.
Proof.
  intros [Hsub Hnew] St i Hi. destruct (St i Hi) as (? & ? & Ha & Hall).
  split_and!; [done..|destruct Ha as [|(xa & ? & ?)]; eauto|].
  intros x Hx Hl Hr. destruct (Hnew x Hx) as [Hx'|Hlt]; [by apply Hall|].
  destruct Ha as [->|(xa & Hxa & <-)]; [done|]. by destruct Hr; apply Hlt.
Qed.

(** ** Writing frames *)

Section Writes.
Context (Write : nat -> bool).
Notation push := (push Write).
Notation push_all := (push_all Write).

Lemma push_cases f v : (lv_over v = true /\ push f v = v) \/ push f v = over v \/
  (lv_over v = false /\ push f v = Live (lv_after v) (lv_generation v) (lv_sent v ++ [f]) (lv_heartbeat v)
     (lv_statusAt v) (lv_status v) false).
Proof. unfold PublicApi.push. destruct (lv_over v); [by left|]. destruct (Write _); auto. Qed.
Lemma push_running f v : lv_over v = false -> push f v = over v \/
  push f v = Live (lv_after v) (lv_generation v) (lv_sent v ++ [f]) (lv_heartbeat v) (lv_statusAt v) (lv_status v) false.
Proof. unfold PublicApi.push. intros ->. destruct (Write _); auto. Qed.
Lemma push_all_cons f l v : push_all (f :: l) v = push_all l (push f v).
Proof. done. Qed.
Lemma push_over f v : lv_over v = true -> push f v = v.
Proof. unfold PublicApi.push. by intros ->. Qed.
Lemma push_all_over l v : lv_over v = true -> push_all l v = v.
Proof. revert v. induction l as [|f l IH]; intros v Hv; [done|]. cbn. rewrite push_over by done. by apply IH. Qed.

Context (H : entry -> Prop).
Notation told := (told H).
Notation standing := (standing H).

(** A frame that is not a message: what was told stays told. *)
Lemma push_told f v : (forall z, f <> FChat z) -> told (lv_sent v) -> told (lv_sent (push f v)).
Proof.
  intros Hf T. destruct (push_cases f v) as [[_ ->]|[-> |[_ ->]]]; [done..|]. cbn.
  apply told_snoc; [done|intros z; intros; by destruct (Hf z)..].
Qed.
(** After a gap frame nothing is claimed of what came before. *)
Lemma push_gap reason v i : lv_over (push (FGap reason) v) = false -> ~ anchored (lv_sent (push (FGap reason) v)) i.
Proof.
  unfold PublicApi.push. destruct (lv_over v) eqn:Ev; [by rewrite Ev|]. destruct (Write _); [|done].
  intros _. apply not_anchored_gap.
Qed.

(** The rows of a batch that are shown. *)
Definition shown_row (generation : string) (x : entry) : option chat_event :=
  match verdict (message x) with Event at_ => Some (event_of generation (message x) at_) | _ => None end.
Definition last_id (rows : list entry) (a : stream_id) : stream_id := default a (en_id <$> last rows).

Section Row.
Context (sent : list frame) (a : stream_id) (r : entry) (rows : list entry) (g : bool).
Context (St : standing sent G a) (Hg : forall i, anchored sent i -> g = false).
Context (P : pending H (r :: rows) g a) (S : sorted (r :: rows)) (Hr : H r) (Ha : id_lt a (en_id r)).

(** What lies between the position and a row is the row or accounted for. *)
Lemma up_to_row i x : anchored sent i -> H x -> ~ id_lt (en_id r) (en_id x) ->
  id_lt i (en_id x) -> x = r \/ accounted sent x.
Proof.
  intros Hi Hx Hn Hl. destruct (id_ltb a (en_id x)) eqn:E.
  - destruct (pending_step H r rows g a x P S Hx Hr E) as [Hs _].
    destruct (Hs Hn) as [|[Eg _]]; [by left|]. by rewrite (Hg i Hi) in Eg.
  - right. destruct (St i Hi) as (_ & _ & _ & Hall). apply Hall; [done..|]. unfold id_lt. by rewrite E.
Qed.

Lemma before_row i : anchored sent i -> id_lt i (en_id r).
Proof. intros Hi. destruct (St i Hi) as (_ & Hn & _). revert Hn Ha. rewrite !id_lt_spec. lia. Qed.

Lemma standing_skip : accounted sent r -> standing sent G (en_id r).
Proof.
  intros Hacc i Hi. split_and!; [done| |right; by exists r|].
  - intros ?. by apply (id_lt_asym i (en_id r)); [apply before_row|].
  - intros x Hx Hl Hrx. by destruct (up_to_row i x Hi Hx Hrx Hl) as [->|].
Qed.

Lemma standing_follows i z : anchored sent i -> shows r z -> follows H sent i z.
Proof.
  intros Hi Hz. exists r. split_and!; [done..|by apply before_row|].
  intros x Hx Hl Hrx. destruct (up_to_row i x Hi Hx) as [->|]; try done.
  - intros ?. by apply (id_lt_asym (en_id r) (en_id x)).
  - by apply (irreflexivity id_lt) in Hrx.
Qed.
End Row.

Lemma standing_shown sent r z : H r -> id_ok (en_id r) -> shows r z -> standing (sent ++ [FChat z]) G (en_id r).
Proof.
  intros Hr Hok (at_ & _ & ->) i (c & Hc & _ & Hi & _). rewrite anchor_snoc in Hc. injection Hc as <-.
  cbn in Hi. rewrite format_id_of in Hi by done. injection Hi as <-.
  split_and!; [done|apply irreflexivity, _|by left|]. by intros x _ Hl Hn.
Qed.

Lemma shown_cons g r rows : omap (shown_row g) (r :: rows) =
  match verdict (message r) with
  | Event at_ => event_of g (message r) at_ :: omap (shown_row g) rows
  | _ => omap (shown_row g) rows
  end.
Proof. cbn [omap list_omap]. unfold shown_row at 1. by destruct (verdict _). Qed.
Lemma last_id_cons r rows a : last_id (r :: rows) a = last_id rows (en_id r).
Proof. unfold last_id. rewrite last_cons. by destruct (last rows). Qed.

Lemma rows_told rows : forall v a g, id_ok a -> told (lv_sent v) ->
  (lv_over v = false -> standing (lv_sent v) G a /\ (forall i, anchored (lv_sent v) i -> g = false) /\
     Forall (fun r => verdict (message r) = BadTime -> FGap "invalid_event" ∈ lv_sent v) rows) ->
  pending H rows g a -> sorted rows ->
  Forall (fun r => H r /\ id_ok (en_id r) /\ id_lt a (en_id r)) rows ->
  let v' := push_all (map FChat (omap (shown_row G) rows)) v in
  told (lv_sent v') /\ (lv_over v' = false -> standing (lv_sent v') G (last_id rows a)).
Proof.
  induction rows as [|r rows IH]; intros v a g Hok T Hv P S F; cbv zeta.
  { cbn. split; [done|]. intros Ho. by apply Hv. }
  destruct (lv_over v) eqn:Ho; [rewrite push_all_over by done; split; [done|congruence]|].
  destruct (Hv eq_refl) as (St & Hg & [Hb Fb]%Forall_cons). apply Forall_cons in F as [(Hr & Hrok & Ha) F].
  assert (id_lt (0, 0) (en_id r)) as H0 by (revert Ha; destruct Hok; rewrite !id_lt_spec; simpl; lia).
  pose proof S as S'. apply (sorted_app [r] rows) in S' as (_ & S' & Slt).
  assert (Forall (fun x => H x /\ id_ok (en_id x) /\ id_lt (en_id r) (en_id x)) rows) as F'.
  { rewrite Forall_forall in F. apply Forall_forall. intros x Hx. destruct (F x Hx) as (? & ? & _).
    split_and!; [done..|]. apply Slt; [left|done]. }
  assert (forall g', pending H rows g' (en_id r)) as P' by (intros g'; by eapply pending_next).
  rewrite last_id_cons, shown_cons. destruct (verdict (message r)) as [| |at_] eqn:Ev.
  1, 2: apply (IH v (en_id r) g); try done; intros _; split_and!; try done;
    eapply standing_skip; try done; unfold accounted; rewrite Ev; auto.
  set (z := event_of G (message r) at_). assert (shows r z) as Hz by (exists at_; done).
  cbn [map]. rewrite push_all_cons. destruct (push_running (FChat z) v Ho) as [-> | ->].
  - by rewrite push_all_over.
  - apply (IH _ (en_id r) false); try done; cbn [lv_sent lv_over].
    + apply told_snoc; [done|intros z' [= <-] _; by exists r|].
      intros z' i [= <-] Hi. by eapply standing_follows.
    + intros _. split_and!; [by apply standing_shown|done|].
      eapply Forall_impl; [exact Fb|]. intros x Hx Hb'. apply elem_of_app. left. by apply Hx.
Qed.

(** Messages of another generation, when none of this one is the last. *)
Lemma others_told g rows : g <> G -> forall v, told (lv_sent v) ->
  (lv_over v = false -> forall i, ~ anchored (lv_sent v) i) ->
  let v' := push_all (map FChat (omap (shown_row g) rows)) v in
  told (lv_sent v') /\ (lv_over v' = false -> forall i, ~ anchored (lv_sent v') i).
Proof.
  intros Hg. induction rows as [|r rows IH]; intros v T Hn; [done|]. cbv zeta. rewrite shown_cons.
  destruct (verdict (message r)) as [| |at_]; [by apply IH..|]. cbn [map]. rewrite push_all_cons. apply IH.
  - destruct (push_cases (FChat (event_of g (message r) at_)) v) as [[_ ->]|[-> |[Ho ->]]]; [done..|].
    apply told_snoc; [done|intros z [= <-] Hz; by destruct Hg|]. intros z i _ Hi. by destruct (Hn Ho i Hi).
  - destruct (push_cases (FChat (event_of g (message r) at_)) v) as [[_ ->]|[-> |[Ho ->]]]; [done..|].
    intros _ i (c & Hc & Hgc & _). cbn [lv_sent] in Hc. rewrite anchor_snoc in Hc. injection Hc as <-. by destruct Hg.
Qed.

(** ** A batch *)

Definition bad_time (r : entry) : bool := match verdict (message r) with BadTime => true | _ => false end.

Lemma chatMessages_rows b rows after : b_Messages b = map message rows ->
  chatMessages b after = (omap (shown_row (b_Generation b)) rows,
    match last rows with Some r => format_id (en_id r) | None => after end, existsb bad_time rows).
Proof.
  intros Hb. unfold chatMessages. rewrite Hb. clear Hb.
  induction rows as [|r rows IH] using rev_ind; [done|].
  rewrite map_app, fold_left_app, IH, omap_app, existsb_app, last_snoc. cbn [map fold_left existsb].
  rewrite shown_cons. change (omap (shown_row (b_Generation b)) []) with (@nil chat_event).
  replace (bad_time r) with (match verdict (message r) with BadTime => true | _ => false end) by done.
  destruct (verdict (message r)); rewrite ?app_nil_r, ?orb_false_r, ?orb_true_r; done.
Qed.

(** Nothing can be missing where the call stands in the stream. *)
Definition settled (v : live) : Prop := told (lv_sent v) /\
  (lv_over v = false -> forall a, id_of (lv_after v) = Some a -> standing (lv_sent v) (lv_generation v) a).

Lemma settled_over v : told (lv_sent v) -> lv_over v = true -> settled v.
Proof. intros T Ho. split; [done|]. by rewrite Ho. Qed.
Lemma settled_gap reason after g v : settled v -> settled (at_id after g (push (FGap reason) v)).
Proof. intros [T _]. split; [by apply push_told|]. intros Ho a _ i Hi. by destruct (push_gap reason v i Ho). Qed.

Lemma settled_rows v b rows a : settled v -> id_ok a -> id_of (lv_after v) = Some a ->
  b_Messages b = map message rows -> b_Generation b = G ->
  (is_empty (lv_generation v) = false -> lv_generation v = G) ->
  sorted rows -> Forall (fun r => H r /\ id_ok (en_id r) /\ id_lt a (en_id r)) rows ->
  (forall g, lv_after v <> "0-0"%string \/ g = true -> pending H rows g a) ->
  let '(events, next, invalid) := chatMessages b (lv_after v) in
  let v := if invalid : bool then push (FGap "invalid_event") v else v in
  settled (at_id next G (push_all (map FChat events) v)).
Proof.
  intros [T St] Hok Ha Hb Hg Hgen S F P. rewrite (chatMessages_rows b rows) by done. rewrite Hg. cbv zeta.
  set (v1 := if existsb bad_time rows then _ else v).
  assert (told (lv_sent v1)) as T1 by (unfold v1; case_match; [by apply push_told|done]).
  set (g := String.eqb (lv_after v) "0-0").
  assert (pending H rows g a) as Pg.
  { apply P. unfold g. destruct (String.eqb _ _) eqn:E; [by right|left]. by apply String.eqb_neq. }
  destruct (rows_told rows v1 a g Hok T1) as [T2 St2]; try done.
  - unfold v1. intros Ho. destruct (existsb bad_time rows) eqn:Eb.
    + split_and!; [intros i Hi; by destruct (push_gap "invalid_event" v i Ho)..|].
      apply Forall_forall. intros r _ _. destruct (lv_over v) eqn:Ev; [rewrite push_over in Ho by done; congruence|].
      destruct (push_running (FGap "invalid_event") v Ev) as [E| ->]; [by rewrite E in Ho|].
      apply elem_of_app. right. by left.
    + split_and!.
      * intros i Hi. destruct (St Ho a Ha i Hi) as (_ & Hrest). by split.
      * intros i Hi. pose proof (anchored_zero _ _ _ _ i (St Ho a Ha) Hi) as H0. unfold g. apply String.eqb_neq. intros E.
        rewrite E in Ha. injection Ha as <-. by apply (irreflexivity id_lt) in H0.
      * apply Forall_forall. intros r Hr Hbad. exfalso.
        assert (existsb bad_time rows = true) as Ht; [|congruence]. apply existsb_exists. exists r.
        split; [by apply list_elem_of_In|]. unfold bad_time. by rewrite Hbad.
  - split; [done|]. cbn [at_id lv_over lv_after lv_sent lv_generation]. intros Ho a' Ha'.
    assert (a' = last_id rows a) as ->; [|by apply St2].
    unfold last_id. destruct (last rows) as [r|] eqn:El; cbn in *; [|congruence].
    apply last_Some_elem_of in El. rewrite Forall_forall in F. destruct (F r El) as (_ & Hrok & _).
    rewrite format_id_of in Ha' by done. congruence.
Qed.

(** A batch read at the call's place in the stream. *)
Lemma settled_take v e s b s' : settled v ->
  ReadProductChat channel (lv_after v) e s = (Ok b, s') ->
  wf k (db s) -> front H (db s) -> (forall x, holds (db s) x -> H x) ->
  settled (take_live Write b v).
Proof.
  intros Hv E W F Hh. pose proof Hv as [T St]. unfold take_live.
  destruct (no_generation b) eqn:Eno; [apply settled_over; [by apply push_told|done]|].
  destruct (negb (is_empty (lv_generation v)) && _) eqn:Ereset; [by apply settled_gap|].
  fold (overtaken (lv_after v) b). destruct (overtaken _ _) eqn:Eover; [by apply settled_gap|].
  assert (is_empty (lv_generation v) = false -> lv_generation v = b_Generation b) as Hgen.
  { intros Hne. rewrite Hne in Ereset. cbn in Ereset. b2p. congruence. }
  replace (if is_empty (lv_generation v) then b_Generation b else lv_generation v) with (b_Generation b)
    by (destruct (is_empty (lv_generation v)) eqn:En; [done|by rewrite Hgen]).
  pose proof E as E'. apply read_ok in E' as (Hvalid & i & _ & _ & _ & _ & r & _ & _ & _ & _ & _ & _ & _ & Hr).
  destruct (valid_id _ Hvalid) as (a & _ & Ha & Hok).
  destruct (decide (b_Generation b = G)) as [Hg|Hg].
  - rewrite Hg. destruct (read_batch channel G HG H (lv_after v) e s b s' a E Ha W F Hh Hg) as (rows & Hb & S & Fr & P).
    rewrite Eover in P. pose proof (settled_rows v b rows a Hv Hok Ha Hb Hg) as Hs.
    destruct (chatMessages b (lv_after v)) as [[events next] invalid]. apply Hs; try done.
    intros Hne. by rewrite Hgen.
  - assert (b_Messages b = map message (cr_rows r)) as Hb by by subst b.
    rewrite (chatMessages_rows b (cr_rows r)) by done. cbv zeta.
    set (v1 := if existsb _ _ then _ else v).
    assert (told (lv_sent v1)) as T1 by (unfold v1; case_match; [by apply push_told|done]).
    destruct (others_told (b_Generation b) (cr_rows r) Hg v1 T1) as [T2 N2].
    + unfold v1. intros Ho j Hj. destruct (existsb _ _).
      * by destruct (push_gap "invalid_event" v j Ho).
      * destruct (St Ho a Ha j Hj) as (Hl & _). destruct Hg. rewrite <- Hgen; [done|]. rewrite Hl. by destruct G.
    + split; [done|]. intros Ho a' _ j Hj. by destruct (N2 Ho j).
Qed.

(** Plain frames later, and the same place in the stream. *)
Definition goes_on (v v' : live) : Prop := exists q, forallb plain_frame q = true /\ lv_sent v' = lv_sent v ++ q /\
  lv_after v' = lv_after v /\ lv_generation v' = lv_generation v /\ (lv_over v = true -> lv_over v' = true).

#[export] Instance goes_on_preorder : PreOrder goes_on.
Proof.
  split; [intros v; exists []; by rewrite app_nil_r|].
  intros a b c (q & ? & E1 & ? & ? & ?) (q' & ? & E2 & ? & ? & ?). exists (q ++ q').
  rewrite forallb_app, E2, E1, <- app_assoc. split_and!; [by apply andb_true_iff|congruence..|auto].
Qed.
Lemma settled_goes_on v v' : settled v -> goes_on v v' -> settled v'.
Proof.
  intros [T St] (q & Hq & E & Ea & Eg & Ho). unfold settled. rewrite E, Ea, Eg. split; [by apply told_plain|].
  intros Hv a Ha. apply standing_plain; [|done]. apply St; [|done]. destruct (lv_over v); [by rewrite Ho in Hv|done].
Qed.
Lemma push_goes_on f v : plain_frame f = true -> goes_on v (push f v).
Proof.
  intros Hf. destruct (push_cases f v) as [[_ ->]|[-> |[Ho ->]]]; [reflexivity|exists []; by rewrite app_nil_r|].
  exists [f]. cbn. rewrite Hf. split_and!; try done. by rewrite Ho.
Qed.

End Writes.
End Stream.

(** ** The handlers *)

Definition same_redis (s s' : api) : Prop := rds s' = rds s.
#[export] Instance same_redis_preorder : PreOrder same_redis.
Proof. split; [by intros s|]. intros a b c ? ?. unfold same_redis in *. congruence. Qed.

Create HintDb redis_calls.

Section Handlers.
Context (channel : string) (check : string -> Mapi (option BroadcastStatus)) (Write : nat -> bool).
(** The call behind [checkBroadcast] leaves Redis alone. *)
Context (check_redis : forall c, relates same_redis (check c)).
Notation live_round := (live_round channel check Write).
Notation greet := (greet channel check Write).

Lemma read_redis after : relates same_redis (on_redis (ReadProductChat channel after)).
Proof.
  apply (zoom_relates _ _ (fun r r' => r' = r)); [|done]. intros e s. apply read_db.
Qed.
Lemma get_redis : relates same_redis get_server.
Proof. by intros e s. Qed.
Lemma put_redis v : relates same_redis (put_server v).
Proof. by intros e s. Qed.
Lemma now_redis : relates same_redis (time_now : Mapi Z).
Proof. by intros e s. Qed.
Lemma lift_redis {A} (r : result A) : relates same_redis (lift r : Mapi A).
Proof. intros e s. by destruct r. Qed.
#[local] Hint Resolve read_redis get_redis put_redis now_redis lift_redis relates_ret check_redis : redis_calls.

Ltac redis_solve := repeat first
  [ progress intros
  | solve [auto with redis_calls nocore]
  | apply relates_bind; [apply _| |]
  | apply relates_try
  | case_match ].

Lemma checkBroadcast_redis : relates same_redis (checkBroadcast channel check).
Proof. unfold checkBroadcast. redis_solve. Qed.
#[local] Hint Resolve checkBroadcast_redis : redis_calls.
Lemma round_redis v : relates same_redis (live_round v).
Proof. unfold PublicApi.live_round, unless_over, heartbeat, status_check. redis_solve. Qed.
Lemma greet_redis c : relates same_redis (greet c).
Proof. unfold PublicApi.greet. redis_solve. Qed.

(** What the greeting leaves: no message, and the cursor's place unless it
    announced a gap. *)
Definition greeted (from : chatCursor) (v : live) : Prop :=
  Forall (fun f => forall z, f <> FChat z) (lv_sent v) /\
  (lv_over v = false -> cc_ID from <> EmptyString -> anchor from (lv_sent v) <> None ->
     lv_generation v = cc_Generation from /\ lv_after v = cc_ID from).

Lemma greeted_over from v : Forall (fun f => forall z, f <> FChat z) (lv_sent v) -> lv_over v = true -> greeted from v.
Proof. intros H Ho. split; [done|]. by rewrite Ho. Qed.
Lemma started_cases f : lv_sent (started Write f) = [f] \/ lv_sent (started Write f) = [] /\ lv_over (started Write f) = true.
Proof. unfold started, PublicApi.push. cbn. destruct (Write 0); auto. Qed.
Lemma started_messages f : (forall z, f <> FChat z) -> Forall (fun f => forall z, f <> FChat z) (lv_sent (started Write f)).
Proof. intros Hf. destruct (started_cases f) as [-> |[-> _]]; [by apply Forall_singleton|constructor]. Qed.

Lemma greet_greeted from : yields (greeted from) (greet from).
Proof.
  unfold PublicApi.greet. apply yields_any. intros [b|]; [|by apply yields_ret, greeted_over; [apply started_messages|]].
  case_match; [by apply yields_ret, greeted_over; [apply started_messages|]|].
  apply yields_any. intros r. apply yields_any. intros t. do 2 (apply yields_any; intros ?). apply yields_ret.
  set (v := started Write _). assert (Forall (fun f => forall z, f <> FChat z) (lv_sent v)) as Hv by by apply started_messages.
  destruct (negb (is_empty (cc_ID from)) && _) eqn:Eg.
  - destruct (push_cases Write (FGap "cursor_expired") v) as [[Ho E]|[E|[_ E]]]; rewrite E; split; cbn [lv_sent lv_over lv_after lv_generation at_id over]; try done.
    + by rewrite Ho.
    + apply Forall_app. by split; [|apply Forall_singleton].
    + intros _ _ Ha. by rewrite anchor_snoc in Ha.
  - split; [done|]. cbn [lv_sent lv_over lv_after lv_generation at_id over]. intros _ Hne%is_empty_false _.
    rewrite Hne in Eg. cbn in Eg. apply orb_false_iff in Eg as [Eg _]. b2p. rewrite Hne. unfold or_zero. by rewrite Hne.
Qed.

Lemma heartbeat_goes_on v : yields (goes_on v) (heartbeat Write v).
Proof.
  apply yields_any. intros now. case_match; [|by apply yields_ret].
  do 2 (apply yields_any; intros ?). apply yields_ret. etrans; [by apply (push_goes_on Write (FHeartbeat a))|].
  exists []. by rewrite app_nil_r.
Qed.
Lemma status_goes_on v : yields (goes_on v) (status_check channel check Write v).
Proof.
  apply yields_any. intros now. case_match; [|by apply yields_ret].
  do 2 (apply yields_any; intros ?). apply yields_ret. set (v1 := match a with Ok _ => _ | Err _ => _ end).
  assert (goes_on v v1) as Hv.
  { unfold v1. repeat case_match; try reflexivity. etrans; [by eapply (push_goes_on Write (FStatus _ _))|].
    exists []. by rewrite app_nil_r. }
  etrans; [exact Hv|]. exists []. by rewrite app_nil_r.
Qed.

Lemma greeted_settled G from H v : greeted from v -> settled G from H v.
Proof.
  intros [Hf Hv]. assert (forall z, FChat z ∉ lv_sent v) as Hn.
  { intros z Hz. rewrite Forall_forall in Hf. by destruct (Hf _ Hz z). }
  split; [split|].
  - intros z Hz. by destruct (Hn z).
  - intros f1 z f3 i E _. destruct (Hn z). rewrite E. apply elem_of_app. right. by left.
  - intros Ho a Ha i (c & Hc & Hg & Hi & H0).
    assert (c = from) as ->.
    { clear -Hc Hf. revert Hc. induction (lv_sent v) as [|f l IH] using rev_ind; [by intros [= ->]|].
      apply Forall_app in Hf as [Hl [Hf _]%Forall_cons]. rewrite anchor_snoc.
      destruct f as [| | |z| |]; auto; [done|]. by destruct (Hf z). }
    destruct (Hv Ho) as [Eg E]; [by intros E; rewrite E in Hi|congruence|]. rewrite E, Hi in Ha. injection Ha as <-.
    split_and!; [congruence|apply irreflexivity, _|by left|done].
Qed.

Lemma round_settled G from H v e s v' s' : G <> EmptyString -> settled G from H v ->
  wf (ChatStreamKey PlatformSoop channel) (rds (db s)) -> front channel G H (rds (db s)) ->
  (forall x, holds channel G (rds (db s)) x -> H x) ->
  live_round v e s = (Ok v', s') -> settled G from H v'.
Proof.
  intros HG Hv W F Hh (b & s1 & H1 & H2)%bind_ok. apply try_ok, zoom_run in H1 as (w & H1 & _).
  destruct b as [b|x].
  - pose proof (settled_take channel G HG from Write H v e _ b w Hv H1 W F Hh) as Ht.
    set (v1 := take_live Write b v) in *.
    assert (yields (goes_on v1) (unless_over v1 (v ← heartbeat Write v1; unless_over v (status_check channel check Write v)))) as Hy.
    { unfold unless_over. case_match; [by apply yields_ret|].
      apply (yields_bind (goes_on v1)); [apply heartbeat_goes_on|]. intros v2 Hv2.
      case_match; [by apply yields_ret|]. intros e0 s0 v3 s3 E. etrans; [exact Hv2|]. by eapply status_goes_on. }
    eapply settled_goes_on; [exact Ht|]. by eapply Hy.
  - apply ret_ok in H2 as [<- _]. apply settled_over; [|done]. apply (push_told G from Write H); [done|apply Hv].
Qed.
End Handlers.

(** ** A call over time *)

(** An iteration, the end of the call's context, a publication or a trim of
    the channel's stream, keys deleted by the clean-up, anything else. *)
Inductive live_step :=
| LRound
| LDone
| LPublish (msg : ChatMessage)
| LTrim
| LDelete (ks : list string)
| LOther (m : Mapi unit).

Section Calls.
Context (channel : string) (check : string -> Mapi (option BroadcastStatus)) (Write : nat -> bool).
Notation k := (ChatStreamKey PlatformSoop channel).
Notation gk := (generation_key k).

Definition do_live (e : env) (x : live_step) (st : world api * live) : world api * live :=
  let '(s, v) := st in
  match x with
  | LRound =>
      if lv_over v then st
      else match live_round channel check Write v e s with
           | (Ok v', s') => (s', v')
           | (Err _, s') => (s', over v)
           end
  | LDone => (s, over v)
  | LPublish msg => ((on_redis (product_script msg) e s).2, v)
  | LTrim => ((on_redis (TrimProductChat channel) e s).2, v)
  | LDelete ks => ((on_redis (DeleteChatStreams ks) e s).2, v)
  | LOther m => ((m e s).2, v)
  end.

Definition nothing_sent : live := Live EmptyString EmptyString [] 0 0 ("", "", "")%string true.
(** The greeting, then the steps. *)
Definition live_call (cursor : chatCursor) (e : env) (s : world api) (l : list live_step) : world api * live :=
  run_of (do_live e) l (match greet channel check Write cursor e s with
                        | (Ok v, s') => (s', v)
                        | (Err _, s') => (s', nothing_sent)
                        end).

(** What the stream has held under a generation, from the greeting on. *)
Definition live_held (cursor : chatCursor) (e : env) (s : world api) (l : list live_step) (G : string) (x : entry) : Prop :=
  exists l1 l2, l = l1 ++ l2 /\ holds channel G (rds (db (live_call cursor e s l1).1)) x.

Definition live_ok (x : live_step) : Prop :=
  match x with
  | LPublish msg => m_Platform msg = PlatformSoop /\ m_ChannelID msg = channel
  | LOther m => forall e s, keys (rds (db (m e s).2)) !! k = keys (rds (db s)) !! k /\
                            keys (rds (db (m e s).2)) !! gk = keys (rds (db s)) !! gk
  | _ => True
  end.

Context (check_redis : forall c, relates same_redis (check c)).

Section Generation.
Context (G : string) (HG : G <> EmptyString) (e : env) (Hclock : clock_ok e) (Hfresh : fresh_ok G e).

Lemma on_redis_grows {A} (m : M redis A) s : m_grows channel G e m ->
  grows k gk G (rds (db s)) (rds (db (on_redis m e s).2)).
Proof.
  intros Hm. unfold on_redis, zoom. specialize (Hm (World (rds (db s)) (rds (db s)) (tick s))).
  by destruct (m e _).
Qed.

Lemma live_step_settled from H x st : live_ok x -> wf k (rds (db st.1)) -> front channel G H (rds (db st.1)) ->
  (forall x, holds channel G (rds (db st.1)) x -> H x) -> settled G from H st.2 ->
  grows k gk G (rds (db st.1)) (rds (db (do_live e x st).1)) /\ settled G from H (do_live e x st).2.
Proof.
  destruct st as [s v]. cbn [fst snd]. intros Hx W F Hh Hv. destruct x as [| |msg| |ks|m]; cbn [do_live fst snd].
  - destruct (lv_over v) eqn:Ho; [split; [apply grows_refl|done]|].
    pose proof (round_redis channel check Write check_redis v e s) as Hr. unfold same_redis in Hr.
    destruct (live_round channel check Write v e s) as [[v'|x] s'] eqn:E; cbn [fst snd] in *; rewrite Hr;
      (split; [apply grows_refl|]).
    + by eapply round_settled.
    + apply settled_over; [apply Hv|done].
  - split; [apply grows_refl|]. apply settled_over; [apply Hv|done].
  - destruct Hx. split; [|done]. by apply on_redis_grows, m_grows_product.
  - split; [|done]. by apply on_redis_grows, m_grows_trim.
  - split; [|done]. by apply on_redis_grows, m_grows_delete.
  - split; [|done]. destruct (Hx e s). by apply grows_same.
Qed.
End Generation.

Lemma call_settled cursor l e s G : G <> EmptyString -> clock_ok e -> fresh_ok G e ->
  wf k (rds (db s)) -> Forall live_ok l ->
  settled G cursor (live_held cursor e s l G) (live_call cursor e s l).2.
Proof.
  intros HG Hc Hf W Hl. unfold live_held, live_call.
  set (st0 := match greet channel check Write cursor e s with (Ok v, s') => (s', v) | (Err _, s') => _ end).
  assert (rds (db st0.1) = rds (db s) /\ greeted cursor st0.2) as [Er Hs].
  { pose proof (greet_redis channel check Write check_redis cursor e s) as Hr.
    pose proof (greet_greeted channel check Write cursor e s) as Hy. unfold st0.
    destruct (greet channel check Write cursor e s) as [[v|x] s']; cbn in *; split; try done.
    by eapply Hy. }
  destruct (held_run channel G (do_live e) (fun st => rds (db st.1)) live_ok (fun H st => settled G cursor H st.2) l st0)
    as (_ & _ & _ & HR); try done.
  - intros H H' st Hext [T St]. split; [by eapply told_extends|]. intros Ho a Ha. eapply standing_extends; [done|auto].
  - intros H z st. by apply live_step_settled.
  - by rewrite Er.
  - by apply greeted_settled.
Qed.

(** C32: on the public stream, whatever iterations, publications, trims,
    deletions and other commands happen and wherever writing stops: every
    message sent under a generation shows an entry the stream has held under
    it; and when the subscriber's position before a message (the cursor of the
    message before it, or the one it resumed with, no gap having been announced
    since) is an id of the generation, that message is of the same generation,
    comes after the position, and every entry the stream has held between them
    was not for the subscriber (not a chat message of a user) or could not be
    shown for want of a time, which an [invalid_event] gap frame announced. *)
Theorem public_stream_complete cursor l e s G :
  clock_ok e -> wf k (rds (db s)) -> Forall live_ok l -> G <> EmptyString -> fresh_ok G e ->
  let sent := lv_sent (live_call cursor e s l).2 in
  let was_held := live_held cursor e s l G in
  (forall z, FChat z ∈ sent -> cc_Generation (cv_cursor z) = G -> exists xz, was_held xz /\ shows G xz z) /\
  (forall f1 z f3 c i, sent = f1 ++ FChat z :: f3 ->
     anchor cursor f1 = Some c -> cc_Generation c = G -> id_of (cc_ID c) = Some i -> id_lt (0, 0) i ->
     exists xz, was_held xz /\ shows G xz z /\ id_lt i (en_id xz) /\
       forall x, was_held x -> id_lt i (en_id x) -> id_lt (en_id x) (en_id xz) ->
         verdict (message x) = NotChat \/
         (verdict (message x) = BadTime /\ FGap "invalid_event" ∈ f1)).
Proof.
  intros Hc W Hl HG Hf sent was_held. destruct (call_settled cursor l e s G HG Hc Hf W Hl) as [[O T] _].
  split; [exact O|]. intros f1 z f3 c i E Ha Hg Hi H0. apply (T f1 z f3 i E). by exists c.
Qed.
End Calls.

(** ** A subscriber that resumes *)

Module LiveDemo.
Definition generation : string := "generation-0".
(** A second per tick, a thousand times. *)
Definition at_ (n : nat) : Z := (1700000000 + Z.of_nat (Nat.min n 1000)) * second.
Definition env_of (name : string) : env := Env (fun _ => false) (fun _ => false) at_ at_ (fun n => name +:+ format_uint (Z.of_nat n)).
Definition chat (t : MessageType) (id user : string) : ChatMessage :=
  MkMessage id t PlatformSoop "bj1" "streamer" user "User" ("hello " +:+ id)
    (1700000000 * second) "raw" (S754_zero false) "" 0 [].
Definition publish (id : string) : live_step := LPublish (chat MessageTypeChat id "u1").
(** The process that published before the call, and the ones during it. *)
Definition e : env := env_of "uuid-".
Definition before : world redis :=
  (product_script (chat MessageTypeChat "m0" "u1") (env_of "generation-") (World (Redis ∅ []) (Redis ∅ []) 0)).2.
Definition start : world api :=
  let a := Api (db before) empty_db (Server None 0 0 ∅ (S754_zero false) 0 0 0) in World a a (tick before).
Definition check (_ : string) : Mapi (option BroadcastStatus) := mret None.
Definition from : chatCursor := MkChatCursor generation "1700000002000-0".
Definition schedule : list live_step :=
  [publish "m1"; LRound; LPublish (chat MessageTypeSystem "n" ""); LTrim; publish "m2"; LRound].
Definition call (from : chatCursor) : world api * live := live_call "bj1" check (fun _ => true) from e start schedule.
Definition kind (f : frame) : string :=
  match f with
  | FHello _ _ _ _ _ _ => "hello" | FGap r => r | FError c => c | FChat z => cv_eventId z
  | FHeartbeat _ => "heartbeat" | FStatus _ _ => "status"
  end.
Definition sent : list frame := lv_sent (call from).2.
Definition last_message : chat_event :=
  match sent !! 2%nat with Some (FChat z) => z | _ => ChatShown "" no_chat_cursor 0 "" "" end.

(** Resumed at the oldest entry nothing is announced; before it, a gap is. *)
Example resumed_and_expired : map kind sent = ["hello"; "m1"; "m2"; "heartbeat"]%string /\
  map kind (lv_sent (call (MkChatCursor generation "1700000001000-0")).2)
    = ["hello"; "cursor_expired"; "m1"; "m2"; "heartbeat"]%string.
Proof. vm_compute. done. Qed.

Lemma live_clock name : clock_ok (env_of name).
Proof.
  intros n. unfold env_of, clock, at_, unix_milli, second, millisecond, u64_max.
  assert (0 <= Z.of_nat (Nat.min n 1000) <= 1000) as H by lia. revert H. generalize (Z.of_nat (Nat.min n 1000)).
  intros m H. Z.to_euclidean_division_equations; lia.
Qed.
Lemma live_before : wf (ChatStreamKey PlatformSoop "bj1") (db before).
Proof.
  assert (fresh_ok "other" (env_of "generation-")) as Hf by (intros n; discriminate).
  apply (gr_wf _ _ _ _ _ (m_grows_product "bj1" "other" _ (chat MessageTypeChat "m0" "u1") (live_clock _) Hf
    eq_refl eq_refl (World (Redis ∅ []) (Redis ∅ []) 0))).
  intros l last ex H. cbn in H. by rewrite lookup_empty in H.
Qed.
End LiveDemo.

Lemma public_stream_complete_witness :
  LiveDemo.last_message = ChatShown "m2" (MkChatCursor LiveDemo.generation "1700000027000-0") (1700000000 * second) "User" "hello m2" /\
  exists xz, live_held "bj1" LiveDemo.check (fun _ => true) LiveDemo.from LiveDemo.e LiveDemo.start LiveDemo.schedule LiveDemo.generation xz /\
    shows LiveDemo.generation xz LiveDemo.last_message.
Proof.
  split; [vm_compute; reflexivity|].
  pose proof (proj2 (public_stream_complete "bj1" LiveDemo.check (fun _ => true) ltac:(by intros c e0 s0)
    LiveDemo.from LiveDemo.schedule LiveDemo.e LiveDemo.start LiveDemo.generation (LiveDemo.live_clock _) LiveDemo.live_before ltac:(repeat constructor) ltac:(discriminate)
    ltac:(intros n; discriminate)) (take 2 LiveDemo.sent) LiveDemo.last_message (drop 3 LiveDemo.sent)
    (MkChatCursor LiveDemo.generation "1700000012000-0") (1700000012000, 0)
    ltac:(vm_compute; reflexivity) ltac:(vm_compute; reflexivity) eq_refl
    ltac:(vm_compute; reflexivity) ltac:(vm_compute; reflexivity)) as (xz & H1 & H2 & _).
  by exists xz.
Defined.
