(* ===== verification/Manager.v ===== *)
(** A worker's connection manager (src/worker/internal/manager.go): the map of
    connections behind its lock, the calls of [Connect] in flight, the
    teardowns, and everything else as the sections between two lock
    operations, in any order. *)
From S2P Require Import Prelude GoLib GoText Tx Model Db.
From S2P Require Import Channels Redis.

(** ** Classification *)

Definition classifyConnectorError (err : option string) : string :=
  match err with
  | None => "ws_closed"
  | Some text =>
      let msg := to_lower text in
      if contains msg "read timeout" then "zombie_reaped"
      else if contains msg "ws ping failed" || contains msg "ping write failed"
      then "liveness_ping_failed"
      else if contains msg "handshake" || contains msg "login rejected" || contains msg "join rejected"
      then "handshake_failed"
      else "ws_closed"
  end.
Definition isZombieReason (reason : string) : bool :=
  String.eqb reason "zombie_reaped" || String.eqb reason "liveness_ping_failed".

Definition ConnectTimeout : Z := 10 * second.
Definition PerPlatformConcurrency : nat := 30.
Definition BurstPerPlatformConcurrency : nat := 60.
Definition ReconcileMaxBatch : nat := 300.
Definition BurstReconcileMaxBatch : nat := 1000.

Definition connKey (platform channelID : string) : string := platform +:+ ":" +:+ channelID.
Definition key_of (ch : channel) : string := connKey (lc_platform ch.2) (lc_channel ch.2).

(** ** State *)

(** [activeConn], by its address: the connector's context, the release of its
    collection grant, the connector itself. *)
Record activeConn := MkConn {
  ac_key : string;
  ac_channel : channel;
  ac_cancelled : bool;
  ac_released : bool;
  ac_disconnected : bool
}.

(** A call of [Connect] after its first critical section. *)
Inductive phase :=
| Reserved                          (* the key is marked, nothing created *)
| Dialing (o : nat)                 (* the connector is being dialled *)
| Dialed (o : nat)                  (* it answered; not in the map yet *)
| Inserted (o : nat)                (* in the map; the goroutines not started *)
| Leaving (o : option nat) (r : result unit).  (* to return [r]; not connected *)

Record call := MkCall { ca_key : string; ca_channel : channel; ca_phase : phase }.

Record backoffEntry := MkBackoff {
  bo_firstFail : Z; bo_lastFail : Z; bo_failures : Z; bo_unassignSent : bool
}.

Record manager := MkManager {
  collectionChannel : option string;
  maxConn : Z;
  conns : gmap string nat;
  heap : gmap nat activeConn;
  connecting : gset string;
  dialing : Z;
  calls : gmap nat call;
  handlers : gset nat;       (* [handleErrors] waiting *)
  removing : gset nat;       (* [handleErrors] between the teardown and the map *)
  closing : gset nat;        (* taken out of the map, to be torn down *)
  connDone : bool;           (* [connCtx] is cancelled *)
  stopSnap : bool;           (* [stopSnap] is closed *)
  panicked : bool;
  connectBackoff : gmap string backoffEntry;
  next : nat
}.

Definition NewManager (channel : option string) (max : Z) : manager :=
  MkManager channel max ∅ ∅ ∅ 0 ∅ ∅ ∅ ∅ false false false ∅ 0.

Definition set_conns (f : gmap string nat -> gmap string nat) (m : manager) : manager :=
  MkManager (collectionChannel m) (maxConn m) (f (conns m)) (heap m) (connecting m) (dialing m)
    (calls m) (handlers m) (removing m) (closing m) (connDone m) (stopSnap m) (panicked m)
    (connectBackoff m) (next m).
Definition set_heap (f : gmap nat activeConn -> gmap nat activeConn) (m : manager) : manager :=
  MkManager (collectionChannel m) (maxConn m) (conns m) (f (heap m)) (connecting m) (dialing m)
    (calls m) (handlers m) (removing m) (closing m) (connDone m) (stopSnap m) (panicked m)
    (connectBackoff m) (next m).
Definition set_reserved (f : gset string -> gset string) (n : Z) (m : manager) : manager :=
  MkManager (collectionChannel m) (maxConn m) (conns m) (heap m) (f (connecting m)) (dialing m + n)
    (calls m) (handlers m) (removing m) (closing m) (connDone m) (stopSnap m) (panicked m)
    (connectBackoff m) (next m).
Definition set_calls (f : gmap nat call -> gmap nat call) (m : manager) : manager :=
  MkManager (collectionChannel m) (maxConn m) (conns m) (heap m) (connecting m) (dialing m)
    (f (calls m)) (handlers m) (removing m) (closing m) (connDone m) (stopSnap m) (panicked m)
    (connectBackoff m) (next m).
Definition set_tasks (h r c : gset nat) (m : manager) : manager :=
  MkManager (collectionChannel m) (maxConn m) (conns m) (heap m) (connecting m) (dialing m)
    (calls m) h r c (connDone m) (stopSnap m) (panicked m) (connectBackoff m) (next m).
Definition set_done (done snap panic : bool) (m : manager) : manager :=
  MkManager (collectionChannel m) (maxConn m) (conns m) (heap m) (connecting m) (dialing m)
    (calls m) (handlers m) (removing m) (closing m) done snap panic (connectBackoff m) (next m).
Definition set_backoff (f : gmap string backoffEntry -> gmap string backoffEntry) (m : manager)
  : manager :=
  MkManager (collectionChannel m) (maxConn m) (conns m) (heap m) (connecting m) (dialing m)
    (calls m) (handlers m) (removing m) (closing m) (connDone m) (stopSnap m) (panicked m)
    (f (connectBackoff m)) (next m).
Definition bump_next (m : manager) : manager :=
  MkManager (collectionChannel m) (maxConn m) (conns m) (heap m) (connecting m) (dialing m)
    (calls m) (handlers m) (removing m) (closing m) (connDone m) (stopSnap m) (panicked m)
    (connectBackoff m) (S (next m)).

(** [ac.cancel()], [ac.releaseCollection()], [ac.connector.Disconnect()]. *)
Definition cancel (a : activeConn) : activeConn :=
  MkConn (ac_key a) (ac_channel a) true (ac_released a) (ac_disconnected a).
Definition release (a : activeConn) : activeConn :=
  MkConn (ac_key a) (ac_channel a) (ac_cancelled a) true (ac_disconnected a).
Definition disconnect (a : activeConn) : activeConn :=
  MkConn (ac_key a) (ac_channel a) (ac_cancelled a) (ac_released a) true.
Definition teardown (a : activeConn) : activeConn := disconnect (release (cancel a)).

Definition without_handoff (ch : channel) : channel :=
  let r := ch.2 in
  (ch.1, LiveRow (lc_platform r) (lc_channel r) (lc_streamer r) (lc_viewers r) (lc_status r)
    (lc_worker r) (lc_discovered_at r) (lc_last_seen_at r) (lc_ended_at r) None
    (lc_handoff_status r) (lc_handoff_started_at r)).
Definition clear_handoff (a : activeConn) : activeConn :=
  MkConn (ac_key a) (without_handoff (ac_channel a)) (ac_cancelled a) (ac_released a) (ac_disconnected a).

Definition on_heap (o : nat) (f : activeConn -> activeConn) : manager -> manager :=
  set_heap (alter f o).

(** The context of a connection is done. *)
Definition done_ (m : manager) (o : nat) : bool :=
  connDone m || match heap m !! o with Some a => ac_cancelled a | None => false end.

(** ** Connect *)

Definition permits (m : manager) (ch : channel) : bool :=
  match collectionChannel m with
  | None => true
  | Some c => negb (is_empty c) && String.eqb (lc_platform ch.2) PlatformSoop
              && String.eqb (lc_channel ch.2) c
  end.

(** Up to the first unlock: the error or nil it returns, or the call goes on. *)
Definition connect_enter (ch : channel) (opted : bool) (m : manager) : manager * option (result unit) :=
  if negb (permits m ch) then (m, Some (Err (ErrMsg "collection scope denied")))
  else if opted then (m, Some (Ok tt))
  else
    let key := key_of ch in
    if bool_decide (is_Some (conns m !! key)) || bool_decide (key ∈ connecting m)
    then (m, Some (Ok tt))
    else if (0 <? maxConn m) && (maxConn m <=? Z.of_nat (size (conns m)) + dialing m)
    then (m, Some (Err (ErrMsg "max connections reached")))
    else (bump_next (set_reserved (union {[key]}) 1
           (set_calls (insert (next m) (MkCall key ch Reserved)) m)), None).

Definition set_phase (i : nat) (p : phase) : manager -> manager :=
  set_calls (alter (fun c => MkCall (ca_key c) (ca_channel c) p) i).

Inductive preparation := FactoryFails (e : error) | PrepareFails (e : error) | Prepared.

(** The connector and the collection session. *)
Definition connect_prepare (i : nat) (r : preparation) (m : manager) : manager :=
  match calls m !! i with
  | Some c =>
      match ca_phase c with
      | Reserved =>
          match r with
          | FactoryFails e => set_phase i (Leaving None (Err e)) m
          | PrepareFails e => set_phase i (Leaving None (Err e)) m
          | Prepared =>
              let o := next m in
              bump_next (set_phase i (Dialing o)
                (set_heap (insert o (MkConn (ca_key c) (ca_channel c) false false false)) m))
          end
      | _ => m
      end
  | None => m
  end.

Inductive dial := DialOk | DialErr (e : error) | DialTimeout.

(** The dial's answer, or ten seconds, and the check of the context. *)
Definition connect_dialed (i : nat) (r : dial) (m : manager) : manager :=
  match calls m !! i with
  | Some c =>
      match ca_phase c with
      | Dialing o =>
          match r with
          | DialTimeout => set_phase i (Leaving (Some o) (Err (ErrMsg "timeout"))) (on_heap o cancel m)
          | DialErr e => set_phase i (Leaving (Some o) (Err e)) (on_heap o cancel m)
          | DialOk =>
              if done_ m o
              then set_phase i (Leaving (Some o) (Err ErrContext)) (on_heap o disconnect m)
              else set_phase i (Dialed o) m
          end
      | _ => m
      end
  | None => m
  end.

(** The second critical section. *)
Definition connect_insert (i : nat) (m : manager) : manager :=
  match calls m !! i with
  | Some c =>
      match ca_phase c with
      | Dialed o =>
          match conns m !! ca_key c with
          | Some _ => set_phase i (Leaving (Some o) (Ok tt))
                        (on_heap o (fun a => disconnect (cancel a)) m)
          | None => set_phase i (Inserted o) (set_conns (insert (ca_key c) o) m)
          end
      | _ => m
      end
  | None => m
  end.

(** The rest: the handoff is acknowledged ([acked]: the statement succeeded)
    and the goroutines start, or the grant is released; then the deferred
    critical section. *)
Definition connect_return (i : nat) (acked : bool) (m : manager) : manager :=
  match calls m !! i with
  | Some c =>
      let leave m := set_calls (delete i) (set_reserved (fun s => s ∖ {[ca_key c]}) (-1) m) in
      match ca_phase c with
      | Inserted o =>
          leave (set_tasks ({[o]} ∪ handlers m) (removing m) (closing m)
                  (if acked then on_heap o clear_handoff m else m))
      | Leaving (Some o) _ => leave (on_heap o release m)
      | Leaving None _ => leave m
      | _ => m
      end
  | None => m
  end.

(** ** Teardown *)

(** [Disconnect] up to its unlock. *)
Definition Disconnect (key : string) (m : manager) : manager * result unit :=
  match conns m !! key with
  | None => (m, Err (ErrMsg ("no connection for " +:+ key)))
  | Some o => (set_tasks (handlers m) (removing m) ({[o]} ∪ closing m)
                 (set_conns (delete key) m), Ok tt)
  end.

(** Its rest, and that of [DisconnectAll]. *)
Definition close (o : nat) (m : manager) : manager :=
  if bool_decide (o ∈ closing m)
  then set_tasks (handlers m) (removing m) (closing m ∖ {[o]}) (on_heap o teardown m)
  else m.

(** A channel that is closed twice panics. *)
Definition DisconnectAll (m : manager) : manager :=
  if stopSnap m then set_done true true true m
  else set_tasks (handlers m) (removing m)
         (list_to_set (map snd (map_to_list (conns m))) ∪ closing m)
         (set_conns (fun _ => ∅) (set_done true true (panicked m) m)).

(** [handleErrors] takes an error: the teardown. *)
Definition handle_error (o : nat) (m : manager) : manager :=
  if bool_decide (o ∈ handlers m)
  then set_tasks (handlers m ∖ {[o]}) ({[o]} ∪ removing m) (closing m) (on_heap o teardown m)
  else m.

(** Its critical section: whatever connection the key has goes. *)
Definition handle_remove (o : nat) (m : manager) : manager :=
  if bool_decide (o ∈ removing m)
  then match heap m !! o with
       | Some a => set_tasks (handlers m) (removing m ∖ {[o]}) (closing m)
                     (set_conns (delete (ac_key a)) m)
       | None => m
       end
  else m.

(** [handleErrors] sees its context done, or the channel of errors closed. *)
Definition handle_done (o : nat) (closed : bool) (m : manager) : manager :=
  if bool_decide (o ∈ handlers m) && (closed || done_ m o)
  then set_tasks (handlers m ∖ {[o]}) (removing m) (closing m) m else m.

(** A failed renewal (collection.go): [stop()] and the connector's
    [Disconnect]; [m.Disconnect] of the key follows. *)
Definition renewal_failed (o : nat) (m : manager) : manager :=
  on_heap o (fun a => disconnect (cancel a)) m.

(** ** Reconciliation *)

Definition backoffDuration : Z := 30 * second.

(** The assigned channels the worker may collect; the last of a key wins. *)
Definition desired (assigned : list channel) (opted : channel -> bool) (m : manager)
  : gmap string channel :=
  fold_left (fun d ch => if negb (permits m ch) || opted ch then d else <[key_of ch := ch]> d)
    assigned ∅.

Definition active_keys (platform : string) (m : manager) : list string :=
  map fst (List.filter (fun '(_, o) =>
    match heap m !! o with
    | Some a => String.eqb (lc_platform (ac_channel a).2) platform
    | None => false
    end) (map_to_list (conns m))).

Definition drop_stale_backoff (now : Z) : manager -> manager :=
  set_backoff (filter (fun '(_, b) => time_sub now (bo_lastFail b) < 10 * minute)).

(** Not connected, and not failed within the backoff. *)
Definition is_missing (now : Z) (m : manager) (key : string) : bool :=
  negb (bool_decide (is_Some (conns m !! key)))
  && match connectBackoff m !! key with
     | Some b => negb (time_sub now (bo_lastFail b) <? backoffDuration)
     | None => true
     end.

Section Reconcile.
(** The order in which Go ranges over the map. *)
Context (range : gmap string channel -> list (string * channel)).

Definition missing (now : Z) (d : gmap string channel) (m : manager) : list channel :=
  map snd (List.filter (fun '(key, _) => is_missing now m key) (range d)).

(** The batch to connect, and how many at a time. *)
Definition batch (l : list channel) : list channel * nat :=
  if (100 <? length l)%nat then (take BurstReconcileMaxBatch l, BurstPerPlatformConcurrency)
  else (take ReconcileMaxBatch l, PerPlatformConcurrency).
End Reconcile.

(** What a failed [Connect] of the batch leaves and publishes. *)
Definition connect_failed (worker : string) (now : Z) (ch : channel) (m : manager)
  : manager * list CoordEvent :=
  let key := key_of ch in
  let old := default (MkBackoff zero_time zero_time 0 false) (connectBackoff m !! key) in
  let entry := MkBackoff (if is_zero_time (bo_firstFail old) then now else bo_firstFail old)
                 now (bo_failures old + 1) (bo_unassignSent old) in
  let event t := MkCoordEvent t (lc_platform ch.2) (lc_channel ch.2) worker in
  let closed := if bo_failures entry =? 3 then [event CoordEventWSClosed] else [] in
  if negb (bo_unassignSent entry) && (3 <=? bo_failures entry)
     && (5 * minute <? time_sub now (bo_firstFail entry))
  then (set_backoff (insert key (MkBackoff (bo_firstFail entry) (bo_lastFail entry)
          (bo_failures entry) true)) m, closed ++ [event CoordEventUnassign])
  else (set_backoff (insert key entry) m, closed).

(** The active connections of the platform that are not wanted any more. *)
Definition stale_keys (d : gmap string channel) (active : list string) : list string :=
  List.filter (fun key => negb (bool_decide (is_Some (d !! key)))) active.

Definition ConnectionCount (m : manager) : Z := Z.of_nat (size (conns m)).

(** ** The steps in any order *)

Inductive action :=
| AConnect (ch : channel) (opted : bool)
| APrepare (i : nat) (r : preparation)
| ADialed (i : nat) (r : dial)
| AInsert (i : nat)
| AReturn (i : nat) (acked : bool)
| ADisconnect (key : string)
| AClose (o : nat)
| ADisconnectAll
| AError (o : nat)
| ARemove (o : nat)
| AContextDone (o : nat) (closed : bool)
| ARenewalFailed (o : nat)
| AStaleBackoff (now : Z)
| AConnectFailed (worker : string) (now : Z) (ch : channel).

(** A process that has panicked does nothing more. *)
Definition perform (x : action) (m : manager) : manager :=
  if panicked m then m
  else match x with
  | AConnect ch opted => (connect_enter ch opted m).1
  | APrepare i r => connect_prepare i r m
  | ADialed i r => connect_dialed i r m
  | AInsert i => connect_insert i m
  | AReturn i acked => connect_return i acked m
  | ADisconnect key => (Disconnect key m).1
  | AClose o => close o m
  | ADisconnectAll => DisconnectAll m
  | AError o => handle_error o m
  | ARemove o => handle_remove o m
  | AContextDone o closed => handle_done o closed m
  | ARenewalFailed o => renewal_failed o m
  | AStaleBackoff now => drop_stale_backoff now m
  | AConnectFailed w now ch => (connect_failed w now ch m).1
  end.

Definition perform_all (l : list action) (m : manager) : manager := fold_left (fun m x => perform x m) l m.
