(* ===== verification/ManagerProps.v ===== *)
(** What holds of a worker's connection manager in every order of its steps,
    and two orders that go wrong. *)
From S2P Require Import Prelude GoLib GoText Tx Model Db.
From S2P Require Import Channels Redis Manager.

(** ** Counting the calls still to insert *)

Definition open (c : call) : bool := match ca_phase c with Inserted _ => false | _ => true end.
Definition unit_of (b : bool) : nat := if b then 1 else 0.

Section Count.
Context {A : Type} (p : A -> bool).
Implicit Types M : gmap nat A.

Definition count (M : gmap nat A) : nat := size (filter (fun x => p x.2 = true) M).

Lemma count_insert M i c : M !! i = None -> count (<[i := c]> M) = (unit_of (p c) + count M)%nat.
Proof.
  intros Hi. unfold count. destruct (p c) eqn:E; simpl.
  - rewrite map_filter_insert_True by done. rewrite map_size_insert_None; [done|].
    apply map_lookup_filter_None. by left.
  - rewrite map_filter_insert_False by (simpl; congruence). by rewrite delete_id.
Qed.

Lemma count_delete M i c : M !! i = Some c -> count M = (unit_of (p c) + count (delete i M))%nat.
Proof.
  intros Hi. rewrite <- (insert_delete_id M i c Hi) at 1. apply count_insert. apply lookup_delete_eq.
Qed.

Lemma count_alter M i c f : M !! i = Some c ->
  (count (alter f i M) + unit_of (p c) = count M + unit_of (p (f c)))%nat.
Proof.
  intros Hi. pose proof (count_delete M i c Hi) as H1.
  assert (alter f i M !! i = Some (f c)) as Hf by (by rewrite lookup_alter_eq, Hi).
  pose proof (count_delete _ i _ Hf) as H2. rewrite delete_alter_eq in H2. lia.
Qed.
End Count.

(** ** The invariant *)

Definition phase_object (p : phase) : option nat :=
  match p with
  | Reserved | Leaving None _ => None
  | Dialing o | Dialed o | Inserted o | Leaving (Some o) _ => Some o
  end.
(** The connection a call still has to put in the map or to release. *)
Definition in_flight (p : phase) : option nat :=
  match p with Inserted _ => None | p => phase_object p end.

Record base (m : manager) : Prop := {
  v_dial : dialing m = Z.of_nat (size (calls m));
  v_marked : forall k, k ∈ connecting m <-> exists i c, calls m !! i = Some c /\ ca_key c = k;
  v_once : forall i j c d, calls m !! i = Some c -> calls m !! j = Some d ->
    ca_key c = ca_key d -> i = j;
  v_call : forall i c, calls m !! i = Some c -> (i < next m)%nat /\
    ca_key c = key_of (ca_channel c) /\ permits m (ca_channel c) = true /\
    forall o, phase_object (ca_phase c) = Some o -> exists a, heap m !! o = Some a /\ ac_key a = ca_key c;
  v_conns : forall k o, conns m !! k = Some o -> exists a, heap m !! o = Some a /\ ac_key a = k;
  v_heap : forall o a, heap m !! o = Some a -> (o < next m)%nat /\
    key_of (ac_channel a) = ac_key a /\ permits m (ac_channel a) = true;
  v_handlers : forall o, o ∈ handlers m -> is_Some (heap m !! o);
  v_removing : forall o, o ∈ removing m -> exists a, heap m !! o = Some a /\ ac_released a = true
}.

(** With the connections, the calls that may still make one. *)
Definition within (m : manager) : Prop :=
  0 < maxConn m -> Z.of_nat (size (conns m) + count open (calls m)) <= maxConn m.

(** Every connection is released or something is still going to release it. *)
Definition owned (m : manager) : Prop := forall o a, heap m !! o = Some a ->
  ac_released a = true \/ conns m !! ac_key a = Some o \/
  (exists i c, calls m !! i = Some c /\ in_flight (ca_phase c) = Some o) \/ o ∈ closing m.

Lemma base_start ch max : base (NewManager ch max).
Proof. split; simpl; try (intros; set_solver); try done. Qed.
Lemma within_start ch max : within (NewManager ch max).
Proof. intros Hm. simpl in *. unfold count. rewrite map_filter_empty, !map_size_empty. lia. Qed.
Lemma owned_start ch max : owned (NewManager ch max).
Proof. by intros o a H. Qed.

(** ** Updates of one connection *)

Definition keeps_identity (f : activeConn -> activeConn) : Prop := forall a,
  ac_key (f a) = ac_key a /\ key_of (ac_channel (f a)) = key_of (ac_channel a) /\
  (forall m, permits m (ac_channel (f a)) = permits m (ac_channel a)) /\
  (ac_released a = true -> ac_released (f a) = true).

Lemma lookup_on_heap m o f o' : heap (on_heap o f m) !! o' =
  if decide (o = o') then f <$> heap m !! o' else heap m !! o'.
Proof. unfold on_heap, set_heap; simpl. rewrite lookup_alter. by case_decide; subst. Qed.

Lemma on_heap_some m o f o' a : keeps_identity f -> heap m !! o' = Some a ->
  exists a', heap (on_heap o f m) !! o' = Some a' /\ ac_key a' = ac_key a /\
    (ac_released a = true -> ac_released a' = true).
Proof.
  intros Hf H. rewrite lookup_on_heap, H. destruct (Hf a) as (H1 & H2 & H3 & H4).
  case_decide; simpl; [exists (f a)|exists a]; auto.
Qed.

Lemma base_heap m o f : keeps_identity f -> base m -> base (on_heap o f m).
Proof.
  intros Hf [I1 I2 I3 I5 I6 I7 I8 I9]. split; try done.
  - intros i c Hi. destruct (I5 i c Hi) as (H1 & H2 & H3 & H4). repeat split; try done.
    intros o' Ho. destruct (H4 o' Ho) as (a & Ha & Hk).
    destruct (on_heap_some m o f o' a Hf Ha) as (a' & Ha' & Hk' & _). exists a'. split; [done|congruence].
  - intros k o' Hk. destruct (I6 k o' Hk) as (a & Ha & E).
    destruct (on_heap_some m o f o' a Hf Ha) as (a' & Ha' & Hk' & _). exists a'. split; [done|congruence].
  - intros o' a'. rewrite lookup_on_heap. case_decide as E; [|apply I7].
    destruct (heap m !! o') as [a|] eqn:Ea; [|done]. intros [= <-].
    destruct (I7 _ _ Ea) as (H1 & H2 & H3). destruct (Hf a) as (-> & -> & Hp & _).
    split; [done|]. split; [done|]. change (permits m (ac_channel (f a)) = true). by rewrite Hp.
  - intros o' Ho. destruct (I8 o' Ho) as [a Ha].
    destruct (on_heap_some m o f o' a Hf Ha) as (a' & Ha' & _). by exists a'.
  - intros o' Ho. destruct (I9 o' Ho) as (a & Ha & Hr).
    destruct (on_heap_some m o f o' a Hf Ha) as (a' & Ha' & _ & Hr'). exists a'. auto.
Qed.

Lemma owned_heap m o f : keeps_identity f -> owned m -> owned (on_heap o f m).
Proof.
  intros Hf H o' a'. rewrite lookup_on_heap. case_decide as E.
  - destruct (heap m !! o') as [a|] eqn:Ea; [|done]. intros [= <-].
    destruct (Hf a) as (-> & _ & _ & Hr). destruct (H _ _ Ea) as [?|?]; auto.
  - intros Ha. exact (H _ _ Ha).
Qed.

Lemma id_cancel : keeps_identity cancel. Proof. by intros a. Qed.
Lemma id_release : keeps_identity release. Proof. by intros a. Qed.
Lemma id_disconnect : keeps_identity disconnect. Proof. by intros a. Qed.
Lemma id_drop : keeps_identity (fun a => disconnect (cancel a)). Proof. by intros a. Qed.
Lemma id_teardown : keeps_identity teardown. Proof. by intros a. Qed.
Lemma id_clear : keeps_identity clear_handoff. Proof. by intros a. Qed.
#[local] Hint Resolve id_cancel id_release id_disconnect id_drop id_teardown id_clear : core.

Lemma released_on_heap m o f a : heap (on_heap o f m) !! o = Some a ->
  (forall b, ac_released (f b) = true) -> ac_released a = true.
Proof.
  rewrite lookup_on_heap, decide_True by done. destruct (heap m !! o) as [b|]; [|done].
  intros [= <-] Hf. apply Hf.
Qed.

(** ** The sections of [Connect] *)

Definition at_phase (p : phase) (c : call) : call := MkCall (ca_key c) (ca_channel c) p.

Lemma lookup_phase m i p j : calls (set_phase i p m) !! j =
  if decide (i = j) then at_phase p <$> calls m !! j else calls m !! j.
Proof. unfold set_phase, set_calls; simpl. rewrite lookup_alter. by case_decide; subst. Qed.

Lemma phase_call m i p j d : calls (set_phase i p m) !! j = Some d ->
  exists c, calls m !! j = Some c /\ ca_key d = ca_key c /\ ca_channel d = ca_channel c /\
    ((i = j /\ ca_phase d = p) \/ (i <> j /\ d = c)).
Proof.
  rewrite lookup_phase. case_decide as E.
  - destruct (calls m !! j) as [c|]; [|done]. intros [= <-]. exists c. split_and!; [done..|]. by left.
  - intros H. exists d. split_and!; [done..|]. by right.
Qed.

Lemma base_phase m i c p : calls m !! i = Some c -> base m ->
  (forall o, phase_object p = Some o -> exists a, heap m !! o = Some a /\ ac_key a = ca_key c) ->
  base (set_phase i p m).
Proof.
  intros Hi [I1 I2 I3 I5 I6 I7 I8 I9] Hobj. split; try done.
  - change (dialing m = Z.of_nat (size (alter (at_phase p) i (calls m)))). rewrite I1. f_equal.
    rewrite <- (size_dom (calls m)), <- (size_dom (alter _ _ _)). by rewrite dom_alter_L.
  - intros k. change (connecting (set_phase i p m)) with (connecting m). rewrite I2. split.
    + intros (j & d & Hd & <-). destruct (decide (i = j)) as [<-|Hne].
      * exists i, (at_phase p d). by rewrite lookup_phase, decide_True, Hd.
      * exists j, d. by rewrite lookup_phase, decide_False.
    + intros (j & d & Hd & <-). apply phase_call in Hd as (c' & Hc' & -> & _). by exists j, c'.
  - intros j1 j2 d1 d2 (c1 & H1 & -> & _)%phase_call (c2 & H2 & -> & _)%phase_call E.
    by eapply I3.
  - intros j d (c' & Hc' & -> & -> & Hp)%phase_call.
    destruct (I5 j c' Hc') as (H1 & H2 & H3 & H4). repeat split; try done.
    intros o Ho. destruct Hp as [[-> Hp]|[Hne ->]]; [|by apply H4].
    rewrite Hp in Ho. rewrite Hi in Hc'. injection Hc' as <-. by apply Hobj.
Qed.

Lemma within_phase m i c p : calls m !! i = Some c -> within m -> open c = true ->
  within (set_phase i p m).
Proof.
  intros Hi I Ho Hm. specialize (I Hm).
  pose proof (count_alter open (calls m) i c (at_phase p) Hi) as H2. rewrite Ho in H2.
  change (calls (set_phase i p m)) with (alter (at_phase p) i (calls m)).
  change (conns (set_phase i p m)) with (conns m).
  change (maxConn (set_phase i p m)) with (maxConn m).
  destruct (open (at_phase p c)); simpl in H2; lia.
Qed.

Lemma owned_phase m i c p : calls m !! i = Some c -> owned m ->
  (forall o a, in_flight (ca_phase c) = Some o -> heap m !! o = Some a ->
     in_flight p = Some o \/ ac_released a = true \/ conns m !! ac_key a = Some o \/ o ∈ closing m) ->
  owned (set_phase i p m).
Proof.
  intros Hi H Hp o a Ha. destruct (H o a Ha) as [?|[?|[(j & d & Hd & Hf)|?]]]; auto.
  destruct (decide (i = j)) as [<-|Hne].
  - rewrite Hi in Hd. injection Hd as <-. destruct (Hp o a Hf Ha) as [E|[?|[?|?]]]; auto.
    right. right. left. exists i, (at_phase p c). by rewrite lookup_phase, decide_True, Hi.
  - right. right. left. exists j, d. by rewrite lookup_phase, decide_False.
Qed.

Lemma enter_calls ch opted m : (connect_enter ch opted m).1 = m \/
  (permits m ch = true /\ conns m !! key_of ch = None /\ key_of ch ∉ connecting m /\
   (0 < maxConn m -> Z.of_nat (size (conns m)) + dialing m < maxConn m) /\
   (connect_enter ch opted m).1 = bump_next (set_reserved (union {[key_of ch]}) 1
     (set_calls (insert (next m) (MkCall (key_of ch) ch Reserved)) m))).
Proof.
  unfold connect_enter. destruct (permits m ch) eqn:Ep; [|by left]. simpl.
  destruct opted; [by left|]. destruct (_ || _) eqn:Ek; [by left|].
  destruct (_ && _) eqn:Em; [by left|]. right.
  apply orb_false_iff in Ek as [Ek1 Ek2].
  apply bool_decide_eq_false in Ek1. apply bool_decide_eq_false in Ek2.
  split; [done|]. split; [by apply eq_None_not_Some|]. split; [done|]. split; [|done].
  intros Hm. apply Z.ltb_lt in Hm. rewrite Hm in Em. by apply Z.leb_gt in Em.
Qed.

Lemma fresh_call m : base m -> calls m !! next m = None.
Proof.
  intros B. destruct (calls m !! next m) as [c|] eqn:E; [|done].
  destruct (v_call _ B _ _ E). lia.
Qed.

Lemma base_enter ch opted m : base m -> base (connect_enter ch opted m).1.
Proof.
  intros B. destruct (enter_calls ch opted m) as [->|(Hp & Hk & Hc & _ & ->)]; [done|].
  pose proof (fresh_call m B) as Hn. destruct B as [I1 I2 I3 I5 I6 I7 I8 I9].
  set (c := MkCall (key_of ch) ch Reserved). split; simpl; fold c; try done.
  - rewrite map_size_insert_None, I1 by done. lia.
  - intros k. rewrite elem_of_union, elem_of_singleton, I2. split.
    + intros [->|(i & d & Hd & <-)]; [exists (next m), c; by rewrite lookup_insert_eq|].
      exists i, d. rewrite lookup_insert_ne; [done|]. congruence.
    + intros (i & d & [[<- <-]|[Hne Hd]]%lookup_insert_Some & <-); [by left|right; eauto].
  - intros i j d1 d2. rewrite !lookup_insert_Some.
    intros [[<- <-]|[Hi Hd1]] [[<- <-]|[Hj Hd2]] E; [done| | |by eapply I3];
      exfalso; apply Hc, I2; simpl in E; eauto.
  - intros i d [[<- <-]|[Hi Hd]]%lookup_insert_Some; [split; [lia|done]|].
    destruct (I5 i d Hd) as (H1 & H2). split; [lia|exact H2].
  - intros o a Ha. destruct (I7 o a Ha) as (H1 & H2). split; [lia|exact H2].
Qed.

Lemma within_enter ch opted m : base m -> within m -> within (connect_enter ch opted m).1.
Proof.
  intros B W. destruct (enter_calls ch opted m) as [->|(_ & _ & _ & Hm & ->)]; [done|].
  intros H0. simpl in *. specialize (Hm H0). rewrite count_insert by by apply fresh_call. simpl.
  pose proof (map_size_filter (fun x : nat * call => open x.2 = true) (calls m)) as Hle.
  rewrite (v_dial _ B) in Hm. unfold count. lia.
Qed.

Lemma owned_enter ch opted m : base m -> owned m -> owned (connect_enter ch opted m).1.
Proof.
  intros B H. destruct (enter_calls ch opted m) as [->|(_ & _ & _ & _ & ->)]; [done|].
  intros o a Ha. simpl in *. destruct (H o a Ha) as [?|[?|[(i & c & Hi & Hf)|?]]]; auto.
  right. right. left. exists i, c. rewrite lookup_insert_ne; [done|].
  intros <-. pose proof (fresh_call m B). congruence.
Qed.

(** A section that does not apply does nothing. *)
Ltac calls_case :=
  match goal with
  | |- context [calls ?m !! ?i] =>
      let c := fresh "c" in let Hc := fresh "Hc" in
      destruct (calls m !! i) as [c|] eqn:Hc; [|done];
      let Hp := fresh "Hp" in destruct (ca_phase c) eqn:Hp; try done
  end.

Lemma open_phase c p : ca_phase c = p -> (forall o, p <> Inserted o) -> open c = true.
Proof. unfold open. intros -> Hp. destruct p; try done. by destruct (Hp o). Qed.

(** The connector of a new connection. *)
Definition allocated (c : call) (m : manager) : manager :=
  bump_next (set_heap (insert (next m) (MkConn (ca_key c) (ca_channel c) false false false)) m).

Lemma base_allocated i c m : calls m !! i = Some c -> base m -> base (allocated c m).
Proof.
  intros Hi [I1 I2 I3 I5 I6 I7 I8 I9].
  assert (heap m !! next m = None) as Hn.
  { destruct (heap m !! next m) as [a|] eqn:E; [|done]. destruct (I7 _ _ E). lia. }
  assert (forall o a, heap m !! o = Some a -> <[next m := MkConn (ca_key c) (ca_channel c) false false false]>
    (heap m) !! o = Some a) as Hkeep by (intros o a Ho; rewrite lookup_insert_ne; congruence).
  destruct (I5 i c Hi) as (C1 & C2 & C3 & C4).
  split; try done; simpl.
  - intros j d Hd. destruct (I5 j d Hd) as (H1 & H2 & H3 & H4). split; [lia|].
    split; [done|]. split; [done|]. intros o Ho. destruct (H4 o Ho) as (a & Ha & Hk). eauto.
  - intros k o Hk. destruct (I6 k o Hk) as (a & Ha & E). eauto.
  - intros o a [[<- <-]|[Hne Ha]]%lookup_insert_Some.
    + split; [lia|]. by split.
    + destruct (I7 o a Ha) as (H1 & H2). split; [lia|exact H2].
  - intros o Ho. destruct (I8 o Ho) as [a Ha]. exists a. eauto.
  - intros o Ho. destruct (I9 o Ho) as (a & Ha & Hr). eauto.
Qed.

Lemma base_prepare i r m : base m -> base (connect_prepare i r m).
Proof.
  intros B. unfold connect_prepare. calls_case.
  destruct r; try (eapply base_phase; [exact Hc|exact B|done]).
  change (base (set_phase i (Dialing (next m)) (allocated c m))).
  eapply base_phase; [exact Hc|by eapply base_allocated|].
  intros o [= <-]. eexists. split; [apply lookup_insert_eq|done].
Qed.

Lemma within_prepare i r m : within m -> within (connect_prepare i r m).
Proof.
  intros W. unfold connect_prepare. calls_case. pose proof (open_phase c _ Hp ltac:(done)) as Ho.
  destruct r; by eapply within_phase.
Qed.

Lemma owned_prepare i r m : base m -> owned m -> owned (connect_prepare i r m).
Proof.
  intros B H. unfold connect_prepare. calls_case.
  assert (forall q, owned (set_phase i q m)) as Hq
    by (intros q; eapply owned_phase; [exact Hc|exact H|rewrite Hp; done]).
  destruct r; try apply Hq.
  intros o a Ha. simpl in *. apply lookup_insert_Some in Ha as [[<- <-]|[Hne Ha]].
  - right. right. left. exists i, (at_phase (Dialing (next m)) c).
    by rewrite lookup_alter_eq, Hc.
  - exact (Hq (Dialing (next m)) o a Ha).
Qed.

Lemma object_of m i c o : base m -> calls m !! i = Some c -> phase_object (ca_phase c) = Some o ->
  exists a, heap m !! o = Some a /\ ac_key a = ca_key c.
Proof. intros B Hc. by apply (v_call _ B _ _ Hc). Qed.

(** A phase of the same connection, after an update of it. *)
Lemma base_same m i c o p f : base m -> calls m !! i = Some c ->
  phase_object (ca_phase c) = Some o -> phase_object p = Some o -> keeps_identity f ->
  base (set_phase i p (on_heap o f m)).
Proof.
  intros B Hc Ho Hp Hf. pose proof (base_heap m o f Hf B) as B'.
  eapply base_phase; [exact Hc|exact B'|]. intros o' Ho'.
  rewrite Hp in Ho'. injection Ho' as <-. by eapply object_of.
Qed.

Lemma owned_same m i c o p f : owned m -> calls m !! i = Some c ->
  in_flight (ca_phase c) = Some o -> in_flight p = Some o -> keeps_identity f ->
  owned (set_phase i p (on_heap o f m)).
Proof.
  intros H Hc Ho Hp Hf. eapply owned_phase; [exact Hc|by apply owned_heap|].
  intros o' a' Ho' _. left. congruence.
Qed.

Lemma id_same : keeps_identity (fun a => a). Proof. by intros a. Qed.
Lemma on_heap_same o m : on_heap o (fun a => a) m = m.
Proof.
  unfold on_heap, set_heap. destruct m; simpl. f_equal. apply map_eq. intros j.
  rewrite lookup_alter. case_decide as E; [subst|done]. by destruct (_ !! _).
Qed.
#[local] Hint Resolve id_same : core.

Lemma base_dialed i r m : base m -> base (connect_dialed i r m).
Proof.
  intros B. unfold connect_dialed. calls_case.
  assert (phase_object (ca_phase c) = Some o) as Ho by (by rewrite Hp).
  destruct r; [case_match|..]; try (eapply base_same; eauto; fail).
  rewrite <- (on_heap_same o m). eapply base_same; eauto.
Qed.
Lemma within_dialed i r m : within m -> within (connect_dialed i r m).
Proof.
  intros W. unfold connect_dialed. calls_case. pose proof (open_phase c _ Hp ltac:(done)) as Ho.
  destruct r; [case_match|..]; by eapply within_phase.
Qed.
Lemma owned_dialed i r m : owned m -> owned (connect_dialed i r m).
Proof.
  intros B. unfold connect_dialed. calls_case.
  assert (in_flight (ca_phase c) = Some o) as Ho by (by rewrite Hp).
  destruct r; [case_match|..]; try (eapply owned_same; eauto; fail).
  rewrite <- (on_heap_same o m). eapply owned_same; eauto.
Qed.

(** Putting a connection in the map, and taking one out. *)
Lemma base_put m k o : (exists a, heap m !! o = Some a /\ ac_key a = k) -> base m ->
  base (set_conns (insert k o) m).
Proof.
  intros Ho [I1 I2 I3 I5 I6 I7 I8 I9]. split; try done.
  intros k' o'. simpl. intros [[<- <-]|[Hne Hk]]%lookup_insert_Some; [exact Ho|by apply I6].
Qed.
Lemma base_take m k : base m -> base (set_conns (delete k) m).
Proof.
  intros [I1 I2 I3 I5 I6 I7 I8 I9]. split; try done.
  intros k' o'. simpl. intros [_ Hk]%lookup_delete_Some. by apply I6.
Qed.
Lemma within_take m k : within m -> within (set_conns (delete k) m).
Proof.
  intros W Hm. specialize (W Hm). simpl.
  pose proof (map_subseteq_size _ _ (delete_subseteq (conns m) k)). lia.
Qed.

Lemma base_tasks m h r c : (forall o, o ∈ h -> is_Some (heap m !! o)) ->
  (forall o, o ∈ r -> exists a, heap m !! o = Some a /\ ac_released a = true) ->
  base m -> base (set_tasks h r c m).
Proof. intros Hh Hr [I1 I2 I3 I5 I6 I7 I8 I9]. by split. Qed.

Lemma base_insert i m : base m -> base (connect_insert i m).
Proof.
  intros B. unfold connect_insert. calls_case.
  assert (phase_object (ca_phase c) = Some o) as Ho by (by rewrite Hp).
  destruct (conns m !! ca_key c) as [o'|] eqn:Ek; [eapply base_same; eauto|].
  destruct (object_of m i c o B Hc Ho) as (a & Ha & Hk).
  eapply base_phase; [exact Hc|apply base_put; eauto|].
  intros o' [= <-]. by exists a.
Qed.

Lemma within_insert i m : within m -> within (connect_insert i m).
Proof.
  intros W. unfold connect_insert. calls_case. pose proof (open_phase c _ Hp ltac:(done)) as Ho.
  destruct (conns m !! ca_key c) as [o'|] eqn:Ek; [by eapply within_phase|].
  intros Hm. specialize (W Hm). simpl. rewrite map_size_insert_None by done.
  pose proof (count_alter open (calls m) i c (at_phase (Inserted o)) Hc) as H.
  rewrite Ho in H. simpl in H. unfold at_phase in H. lia.
Qed.

Lemma owned_insert i m : base m -> owned m -> owned (connect_insert i m).
Proof.
  intros B H. unfold connect_insert. calls_case.
  assert (in_flight (ca_phase c) = Some o) as Ho by (by rewrite Hp).
  destruct (conns m !! ca_key c) as [o'|] eqn:Ek; [eapply owned_same; eauto|].
  destruct (object_of m i c o B Hc) as (a & Ha & Hk); [by rewrite Hp|].
  assert (owned (set_conns (insert (ca_key c) o) m)) as H'.
  { intros o' a' Ha'. destruct (H o' a' Ha') as [?|[Hin|?]]; auto.
    right. left. simpl. rewrite lookup_insert_ne; [done|]. intros E. rewrite E in Ek. congruence. }
  eapply owned_phase; [exact Hc|exact H'|]. intros o1 a1 Hf Ha1. rewrite Ho in Hf. injection Hf as <-.
  right. right. left. simpl in Ha1. rewrite Ha in Ha1. injection Ha1 as <-.
  simpl. rewrite Hk. apply lookup_insert_eq.
Qed.

(** The end of a call. *)
Definition leave (i : nat) (c : call) (m : manager) : manager :=
  set_calls (delete i) (set_reserved (fun s => s ∖ {[ca_key c]}) (-1) m).

Lemma base_leave i c m : calls m !! i = Some c -> base m -> base (leave i c m).
Proof.
  intros Hc [I1 I2 I3 I5 I6 I7 I8 I9]. split; try done; simpl.
  - rewrite I1. pose proof (map_size_delete_Some i (calls m) (ex_intro _ c Hc)) as Hs.
    assert (size (calls m) <> 0%nat) by (intros E; apply map_size_empty_inv in E; rewrite E in Hc; done).
    lia.
  - intros k. rewrite elem_of_difference, elem_of_singleton, I2. split.
    + intros [(j & d & Hd & <-) Hne]. exists j, d. split; [|done].
      apply lookup_delete_Some. split; [|done]. intros ->. congruence.
    + intros (j & d & [Hne Hd]%lookup_delete_Some & <-). split; [eauto|].
      intros E. apply Hne. by eapply I3.
  - intros j1 j2 d1 d2 [_ H1]%lookup_delete_Some [_ H2]%lookup_delete_Some. by apply I3.
  - intros j d [_ Hd]%lookup_delete_Some. by apply I5.
Qed.

Lemma within_leave i c m : calls m !! i = Some c -> within m -> within (leave i c m).
Proof.
  intros Hc W Hm. specialize (W Hm). simpl. pose proof (count_delete open (calls m) i c Hc). lia.
Qed.

Lemma owned_leave i c m : calls m !! i = Some c -> owned m ->
  (forall o a, in_flight (ca_phase c) = Some o -> heap m !! o = Some a -> ac_released a = true) ->
  owned (leave i c m).
Proof.
  intros Hc H Hf o a Ha. destruct (H o a Ha) as [?|[?|[(j & d & Hd & Hj)|?]]]; auto.
  destruct (decide (i = j)) as [<-|Hne].
  - left. eapply Hf; [|exact Ha]. congruence.
  - right. right. left. exists j, d. split; [|done]. by apply lookup_delete_Some.
Qed.

Lemma return_cases i acked m : connect_return i acked m = m \/ exists c, calls m !! i = Some c /\
  ((exists o, ca_phase c = Inserted o /\ connect_return i acked m = leave i c
      (set_tasks ({[o]} ∪ handlers m) (removing m) (closing m)
        (if acked then on_heap o clear_handoff m else m))) \/
   (exists o r, ca_phase c = Leaving (Some o) r /\ connect_return i acked m = leave i c (on_heap o release m)) \/
   (exists r, ca_phase c = Leaving None r /\ connect_return i acked m = leave i c m)).
Proof.
  unfold connect_return. destruct (calls m !! i) as [c|] eqn:Hc; [|by left].
  destruct (ca_phase c) as [| | | |[o|] r] eqn:Hp; try (by left); right; exists c; (split; [done|]).
  - left. by exists o.
  - right. left. by exists o, r.
  - right. right. by exists r.
Qed.

Lemma base_return i acked m : base m -> base (connect_return i acked m).
Proof.
  intros B. destruct (return_cases i acked m) as [->|(c & Hc & H)]; [done|].
  destruct H as [(o & Hp & ->)|[(o & r & Hp & ->)|(r & Hp & ->)]].
  - assert (base (if acked then on_heap o clear_handoff m else m)) as B'
      by (destruct acked; [by apply base_heap|done]).
    apply base_leave; [by destruct acked|].
    assert (is_Some (heap (if acked then on_heap o clear_handoff m else m) !! o)) as Ho.
    { destruct (object_of m i c o B Hc) as (a & Ha & _); [by rewrite Hp|].
      destruct acked; [|by exists a].
      destruct (on_heap_some m o clear_handoff o a id_clear Ha) as (a' & Ha' & _). by exists a'. }
    apply base_tasks; [| |done].
    + intros o' [->%elem_of_singleton|Ho']%elem_of_union; [done|].
      apply (v_handlers _ B'). by destruct acked.
    + intros o' Ho'. apply (v_removing _ B'). by destruct acked.
  - apply base_leave; [done|by apply base_heap].
  - by apply base_leave.
Qed.

Lemma within_return i acked m : within m -> within (connect_return i acked m).
Proof.
  intros W. destruct (return_cases i acked m) as [->|(c & Hc & H)]; [done|].
  destruct H as [(o & Hp & ->)|[(o & r & Hp & ->)|(r & Hp & ->)]]; apply within_leave;
    by destruct acked.
Qed.

Lemma owned_return i acked m : owned m -> owned (connect_return i acked m).
Proof.
  intros H. destruct (return_cases i acked m) as [->|(c & Hc & Hr)]; [done|].
  destruct Hr as [(o & Hp & ->)|[(o & r & Hp & ->)|(r & Hp & ->)]].
  - apply owned_leave; [by destruct acked| |by rewrite Hp].
    destruct acked; [by apply owned_heap|exact H].
  - apply owned_leave; [done|by apply owned_heap|]. rewrite Hp. intros o' a [= <-] Ha.
    by eapply released_on_heap.
  - apply owned_leave; [done..|]. by rewrite Hp.
Qed.

(** ** Teardown *)

Lemma base_disconnect k m : base m -> base (Disconnect k m).1.
Proof.
  intros B. unfold Disconnect. destruct (conns m !! k); [|done].
  apply base_tasks; [apply B|apply B|by apply base_take].
Qed.
Lemma within_disconnect k m : within m -> within (Disconnect k m).1.
Proof. intros W. unfold Disconnect. destruct (conns m !! k); [by apply within_take|done]. Qed.
Lemma owned_disconnect k m : owned m -> owned (Disconnect k m).1.
Proof.
  intros H. unfold Disconnect. destruct (conns m !! k) as [o|] eqn:E; [|done].
  intros o' a' Ha. simpl in *. destruct (H o' a' Ha) as [?|[Hin|[?|?]]]; auto.
  - destruct (decide (ac_key a' = k)) as [<-|Hne].
    + right. right. right. rewrite E in Hin. injection Hin as ->. set_solver.
    + right. left. by rewrite lookup_delete_ne.
  - right. right. right. set_solver.
Qed.

Lemma base_close o m : base m -> base (close o m).
Proof.
  intros B. unfold close. case_bool_decide; [|done].
  pose proof (base_heap m o teardown id_teardown B) as B'.
  apply base_tasks; [apply B'|apply B'|done].
Qed.
Lemma within_close o m : within m -> within (close o m).
Proof. intros W. unfold close. by case_bool_decide. Qed.
Lemma owned_close o m : owned m -> owned (close o m).
Proof.
  intros H. unfold close. case_bool_decide as Ho; [|done].
  intros o' a' Ha. change (heap (on_heap o teardown m) !! o' = Some a') in Ha.
  destruct (decide (o' = o)) as [->|Hne]; [left; by eapply released_on_heap|].
  destruct (owned_heap m o teardown id_teardown H o' a' Ha) as [?|[?|[?|?]]]; auto.
  right. right. right. simpl in *. set_solver.
Qed.

Lemma base_all m : base m -> base (DisconnectAll m).
Proof.
  intros [I1 I2 I3 I5 I6 I7 I8 I9]. unfold DisconnectAll. destruct (stopSnap m); by split.
Qed.
Lemma within_all m : within m -> within (DisconnectAll m).
Proof.
  intros W Hm. unfold DisconnectAll in *. destruct (stopSnap m); [by apply W|].
  simpl in *. specialize (W Hm). rewrite map_size_empty. lia.
Qed.
Lemma owned_all m : owned m -> owned (DisconnectAll m).
Proof.
  intros H. unfold DisconnectAll. destruct (stopSnap m); [exact H|].
  intros o a Ha. simpl in *. destruct (H o a Ha) as [?|[Hin|[?|?]]]; auto;
    right; right; right; apply elem_of_union; [left|by right].
  apply elem_of_list_to_set, list_elem_of_In, in_map_iff. exists (ac_key a, o). split; [done|].
  by apply list_elem_of_In, elem_of_map_to_list.
Qed.

Lemma base_error o m : base m -> base (handle_error o m).
Proof.
  intros B. unfold handle_error. case_bool_decide as Ho; [|done].
  pose proof (base_heap m o teardown id_teardown B) as B'. apply base_tasks; [| |done].
  - intros o' Ho'. apply (v_handlers _ B'). simpl. set_solver.
  - intros o' [->%elem_of_singleton|Ho']%elem_of_union; [|by apply (v_removing _ B')].
    destruct (v_handlers _ B' o Ho) as [a Ha]. exists a. split; [done|]. by eapply released_on_heap.
Qed.
Lemma within_error o m : within m -> within (handle_error o m).
Proof. intros W. unfold handle_error. by case_bool_decide. Qed.
Lemma owned_error o m : owned m -> owned (handle_error o m).
Proof.
  intros H. unfold handle_error. case_bool_decide; [|done].
  exact (owned_heap m o teardown id_teardown H).
Qed.

Lemma base_remove o m : base m -> base (handle_remove o m).
Proof.
  intros B. unfold handle_remove. case_bool_decide; [|done]. destruct (heap m !! o) as [a|]; [|done].
  apply base_tasks; [apply B| |by apply base_take].
  intros o' Ho'. apply (v_removing _ B). set_solver.
Qed.
Lemma within_remove o m : within m -> within (handle_remove o m).
Proof.
  intros W. unfold handle_remove. case_bool_decide; [|done]. destruct (heap m !! o); [|done].
  by apply within_take.
Qed.
Lemma base_done o b m : base m -> base (handle_done o b m).
Proof.
  intros B. unfold handle_done. destruct (_ && _); [|done].
  apply base_tasks; [|apply B|done]. intros o' Ho'. apply (v_handlers _ B). set_solver.
Qed.
Lemma within_done o b m : within m -> within (handle_done o b m).
Proof. intros W. unfold handle_done. by destruct (_ && _). Qed.
Lemma owned_done o b m : owned m -> owned (handle_done o b m).
Proof. intros W. unfold handle_done. by destruct (_ && _). Qed.

Lemma base_backoff f m : base m -> base (set_backoff f m).
Proof. intros [I1 I2 I3 I5 I6 I7 I8 I9]. by split. Qed.

(** ** Every order of the steps *)

Lemma perform_base x m : base m -> base (perform x m).
Proof.
  intros B. unfold perform. destruct (panicked m); [done|].
  destruct x; eauto using base_enter, base_prepare, base_dialed, base_insert, base_return,
    base_disconnect, base_close, base_all, base_error, base_remove, base_done, base_heap, base_backoff.
  unfold connect_failed. case_match; by apply base_backoff.
Qed.

Lemma perform_within x m : base m -> within m -> within (perform x m).
Proof.
  intros B W. unfold perform. destruct (panicked m); [done|].
  destruct x; eauto using within_enter, within_prepare, within_dialed, within_insert, within_return,
    within_disconnect, within_close, within_all, within_error, within_remove, within_done.
  unfold connect_failed. by case_match.
Qed.

(** The removal of a connection that is still the one of its key. *)
Definition timely (x : action) (m : manager) : bool :=
  match x with
  | ARemove o =>
      match heap m !! o with
      | Some a => match conns m !! ac_key a with Some o' => (o' =? o)%nat | None => true end
      | None => true
      end
  | _ => true
  end.
Fixpoint timely_all (l : list action) (m : manager) : bool :=
  match l with [] => true | x :: l => timely x m && timely_all l (perform x m) end.

Lemma owned_remove o m : timely (ARemove o) m = true -> base m -> owned m -> owned (handle_remove o m).
Proof.
  intros Ht B H. unfold handle_remove. case_bool_decide as Ho; [|done].
  destruct (heap m !! o) as [a|] eqn:Ea; [|done]. simpl in Ht. rewrite Ea in Ht.
  intros o' a' Ha'. simpl in *. destruct (H o' a' Ha') as [?|[Hin|[?|?]]]; auto.
  destruct (decide (ac_key a' = ac_key a)) as [E|Hne].
  - rewrite E in Hin. rewrite Hin in Ht. apply Nat.eqb_eq in Ht as ->.
    destruct (v_removing _ B o Ho) as (b & Hb & Hr). left. congruence.
  - right. left. by rewrite lookup_delete_ne.
Qed.

Lemma perform_owned x m : timely x m = true -> base m -> owned m -> owned (perform x m).
Proof.
  intros Ht B H. unfold perform. destruct (panicked m); [done|].
  destruct x; eauto using owned_enter, owned_prepare, owned_dialed, owned_insert, owned_return,
    owned_disconnect, owned_close, owned_all, owned_error, owned_remove, owned_done, owned_heap.
  unfold connect_failed. by case_match.
Qed.

Lemma perform_settings x m :
  maxConn (perform x m) = maxConn m /\ collectionChannel (perform x m) = collectionChannel m.
Proof.
  unfold perform. destruct (panicked m); [done|].
  destruct x; simpl; unfold connect_enter, connect_prepare, connect_dialed, connect_insert,
    connect_return, Disconnect, close, DisconnectAll, handle_error, handle_remove, handle_done,
    connect_failed; repeat case_match; done.
Qed.

Definition shuts_down (x : action) : bool := match x with ADisconnectAll => true | _ => false end.

Lemma perform_panic x m : panicked (perform x m) = true ->
  panicked m = true \/ (shuts_down x = true /\ stopSnap m = true).
Proof.
  unfold perform. destruct (panicked m) eqn:Ep; [by left|].
  destruct x; simpl; unfold connect_enter, connect_prepare, connect_dialed, connect_insert,
    connect_return, Disconnect, close, DisconnectAll, handle_error, handle_remove, handle_done,
    connect_failed; repeat case_match; simpl; try congruence; auto.
Qed.
Lemma perform_snap x m : stopSnap (perform x m) = true -> stopSnap m = true \/ shuts_down x = true.
Proof.
  unfold perform. destruct (panicked m) eqn:Ep; [by left|].
  destruct x; simpl; unfold connect_enter, connect_prepare, connect_dialed, connect_insert,
    connect_return, Disconnect, close, DisconnectAll, handle_error, handle_remove, handle_done,
    connect_failed; repeat case_match; simpl; auto.
Qed.

Definition shutdowns (l : list action) : nat := length (List.filter shuts_down l).

Lemma panic_needs_two l m : panicked m = false -> panicked (perform_all l m) = true ->
  (2 <= shutdowns l + unit_of (stopSnap m))%nat.
Proof.
  unfold shutdowns. revert m; induction l as [|x l IH]; intros m Hm Hp; [simpl in Hp; congruence|].
  simpl in *. destruct (panicked (perform x m)) eqn:E.
  - apply perform_panic in E as [E|[E1 E2]]; [congruence|]. rewrite E1, E2. simpl. lia.
  - specialize (IH _ E Hp). destruct (stopSnap (perform x m)) eqn:Es; simpl in IH.
    + apply perform_snap in Es as [->|Es]; simpl; [destruct (shuts_down x); simpl; lia|].
      rewrite Es. simpl. lia.
    + destruct (shuts_down x); simpl; lia.
Qed.

(** ** A connected key is not dialled *)

Definition dialling (p : phase) : bool :=
  match p with Reserved | Dialing _ | Dialed _ => true | _ => false end.
(** No call dials a key that has a connection. *)
Definition undialled (m : manager) : Prop := forall i c, calls m !! i = Some c ->
  dialling (ca_phase c) = true -> conns m !! ca_key c = None.

Lemma undialled_phase m i c p : calls m !! i = Some c -> undialled m ->
  (dialling p = true -> dialling (ca_phase c) = true) -> undialled (set_phase i p m).
Proof.
  intros Hi U Hp j d (c' & Hc' & -> & _ & [[-> E]|[_ ->]])%phase_call Hd; [|by eapply U].
  rewrite Hi in Hc'. injection Hc' as <-. rewrite E in Hd. apply (U _ _ Hi). auto.
Qed.
Lemma undialled_delete key m : undialled m -> undialled (set_conns (delete key) m).
Proof. intros U i c Hc Hd. simpl. rewrite lookup_delete. case_decide; [done|by apply (U i)]. Qed.

Lemma undialled_enter ch b m : base m -> undialled m -> undialled (connect_enter ch b m).1.
Proof.
  intros B U. unfold connect_enter. destruct (negb _); [done|]. destruct b; [done|]. cbv zeta.
  destruct (bool_decide (is_Some _)) eqn:E1; [done|]. destruct (bool_decide (_ ∈ _)); [done|]. cbn [orb].
  destruct (_ && _); [done|]. apply bool_decide_eq_false, eq_None_not_Some in E1.
  intros i c Hc Hd. cbn in Hc |- *. apply lookup_insert_Some in Hc as [[_ <-]|[_ Hc]]; [done|by eapply U].
Qed.

Lemma undialled_insert i m : base m -> undialled m -> undialled (connect_insert i m).
Proof.
  intros B U. unfold connect_insert. destruct (calls m !! i) as [c|] eqn:Ei; [|done].
  destruct (ca_phase c) as [|o|o| |] eqn:Ep; try done. destruct (conns m !! ca_key c) as [o'|] eqn:Ec.
  - exact (undialled_phase (on_heap o (fun a => disconnect (cancel a)) m) i c (Leaving (Some o) (Ok tt)) Ei U ltac:(done)).
  - intros j d (c' & Hc' & -> & _ & [[-> E]|[Hne ->]])%phase_call Hd; [by rewrite E in Hd|].
    cbn in Hc' |- *. rewrite lookup_insert_ne; [by eapply U|]. intros E. apply Hne. by eapply (v_once _ B).
Qed.

Lemma perform_undialled x m : base m -> undialled m -> undialled (perform x m).
Proof.
  intros B U. unfold perform. destruct (panicked m); [done|].
  destruct x as [ch b|i r|i r|i|i acked|key|o| |o|o|o b|o|now|w now ch].
  - by apply undialled_enter.
  - unfold connect_prepare. destruct (calls m !! i) as [c|] eqn:Ei; [|done].
    destruct (ca_phase c) eqn:Ep; try done.
    destruct r; [by eapply undialled_phase|by eapply undialled_phase|].
    refine (undialled_phase (set_heap _ m) i c _ Ei U _). by rewrite Ep.
  - unfold connect_dialed. destruct (calls m !! i) as [c|] eqn:Ei; [|done].
    destruct (ca_phase c) as [|o| | |] eqn:Ep; try done. destruct r.
    + destruct (done_ m o); [by refine (undialled_phase (on_heap o disconnect m) i c _ Ei U _)|].
      eapply undialled_phase; [done..|]. by rewrite Ep.
    + by refine (undialled_phase (on_heap o cancel m) i c _ Ei U _).
    + by refine (undialled_phase (on_heap o cancel m) i c _ Ei U _).
  - by apply undialled_insert.
  - unfold connect_return. destruct (calls m !! i) as [c|] eqn:Ei; [|done].
    destruct (ca_phase c) as [|o|o|o|[o|] r] eqn:Ep; try done; try destruct acked;
      intros j d Hd; cbn in Hd; apply lookup_delete_Some in Hd as [_ Hd]; by apply (U j).
  - unfold Disconnect. destruct (conns m !! key) eqn:Ek; [|done]. by apply (undialled_delete key).
  - unfold close. by case_bool_decide.
  - unfold DisconnectAll. destruct (stopSnap m); [done|]. by intros j d Hd _.
  - unfold handle_error. by case_bool_decide.
  - unfold handle_remove. case_bool_decide; [|done]. destruct (heap m !! o); [|done].
    by apply (undialled_delete (ac_key a)).
  - unfold handle_done. by destruct (_ && _).
  - done.
  - done.
  - unfold connect_failed. by case_match.
Qed.

(** Connecting to a key that is connected, or being connected, does nothing. *)
Lemma enter_taken ch b m : is_Some (conns m !! key_of ch) \/ key_of ch ∈ connecting m ->
  (connect_enter ch b m).1 = m.
Proof.
  intros H. unfold connect_enter. destruct (negb _); [done|]. destruct b; [done|]. cbv zeta.
  destruct H as [H|H]; rewrite (bool_decide_true _ H); [done|]. by rewrite orb_true_r.
Qed.

Lemma all_invariants l m : base m -> within m ->
  base (perform_all l m) /\ within (perform_all l m) /\ maxConn (perform_all l m) = maxConn m /\
  collectionChannel (perform_all l m) = collectionChannel m /\
  (undialled m -> undialled (perform_all l m)) /\
  (timely_all l m = true -> owned m -> owned (perform_all l m)).
Proof.
  revert m; induction l as [|x l IH]; intros m B W; simpl; [auto 10|].
  destruct (IH (perform x m)) as (H1 & H2 & H3 & H4 & H5 & H6);
    [by apply perform_base|by apply perform_within|].
  destruct (perform_settings x m) as [E1 E2]. rewrite E1 in H3. rewrite E2 in H4.
  split_and!; try done; [intros U; by apply H5, perform_undialled|].
  intros Ht Ho. b2p. apply H6; [done|]. by apply perform_owned.
Qed.

(** C40: whatever connects, disconnects, failures, renewals that fail,
    reconciliations and shutdowns a worker's manager goes through, in any
    order of their critical sections: it never has more connections than its
    bound; the calls in flight are counted, at most one is for each key, and
    none dials a key that has a connection; connecting to a key that has a
    connection or a call changes nothing, so that no second connection is
    dialled for it; a key's connection is one to that key's channel, which the
    worker is permitted to collect. As long as an error's teardown removes no
    other connection than its own, every connection ever made is released, or
    is in the map, held by a call, or about to be torn down; and as long as it
    shuts down once it does not panic. *)
Theorem manager_sound channel max l :
  let m := perform_all l (NewManager channel max) in
  (0 < max -> ConnectionCount m <= max) /\
  dialing m = Z.of_nat (size (calls m)) /\
  (forall k, k ∈ connecting m <-> exists i c, calls m !! i = Some c /\ ca_key c = k /\
     forall j d, calls m !! j = Some d -> ca_key d = k -> j = i) /\
  (forall i c, calls m !! i = Some c -> dialling (ca_phase c) = true -> conns m !! ca_key c = None) /\
  (forall ch opted, is_Some (conns m !! key_of ch) \/ key_of ch ∈ connecting m ->
     perform (AConnect ch opted) m = m) /\
  (forall k o, conns m !! k = Some o -> exists a, heap m !! o = Some a /\
     key_of (ac_channel a) = k /\ permits (NewManager channel max) (ac_channel a) = true) /\
  (timely_all l (NewManager channel max) = true -> owned m) /\
  ((shutdowns l <= 1)%nat -> panicked m = false).
Proof.
  intros m.
  destruct (all_invariants l (NewManager channel max) (base_start channel max)
    (within_start channel max)) as (B & W & Em & Ec & U & O).
  change (base m) in B. change (within m) in W. change (maxConn m = max) in Em.
  change (collectionChannel m = channel) in Ec.
  split_and!.
  - intros Hm. unfold within in W. rewrite Em in W. specialize (W Hm). unfold ConnectionCount. lia.
  - apply B.
  - intros k. rewrite (v_marked _ B). split.
    + intros (i & c & Hc & <-). exists i, c. split; [done|]. split; [done|].
      intros j d Hd E. by eapply (v_once _ B).
    + intros (i & c & Hc & Hk & _). eauto.
  - apply U. by intros i c Hc.
  - intros ch b Hk. unfold perform. destruct (panicked _); [done|]. by apply enter_taken.
  - intros k o Hk. destruct (v_conns _ B _ _ Hk) as (a & Ha & E). exists a. split; [done|].
    destruct (v_heap _ B _ _ Ha) as (_ & H1 & H2). split; [congruence|].
    unfold permits in *. by rewrite Ec in H2.
  - intros Ht. apply O; [done|apply owned_start].
  - intros Hs. destruct (panicked m) eqn:Ep; [|done].
    apply panic_needs_two in Ep; [|done]. simpl in Ep. lia.
Qed.

(** ** Two orders that go wrong *)

Module ManagerDemo.
Definition row : live_row := LiveRow PlatformSoop "bj1" "streamer" 10 ChannelStatusLive (Some "w1") 0 0
  None None None None.
Definition ch : channel := (1, row).
Definition key : string := connKey PlatformSoop "bj1".
Definition start : manager := NewManager (Some "bj1"%string) 10.
(** A complete [Connect]: call [i]. *)
Definition connects (i : nat) : list action :=
  [AConnect ch false; APrepare i Prepared; ADialed i DialOk; AInsert i; AReturn i true].
(** The connection fails; while it is torn down the coordinator reconnects
    the channel; then the teardown reaches the map. *)
Definition reconnect_during_teardown : list action :=
  connects 0 ++ [AError 1; ADisconnect key; AClose 1] ++ connects 2 ++ [ARemove 1].
(** The shutdown, and its second attempt when handoffs time out. *)
Definition forced_drain : list action := [ADisconnectAll; ADisconnectAll].
End ManagerDemo.

(** The new connection is up, its grant is kept, and nothing knows it. *)
Example reconnect_loses_connection :
  let m := perform_all ManagerDemo.reconnect_during_teardown ManagerDemo.start in
  conns m = ∅ /\ heap m !! 3%nat = Some (MkConn ManagerDemo.key (without_handoff ManagerDemo.ch) false false false) /\
  calls m = ∅ /\ closing m = ∅ /\ timely_all ManagerDemo.reconnect_during_teardown ManagerDemo.start = false.
Proof. vm_compute. repeat split. Qed.

Example second_shutdown_panics :
  panicked (perform_all ManagerDemo.forced_drain ManagerDemo.start) = true.
Proof. vm_compute. reflexivity. Qed.
